(** * A shallow embedding of the DBMS storage core

    The development follows the C++ sources under [src/Storage]: the bucketed
    free-space manager, the CLOCK replacer, the buffer pool, the slotted page,
    the record model and the table heap.  Machine integers are modelled as [Z]
    with the wrap-around of every narrowing cast written out; pages and tuples
    are lists of bytes; hash maps and hash sets are [gmap] and [gset]. *)

From Stdlib Require Import ZArith Lia List Bool.
From Stdlib Require Import Strings.Byte.
From Stdlib Require Import Sorting.Sorted Sorting.Permutation.
From stdpp Require Import base tactics option list list_numbers sorting gmap fin_maps fin_sets.

Local Open Scope Z_scope.

(** Division and modulo by constants inside [lia]. *)
Ltac Zify.zify_post_hook ::= Z.to_euclidean_division_equations.

(** ** storage_types.h *)

Definition kInvalidPageId : Z := 4294967295.
Definition kPageFormatVersion : Z := 1.
Definition kDefaultPageSize : Z := 8192.

Inductive StatusCode : Set :=
| kOk | kInvalidArgument | kNotFound | kOutOfRange
| kIOError | kCorruption | kUnavailable | kUnknown.

#[global] Instance StatusCode_eq_dec : EqDecision StatusCode.
Proof. solve_decision. Defined.

Definition ok (s : StatusCode) : bool := bool_decide (s = kOk).

(** Narrowing casts. *)
Definition u8  (z : Z) : Z := z mod 256.
Definition u16 (z : Z) : Z := z mod 65536.
Definition u32 (z : Z) : Z := z mod 4294967296.

Record RID := mkRID { page_id : Z; slot : Z }.

#[global] Instance RID_eq_dec : EqDecision RID.
Proof. solve_decision. Defined.

(** ** space/free_space_manager.{h,cc} *)

Module FreeSpaceManager.

  (** [std::unique] after [std::sort]: drop adjacent duplicates. *)
Fixpoint unique (l : list Z) : list Z :=
  match l with
  | [] => []
  | x :: tl =>
      match tl with
      | y :: _ => if decide (x = y) then unique tl else x :: unique tl
      | [] => [x]
      end
  end.

Record t := mk {
  page_size_ : Z;
  thresholds_ : list Z;
  bins_ : list (gset Z);
  pid2bin_ : gmap Z nat;
  pid2free_ : gmap Z Z;
  probe_free_ : option (Z -> Z -> Z);
  probe_count_ : option (Z -> Z)
}.

(** The constructor: thresholds sorted and deduplicated, one more bin than
    thresholds. *)
Definition make (page_size : Z) (thresholds : list Z) : t :=
  let ths := unique (merge_sort Z.le thresholds) in
  {| page_size_ := page_size;
     thresholds_ := ths;
     bins_ := replicate (S (length ths)) ∅;
     pid2bin_ := ∅;
     pid2free_ := ∅;
     probe_free_ := None;
     probe_count_ := None |}.

(** [std::lower_bound] on the sorted thresholds: the position of the first
    threshold that is not less than [free_bytes]. *)
Fixpoint lower_bound (ths : list Z) (v : Z) : nat :=
  match ths with
  | [] => O
  | x :: tl => if x <? v then S (lower_bound tl v) else O
  end.

Definition BinIndex (st : t) (free_bytes : Z) : nat :=
  lower_bound (thresholds_ st) free_bytes.

(** The inner loop of [Find] over the members of one bin. *)
Definition fits (st : t) (need_bytes : Z) (pid : Z) : bool :=
  match pid2free_ st !! pid with
  | Some f => need_bytes <=? f
  | None => false
  end.

Fixpoint find_from (st : t) (need_bytes : Z) (bins : list (gset Z)) : Z :=
  match bins with
  | [] => kInvalidPageId
  | b :: rest =>
      match List.find (fits st need_bytes) (elements b) with
      | Some pid => pid
      | None => find_from st need_bytes rest
      end
  end.

Definition Find (st : t) (need_bytes : Z) : Z :=
  let start := BinIndex st need_bytes in
  find_from st need_bytes (drop start (bins_ st)).

(** [unordered_map::emplace]: an existing entry is kept. *)
Definition emplace {V} (k : Z) (v : V) (m : gmap Z V) : gmap Z V :=
  match m !! k with
  | Some _ => m
  | None => <[k := v]> m
  end.

Definition bin_insert (b : nat) (pid : Z) (bins : list (gset Z)) : list (gset Z) :=
  alter (fun s => s ∪ {[pid]}) b bins.

Definition bin_erase (b : nat) (pid : Z) (bins : list (gset Z)) : list (gset Z) :=
  alter (fun s => s ∖ {[pid]}) b bins.

Definition Update (st : t) (pid : Z) (free_bytes : Z) : t :=
  let new_bin := BinIndex st free_bytes in
  match pid2bin_ st !! pid with
  | Some old_bin =>
      if decide (old_bin = new_bin) then
        {| page_size_ := page_size_ st; thresholds_ := thresholds_ st;
           bins_ := bins_ st;
           pid2bin_ := pid2bin_ st;
           pid2free_ := <[pid := free_bytes]> (pid2free_ st);
           probe_free_ := probe_free_ st; probe_count_ := probe_count_ st |}
      else
        {| page_size_ := page_size_ st; thresholds_ := thresholds_ st;
           bins_ := bin_insert new_bin pid (bin_erase old_bin pid (bins_ st));
           pid2bin_ := <[pid := new_bin]> (pid2bin_ st);
           pid2free_ := <[pid := free_bytes]> (pid2free_ st);
           probe_free_ := probe_free_ st; probe_count_ := probe_count_ st |}
  | None =>
      {| page_size_ := page_size_ st; thresholds_ := thresholds_ st;
         bins_ := bin_insert new_bin pid (bins_ st);
         pid2bin_ := emplace pid new_bin (pid2bin_ st);
         pid2free_ := emplace pid free_bytes (pid2free_ st);
         probe_free_ := probe_free_ st; probe_count_ := probe_count_ st |}
  end.

Definition Remove (st : t) (pid : Z) : t :=
  match pid2bin_ st !! pid with
  | None => st
  | Some bin =>
      {| page_size_ := page_size_ st; thresholds_ := thresholds_ st;
         bins_ := bin_erase bin pid (bins_ st);
         pid2bin_ := delete pid (pid2bin_ st);
         pid2free_ := delete pid (pid2free_ st);
         probe_free_ := probe_free_ st; probe_count_ := probe_count_ st |}
  end.

Definition RegisterSegmentProbe (st : t) (free_probe : Z -> Z -> Z)
    (page_count : Z -> Z) : t :=
  {| page_size_ := page_size_ st; thresholds_ := thresholds_ st;
     bins_ := bins_ st; pid2bin_ := pid2bin_ st; pid2free_ := pid2free_ st;
     probe_free_ := Some free_probe; probe_count_ := Some page_count |}.

(** State after the three [clear] calls of [RebuildFromSegment]. *)
Definition cleared (st : t) : t :=
  {| page_size_ := page_size_ st; thresholds_ := thresholds_ st;
     bins_ := (fun _ => ∅) <$> bins_ st;
     pid2bin_ := ∅; pid2free_ := ∅;
     probe_free_ := probe_free_ st; probe_count_ := probe_count_ st |}.

(** One iteration of the rebuild loop, for the 64-bit counter [i]. *)
Definition rebuild_step (probe : Z -> Z -> Z) (seg : Z) (st : t) (i : Z) : t :=
  let pid := u32 i in
  let free := u16 (probe seg pid) in
  let b := BinIndex st free in
  {| page_size_ := page_size_ st; thresholds_ := thresholds_ st;
     bins_ := bin_insert b pid (bins_ st);
     pid2bin_ := emplace pid b (pid2bin_ st);
     pid2free_ := emplace pid free (pid2free_ st);
     probe_free_ := probe_free_ st; probe_count_ := probe_count_ st |}.

Definition RebuildFromSegment (st : t) (seg : Z) : StatusCode * t :=
  match probe_free_ st, probe_count_ st with
  | Some probe, Some count =>
      let pages := count seg in
      (kOk, fold_left (rebuild_step probe seg) (seqZ 0 pages) (cleared st))
  | _, _ => (kUnavailable, st)
  end.

Definition BinSizes (st : t) : list nat := (fun s : gset Z => size s) <$> bins_ st.
Definition BinThresholds (st : t) : list Z := thresholds_ st.
Definition TotalTrackedPages (st : t) : nat := size (pid2bin_ st).

End FreeSpaceManager.

(** *** Specification vocabulary for the free-space manager *)

(** The bin of the header comment and of the specification: bin [i] covers
    [t_(i-1) <= free < t_i], so the bin of [free] is the number of thresholds
    that are less than or equal to it. *)
Fixpoint documented_bin (ths : list Z) (v : Z) : nat :=
  match ths with
  | [] => O
  | x :: tl => if x <=? v then S (documented_bin tl v) else O
  end.

(** States reachable through the public interface. *)
Inductive fsm_reachable : FreeSpaceManager.t -> Prop :=
| fsm_reach_make page_size ths :
    fsm_reachable (FreeSpaceManager.make page_size ths)
| fsm_reach_probe st fp pc :
    fsm_reachable st -> fsm_reachable (FreeSpaceManager.RegisterSegmentProbe st fp pc)
| fsm_reach_update st pid free :
    fsm_reachable st -> fsm_reachable (FreeSpaceManager.Update st pid free)
| fsm_reach_remove st pid :
    fsm_reachable st -> fsm_reachable (FreeSpaceManager.Remove st pid)
| fsm_reach_rebuild st seg :
    fsm_reachable st -> fsm_reachable (snd (FreeSpaceManager.RebuildFromSegment st seg)).

(** The three structures agree: every tracked page sits in the bin of its
    recorded free size. *)
Definition fsm_inv (st : FreeSpaceManager.t) : Prop :=
  length (FreeSpaceManager.bins_ st) = S (length (FreeSpaceManager.thresholds_ st)) /\
  (forall pid, FreeSpaceManager.pid2bin_ st !! pid = None <->
               FreeSpaceManager.pid2free_ st !! pid = None) /\
  (forall pid f, FreeSpaceManager.pid2free_ st !! pid = Some f ->
     FreeSpaceManager.pid2bin_ st !! pid = Some (FreeSpaceManager.BinIndex st f) /\
     exists s, FreeSpaceManager.bins_ st !! FreeSpaceManager.BinIndex st f = Some s /\ pid ∈ s).

(** ** buffer/clock_replacer.{h,cc} *)

Module ClockReplacer.

Record t := mk {
  present_ : list bool;
  ref_ : list bool;
  hand_ : Z;
  cap_ : Z
}.

Definition make (capacity : Z) : t :=
  {| present_ := replicate (Z.to_nat capacity) false;
     ref_ := replicate (Z.to_nat capacity) false;
     hand_ := 0;
     cap_ := capacity |}.

Definition at_ (v : list bool) (i : Z) : bool := v !!! Z.to_nat i.
Definition set_ (v : list bool) (i : Z) (b : bool) : list bool := <[Z.to_nat i := b]> v.

Definition Pin (st : t) (fid : Z) : t :=
  if (fid <? 0) || (cap_ st <=? fid) then st
  else {| present_ := set_ (present_ st) fid false;
          ref_ := set_ (ref_ st) fid false;
          hand_ := hand_ st; cap_ := cap_ st |}.

Definition Unpin (st : t) (fid : Z) : t :=
  if (fid <? 0) || (cap_ st <=? fid) then st
  else {| present_ := set_ (present_ st) fid true;
          ref_ := set_ (ref_ st) fid true;
          hand_ := hand_ st; cap_ := cap_ st |}.

(** The sweep of [Victim]; [fuel] is [limit - scanned]. *)
Fixpoint sweep (fuel : nat) (st : t) : option Z * t :=
  match fuel with
  | O => (None, st)
  | S fuel' =>
      let h := hand_ st in
      let next := (h + 1) mod cap_ st in
      if at_ (present_ st) h then
        if negb (at_ (ref_ st) h) then
          (Some h,
           {| present_ := set_ (present_ st) h false;
              ref_ := set_ (ref_ st) h false;
              hand_ := next; cap_ := cap_ st |})
        else
          sweep fuel'
            {| present_ := present_ st;
               ref_ := set_ (ref_ st) h false;
               hand_ := next; cap_ := cap_ st |}
      else
        sweep fuel'
          {| present_ := present_ st; ref_ := ref_ st;
             hand_ := next; cap_ := cap_ st |}
  end.

Definition Victim (st : t) : option Z * t :=
  if cap_ st =? 0 then (None, st)
  else sweep (Z.to_nat (cap_ st * 2)) st.

Fixpoint count_present (v : list bool) : Z :=
  match v with
  | [] => 0
  | b :: tl => (if b then 1 else 0) + count_present tl
  end.

Definition Size (st : t) : Z := count_present (take (Z.to_nat (cap_ st)) (present_ st)).

End ClockReplacer.

(** Three frames, all candidates, all reference bits set, hand at [h]. *)
Definition clock3 (h : Z) : ClockReplacer.t :=
  {| ClockReplacer.present_ := [true; true; true];
     ClockReplacer.ref_ := [true; true; true];
     ClockReplacer.hand_ := h; ClockReplacer.cap_ := 3 |}.

(** ** Byte buffers

    A page or a tuple is a [list byte].  Addresses and lengths are [Z], as the
    integer expressions of the source compute them.  A write that would leave
    the buffer (undefined behaviour in the source) leaves it unchanged. *)

#[global] Instance byte_eq_dec : EqDecision byte := Byte.byte_eq_dec.

Definition byte_of_Z (z : Z) : byte :=
  match Byte.of_N (Z.to_N (z mod 256)) with
  | Some b => b
  | None => x00
  end.

Definition Z_of_byte (b : byte) : Z := Z.of_N (Byte.to_N b).

Definition load8 (m : list byte) (a : Z) : byte := nth (Z.to_nat a) m x00.

(** The [len] bytes at address [a]. *)
Definition sub (m : list byte) (a len : Z) : list byte :=
  take (Z.to_nat len) (drop (Z.to_nat a) m).

(** [memcpy(m + a, bs, |bs|)]. *)
Definition store (m : list byte) (a : Z) (bs : list byte) : list byte :=
  if decide (0 <= a /\ a + Z.of_nat (length bs) <= Z.of_nat (length m)) then
    take (Z.to_nat a) m ++ bs ++ drop (Z.to_nat a + length bs) m
  else m.

(** [memmove(m + dst, m + src, len)]: the source bytes are read first. *)
Definition memmove (m : list byte) (dst src len : Z) : list byte :=
  store m dst (sub m src len).

(** [memset(m, 0, n)]. *)
Definition memset0 (m : list byte) (n : Z) : list byte :=
  store m 0 (replicate (Z.to_nat n) x00).

(** Little-endian integers. *)
Fixpoint le_bytes (n : nat) (v : Z) : list byte :=
  match n with
  | O => []
  | S k => byte_of_Z v :: le_bytes k (v / 256)
  end.

Fixpoint le_value (bs : list byte) : Z :=
  match bs with
  | [] => 0
  | b :: tl => Z_of_byte b + 256 * le_value tl
  end.

Definition load16 (m : list byte) (a : Z) : Z :=
  Z_of_byte (load8 m a) + 256 * Z_of_byte (load8 m (a + 1)).

Definition store16 (m : list byte) (a : Z) (v : Z) : list byte :=
  store m a [byte_of_Z v; byte_of_Z (v / 256)].

Definition load32 (m : list byte) (a : Z) : Z := le_value (sub m a 4).
Definition store32 (m : list byte) (a : Z) (v : Z) : list byte := store m a (le_bytes 4 v).
Definition load64 (m : list byte) (a : Z) : Z := le_value (sub m a 8).
Definition store64 (m : list byte) (a : Z) (v : Z) : list byte := store m a (le_bytes 8 v).

(** ** page/page.h: the header at the start of every page

    [PageHeader] is read and written through a [reinterpret_cast] of the page
    bytes.  With the natural alignment of the target (x86-64) its fields lie
    at the byte offsets below and [sizeof(PageHeader)] is 32. *)

Module PageHeader.

Definition sizeof : Z := 32.
Definition off_page_id : Z := 0.
Definition off_page_lsn : Z := 8.
Definition off_slot_count : Z := 16.
Definition off_free_off : Z := 18.
Definition off_free_size : Z := 20.
Definition off_checksum : Z := 24.
Definition off_format_version : Z := 28.

Definition page_id (m : list byte) : Z := load32 m off_page_id.
Definition page_lsn (m : list byte) : Z := load64 m off_page_lsn.
Definition slot_count (m : list byte) : Z := load16 m off_slot_count.
Definition free_off (m : list byte) : Z := load16 m off_free_off.
Definition free_size (m : list byte) : Z := load16 m off_free_size.
Definition checksum (m : list byte) : Z := load32 m off_checksum.
Definition format_version (m : list byte) : Z := load32 m off_format_version.

Definition set_slot_count (m : list byte) (v : Z) : list byte := store16 m off_slot_count v.
Definition set_free_off (m : list byte) (v : Z) : list byte := store16 m off_free_off v.
Definition set_free_size (m : list byte) (v : Z) : list byte := store16 m off_free_size v.

End PageHeader.

(** ** page/slotted_page.cc *)

Module SlottedPage.

(** [struct Slot { uint16_t off; uint16_t len; }] *)
Definition sizeof_Slot : Z := 4.

(** Address of directory entry [slot_id], from the page end downwards. *)
Definition SlotAt (page_size slot_id : Z) : Z :=
  page_size - (slot_id + 1) * sizeof_Slot.

Definition slot_off (page_size : Z) (m : list byte) (i : Z) : Z :=
  load16 m (SlotAt page_size i).
Definition slot_len (page_size : Z) (m : list byte) (i : Z) : Z :=
  load16 m (SlotAt page_size i + 2).
Definition set_slot_off (page_size : Z) (m : list byte) (i v : Z) : list byte :=
  store16 m (SlotAt page_size i) v.
Definition set_slot_len (page_size : Z) (m : list byte) (i v : Z) : list byte :=
  store16 m (SlotAt page_size i + 2) v.

Definition InitNew (page : list byte) (pid : Z) (page_size : Z) : list byte :=
  let m := memset0 page page_size in
  let m := store32 m PageHeader.off_page_id pid in
  let m := store64 m PageHeader.off_page_lsn 0 in
  let m := PageHeader.set_slot_count m 0 in
  let m := PageHeader.set_free_off m (u16 PageHeader.sizeof) in
  let m := PageHeader.set_free_size m (u16 (page_size - PageHeader.sizeof)) in
  let m := store32 m PageHeader.off_checksum 0 in
  store32 m PageHeader.off_format_version kPageFormatVersion.

(** [struct Live { uint16_t off, slot, len; }] of [Compact]. *)
Record Live := mkLive { l_off : Z; l_slot : Z; l_len : Z }.

Definition live_le (a b : Live) : Prop := l_off a <= l_off b.

#[global] Instance live_le_dec : RelDecision live_le.
Proof. intros a b. unfold live_le. apply _. Defined.

(** The collection loop of [Compact]. *)
Definition lives (page_size : Z) (m : list byte) (n : Z) : list Live :=
  flat_map
    (fun i => if slot_len page_size m i =? 0 then []
              else [mkLive (slot_off page_size m i) i (slot_len page_size m i)])
    (seqZ 0 n).

(** One iteration of the move loop of [Compact]. *)
Definition compact_step (page_size : Z) (st : list byte * Z) (e : Live) : list byte * Z :=
  let '(m, cur) := st in
  if (l_off e <? PageHeader.sizeof) || (page_size <? l_off e + l_len e) then (m, cur)
  else
    let m1 := memmove m cur (l_off e) (l_len e) in
    let m2 := set_slot_off page_size m1 (l_slot e) cur in
    (m2, u16 (cur + l_len e)).

(** [std::sort] by ascending offset is any sort for the comparator; entries
    with equal offsets may come out in either order. *)
Definition Compact (page_size : Z) (m : list byte) : list byte :=
  let n := PageHeader.slot_count m in
  let sorted := merge_sort live_le (lives page_size m n) in
  let '(m1, cur) := fold_left (compact_step page_size) sorted (m, u16 PageHeader.sizeof) in
  let m2 := PageHeader.set_free_off m1 cur in
  let dir_bytes := u32 (n * sizeof_Slot) in
  PageHeader.set_free_size m2 (u16 (u32 (page_size - cur - dir_bytes))).

(** The tombstone search of [Insert], from slot [i], [fuel] slots to go. *)
Fixpoint first_tombstone (page_size : Z) (m : list byte) (i : Z) (fuel : nat) : option Z :=
  match fuel with
  | O => None
  | S fuel' =>
      if slot_len page_size m i =? 0 then Some i
      else first_tombstone page_size m (i + 1) fuel'
  end.

(** Steps 3 and 4 of [Insert]: copy the record and fill the slot. *)
Definition place (page_size : Z) (m : list byte) (rec : list byte) (len : Z)
    (tomb : option Z) : Z * list byte :=
  let m1 := store m (PageHeader.free_off m) (take (Z.to_nat len) rec) in
  let rec_off := PageHeader.free_off m1 in
  let m2 := PageHeader.set_free_off m1 (u16 (PageHeader.free_off m1 + len)) in
  let m3 := PageHeader.set_free_size m2 (u16 (PageHeader.free_size m2 - len)) in
  let '(slot_id, m5) :=
    match tomb with
    | Some free_slot => (free_slot, m3)
    | None =>
        let slot_id := PageHeader.slot_count m3 in
        let m4 := PageHeader.set_slot_count m3 (u16 (PageHeader.slot_count m3 + 1)) in
        (slot_id, PageHeader.set_free_size m4 (u16 (PageHeader.free_size m4 - sizeof_Slot)))
    end in
  let m6 := set_slot_off page_size m5 slot_id rec_off in
  (slot_id, set_slot_len page_size m6 slot_id len).

(** The outcome of one [Insert] call; [ins_compactions] counts the calls to
    [Compact] it made. *)
Record InsertRun := mkInsertRun {
  ins_status : StatusCode;
  ins_slot : option Z;
  ins_page : list byte;
  ins_compactions : nat
}.

(** [rec = None] is a null pointer; [out_slot] is assumed non-null. *)
Definition Insert_run (page_size : Z) (m : list byte) (rec : option (list byte))
    (len : Z) : InsertRun :=
  match rec with
  | None => mkInsertRun kInvalidArgument None m 0
  | Some bytes =>
      if len =? 0 then mkInsertRun kInvalidArgument None m 0
      else
        let tomb := first_tombstone page_size m 0 (Z.to_nat (PageHeader.slot_count m)) in
        let extra_slot_bytes := match tomb with Some _ => 0 | None => u16 sizeof_Slot end in
        let need := u32 (len + extra_slot_bytes) in
        if PageHeader.free_size m <? need then
          let m1 := Compact page_size m in
          if PageHeader.free_size m1 <? need then mkInsertRun kOutOfRange None m1 1
          else
            let '(slot_id, m2) := place page_size m1 bytes len tomb in
            mkInsertRun kOk (Some slot_id) m2 1
        else
          let '(slot_id, m2) := place page_size m bytes len tomb in
          mkInsertRun kOk (Some slot_id) m2 0
  end.

Definition Insert (page_size : Z) (m : list byte) (rec : option (list byte))
    (len : Z) : StatusCode * option Z * list byte :=
  let r := Insert_run page_size m rec len in
  (ins_status r, ins_slot r, ins_page r).

(** [Get] returns the status and the view [(pointer, length)] as the bytes it
    designates. *)
Definition Get (page_size : Z) (m : list byte) (slot : Z) : StatusCode * list byte :=
  if PageHeader.slot_count m <=? slot then (kNotFound, [])
  else if slot_len page_size m slot =? 0 then (kNotFound, [])
  else if (slot_off page_size m slot <? PageHeader.sizeof)
          || (page_size <? slot_off page_size m slot + slot_len page_size m slot)
  then (kCorruption, [])
  else (kOk, sub m (slot_off page_size m slot) (slot_len page_size m slot)).

Definition Update (page_size : Z) (m : list byte) (slot : Z) (rec : option (list byte))
    (len : Z) : StatusCode * list byte :=
  match rec with
  | None => (kInvalidArgument, m)
  | Some bytes =>
      if PageHeader.slot_count m <=? slot then (kNotFound, m)
      else if slot_len page_size m slot =? 0 then (kNotFound, m)
      else if len <=? slot_len page_size m slot then
        let m1 := store m (slot_off page_size m slot) (take (Z.to_nat len) bytes) in
        (kOk, set_slot_len page_size m1 slot len)
      else
        let append (m0 : list byte) :=
          let m1 := store m0 (PageHeader.free_off m0) (take (Z.to_nat len) bytes) in
          let m2 := set_slot_off page_size m1 slot (PageHeader.free_off m1) in
          let m3 := set_slot_len page_size m2 slot len in
          let m4 := PageHeader.set_free_off m3 (u16 (PageHeader.free_off m3 + len)) in
          PageHeader.set_free_size m4 (u16 (PageHeader.free_size m4 - len)) in
        if PageHeader.free_size m <? len then
          let mc := Compact page_size m in
          if PageHeader.free_size mc <? len then (kOutOfRange, mc)
          else (kOk, append mc)
        else (kOk, append m)
  end.

Definition Erase (page_size : Z) (m : list byte) (slot : Z) : StatusCode * list byte :=
  if PageHeader.slot_count m <=? slot then (kNotFound, m)
  else if slot_len page_size m slot =? 0 then (kNotFound, m)
  else (kOk, set_slot_len page_size m slot 0).

Definition FreeSize (m : list byte) : Z := PageHeader.free_size m.
Definition SlotCount (m : list byte) : Z := PageHeader.slot_count m.

End SlottedPage.

(** *** Specification vocabulary for the slotted page *)

(** The page invariant: the header equation, and the live records lie
    between the header and [free_off] without overlapping. *)
Record page_wf (page_size : Z) (m : list byte) : Prop := mk_page_wf {
  wf_page_size : PageHeader.sizeof <= page_size <= 65536;
  wf_length : Z.of_nat (length m) = page_size;
  wf_header :
    PageHeader.free_off m + PageHeader.free_size m
      + PageHeader.slot_count m * SlottedPage.sizeof_Slot = page_size;
  wf_free_off : PageHeader.sizeof <= PageHeader.free_off m;
  wf_live : forall i,
    0 <= i < PageHeader.slot_count m -> SlottedPage.slot_len page_size m i <> 0 ->
    PageHeader.sizeof <= SlottedPage.slot_off page_size m i /\
    SlottedPage.slot_off page_size m i + SlottedPage.slot_len page_size m i
      <= PageHeader.free_off m;
  wf_disjoint : forall i j,
    0 <= i < PageHeader.slot_count m -> 0 <= j < PageHeader.slot_count m -> i <> j ->
    SlottedPage.slot_len page_size m i <> 0 -> SlottedPage.slot_len page_size m j <> 0 ->
    SlottedPage.slot_off page_size m i + SlottedPage.slot_len page_size m i
      <= SlottedPage.slot_off page_size m j \/
    SlottedPage.slot_off page_size m j + SlottedPage.slot_len page_size m j
      <= SlottedPage.slot_off page_size m i
}.

(** Arguments a caller can pass: [len] and [slot] are [uint16_t], and a
    non-null [rec] points at [len] readable bytes at least. *)
Definition rec_arg_ok (rec : option (list byte)) (len : Z) : Prop :=
  0 <= len < 65536 /\
  match rec with Some bytes => len <= Z.of_nat (length bytes) | None => True end.

Definition slot_arg_ok (slot : Z) : Prop := 0 <= slot < 65536.

(** Pages obtained from [InitNew] by any sequence of [Insert], [Update],
    [Erase] and [Compact] calls. *)
Inductive page_reachable (page_size : Z) : list byte -> Prop :=
| reach_InitNew buf pid :
    Z.of_nat (length buf) = page_size ->
    page_reachable page_size (SlottedPage.InitNew buf pid page_size)
| reach_Insert m rec len :
    page_reachable page_size m -> rec_arg_ok rec len ->
    page_reachable page_size (SlottedPage.ins_page (SlottedPage.Insert_run page_size m rec len))
| reach_Update m slot rec len :
    page_reachable page_size m -> slot_arg_ok slot -> rec_arg_ok rec len ->
    page_reachable page_size (snd (SlottedPage.Update page_size m slot rec len))
| reach_Erase m slot :
    page_reachable page_size m -> slot_arg_ok slot ->
    page_reachable page_size (snd (SlottedPage.Erase page_size m slot))
| reach_Compact m :
    page_reachable page_size m ->
    page_reachable page_size (SlottedPage.Compact page_size m).

(** The header equation and bound of the specification. *)
Definition header_invariant (page_size : Z) (m : list byte) : Prop :=
  PageHeader.free_off m + PageHeader.free_size m
    + PageHeader.slot_count m * SlottedPage.sizeof_Slot = page_size /\
  PageHeader.sizeof <= PageHeader.free_off m.

(** A slot is live when it is inside the directory and its length is not 0. *)
Definition live_slot (page_size : Z) (m : list byte) (i : Z) : Prop :=
  0 <= i < PageHeader.slot_count m /\ SlottedPage.slot_len page_size m i <> 0.

(** The record of a slot, as a reader sees it: [None] for a tombstone. *)
Definition record_at (page_size : Z) (m : list byte) (i : Z) : option (list byte) :=
  if SlottedPage.slot_len page_size m i =? 0 then None
  else Some (sub m (SlottedPage.slot_off page_size m i) (SlottedPage.slot_len page_size m i)).

(** The logical content of a page: one entry per directory slot. *)
Definition records (page_size : Z) (m : list byte) : list (option (list byte)) :=
  record_at page_size m <$> seqZ 0 (PageHeader.slot_count m).

(** *** Vocabulary for the move loop of [Compact] *)

(** A collected entry describes a live slot of the page [m] under
    compaction, whose record lies in the record area below [fo]. *)
Definition entry_ok (page_size : Z) (m : list byte) (n fo : Z) (e : SlottedPage.Live) : Prop :=
  0 <= SlottedPage.l_slot e < n /\
  SlottedPage.l_len e = SlottedPage.slot_len page_size m (SlottedPage.l_slot e) /\
  SlottedPage.l_len e <> 0 /\
  SlottedPage.l_off e = SlottedPage.slot_off page_size m (SlottedPage.l_slot e) /\
  PageHeader.sizeof <= SlottedPage.l_off e /\
  SlottedPage.l_off e + SlottedPage.l_len e <= fo.

(** The record of entry [e] has been moved below [cur] in [q]. *)
Definition moved (page_size : Z) (m q : list byte) (cur : Z) (e : SlottedPage.Live) : Prop :=
  PageHeader.sizeof <= SlottedPage.slot_off page_size q (SlottedPage.l_slot e) /\
  SlottedPage.slot_off page_size q (SlottedPage.l_slot e) + SlottedPage.l_len e <= cur /\
  forall k, 0 <= k < SlottedPage.l_len e ->
    load8 q (SlottedPage.slot_off page_size q (SlottedPage.l_slot e) + k)
    = load8 m (SlottedPage.l_off e + k).

(** Loop invariant: [q] is the page after the entries [done] were moved. *)
Record compact_state (page_size : Z) (m : list byte) (n fo : Z)
    (q : list byte) (cur : Z) (done : list SlottedPage.Live) : Prop := mk_compact_state {
  cs_length : length q = length m;
  cs_cur : PageHeader.sizeof <= cur <= fo;
  cs_header : forall x, 0 <= x < PageHeader.sizeof -> load8 q x = load8 m x;
  cs_lens : forall i, 0 <= i < n ->
    SlottedPage.slot_len page_size q i = SlottedPage.slot_len page_size m i;
  cs_rest : forall x, cur <= x < page_size - n * SlottedPage.sizeof_Slot ->
    load8 q x = load8 m x;
  cs_moved : forall e, e ∈ done -> moved page_size m q cur e;
  cs_disj : forall a b, a ∈ done -> b ∈ done ->
    SlottedPage.l_slot a <> SlottedPage.l_slot b ->
    SlottedPage.slot_off page_size q (SlottedPage.l_slot a) + SlottedPage.l_len a
      <= SlottedPage.slot_off page_size q (SlottedPage.l_slot b) \/
    SlottedPage.slot_off page_size q (SlottedPage.l_slot b) + SlottedPage.l_len b
      <= SlottedPage.slot_off page_size q (SlottedPage.l_slot a)
}.

(** Consecutive sorted entries do not overlap. *)
Definition live_before (a b : SlottedPage.Live) : Prop :=
  SlottedPage.l_off a + SlottedPage.l_len a <= SlottedPage.l_off b.

(** [t] is the lowest-indexed tombstone of the directory. *)
Definition lowest_tombstone (page_size : Z) (m : list byte) (t : Z) : Prop :=
  0 <= t < PageHeader.slot_count m /\ SlottedPage.slot_len page_size m t = 0 /\
  forall j, 0 <= j < t -> SlottedPage.slot_len page_size m j <> 0.

Definition no_tombstone (page_size : Z) (m : list byte) : Prop :=
  forall j, 0 <= j < PageHeader.slot_count m -> SlottedPage.slot_len page_size m j <> 0.

(** A small page used to exercise the statements: 64 bytes, two records
    inserted, the first one erased. *)
Definition demo_page : list byte :=
  let p0 := SlottedPage.InitNew (replicate 64 x00) 7 64 in
  let p1 := SlottedPage.ins_page (SlottedPage.Insert_run 64 p0 (Some [x01; x02; x03]) 3) in
  let p2 := SlottedPage.ins_page (SlottedPage.Insert_run 64 p1 (Some [x04; x05]) 2) in
  snd (SlottedPage.Erase 64 p2 0).

(** A page of 65567 bytes, a size the 16-bit header fields cannot describe:
    a record of 65520 bytes is inserted, then one of 7 bytes. *)
Definition demo_big_page : list byte :=
  let p0 := SlottedPage.InitNew (replicate (Z.to_nat 65567) x00) 0 65567 in
  let p1 := SlottedPage.ins_page
              (SlottedPage.Insert_run 65567 p0
                 (Some (replicate (Z.to_nat 65520) x01)) 65520) in
  SlottedPage.ins_page
    (SlottedPage.Insert_run 65567 p1 (Some [x01; x00; x21; x00; x0b; x00; x00]) 7).

(** ** io/disk_manager_posix.cc: [File] and [DiskManager]

    The file is its byte contents.  The outcome of the system calls is part
    of the state: [write_error] (resp. [read_error]) says that [pwrite] and
    [ftruncate] (resp. [pread]) fail with an error other than [EINTR]. *)

Module DiskManager.

Record t := mk {
  page_size_ : Z;
  file_ : list byte;
  write_error : bool;
  read_error : bool
}.

Definition make (page_size : Z) : t :=
  {| page_size_ := if page_size <? PageHeader.sizeof then kDefaultPageSize else page_size;
     file_ := []; write_error := false; read_error := false |}.

Definition SizeBytes (d : t) : Z := Z.of_nat (length (file_ d)).

(** [File::Resize]: [ftruncate] cuts the file or extends it with zero bytes. *)
Definition Resize (d : t) (new_size : Z) : StatusCode * t :=
  if write_error d then (kIOError, d)
  else
    let n := Z.to_nat new_size in
    (kOk, {| page_size_ := page_size_ d;
             file_ := take n (file_ d) ++ replicate (n - length (file_ d)) x00;
             write_error := write_error d; read_error := read_error d |}).

Definition WriteAt (d : t) (buf : list byte) (offset : Z) : StatusCode * t :=
  if write_error d then (kIOError, d)
  else (kOk, {| page_size_ := page_size_ d;
                file_ := store (file_ d) offset buf;
                write_error := write_error d; read_error := read_error d |}).

Definition ReadAt (d : t) (n offset : Z) : StatusCode * list byte :=
  if SizeBytes d <? offset + n then (kNotFound, [])
  else if read_error d then (kIOError, [])
  else (kOk, sub (file_ d) offset n).

Definition EnsureCapacityFor (d : t) (pid : Z) : StatusCode * t :=
  let need := (pid + 1) * page_size_ d in
  if need <=? SizeBytes d then (kOk, d) else Resize d need.

Definition ReadPage (d : t) (pid : Z) : StatusCode * list byte :=
  ReadAt d (page_size_ d) (pid * page_size_ d).

(** The buffer [in_buf] holds [page_size_] bytes. *)
Definition WritePage (d : t) (pid : Z) (in_buf : list byte) : StatusCode * t :=
  let '(s, d1) := EnsureCapacityFor d pid in
  if ok s then WriteAt d1 (take (Z.to_nat (page_size_ d)) in_buf) (pid * page_size_ d)
  else (s, d1).

Definition PageCount (d : t) : Z := SizeBytes d / page_size_ d.

Definition ResizeToPages (d : t) (new_page_count : Z) : StatusCode * t :=
  Resize d (new_page_count * page_size_ d).

End DiskManager.

(** ** buffer/replacer.h: the replacement policy interface *)

Class IReplacer (R : Type) := {
  rPin : R -> Z -> R;
  rUnpin : R -> Z -> R;
  rVictim : R -> option Z * R;
  rSize : R -> Z
}.

#[global] Instance ClockReplacer_IReplacer : IReplacer ClockReplacer.t := {
  rPin := ClockReplacer.Pin;
  rUnpin := ClockReplacer.Unpin;
  rVictim := ClockReplacer.Victim;
  rSize := ClockReplacer.Size
}.

(** ** buffer/frame.h, buffer/page_table.h, buffer/buffer_pool_manager.cc

    A frame's [data] pointer is modelled by the page bytes it points at.  The
    [disk] pointer of the pool is passed to each operation together with the
    disk manager it points at ([None] for a null pointer), since the segment
    manager owns and also uses that object. *)

Module BufferPoolManager.

Record Frame := mkFrame {
  f_page_id : Z;
  pin_count : Z;
  dirty : bool;
  data : list byte
}.

Record BufferStats := mkStats { hits : Z; misses : Z; evictions : Z; flushes : Z }.

Section Pool.
Context {R : Type} `{IReplacer R}.

Record Impl := mkImpl {
  frames : list Frame;
  table : gmap Z Z;
  free_list : list Z;
  num_frames : Z;
  page_size : Z;
  replacer : R;
  stats : BufferStats;
  (** whether a flush callback is registered, and the calls it received *)
  flush_cb : bool;
  flush_cb_calls : list (Z * Z)
}.

Definition empty_frame (page_size : Z) : Frame :=
  mkFrame kInvalidPageId 0 false (replicate (Z.to_nat page_size) x00).

Definition make (num_frames page_size : Z) (r : R) : Impl :=
  {| frames := replicate (Z.to_nat num_frames) (empty_frame page_size);
     table := ∅;
     free_list := seqZ 0 num_frames;
     num_frames := num_frames;
     page_size := page_size;
     replacer := r;
     stats := mkStats 0 0 0 0;
     flush_cb := false;
     flush_cb_calls := [] |}.

Definition frame_at (p : Impl) (fid : Z) : Frame :=
  default (empty_frame (page_size p)) (frames p !! Z.to_nat fid).

Definition set_frame (p : Impl) (fid : Z) (f : Frame) : Impl :=
  {| frames := <[Z.to_nat fid := f]> (frames p);
     table := table p; free_list := free_list p; num_frames := num_frames p;
     page_size := page_size p; replacer := replacer p; stats := stats p;
     flush_cb := flush_cb p; flush_cb_calls := flush_cb_calls p |}.

Definition set_table (p : Impl) (t : gmap Z Z) : Impl :=
  {| frames := frames p; table := t; free_list := free_list p;
     num_frames := num_frames p; page_size := page_size p; replacer := replacer p;
     stats := stats p; flush_cb := flush_cb p; flush_cb_calls := flush_cb_calls p |}.

Definition set_free_list (p : Impl) (l : list Z) : Impl :=
  {| frames := frames p; table := table p; free_list := l;
     num_frames := num_frames p; page_size := page_size p; replacer := replacer p;
     stats := stats p; flush_cb := flush_cb p; flush_cb_calls := flush_cb_calls p |}.

Definition set_replacer (p : Impl) (r : R) : Impl :=
  {| frames := frames p; table := table p; free_list := free_list p;
     num_frames := num_frames p; page_size := page_size p; replacer := r;
     stats := stats p; flush_cb := flush_cb p; flush_cb_calls := flush_cb_calls p |}.

Definition set_stats (p : Impl) (s : BufferStats) : Impl :=
  {| frames := frames p; table := table p; free_list := free_list p;
     num_frames := num_frames p; page_size := page_size p; replacer := replacer p;
     stats := s; flush_cb := flush_cb p; flush_cb_calls := flush_cb_calls p |}.

Definition log_flush_cb (p : Impl) (pid lsn : Z) : Impl :=
  {| frames := frames p; table := table p; free_list := free_list p;
     num_frames := num_frames p; page_size := page_size p; replacer := replacer p;
     stats := stats p; flush_cb := flush_cb p;
     flush_cb_calls := flush_cb_calls p ++ [(pid, lsn)] |}.

Definition count_hit (s : BufferStats) := mkStats (hits s + 1) (misses s) (evictions s) (flushes s).
Definition count_miss (s : BufferStats) := mkStats (hits s) (misses s + 1) (evictions s) (flushes s).
Definition count_eviction (s : BufferStats) := mkStats (hits s) (misses s) (evictions s + 1) (flushes s).
Definition count_flush (s : BufferStats) := mkStats (hits s) (misses s) (evictions s) (flushes s + 1).

Definition LookupFrame (p : Impl) (pid : Z) : Z :=
  match table p !! pid with
  | Some fid => fid
  | None => -1
  end.

Definition FlushFrame (p : Impl) (disk : option DiskManager.t) (fid : Z)
    : bool * Impl * option DiskManager.t :=
  let f := frame_at p fid in
  if negb (dirty f) || (f_page_id f =? kInvalidPageId) then (false, p, disk)
  else
    let p1 := if flush_cb p then log_flush_cb p (f_page_id f) (PageHeader.page_lsn (data f))
              else p in
    match disk with
    | None => (false, p1, None)
    | Some d =>
        let '(s, d1) := DiskManager.WritePage d (f_page_id f) (data f) in
        if ok s then
          (true, set_frame p1 fid (mkFrame (f_page_id f) (pin_count f) false (data f)), Some d1)
        else (false, p1, Some d1)
    end.

(** Returns the frame (or -1), the evicted page id, and the new state. *)
Definition AcquireFrameFor (p : Impl) (disk : option DiskManager.t) (pid : Z)
    : Z * Z * Impl * option DiskManager.t :=
  match free_list p with
  | fid :: rest => (fid, kInvalidPageId, set_free_list p rest, disk)
  | [] =>
      match rVictim (replacer p) with
      | (None, r1) => (-1, kInvalidPageId, set_replacer p r1, disk)
      | (Some victim, r1) =>
          let p1 := set_replacer p r1 in
          if f_page_id (frame_at p1 victim) =? kInvalidPageId then
            (victim, kInvalidPageId, p1, disk)
          else
            let '(flushed, p2, disk2) := FlushFrame p1 disk victim in
            let p3 := if flushed then set_stats p2 (count_flush (stats p2)) else p2 in
            let old := f_page_id (frame_at p3 victim) in
            let p4 := set_table p3 (delete old (table p3)) in
            (victim, old, set_stats p4 (count_eviction (stats p4)), disk2)
      end
  end.

(** [FetchPage] returns the status, the page bytes [*out_data] points at, and
    the new state. *)
Definition FetchPage (p : Impl) (disk : option DiskManager.t) (pid : Z)
    : StatusCode * list byte * Impl * option DiskManager.t :=
  let fid := LookupFrame p pid in
  if 0 <=? fid then
    let f := frame_at p fid in
    let p1 := set_frame p fid (mkFrame (f_page_id f) (pin_count f + 1) (dirty f) (data f)) in
    let p2 := set_replacer p1 (rPin (replacer p1) fid) in
    (kOk, data f, set_stats p2 (count_hit (stats p2)), disk)
  else
    let '(fid, evicted, p1, disk1) := AcquireFrameFor p disk pid in
    if fid <? 0 then (kUnavailable, [], p1, disk1)
    else
      match disk1 with
      | None => (kIOError, [], p1, disk1)
      | Some d =>
          let f := frame_at p1 fid in
          let '(s, bytes) := DiskManager.ReadPage d pid in
          if negb (ok s) then
            let p2 := set_frame p1 fid (mkFrame kInvalidPageId 0 false (data f)) in
            (s, [], set_free_list p2 (fid :: free_list p2), disk1)
          else
            let p2 := set_frame p1 fid (mkFrame pid 1 false bytes) in
            let p3 := set_table p2 (<[pid := fid]> (table p2)) in
            let p4 := set_replacer p3 (rPin (replacer p3) fid) in
            (kOk, bytes, set_stats p4 (count_miss (stats p4)), disk1)
      end.

Definition NewPage (p : Impl) (disk : option DiskManager.t)
    : StatusCode * Z * list byte * Impl * option DiskManager.t :=
  let '(fid, evicted, p1, disk1) := AcquireFrameFor p disk 0 in
  if fid <? 0 then (kUnavailable, 0, [], p1, disk1)
  else
    match disk1 with
    | None => (kIOError, 0, [], p1, disk1)
    | Some d =>
        let pid := u32 (DiskManager.PageCount d) in
        let zero := replicate (Z.to_nat (page_size p1)) x00 in
        let p2 := set_frame p1 fid (mkFrame pid 1 false zero) in
        let p3 := set_table p2 (<[pid := fid]> (table p2)) in
        let p4 := set_replacer p3 (rPin (replacer p3) fid) in
        let '(_, d1) := DiskManager.WritePage d pid zero in
        (kOk, pid, zero, p4, Some d1)
    end.

Definition UnpinFrame (p : Impl) (fid : Z) (is_dirty : bool) : StatusCode * Impl :=
  let f := frame_at p fid in
  if pin_count f <=? 0 then (kInvalidArgument, p)
  else
    let f1 := mkFrame (f_page_id f) (pin_count f - 1) (dirty f || is_dirty) (data f) in
    let p1 := set_frame p fid f1 in
    if pin_count f1 =? 0 then (kOk, set_replacer p1 (rUnpin (replacer p1) fid))
    else (kOk, p1).

Definition UnpinPage (p : Impl) (pid : Z) (is_dirty : bool) : StatusCode * Impl :=
  let fid := LookupFrame p pid in
  if fid <? 0 then (kNotFound, p) else UnpinFrame p fid is_dirty.

Definition FlushPage (p : Impl) (disk : option DiskManager.t) (pid : Z)
    : StatusCode * Impl * option DiskManager.t :=
  let fid := LookupFrame p pid in
  if fid <? 0 then (kNotFound, p, disk)
  else
    let '(flushed, p1, disk1) := FlushFrame p disk fid in
    (kOk, if flushed then set_stats p1 (count_flush (stats p1)) else p1, disk1).

Definition FlushAll (p : Impl) (disk : option DiskManager.t) : Impl * option DiskManager.t :=
  fold_left (fun '(p0, d0) fid => let '(_, p1, d1) := FlushFrame p0 d0 fid in (p1, d1))
    (seqZ 0 (num_frames p)) (p, disk).

Definition GetStats (p : Impl) : BufferStats := stats p.

Definition RegisterFlushCallback (p : Impl) : Impl :=
  {| frames := frames p; table := table p; free_list := free_list p;
     num_frames := num_frames p; page_size := page_size p; replacer := replacer p;
     stats := stats p; flush_cb := true; flush_cb_calls := flush_cb_calls p |}.

(** A caller writing through the pointer returned by [FetchPage]: the bytes
    of the frame that holds [pid] become [bytes]. *)
Definition write_through (p : Impl) (pid : Z) (bytes : list byte) : Impl :=
  let fid := LookupFrame p pid in
  if fid <? 0 then p
  else
    let f := frame_at p fid in
    set_frame p fid (mkFrame (f_page_id f) (pin_count f) (dirty f) bytes).

End Pool.

Arguments Impl R : clear implicits.

End BufferPoolManager.

(** *** A one-frame pool after page 0 was fetched, changed and unpinned dirty *)

Definition demo_disk : DiskManager.t :=
  {| DiskManager.page_size_ := 64;
     DiskManager.file_ := replicate 128 x00;
     DiskManager.write_error := false;
     DiskManager.read_error := false |}.

(** The same disk once its writes fail. *)
Definition demo_disk_failing : DiskManager.t :=
  {| DiskManager.page_size_ := 64;
     DiskManager.file_ := replicate 128 x00;
     DiskManager.write_error := true;
     DiskManager.read_error := false |}.

Definition demo_pool : BufferPoolManager.Impl ClockReplacer.t :=
  let p0 := BufferPoolManager.make 1 64 (ClockReplacer.make 1) in
  let '(_, bytes, p1, _) := BufferPoolManager.FetchPage p0 (Some demo_disk) 0 in
  let p2 := BufferPoolManager.write_through p1 0 (SlottedPage.InitNew bytes 0 64) in
  snd (BufferPoolManager.UnpinPage p2 0 true).

(** *** The contract of a replacement policy

    [rCand r f] says that frame [f] is in the candidate set of [r]; [rOk] is
    the internal consistency of the policy state and [rCap] its capacity. *)

Class ReplacerLaws (R : Type) `{IReplacer R} := {
  rOk : R -> Prop;
  rCap : R -> Z;
  rCand : R -> Z -> Prop;
  rCand_range : forall r f, rOk r -> rCand r f -> 0 <= f < rCap r;
  rPin_laws : forall r f, rOk r ->
    rOk (rPin r f) /\ rCap (rPin r f) = rCap r /\
    forall g, rCand (rPin r f) g <-> rCand r g /\ g <> f;
  rUnpin_laws : forall r f, rOk r -> 0 <= f < rCap r ->
    rOk (rUnpin r f) /\ rCap (rUnpin r f) = rCap r /\
    forall g, rCand (rUnpin r f) g <-> rCand r g \/ g = f;
  rVictim_some : forall r v r', rOk r -> rVictim r = (Some v, r') ->
    rCand r v /\ rOk r' /\ rCap r' = rCap r /\
    forall g, rCand r' g <-> rCand r g /\ g <> v;
  rVictim_none : forall r r', rOk r -> rVictim r = (None, r') ->
    forall g, ~ rCand r g
}.

(** The CLOCK policy: consistency and candidate set. *)
Definition clock_ok (r : ClockReplacer.t) : Prop :=
  Z.of_nat (length (ClockReplacer.present_ r)) = ClockReplacer.cap_ r /\
  Z.of_nat (length (ClockReplacer.ref_ r)) = ClockReplacer.cap_ r /\
  (0 <= ClockReplacer.hand_ r < ClockReplacer.cap_ r \/
   (ClockReplacer.cap_ r = 0 /\ ClockReplacer.hand_ r = 0)).

Definition clock_cand (r : ClockReplacer.t) (f : Z) : Prop :=
  0 <= f < ClockReplacer.cap_ r /\
  ClockReplacer.present_ r !! Z.to_nat f = Some true.

(** Steps of the hand from [h] to [g] on a clock of [cap] frames. *)
Definition clock_dist (cap h g : Z) : Z := if h <=? g then g - h else g - h + cap.

(** ** record/schema.{h,cc} *)

Inductive Type_ : Set := INT32 | INT64 | FLOAT | DOUBLE | CHAR | VARCHAR | DATE.

#[global] Instance Type_eq_dec : EqDecision Type_.
Proof. solve_decision. Defined.

Record Column := mkColumn {
  c_name : list byte;
  c_type : Type_;
  c_len : Z;
  c_nullable : bool
}.

Module Schema.

Definition IsFixedType (t : Type_) : bool :=
  match t with VARCHAR => false | _ => true end.

(** The static [FixedSizeOf(Type, len)]. *)
Definition FixedSizeOfType (t : Type_) (char_or_varchar_len : Z) : Z :=
  match t with
  | INT32 => 4 | INT64 => 8 | FLOAT => 4 | DOUBLE => 8 | DATE => 4
  | CHAR => char_or_varchar_len
  | VARCHAR => 4
  end.

Record t := mk {
  columns_ : list Column;
  use_null_bitmap_ : bool;
  null_bytes_ : Z;
  fixed_area_size_ : Z;
  fixed_offsets_ : list Z;
  fixed_sizes_ : list Z
}.

(** The loop of [BuildLayout]: offsets and sizes of the columns [cols],
    starting at offset [off]; returns the final offset as well. *)
Fixpoint layout (cols : list Column) (off : Z) : list Z * list Z * Z :=
  match cols with
  | [] => ([], [], off)
  | col :: rest =>
      let sz := FixedSizeOfType (c_type col) (c_len col) in
      let '(offs, szs, fin) := layout rest (off + sz) in
      (u32 off :: offs, u32 sz :: szs, fin)
  end.

Definition make (cols : list Column) (use_null_bitmap : bool) : t :=
  let n := Z.of_nat (length cols) in
  let null_bytes := if use_null_bitmap then (n + 7) / 8 else 0 in
  let '(offs, szs, fin) := layout cols null_bytes in
  {| columns_ := cols; use_null_bitmap_ := use_null_bitmap;
     null_bytes_ := null_bytes; fixed_area_size_ := fin;
     fixed_offsets_ := offs; fixed_sizes_ := szs |}.

Definition ColumnCount (s : t) : Z := Z.of_nat (length (columns_ s)).

(** [columns_.at(idx)]; an index out of range makes [at] throw, the model
    then yields a placeholder column. *)
Definition GetColumn (s : t) (idx : Z) : Column :=
  default (mkColumn [] INT32 0 false) (columns_ s !! Z.to_nat idx).

Definition UseNullBitmap (s : t) : bool := use_null_bitmap_ s.
Definition NullBitmapSize (s : t) : Z := null_bytes_ s.
Definition FixedAreaSize (s : t) : Z := fixed_area_size_ s.

Definition IsFixed (s : t) (idx : Z) : bool :=
  IsFixedType (c_type (GetColumn s idx))
  && negb (bool_decide (c_type (GetColumn s idx) = VARCHAR)).

Definition FixedSizeOf (s : t) (idx : Z) : Z :=
  FixedSizeOfType (c_type (GetColumn s idx)) (c_len (GetColumn s idx)).

Definition FixedOffsetOf (s : t) (idx : Z) : Z :=
  default 0 (fixed_offsets_ s !! Z.to_nat idx).

Definition VarCharMaxLen (s : t) (idx : Z) : Z :=
  if bool_decide (c_type (GetColumn s idx) = VARCHAR) then c_len (GetColumn s idx) else 0.

End Schema.

(** ** record/tuple.{h,cc}

    [int32_t] and [int64_t] values are signed integers; [float] and [double]
    values are carried as their 32- and 64-bit object representation, which
    is all that [memcpy] sees. *)

Definition signed (bits : Z) (v : Z) : Z :=
  if v <? 2 ^ (bits - 1) then v else v - 2 ^ bits.

Module Tuple.

Definition t := list byte.

Definition Size (tp : t) : Z := Z.of_nat (length tp).
Definition Empty (tp : t) : bool := bool_decide (tp = []).
(** [Bytes().data()]: the pointer to the bytes of the tuple, null when the
    tuple holds none (its vector has never allocated). *)
Definition Bytes_data (tp : t) : option (list byte) := if Empty tp then None else Some tp.
Definition Serialize (tp : t) : list byte := tp.
Definition Deserialize (src : list byte) (len : Z) : t := take (Z.to_nat len) src.

Definition IsNull (tp : t) (s : Schema.t) (i : Z) : bool :=
  if negb (Schema.UseNullBitmap s) then false
  else
    let byte := i / 8 in
    let bit := i mod 8 in
    if (Schema.NullBitmapSize s =? 0) || (Size tp <? Schema.NullBitmapSize s) then false
    else Z.testbit (Z_of_byte (load8 tp byte)) bit.

(** The bytes of the fixed cell of column [i]. *)
Definition FixedPtr (tp : t) (s : Schema.t) (i : Z) (n : Z) : list byte :=
  sub tp (Schema.FixedOffsetOf s i) n.

Definition get_fixed (ty : Type_) (n : Z) (decode : list byte -> Z)
    (tp : t) (s : Schema.t) (i : Z) : StatusCode * Z :=
  if IsNull tp s i then (kNotFound, 0)
  else if negb (bool_decide (c_type (Schema.GetColumn s i) = ty)) then (kInvalidArgument, 0)
  else (kOk, decode (FixedPtr tp s i n)).

Definition GetInt32 := get_fixed INT32 4 (fun bs => signed 32 (le_value bs)).
Definition GetInt64 := get_fixed INT64 8 (fun bs => signed 64 (le_value bs)).
Definition GetFloat := get_fixed FLOAT 4 le_value.
Definition GetDouble := get_fixed DOUBLE 8 le_value.
Definition GetDate := get_fixed DATE 4 (fun bs => signed 32 (le_value bs)).

(** The loop [while (real > 0 && p[real - 1] == 0) --real]. *)
Fixpoint trimmed_length (p : list byte) (real : nat) : nat :=
  match real with
  | O => O
  | S r => if bool_decide (nth r p x00 = x00) then trimmed_length p r else real
  end.

Definition GetChar (tp : t) (s : Schema.t) (i : Z) : StatusCode * list byte :=
  if IsNull tp s i then (kNotFound, [])
  else if negb (bool_decide (c_type (Schema.GetColumn s i) = CHAR)) then (kInvalidArgument, [])
  else
    let n := Schema.FixedSizeOf s i in
    let p := FixedPtr tp s i n in
    let real := trimmed_length p (Z.to_nat n) in
    (kOk, take real p).

Definition GetVarChar (tp : t) (s : Schema.t) (i : Z) : StatusCode * list byte :=
  if IsNull tp s i then (kNotFound, [])
  else if negb (bool_decide (c_type (Schema.GetColumn s i) = VARCHAR)) then (kInvalidArgument, [])
  else
    let meta := Schema.FixedOffsetOf s i in
    let off := load16 tp meta in
    let len := load16 tp (meta + 2) in
    if Size tp <? off + len then (kCorruption, [])
    else (kOk, sub tp off len).

End Tuple.

Module TupleBuilder.

Record t := mk {
  s_ : Schema.t;
  row_ : list byte;
  var_ : list byte;
  set_ : list bool
}.

Definition make (s : Schema.t) : t :=
  {| s_ := s;
     row_ := replicate (Z.to_nat (Schema.FixedAreaSize s)) x00;
     var_ := [];
     set_ := replicate (length (Schema.columns_ s)) false |}.

Definition mark_set (tb : t) (i : Z) (row : list byte) (var : list byte) : t :=
  {| s_ := s_ tb; row_ := row; var_ := var; set_ := <[Z.to_nat i := true]> (set_ tb) |}.

Definition SetNullBit (tb : t) (i : Z) : list byte :=
  if negb (Schema.UseNullBitmap (s_ tb)) then row_ tb
  else
    let byte := i / 8 in
    let bit := i mod 8 in
    store (row_ tb) byte
      [byte_of_Z (Z.lor (Z_of_byte (load8 (row_ tb) byte)) (u8 (Z.shiftl 1 bit)))].

Definition GetNullBit (tb : t) (i : Z) : bool :=
  if negb (Schema.UseNullBitmap (s_ tb)) then false
  else Z.testbit (Z_of_byte (load8 (row_ tb) (i / 8))) (i mod 8).

Definition WriteFixed (tb : t) (off : Z) (src : list byte) : list byte :=
  store (row_ tb) off src.

Definition WriteVarMeta (tb : t) (fixed_off off len : Z) : list byte :=
  store16 (store16 (row_ tb) fixed_off off) (fixed_off + 2) len.

Definition SetNull (tb : t) (i : Z) : StatusCode * t :=
  if Schema.ColumnCount (s_ tb) <=? i then (kOutOfRange, tb)
  else if negb (c_nullable (Schema.GetColumn (s_ tb) i)) && Schema.UseNullBitmap (s_ tb)
  then (kInvalidArgument, tb)
  else if Schema.UseNullBitmap (s_ tb) then (kOk, mark_set tb i (SetNullBit tb i) (var_ tb))
  else (kInvalidArgument, tb).

Definition set_fixed (ty : Type_) (n : nat) (tb : t) (i : Z) (v : Z) : StatusCode * t :=
  if Schema.ColumnCount (s_ tb) <=? i then (kOutOfRange, tb)
  else if negb (bool_decide (c_type (Schema.GetColumn (s_ tb) i) = ty))
  then (kInvalidArgument, tb)
  else (kOk, mark_set tb i (WriteFixed tb (Schema.FixedOffsetOf (s_ tb) i) (le_bytes n v))
              (var_ tb)).

Definition SetInt32 := set_fixed INT32 4.
Definition SetInt64 := set_fixed INT64 8.
Definition SetFloat := set_fixed FLOAT 4.
Definition SetDouble := set_fixed DOUBLE 8.
Definition SetDate := set_fixed DATE 4.

(** [buf(N, 0)] with the first [min(N, |v|)] bytes of [v] copied in. *)
Definition char_cell (N : Z) (v : list byte) : list byte :=
  let copy := take (Z.to_nat N) v in
  copy ++ replicate (Z.to_nat N - length copy) x00.

Definition SetChar (tb : t) (i : Z) (v : list byte) : StatusCode * t :=
  if Schema.ColumnCount (s_ tb) <=? i then (kOutOfRange, tb)
  else if negb (bool_decide (c_type (Schema.GetColumn (s_ tb) i) = CHAR))
  then (kInvalidArgument, tb)
  else
    let N := Schema.FixedSizeOf (s_ tb) i in
    (kOk, mark_set tb i (WriteFixed tb (Schema.FixedOffsetOf (s_ tb) i) (char_cell N v))
            (var_ tb)).

Definition SetVarChar (tb : t) (i : Z) (v : list byte) : StatusCode * t :=
  if Schema.ColumnCount (s_ tb) <=? i then (kOutOfRange, tb)
  else if negb (bool_decide (c_type (Schema.GetColumn (s_ tb) i) = VARCHAR))
  then (kInvalidArgument, tb)
  else if c_len (Schema.GetColumn (s_ tb) i) <? Z.of_nat (length v) then (kOutOfRange, tb)
  else
    let off := u16 (Schema.FixedAreaSize (s_ tb) + Z.of_nat (length (var_ tb))) in
    let len := u16 (Z.of_nat (length v)) in
    (kOk, mark_set tb i (WriteVarMeta tb (Schema.FixedOffsetOf (s_ tb) i) off len)
            (var_ tb ++ v)).

(** The index of the first column that is not set, if any. *)
Fixpoint first_unset (set : list bool) (i : Z) : option Z :=
  match set with
  | [] => None
  | b :: rest => if b then first_unset rest (i + 1) else Some i
  end.

Definition Build (tb : t) : StatusCode * Tuple.t :=
  match first_unset (set_ tb) 0 with
  | Some _ => (kInvalidArgument, [])
  | None => (kOk, row_ tb ++ var_ tb)
  end.

End TupleBuilder.

(** *** Values and their setters and getters *)

Inductive Value :=
| VInt32 (v : Z) | VInt64 (v : Z) | VFloat (bits : Z) | VDouble (bits : Z)
| VDate (days : Z) | VChar (v : list byte) | VVarChar (v : list byte).

Definition set_value (tb : TupleBuilder.t) (i : Z) (v : Value) : StatusCode * TupleBuilder.t :=
  match v with
  | VInt32 z => TupleBuilder.SetInt32 tb i z
  | VInt64 z => TupleBuilder.SetInt64 tb i z
  | VFloat z => TupleBuilder.SetFloat tb i z
  | VDouble z => TupleBuilder.SetDouble tb i z
  | VDate z => TupleBuilder.SetDate tb i z
  | VChar bs => TupleBuilder.SetChar tb i bs
  | VVarChar bs => TupleBuilder.SetVarChar tb i bs
  end.

(** The getter that belongs to the type of column [i]. *)
Definition get_value (tp : Tuple.t) (s : Schema.t) (i : Z) : StatusCode * Value :=
  match c_type (Schema.GetColumn s i) with
  | INT32 => let '(st, z) := Tuple.GetInt32 tp s i in (st, VInt32 z)
  | INT64 => let '(st, z) := Tuple.GetInt64 tp s i in (st, VInt64 z)
  | FLOAT => let '(st, z) := Tuple.GetFloat tp s i in (st, VFloat z)
  | DOUBLE => let '(st, z) := Tuple.GetDouble tp s i in (st, VDouble z)
  | DATE => let '(st, z) := Tuple.GetDate tp s i in (st, VDate z)
  | CHAR => let '(st, bs) := Tuple.GetChar tp s i in (st, VChar bs)
  | VARCHAR => let '(st, bs) := Tuple.GetVarChar tp s i in (st, VVarChar bs)
  end.

(** A sequence of setter calls; it stops at the first failure. *)
Fixpoint run_sets (tb : TupleBuilder.t) (ops : list (Z * Value)) : StatusCode * TupleBuilder.t :=
  match ops with
  | [] => (kOk, tb)
  | (i, v) :: rest =>
      let '(st, tb1) := set_value tb i v in
      if ok st then run_sets tb1 rest else (st, tb1)
  end.

(** [TupleBuilder(S).set...(V).build()]. *)
Definition build_tuple (s : Schema.t) (ops : list (Z * Value)) : StatusCode * Tuple.t :=
  let '(st, tb) := run_sets (TupleBuilder.make s) ops in
  if ok st then TupleBuilder.Build tb else (st, []).

(** The value [v] is admissible for the column [c]. *)
Definition value_ok (c : Column) (v : Value) : Prop :=
  match v with
  | VInt32 z => c_type c = INT32 /\ - 2 ^ 31 <= z < 2 ^ 31
  | VInt64 z => c_type c = INT64 /\ - 2 ^ 63 <= z < 2 ^ 63
  | VFloat z => c_type c = FLOAT /\ 0 <= z < 2 ^ 32
  | VDouble z => c_type c = DOUBLE /\ 0 <= z < 2 ^ 64
  | VDate z => c_type c = DATE /\ - 2 ^ 31 <= z < 2 ^ 31
  | VChar bs => c_type c = CHAR
  | VVarChar bs => c_type c = VARCHAR /\ Z.of_nat (length bs) <= c_len c
  end.

Definition op_ok (s : Schema.t) (op : Z * Value) : Prop :=
  0 <= fst op < Schema.ColumnCount s /\ value_ok (Schema.GetColumn s (fst op)) (snd op).

(** The value set last for column [i]. *)
Fixpoint last_set (ops : list (Z * Value)) (i : Z) : option Value :=
  match ops with
  | [] => None
  | (j, v) :: rest =>
      match last_set rest i with
      | Some w => Some w
      | None => if decide (j = i) then Some v else None
      end
  end.

(** The bytes appended to the variable area by the calls [ops]. *)
Fixpoint var_bytes (ops : list (Z * Value)) : Z :=
  match ops with
  | [] => 0
  | (_, VVarChar bs) :: rest => Z.of_nat (length bs) + var_bytes rest
  | _ :: rest => var_bytes rest
  end.

(** What the getter returns for a value that was set: [CHAR(N)] is cut or
    zero-padded to [N] bytes and loses its trailing zero bytes. *)
Definition read_back (c : Column) (v : Value) : Value :=
  match v with
  | VChar bs =>
      let cell := TupleBuilder.char_cell (c_len c) bs in
      VChar (take (Tuple.trimmed_length cell (Z.to_nat (c_len c))) cell)
  | _ => v
  end.

(** Column lengths are [uint32_t]. *)
Definition schema_ok (s : Schema.t) : Prop :=
  (exists cols b, s = Schema.make cols b) /\
  Forall (fun c => 0 <= c_len c < 2 ^ 32) (Schema.columns_ s).

(** *** Vocabulary for the builder invariant *)

Definition col_size (c : Column) : Z := Schema.FixedSizeOfType (c_type c) (c_len c).

(** The bytes a setter writes to the fixed cell; a VARCHAR cell holds the
    [(offset, length)] pair instead. *)
Definition fixed_cell (c : Column) (v : Value) : option (list byte) :=
  match v with
  | VInt32 z => Some (le_bytes 4 z)
  | VInt64 z => Some (le_bytes 8 z)
  | VFloat z => Some (le_bytes 4 z)
  | VDouble z => Some (le_bytes 8 z)
  | VDate z => Some (le_bytes 4 z)
  | VChar bs => Some (TupleBuilder.char_cell (c_len c) bs)
  | VVarChar _ => None
  end.

Definition cell_holds (s : Schema.t) (row var : list byte) (i : Z) (v : Value) : Prop :=
  let o := Schema.FixedOffsetOf s i in
  match v with
  | VVarChar bs =>
      exists k, 0 <= k /\
        load16 row o = Schema.FixedAreaSize s + k /\
        load16 row (o + 2) = Z.of_nat (length bs) /\
        k + Z.of_nat (length bs) <= Z.of_nat (length var) /\
        sub var k (Z.of_nat (length bs)) = bs
  | _ =>
      match fixed_cell (Schema.GetColumn s i) v with
      | Some bs => sub row o (Z.of_nat (length bs)) = bs
      | None => False
      end
  end.

(** The builder after setter calls whose last values are [M]. *)
Record tb_inv (s : Schema.t) (tb : TupleBuilder.t) (M : Z -> option Value) : Prop := mk_tb_inv {
  ti_schema : TupleBuilder.s_ tb = s;
  ti_row : Z.of_nat (length (TupleBuilder.row_ tb)) = Schema.FixedAreaSize s;
  ti_set : length (TupleBuilder.set_ tb) = length (Schema.columns_ s);
  ti_null : forall x, 0 <= x < Schema.NullBitmapSize s ->
    load8 (TupleBuilder.row_ tb) x = x00;
  ti_cells : forall i v, M i = Some v ->
    0 <= i < Schema.ColumnCount s /\
    value_ok (Schema.GetColumn s i) v /\
    TupleBuilder.set_ tb !! Z.to_nat i = Some true /\
    cell_holds s (TupleBuilder.row_ tb) (TupleBuilder.var_ tb) i v
}.

Definition var_len (v : Value) : Z :=
  match v with VVarChar bs => Z.of_nat (length bs) | _ => 0 end.

(** The cells of the fixed area: inside it, after the null bitmap, and
    pairwise disjoint. *)
Definition cells_ok (s : Schema.t) : Prop :=
  0 <= Schema.NullBitmapSize s <= Schema.FixedAreaSize s /\
  forall i, 0 <= i < Schema.ColumnCount s ->
    0 <= col_size (Schema.GetColumn s i) /\
    Schema.NullBitmapSize s <= Schema.FixedOffsetOf s i /\
    Schema.FixedOffsetOf s i + col_size (Schema.GetColumn s i) <= Schema.FixedAreaSize s /\
    forall j, 0 <= j < Schema.ColumnCount s -> i <> j ->
      Schema.FixedOffsetOf s i + col_size (Schema.GetColumn s i) <= Schema.FixedOffsetOf s j \/
      Schema.FixedOffsetOf s j + col_size (Schema.GetColumn s j) <= Schema.FixedOffsetOf s i.

Definition upd (M : Z -> option Value) (i : Z) (v : Value) : Z -> option Value :=
  fun j => if decide (j = i) then Some v else M j.

(** The values in force after further calls. *)
Definition extend (M : Z -> option Value) (ops : list (Z * Value)) : Z -> option Value :=
  fun i => match last_set ops i with Some w => Some w | None => M i end.

(** A schema with a null bitmap and the setter calls used as an example. *)
Definition demo_schema : Schema.t :=
  Schema.make
    [mkColumn [] INT32 0 false; mkColumn [] CHAR 5 false;
     mkColumn [] VARCHAR 40 false; mkColumn [] DOUBLE 0 true] true.

Definition demo_ops : list (Z * Value) :=
  [(2, VVarChar [x61; x62; x63]); (0, VInt32 (-42)); (1, VChar [x41; x42]);
   (3, VDouble 12345678901234)].

(** A schema whose tuple can outgrow 16-bit offsets. *)
Definition big_schema : Schema.t := Schema.make [mkColumn [] VARCHAR 70000 false] false.
Definition big_value : list byte := replicate (Z.to_nat 65536) x61.

(** ** segment/segment_manager.cc *)

Module SegmentManager.

Record Segment := mkSegment {
  disk : DiskManager.t;
  free_list : list Z
}.

Record t := mk {
  page_size_ : Z;
  segs_ : gmap Z Segment
}.

Definition make (page_size : Z) : t := {| page_size_ := page_size; segs_ := ∅ |}.

Definition EnsureSegment (sm : t) (seg : Z) : StatusCode * t :=
  match segs_ sm !! seg with
  | Some _ => (kOk, sm)
  | None =>
      (kOk, {| page_size_ := page_size_ sm;
               segs_ := <[seg := mkSegment (DiskManager.make (page_size_ sm)) []]> (segs_ sm) |})
  end.

Definition set_segment (sm : t) (seg : Z) (sg : Segment) : t :=
  {| page_size_ := page_size_ sm; segs_ := <[seg := sg]> (segs_ sm) |}.

(** The free stack is popped at its back; otherwise the file grows by one
    page.  The mutex [mu_] is not modelled: the operations are read as
    sequential code, so an absent segment is created as [AllocatePage]
    intends. *)
Definition AllocatePage (sm : t) (seg : Z) : Z * t :=
  let sm1 := snd (EnsureSegment sm seg) in
  match segs_ sm1 !! seg with
  | None => (kInvalidPageId, sm1)
  | Some sg =>
      match reverse (free_list sg) with
      | pid :: rest_rev => (pid, set_segment sm1 seg (mkSegment (disk sg) (reverse rest_rev)))
      | [] =>
          let count := DiskManager.PageCount (disk sg) in
          let pid := u32 count in
          let '(s, d1) := DiskManager.ResizeToPages (disk sg) (count + 1) in
          if ok s then (pid, set_segment sm1 seg (mkSegment d1 (free_list sg)))
          else (kInvalidPageId, set_segment sm1 seg (mkSegment d1 (free_list sg)))
      end
  end.

Definition FreePage (sm : t) (seg pid : Z) : t :=
  match segs_ sm !! seg with
  | None => sm
  | Some sg => set_segment sm seg (mkSegment (disk sg) (free_list sg ++ [pid]))
  end.

Definition PageCount (sm : t) (seg : Z) : Z :=
  match segs_ sm !! seg with
  | None => 0
  | Some sg => DiskManager.PageCount (disk sg)
  end.

Definition ProbePageFree (sm : t) (seg pid : Z) : Z :=
  match segs_ sm !! seg with
  | None => 0
  | Some sg =>
      let '(s, buf) := DiskManager.ReadPage (disk sg) pid in
      if negb (ok s) then 0
      else if negb (PageHeader.format_version buf =? kPageFormatVersion) then 0
      else PageHeader.free_size buf
  end.

Definition GetDisk (sm : t) (seg : Z) : option DiskManager.t :=
  disk <$> (segs_ sm !! seg).

End SegmentManager.

(** ** table/table_heap.cc and table/table_iterator.cc

    The table heap borrows the buffer pool, the free-space manager and the
    segment manager; the state below holds the three of them.  The pool's
    [disk] pointer designates the disk manager owned by the segment
    [bpm_disk_] of the segment manager. *)

Module TableHeap.

Section Heap.
Context {R : Type} `{IReplacer R}.

Record t := mk {
  seg_id_ : Z;
  page_size_ : Z;
  bpm_ : BufferPoolManager.Impl R;
  bpm_disk_ : Z;
  fsm_ : FreeSpaceManager.t;
  sm_ : SegmentManager.t
}.

Definition set_bpm (h : t) (p : BufferPoolManager.Impl R) : t :=
  {| seg_id_ := seg_id_ h; page_size_ := page_size_ h; bpm_ := p;
     bpm_disk_ := bpm_disk_ h; fsm_ := fsm_ h; sm_ := sm_ h |}.

Definition set_fsm (h : t) (f : FreeSpaceManager.t) : t :=
  {| seg_id_ := seg_id_ h; page_size_ := page_size_ h; bpm_ := bpm_ h;
     bpm_disk_ := bpm_disk_ h; fsm_ := f; sm_ := sm_ h |}.

Definition set_sm (h : t) (s : SegmentManager.t) : t :=
  {| seg_id_ := seg_id_ h; page_size_ := page_size_ h; bpm_ := bpm_ h;
     bpm_disk_ := bpm_disk_ h; fsm_ := fsm_ h; sm_ := s |}.

(** The disk manager behind the pool's [disk] pointer, and its update. *)
Definition pool_disk (h : t) : option DiskManager.t :=
  SegmentManager.GetDisk (sm_ h) (bpm_disk_ h).

Definition put_pool_disk (h : t) (d : option DiskManager.t) : t :=
  match d, SegmentManager.segs_ (sm_ h) !! bpm_disk_ h with
  | Some d1, Some sg =>
      set_sm h (SegmentManager.set_segment (sm_ h) (bpm_disk_ h)
                  (SegmentManager.mkSegment d1 (SegmentManager.free_list sg)))
  | _, _ => h
  end.

(** [bpm_->FetchPage(pid, &data)] *)
Definition fetch (h : t) (pid : Z) : StatusCode * list byte * t :=
  let '(s, bytes, p1, d1) := BufferPoolManager.FetchPage (bpm_ h) (pool_disk h) pid in
  (s, bytes, put_pool_disk (set_bpm h p1) d1).

(** [bpm_->UnpinPage(pid, dirty)]; every caller drops the status. *)
Definition unpin (h : t) (pid : Z) (is_dirty : bool) : t :=
  set_bpm h (snd (BufferPoolManager.UnpinPage (bpm_ h) pid is_dirty)).

(** A page operation applied through the pointer that [FetchPage] returned. *)
Definition write (h : t) (pid : Z) (bytes : list byte) : t :=
  set_bpm h (BufferPoolManager.write_through (bpm_ h) pid bytes).

Definition UpdateFsmForPage (h : t) (pid : Z) (page : list byte) : t :=
  set_fsm h (FreeSpaceManager.Update (fsm_ h) pid (PageHeader.free_size page)).

Definition allocate (h : t) : Z * t :=
  let '(pid, sm1) := SegmentManager.AllocatePage (sm_ h) (seg_id_ h) in
  (pid, set_sm h sm1).

(** The second half of [Insert]: the page [pid] is tried, then a new page.
    The tuple is not empty here ([Insert] has returned otherwise), so its
    data pointer is not null. *)
Definition insert_into (h : t) (pid : Z) (tp : Tuple.t) : StatusCode * option RID * t :=
  let len := u16 (Tuple.Size tp) in
  let '(s, data, h1) := fetch h pid in
  if negb (ok s) then (s, None, h1)
  else
    let '(ins, slot, data1) := SlottedPage.Insert (page_size_ h1) data (Some tp) len in
    let h2 := write h1 pid data1 in
    if negb (ok ins) then
      let h3 := unpin h2 pid false in
      let '(npid, h4) := allocate h3 in
      if npid =? kInvalidPageId then (ins, None, h4)
      else
        let '(s2, ndata, h5) := fetch h4 npid in
        if negb (ok s2) then (kUnavailable, None, h5)
        else
          let ndata1 := SlottedPage.InitNew ndata npid (page_size_ h5) in
          let '(ins2, slot2, ndata2) :=
            SlottedPage.Insert (page_size_ h5) ndata1 (Some tp) len in
          let h6 := write h5 npid ndata2 in
          if negb (ok ins2) then (ins2, None, unpin h6 npid false)
          else
            let h7 := UpdateFsmForPage h6 npid ndata2 in
            (kOk, Some (mkRID npid (default 0 slot2)), unpin h7 npid true)
    else
      let h3 := UpdateFsmForPage h2 pid data1 in
      (kOk, Some (mkRID pid (default 0 slot)), unpin h3 pid true).

Definition Insert (h : t) (tp : Tuple.t) : StatusCode * option RID * t :=
  if Tuple.Empty tp then (kInvalidArgument, None, h)
  else
    let need := u16 (Tuple.Size tp) in
    let pid := FreeSpaceManager.Find (fsm_ h) need in
    if pid =? kInvalidPageId then
      let '(pid1, h1) := allocate h in
      if pid1 =? kInvalidPageId then (kUnavailable, None, h1)
      else
        let '(s, data, h2) := fetch h1 pid1 in
        if negb (ok s) then (s, None, h2)
        else
          let h3 := write h2 pid1 (SlottedPage.InitNew data pid1 (page_size_ h2)) in
          let h4 := unpin h3 pid1 true in
          let '(s2, data2, h5) := fetch h4 pid1 in
          let h6 := if ok s2 then unpin (UpdateFsmForPage h5 pid1 data2) pid1 false
                    else h5 in
          insert_into h6 pid1 tp
    else insert_into h pid tp.

Definition Update (h : t) (rid : RID) (tp : Tuple.t) : StatusCode * t :=
  let '(s, data, h1) := fetch h (page_id rid) in
  if negb (ok s) then (s, h1)
  else
    let '(up, data1) :=
      SlottedPage.Update (page_size_ h1) data (slot rid) (Tuple.Bytes_data tp)
        (u16 (Tuple.Size tp)) in
    let h2 := write h1 (page_id rid) data1 in
    if ok up then
      (kOk, unpin (UpdateFsmForPage h2 (page_id rid) data1) (page_id rid) true)
    else if bool_decide (up = kOutOfRange) then
      let h3 := unpin h2 (page_id rid) false in
      let '(ins, new_rid, h4) := Insert h3 tp in
      if negb (ok ins) then (ins, h4)
      else
        let '(s2, data_old, h5) := fetch h4 (page_id rid) in
        if negb (ok s2) then (kUnavailable, h5)
        else
          let data_old1 := snd (SlottedPage.Erase (page_size_ h5) data_old (slot rid)) in
          let h6 := write h5 (page_id rid) data_old1 in
          (kOk, unpin (UpdateFsmForPage h6 (page_id rid) data_old1) (page_id rid) true)
    else (up, unpin h2 (page_id rid) false).

Definition Erase (h : t) (rid : RID) : StatusCode * t :=
  let '(s, data, h1) := fetch h (page_id rid) in
  if negb (ok s) then (s, h1)
  else
    let '(del, data1) := SlottedPage.Erase (page_size_ h1) data (slot rid) in
    let h2 := write h1 (page_id rid) data1 in
    if ok del then (del, unpin (UpdateFsmForPage h2 (page_id rid) data1) (page_id rid) true)
    else (del, unpin h2 (page_id rid) false).

Definition Get (h : t) (rid : RID) : StatusCode * Tuple.t * t :=
  let '(s, data, h1) := fetch h (page_id rid) in
  if negb (ok s) then (s, [], h1)
  else
    let '(g, bytes) := SlottedPage.Get (page_size_ h1) data (slot rid) in
    if ok g then (kOk, Tuple.Deserialize bytes (Z.of_nat (length bytes)),
                  unpin h1 (page_id rid) false)
    else (g, [], unpin h1 (page_id rid) false).

End Heap.

Arguments t R : clear implicits.

End TableHeap.

Module TableIterator.

Section Iterator.
Context {R : Type} `{IReplacer R}.

Record Row := mkRow { rid : RID; tuple : Tuple.t }.

Record t := mk {
  pid_ : Z;
  slot_ : Z;
  end_ : bool;
  current_ : Row
}.

Definition pages (h : TableHeap.t R) : Z :=
  SegmentManager.PageCount (TableHeap.sm_ h) (TableHeap.seg_id_ h).

(** The slot loop of [SeekFirst] on the fetched page [data]. *)
Fixpoint first_live (page_size : Z) (data : list byte) (s : Z) (fuel : nat)
    : option (Z * Tuple.t) :=
  match fuel with
  | O => None
  | S fuel' =>
      let '(g, bytes) := SlottedPage.Get page_size data s in
      if ok g then Some (s, Tuple.Deserialize bytes (Z.of_nat (length bytes)))
      else first_live page_size data (u16 (s + 1)) fuel'
  end.

(** The page loop of [SeekFirst], from page [p], [fuel] pages to go. *)
Fixpoint seek_from (h : TableHeap.t R) (p : Z) (fuel : nat) : t * TableHeap.t R :=
  match fuel with
  | O => (mk 0 0 true (mkRow (mkRID 0 0) []), h)
  | S fuel' =>
      let '(s, data, h1) := TableHeap.fetch h p in
      if negb (ok s) then seek_from h1 (u32 (p + 1)) fuel'
      else
        let max_slot := PageHeader.slot_count data in
        match first_live (TableHeap.page_size_ h1) data 0 (Z.to_nat max_slot) with
        | Some (sl, tp) =>
            (mk p sl false (mkRow (mkRID p sl) tp), TableHeap.unpin h1 p false)
        | None => seek_from (TableHeap.unpin h1 p false) (u32 (p + 1)) fuel'
        end
  end.

(** [SeekFirst], as run by the constructor. *)
Definition Begin (h : TableHeap.t R) : t * TableHeap.t R :=
  seek_from h 0 (Z.to_nat (pages h)).

Definition LoadAt (h : TableHeap.t R) (pid slot : Z) : option Row * TableHeap.t R :=
  let '(s, data, h1) := TableHeap.fetch h pid in
  if negb (ok s) then (None, h1)
  else if PageHeader.slot_count data <=? slot then (None, TableHeap.unpin h1 pid false)
  else
    let '(g, bytes) := SlottedPage.Get (TableHeap.page_size_ h1) data slot in
    (if ok g then Some (mkRow (mkRID pid slot)
                          (Tuple.Deserialize bytes (Z.of_nat (length bytes))))
     else None,
     TableHeap.unpin h1 pid false).

(** The slot loop of [AdvanceOne] on page [p], from slot [s] below [max_slot]. *)
Fixpoint advance_slots (h : TableHeap.t R) (p s : Z) (fuel : nat)
    : option (Z * Row) * TableHeap.t R :=
  match fuel with
  | O => (None, h)
  | S fuel' =>
      match LoadAt h p s with
      | (Some row, h1) => (Some (s, row), h1)
      | (None, h1) => advance_slots h1 p (u16 (s + 1)) fuel'
      end
  end.

(** The page loop of [AdvanceOne]. *)
Fixpoint advance_pages (h : TableHeap.t R) (p s : Z) (fuel : nat)
    : option (Z * Z * Row) * TableHeap.t R :=
  match fuel with
  | O => (None, h)
  | S fuel' =>
      let '(st, data, h1) := TableHeap.fetch h p in
      if negb (ok st) then advance_pages h1 (u32 (p + 1)) 0 fuel'
      else
        let max_slot := PageHeader.slot_count data in
        let h2 := TableHeap.unpin h1 p false in
        match advance_slots h2 p s (Z.to_nat (max_slot - s)) with
        | (Some (sl, row), h3) => (Some (p, sl, row), h3)
        | (None, h3) => advance_pages h3 (u32 (p + 1)) 0 fuel'
        end
  end.

Definition AdvanceOne (it : t) (h : TableHeap.t R) : option t * TableHeap.t R :=
  let p := pid_ it in
  let s := u16 (slot_ it + 1) in
  match advance_pages h p s (Z.to_nat (pages h - p)) with
  | (Some (p1, s1, row), h1) => (Some (mk p1 s1 false row), h1)
  | (None, h1) => (None, h1)
  end.

(** [operator++] *)
Definition next (it : t) (h : TableHeap.t R) : t * TableHeap.t R :=
  if end_ it then (it, h)
  else
    match AdvanceOne it h with
    | (Some it1, h1) => (it1, h1)
    | (None, h1) => (mk (pid_ it) (slot_ it) true (current_ it), h1)
    end.

(** The scan loop from [Begin()] to [End()] with [operator++], collecting the
    current row of each iteration; at most [fuel] rows. *)
Fixpoint collect (it : t) (h : TableHeap.t R) (fuel : nat) : list Row * TableHeap.t R :=
  match fuel with
  | O => ([], h)
  | S fuel' =>
      if end_ it then ([], h)
      else
        let '(it1, h1) := next it h in
        let '(rows, h2) := collect it1 h1 fuel' in
        (current_ it :: rows, h2)
  end.

Definition scan (h : TableHeap.t R) (fuel : nat) : list Row * TableHeap.t R :=
  let '(it, h1) := Begin h in collect it h1 fuel.

End Iterator.

Arguments t : clear implicits.

End TableIterator.

(** *** Specification vocabulary for the table heap *)

Section HeapSpec.
Context {R : Type} `{ReplacerLaws R}.

(** The page [pid] of the file. *)
Definition disk_page (psz : Z) (d : DiskManager.t) (pid : Z) : list byte :=
  sub (DiskManager.file_ d) (pid * psz) psz.

(** A file of [N] pages whose system calls succeed. *)
Record disk_ok (psz : Z) (d : DiskManager.t) (N : Z) : Prop := {
  dk_page_size : DiskManager.page_size_ d = psz;
  dk_write : DiskManager.write_error d = false;
  dk_read : DiskManager.read_error d = false;
  dk_length : Z.of_nat (length (DiskManager.file_ d)) = N * psz;
  dk_pages : 0 <= N
}.

(** The current bytes of page [pid]: those of its frame when the page is
    resident, those of the file otherwise. *)
Definition pool_page (psz : Z) (p : BufferPoolManager.Impl R) (d : DiskManager.t)
    (pid : Z) : list byte :=
  match BufferPoolManager.table p !! pid with
  | Some fid => BufferPoolManager.data (BufferPoolManager.frame_at p fid)
  | None => disk_page psz d pid
  end.

(** Consistency of the pool: [N] pages exist, the pages below [n] are
    initialised, [pin] is the page pinned (once), if any. *)
Record pool_base (p : BufferPoolManager.Impl R) (N n : Z) (pin : option Z) : Prop := {
  pb_frames : Z.of_nat (length (BufferPoolManager.frames p)) = BufferPoolManager.num_frames p;
  pb_nonempty : 0 < BufferPoolManager.num_frames p;
  pb_table : forall pid fid, BufferPoolManager.table p !! pid = Some fid ->
    0 <= fid < BufferPoolManager.num_frames p /\
    BufferPoolManager.f_page_id (BufferPoolManager.frame_at p fid) = pid /\
    0 <= pid < N /\ (pid < n \/ pin = Some pid) /\
    (fid ∉ BufferPoolManager.free_list p) /\
    BufferPoolManager.pin_count (BufferPoolManager.frame_at p fid)
      = (if decide (pin = Some pid) then 1 else 0);
  pb_free : forall fid, fid ∈ BufferPoolManager.free_list p ->
    0 <= fid < BufferPoolManager.num_frames p;
  pb_nodup : NoDup (BufferPoolManager.free_list p);
  pb_rok : rOk (BufferPoolManager.replacer p);
  pb_rcap : rCap (BufferPoolManager.replacer p) = BufferPoolManager.num_frames p;
  pb_cand : forall fid, rCand (BufferPoolManager.replacer p) fid <->
    exists pid, BufferPoolManager.table p !! pid = Some fid /\ pin <> Some pid;
  pb_pin : forall pid, pin = Some pid -> is_Some (BufferPoolManager.table p !! pid)
}.

(** Every frame is free or holds a page. *)
Definition pool_ok (p : BufferPoolManager.Impl R) (N n : Z) (pin : option Z) : Prop :=
  pool_base p N n pin /\
  forall fid, 0 <= fid < BufferPoolManager.num_frames p ->
    fid ∈ BufferPoolManager.free_list p \/
    exists pid, BufferPoolManager.table p !! pid = Some fid.

(** The pool while the frame [hole] is being rebound. *)
Definition pool_hole (p : BufferPoolManager.Impl R) (N n : Z) (hole : Z) : Prop :=
  pool_base p N n None /\
  0 <= hole < BufferPoolManager.num_frames p /\
  (hole ∉ BufferPoolManager.free_list p) /\
  (forall pid, BufferPoolManager.table p !! pid <> Some hole) /\
  forall fid, 0 <= fid < BufferPoolManager.num_frames p ->
    fid = hole \/ fid ∈ BufferPoolManager.free_list p \/
    exists pid, BufferPoolManager.table p !! pid = Some fid.

(** When the frame of [pid] is clean, the file holds a well-formed page with
    the records [recs]. *)
Definition disk_agrees (psz : Z) (p : BufferPoolManager.Impl R) (d : DiskManager.t)
    (pid : Z) (recs : list (option (list byte))) : Prop :=
  forall fid, BufferPoolManager.table p !! pid = Some fid ->
    BufferPoolManager.dirty (BufferPoolManager.frame_at p fid) = false ->
    page_wf psz (disk_page psz d pid) /\ records psz (disk_page psz d pid) = recs.

(** Every initialised page that is not pinned is a well-formed slotted page,
    and the file agrees with every clean frame. *)
Definition content_ok (psz : Z) (p : BufferPoolManager.Impl R) (d : DiskManager.t)
    (n : Z) (pin : option Z) : Prop :=
  forall pid, 0 <= pid < n -> pin <> Some pid ->
    page_wf psz (pool_page psz p d pid) /\
    disk_agrees psz p d pid (records psz (pool_page psz p d pid)).

(** The segment of the table and its file. *)
Definition the_disk (h : TableHeap.t R) : DiskManager.t :=
  default (DiskManager.make 0) (TableHeap.pool_disk h).

Definition cur (h : TableHeap.t R) (pid : Z) : list byte :=
  pool_page (TableHeap.page_size_ h) (TableHeap.bpm_ h) (the_disk h) pid.

(** The records of page [pid], by slot. *)
Definition view (h : TableHeap.t R) (pid : Z) : list (option (list byte)) :=
  records (TableHeap.page_size_ h) (cur h pid).

(** The table heap with [N] pages of which [n] are initialised. *)
Record heap_ok (h : TableHeap.t R) (N n : Z) (pin : option Z) : Prop := {
  hk_seg : SegmentManager.segs_ (TableHeap.sm_ h) !! TableHeap.seg_id_ h
           = Some (SegmentManager.mkSegment (the_disk h) []);
  hk_same : TableHeap.bpm_disk_ h = TableHeap.seg_id_ h;
  hk_psz : PageHeader.sizeof <= TableHeap.page_size_ h <= 65536;
  hk_n : 0 <= n <= N;
  hk_disk : disk_ok (TableHeap.page_size_ h) (the_disk h) N;
  hk_pool : pool_ok (TableHeap.bpm_ h) N n pin;
  hk_content : content_ok (TableHeap.page_size_ h) (TableHeap.bpm_ h) (the_disk h) n pin;
  hk_fsm : forall pid, is_Some (FreeSpaceManager.pid2free_ (TableHeap.fsm_ h) !! pid) ->
             0 <= pid < n
}.

(** A table heap between two operations. *)
Definition heap_inv (h : TableHeap.t R) : Prop :=
  heap_ok h (TableIterator.pages h) (TableIterator.pages h) None.

End HeapSpec.

(** The rows of one page from slot [s] on. *)
Fixpoint slot_rows (p : Z) (recs : list (option (list byte))) (s : Z)
    : list TableIterator.Row :=
  match recs with
  | [] => []
  | Some b :: tl => TableIterator.mkRow (mkRID p s) b :: slot_rows p tl (s + 1)
  | None :: tl => slot_rows p tl (s + 1)
  end.

Definition page_rows (V : Z -> list (option (list byte))) (p : Z) : list TableIterator.Row :=
  slot_rows p (V p) 0.

(** The rows of the pages [0 .. N-1], in scan order. *)
Definition table_rows (V : Z -> list (option (list byte))) (N : Z) : list TableIterator.Row :=
  flat_map (page_rows V) (seqZ 0 N).

(** The rows of the pages [pids], the first of them from slot [s] on. *)
Definition rows_from (V : Z -> list (option (list byte))) (s : Z) (pids : list Z)
    : list TableIterator.Row :=
  match pids with
  | [] => []
  | q :: tl => slot_rows q (drop (Z.to_nat s) (V q)) s ++ flat_map (page_rows V) tl
  end.

(** The first live slot of a page from slot [s] on, and the first live slot
    of the pages [pids]. *)
Fixpoint first_row (p : Z) (recs : list (option (list byte))) (s : Z)
    : option (Z * TableIterator.Row) :=
  match recs with
  | [] => None
  | Some b :: _ => Some (s, TableIterator.mkRow (mkRID p s) b)
  | None :: tl => first_row p tl (s + 1)
  end.

Fixpoint first_at (V : Z -> list (option (list byte))) (s : Z) (pids : list Z)
    : option (Z * Z * TableIterator.Row) :=
  match pids with
  | [] => None
  | q :: tl =>
      match first_row q (drop (Z.to_nat s) (V q)) s with
      | Some (s1, row) => Some (q, s1, row)
      | None => first_at V 0 tl
      end
  end.

(** How many rows hold the tuple [tp]. *)
Definition copies (tp : Tuple.t) (rows : list TableIterator.Row) : nat :=
  length (filter (fun r => TableIterator.tuple r = tp) rows).

(** [new] is [old] with the tuple [tp] put in slot [s]: in a tombstone, or
    in a new slot at the end. *)
Definition inserted (old : list (option (list byte))) (s : Z) (tp : list byte)
    (new : list (option (list byte))) : Prop :=
  0 <= s /\
  ((old !! Z.to_nat s = Some None /\ new = <[Z.to_nat s := Some tp]> old) \/
   (Z.to_nat s = length old /\ new = old ++ [Some tp])).

(** The tuple fits a page that holds nothing else. *)
Definition fits_empty_page (psz : Z) (tp : Tuple.t) : Prop :=
  0 < Tuple.Size tp /\
  Tuple.Size tp + SlottedPage.sizeof_Slot <= psz - PageHeader.sizeof.

(** How many slots of a page hold the tuple [tp]. *)
Definition holds (tp : list byte) (recs : list (option (list byte))) : nat :=
  length (filter (fun r => r = Some tp) recs).

(** The sum of [f] over the pages [0 .. N-1]. *)
Definition page_sum (f : Z -> nat) (N : Z) : nat := sum_list_with f (seqZ 0 N).

(** A state met during a scan of the table with the records [V]. *)
Definition scan_state {R} `{ReplacerLaws R} (N psz : Z) (V : Z -> list (option (list byte)))
    (h : TableHeap.t R) : Prop :=
  heap_ok h N N None /\ TableHeap.page_size_ h = psz /\
  forall q, 0 <= q < N -> view h q = V q.

(** *** A small table: 1024-byte pages, two frames, two tuples *)

Definition demo_heap0 : TableHeap.t ClockReplacer.t :=
  TableHeap.mk 1 1024 (BufferPoolManager.make 2 1024 (ClockReplacer.make 2)) 1
    (FreeSpaceManager.make 1024 [128; 512; 1024])
    (snd (SegmentManager.EnsureSegment (SegmentManager.make 1024) 1)).

Definition demo_tuple_a : Tuple.t := replicate 400 x41.
Definition demo_tuple_b : Tuple.t := replicate 500 x42.
(** A longer version of the first tuple, and one that no page can hold. *)
Definition demo_tuple_c : Tuple.t := replicate 600 x43.
Definition demo_tuple_big : Tuple.t := replicate 1000 x44.

Definition demo_heap : TableHeap.t ClockReplacer.t :=
  snd (TableHeap.Insert (snd (TableHeap.Insert demo_heap0 demo_tuple_a)) demo_tuple_b).
(** * Further properties of the storage core: vocabulary *)

(** A 64-byte page with two live records, in slots 0 and 1. *)
Definition demo_page2 : list byte :=
  let p0 := SlottedPage.InitNew (replicate 64 x00) 7 64 in
  let p1 := SlottedPage.ins_page (SlottedPage.Insert_run 64 p0 (Some [x01; x02; x03]) 3) in
  SlottedPage.ins_page (SlottedPage.Insert_run 64 p1 (Some [x04; x05]) 2).

(** The bytes taken by the live records of a page. *)
Definition live_bytes (page_size : Z) (m : list byte) : Z :=
  foldr (fun i acc => SlottedPage.slot_len page_size m i + acc) 0
    (seqZ 0 (PageHeader.slot_count m)).

(** Every member of a bin is tracked, and tracked in that bin. *)
Definition fsm_exact (st : FreeSpaceManager.t) : Prop :=
  forall (b : nat) s pid,
    FreeSpaceManager.bins_ st !! b = Some s -> pid ∈ s ->
    FreeSpaceManager.pid2bin_ st !! pid = Some b.

(** What the rebuild loop keeps: the recorded free size of every page is
    the answer of the probe. *)
Definition probe_ok (probe : Z -> Z -> Z) (seg : Z) (st : FreeSpaceManager.t) : Prop :=
  forall pid f, FreeSpaceManager.pid2free_ st !! pid = Some f -> f = u16 (probe seg pid).

(** The demonstration state of the free-space manager: three pages, one of
    them moved between bins and one removed again. *)
Definition demo_fsm : FreeSpaceManager.t :=
  let st0 := FreeSpaceManager.make 4096 [128; 512] in
  let st1 := FreeSpaceManager.Update st0 3 200 in
  let st2 := FreeSpaceManager.Update st1 5 90 in
  let st3 := FreeSpaceManager.Update st2 3 600 in
  FreeSpaceManager.Remove (FreeSpaceManager.Update st3 9 600) 5.

(** States of the CLOCK policy reachable through its public interface. *)
Inductive clock_reachable : ClockReplacer.t -> Prop :=
| clock_reach_make capacity :
    0 <= capacity -> clock_reachable (ClockReplacer.make capacity)
| clock_reach_pin r fid :
    clock_reachable r -> clock_reachable (ClockReplacer.Pin r fid)
| clock_reach_unpin r fid :
    clock_reachable r -> clock_reachable (ClockReplacer.Unpin r fid)
| clock_reach_victim r :
    clock_reachable r -> clock_reachable (snd (ClockReplacer.Victim r)).

(** Four frames: 0 and 2 unpinned, 2 pinned again, then 3 unpinned. *)
Definition demo_clock : ClockReplacer.t :=
  ClockReplacer.Unpin
    (ClockReplacer.Pin
       (ClockReplacer.Unpin (ClockReplacer.Unpin (ClockReplacer.make 4) 0) 2) 2) 3.

(** ** buffer/lruk_replacer.{h,cc}

    [Clock::now()] reads the steady clock of the machine.  The readings the
    clock is going to give are part of the state ([clock_], one per read)
    together with the number of reads made so far; nothing is assumed about
    them.  A time point is its count since the epoch. *)

Module LruKReplacer.

Record Entry := mkEntry {
  present : bool;
  k : Z;
  last1 : Z;
  last2 : Z
}.

#[global] Instance Entry_inhabited : Inhabited Entry :=
  populate (mkEntry false 2 0 0).

Record t := mk {
  entries_ : list Entry;
  cap_ : Z;
  k_ : Z;
  clock_ : nat -> Z;
  reads_ : nat
}.

Definition now (st : t) : Z * t :=
  (clock_ st (reads_ st),
   {| entries_ := entries_ st; cap_ := cap_ st; k_ := k_ st;
      clock_ := clock_ st; reads_ := S (reads_ st) |}).

Definition make (capacity : Z) (k : Z) (clock : nat -> Z) : t :=
  {| entries_ := replicate (Z.to_nat capacity) (mkEntry false k 0 0);
     cap_ := capacity; k_ := k; clock_ := clock; reads_ := O |}.

Definition at_ (st : t) (i : Z) : Entry := entries_ st !!! Z.to_nat i.

Definition set_entry (st : t) (i : Z) (e : Entry) : t :=
  {| entries_ := <[Z.to_nat i := e]> (entries_ st); cap_ := cap_ st; k_ := k_ st;
     clock_ := clock_ st; reads_ := reads_ st |}.

Definition set_present (st : t) (i : Z) (b : bool) : t :=
  let e := at_ st i in
  set_entry st i (mkEntry b (k e) (last1 e) (last2 e)).

Definition Pin (st : t) (fid : Z) : t :=
  if (fid <? 0) || (cap_ st <=? fid) then st
  else set_present st fid false.

Definition Touch (st : t) (fid : Z) : t :=
  let '(t_now, st1) := now st in
  let e := at_ st1 fid in
  set_entry st1 fid (mkEntry (present e) (k e) t_now (last1 e)).

Definition Unpin (st : t) (fid : Z) : t :=
  if (fid <? 0) || (cap_ st <=? fid) then st
  else Touch (set_present st fid true) fid.

(** The comparison key of [Victim]. *)
Definition key (e : Entry) : Z :=
  if negb (last2 e =? 0) then last2 e else last1 e.

(** One iteration of the loop of [Victim] over [(worst, found, fid_sel)]. *)
Definition victim_step (st : t) (acc : Z * bool * Z) (i : Z) : Z * bool * Z :=
  let '(worst, found, fid_sel) := acc in
  let e := at_ st i in
  if negb (present e) then acc
  else if negb found || (key e <? worst) then (key e, true, i)
  else acc.

Definition Victim (st : t) : option Z * t :=
  let '(worst0, st1) := now st in
  let '(_, found, fid_sel) :=
    fold_left (victim_step st1) (seqZ 0 (cap_ st1)) (worst0, false, -1) in
  if negb found then (None, st1)
  else (Some fid_sel, set_present st1 fid_sel false).

Fixpoint count_present (v : list Entry) : Z :=
  match v with
  | [] => 0
  | e :: tl => (if present e then 1 else 0) + count_present tl
  end.

Definition Size (st : t) : Z := count_present (entries_ st).

End LruKReplacer.

#[global] Instance LruKReplacer_IReplacer : IReplacer LruKReplacer.t := {
  rPin := LruKReplacer.Pin;
  rUnpin := LruKReplacer.Unpin;
  rVictim := LruKReplacer.Victim;
  rSize := LruKReplacer.Size
}.

(** Consistency and candidate set of the LRU-K policy. *)
Definition lruk_ok (st : LruKReplacer.t) : Prop :=
  Z.of_nat (length (LruKReplacer.entries_ st)) = LruKReplacer.cap_ st.

Definition lruk_cand (st : LruKReplacer.t) (f : Z) : Prop :=
  0 <= f < LruKReplacer.cap_ st /\
  LruKReplacer.present (LruKReplacer.at_ st f) = true.

Definition lruk_key (st : LruKReplacer.t) (f : Z) : Z :=
  LruKReplacer.key (LruKReplacer.at_ st f).

(** Three frames of an LRU-K policy whose clock reads 10, 20, 30, ...:
    frame 0 released at 10 and 40, frame 1 at 20, frame 2 at 30. *)
Definition demo_lruk : LruKReplacer.t :=
  let st0 := LruKReplacer.make 3 2 (fun n => 10 * (Z.of_nat n + 1)) in
  let st1 := LruKReplacer.Unpin st0 0 in
  let st2 := LruKReplacer.Unpin st1 1 in
  let st3 := LruKReplacer.Unpin st2 2 in
  LruKReplacer.Unpin st3 0.

(** States of the LRU-K policy reachable through its public interface. *)
Inductive lruk_reachable : LruKReplacer.t -> Prop :=
| lruk_reach_make capacity k clock :
    0 <= capacity -> lruk_reachable (LruKReplacer.make capacity k clock)
| lruk_reach_pin st fid :
    lruk_reachable st -> lruk_reachable (LruKReplacer.Pin st fid)
| lruk_reach_unpin st fid :
    lruk_reachable st -> lruk_reachable (LruKReplacer.Unpin st fid)
| lruk_reach_victim st :
    lruk_reachable st -> lruk_reachable (snd (LruKReplacer.Victim st)).

(** *** The buffer pool with any number of pinned pages *)

Section PoolStates.
Context {R : Type} `{ReplacerLaws R}.
Import BufferPoolManager.

(** The page table and the frames agree: an entry of the table names a
    frame that holds the page, and a frame that holds a page id is the frame
    the table names for that page. *)
Record table_ok (p : Impl R) : Prop := {
  tk_frames : Z.of_nat (length (frames p)) = num_frames p;
  tk_table : forall pid fid, table p !! pid = Some fid ->
    0 <= fid < num_frames p /\ f_page_id (frame_at p fid) = pid;
  tk_frame : forall fid, 0 <= fid < num_frames p ->
    f_page_id (frame_at p fid) <> kInvalidPageId ->
    table p !! f_page_id (frame_at p fid) = Some fid
}.

(** Every resident page is a page of the file of [N] pages, and its frame
    holds [psz] bytes. *)
Definition frames_in_file (psz : Z) (p : Impl R) (N : Z) : Prop :=
  forall pid fid, table p !! pid = Some fid ->
    0 <= pid < N /\ Z.of_nat (length (data (frame_at p fid))) = psz.

(** Only frames that nobody has pinned can be taken: a free frame is not in
    the page table, and a candidate of the replacer has pin count 0. *)
Record pins_ok (p : Impl R) : Prop := {
  pk_rok : rOk (replacer p);
  pk_rcap : rCap (replacer p) = num_frames p;
  pk_free : forall fid, fid ∈ free_list p ->
    0 <= fid < num_frames p /\ forall pid, table p !! pid <> Some fid;
  pk_cand : forall fid, rCand (replacer p) fid -> pin_count (frame_at p fid) = 0
}.

End PoolStates.

(** A file of three pages of 64 bytes. *)
Definition demo_disk3 : DiskManager.t :=
  {| DiskManager.page_size_ := 64;
     DiskManager.file_ := replicate 192 x00;
     DiskManager.write_error := false;
     DiskManager.read_error := false |}.

(** A two-frame pool: page 0 was fetched, changed and unpinned dirty, so
    that its frame is a candidate; page 1 was fetched and is still pinned. *)
Definition demo_pool_two : BufferPoolManager.Impl ClockReplacer.t :=
  let p0 := BufferPoolManager.make 2 64 (ClockReplacer.make 2) in
  let '(_, bytes, p1, _) := BufferPoolManager.FetchPage p0 (Some demo_disk3) 0 in
  let p2 := BufferPoolManager.write_through p1 0 (SlottedPage.InitNew bytes 0 64) in
  let p3 := snd (BufferPoolManager.UnpinPage p2 0 true) in
  let '(_, _, p4, _) := BufferPoolManager.FetchPage p3 (Some demo_disk3) 1 in
  p4.

(** The one-frame pool whose page 0 is dirty, fetched again: page 0 is
    pinned and dirty. *)
Definition demo_pool_pinned_dirty : BufferPoolManager.Impl ClockReplacer.t :=
  let '(_, _, p1, _) := BufferPoolManager.FetchPage demo_pool (Some demo_disk) 0 in
  p1.

(** The order of record ids: by page, then by slot. *)
Definition rid_lt (a b : RID) : Prop :=
  page_id a < page_id b \/ (page_id a = page_id b /\ slot a < slot b).

Definition row_lt (x y : TableIterator.Row) : Prop :=
  rid_lt (TableIterator.rid x) (TableIterator.rid y).

(** *** Calls on a tuple builder, [SetNull] included *)

Inductive BuilderOp :=
| OpSet (i : Z) (v : Value)
| OpNull (i : Z).

Definition op_index (op : BuilderOp) : Z :=
  match op with OpSet i _ => i | OpNull i => i end.

Definition apply_op (tb : TupleBuilder.t) (op : BuilderOp) : StatusCode * TupleBuilder.t :=
  match op with
  | OpSet i v => set_value tb i v
  | OpNull i => TupleBuilder.SetNull tb i
  end.

(** A sequence of calls; it stops at the first failure. *)
Fixpoint run_ops (tb : TupleBuilder.t) (ops : list BuilderOp) : StatusCode * TupleBuilder.t :=
  match ops with
  | [] => (kOk, tb)
  | op :: rest =>
      let '(st, tb1) := apply_op tb op in
      if ok st then run_ops tb1 rest else (st, tb1)
  end.

(** Column [i] is named by one of the calls; it is named by a [SetNull]. *)
Definition touched (ops : list BuilderOp) (i : Z) : bool :=
  existsb (fun op => bool_decide (op_index op = i)) ops.

Definition nulled (ops : list BuilderOp) (i : Z) : bool :=
  existsb (fun op => match op with OpNull j => bool_decide (j = i) | OpSet _ _ => false end) ops.

(** The VARCHAR values of the calls, in call order. *)
Fixpoint payload (ops : list BuilderOp) : list byte :=
  match ops with
  | [] => []
  | OpSet _ (VVarChar bs) :: rest => bs ++ payload rest
  | _ :: rest => payload rest
  end.

(** The example schema: a value for each column, the last column then
    declared null, and the VARCHAR column set a second time. *)
Definition demo_builder_ops : list BuilderOp :=
  [OpSet 2 (VVarChar [x61; x62; x63]); OpSet 0 (VInt32 (-42)); OpSet 1 (VChar [x41; x42]);
   OpSet 3 (VDouble 12345678901234); OpNull 3; OpSet 2 (VVarChar [x7a])].

(** A segment manager with the one segment 1 over the two-page file. *)
Definition demo_segments : SegmentManager.t :=
  SegmentManager.set_segment (SegmentManager.make 64) 1
    (SegmentManager.mkSegment demo_disk []).

(** ** Integration/main_storage_load.cpp: [SplitPipe]

    A [std::string] is the list of its bytes; positions and lengths are
    [size_t] values, modelled by [nat] (no position is decremented below
    zero). *)

Module StorageLoad.

Definition bar : byte := x7c.
Definition cr : byte := x0d.

(** [raw.find(c, start)]: the first position of [c] at or after [start]. *)
Fixpoint find_byte (c : byte) (l : list byte) : option nat :=
  match l with
  | [] => None
  | x :: tl => if bool_decide (x = c) then Some O else S <$> find_byte c tl
  end.

Definition find (raw : list byte) (c : byte) (start : nat) : option nat :=
  (fun k => (start + k)%nat) <$> find_byte c (drop start raw).

(** [raw.substr(start, n)] *)
Definition substr (raw : list byte) (start n : nat) : list byte :=
  take n (drop start raw).

(** The [while (start <= len)] loop; [fuel] bounds the iterations. *)
Fixpoint split_loop (fuel : nat) (raw : list byte) (len start : nat)
    (fields : list (list byte)) : list (list byte) :=
  match fuel with
  | O => fields
  | S fuel' =>
      if (start <=? len)%nat then
        match find raw bar start with
        | Some pos =>
            if (len <=? pos)%nat then fields ++ [substr raw start (len - start)]
            else split_loop fuel' raw len (pos + 1)
                   (fields ++ [substr raw start (pos - start)])
        | None => fields ++ [substr raw start (len - start)]
        end
      else fields
  end.

Definition SplitPipe (raw : list byte) : list (list byte) :=
  let len0 := length raw in
  let len :=
    if negb (len0 =? 0)%nat && bool_decide (nth (len0 - 1) raw x00 = cr)
    then (len0 - 1)%nat else len0 in
  let fields := split_loop (S len) raw len 0 [] in
  if (length fields =? 8)%nat && bool_decide (List.last fields [x00] = [])
  then removelast fields else fields.

End StorageLoad.

(** The fields of a line, joined by ['|']. *)
Fixpoint join_fields (fields : list (list byte)) : list byte :=
  match fields with
  | [] => []
  | f :: rest =>
      match rest with
      | [] => f
      | _ :: _ => f ++ StorageLoad.bar :: join_fields rest
      end
  end.

(** A supplier line of seven fields. *)
Definition demo_line_fields : list (list byte) :=
  [[x31]; [x53; x23; x31]; [x4e; x20; x53; x74]; [x31; x37]; [x32; x37; x2d; x39];
   [x35; x2e; x30]; [x6f; x6b]].
(** * Free-space manager *)

Section FsmProofs.
Import FreeSpaceManager.

Lemma lower_bound_le ths v : (lower_bound ths v <= length ths)%nat.
Proof.
  induction ths as [|x tl IH]; simpl; [lia|].
  destruct (x <? v); lia.
Qed.

Lemma lower_bound_mono ths v w : v <= w -> (lower_bound ths v <= lower_bound ths w)%nat.
Proof.
  intros Hvw. induction ths as [|x tl IH]; simpl; [lia|].
  destruct (x <? v) eqn:E1; [|lia].
  apply Z.ltb_lt in E1.
  assert ((x <? w) = true) as -> by (apply Z.ltb_lt; lia). lia.
Qed.

Lemma emplace_lookup_eq_None {V} k (v : V) m :
  m !! k = None -> emplace k v m !! k = Some v.
Proof. intros H. unfold emplace. rewrite H. apply lookup_insert_eq. Qed.

Lemma emplace_lookup_eq_Some {V} k (v w : V) m :
  m !! k = Some w -> emplace k v m = m.
Proof. intros H. unfold emplace. by rewrite H. Qed.

Lemma emplace_lookup_ne {V} k k' (v : V) m :
  k <> k' -> emplace k v m !! k' = m !! k'.
Proof.
  intros H. unfold emplace. destruct (m !! k); [done|]. by rewrite lookup_insert_ne.
Qed.

Lemma bin_insert_length b pid bins : length (bin_insert b pid bins) = length bins.
Proof. unfold bin_insert. apply length_alter. Qed.

Lemma bin_erase_length b pid bins : length (bin_erase b pid bins) = length bins.
Proof. unfold bin_erase. apply length_alter. Qed.

Lemma bin_insert_lookup_eq b pid bins s :
  bins !! b = Some s -> bin_insert b pid bins !! b = Some (s ∪ {[pid]}).
Proof. intros H. unfold bin_insert. by rewrite list_lookup_alter_eq, H. Qed.

Lemma bin_insert_lookup_ne b b' pid bins :
  b <> b' -> bin_insert b pid bins !! b' = bins !! b'.
Proof. intros H. unfold bin_insert. by rewrite list_lookup_alter_ne. Qed.

Lemma bin_erase_lookup_eq b pid bins s :
  bins !! b = Some s -> bin_erase b pid bins !! b = Some (s ∖ {[pid]}).
Proof. intros H. unfold bin_erase. by rewrite list_lookup_alter_eq, H. Qed.

Lemma bin_erase_lookup_ne b b' pid bins :
  b <> b' -> bin_erase b pid bins !! b' = bins !! b'.
Proof. intros H. unfold bin_erase. by rewrite list_lookup_alter_ne. Qed.

(** Membership of another page id survives both bin updates. *)
Lemma bin_insert_keeps b pid bins b' s q :
  bins !! b' = Some s -> q ∈ s ->
  exists s', bin_insert b pid bins !! b' = Some s' /\ q ∈ s'.
Proof.
  intros Hs Hq. destruct (decide (b = b')) as [->|Hne].
  - exists (s ∪ {[pid]}). split; [by apply bin_insert_lookup_eq|set_solver].
  - exists s. by rewrite bin_insert_lookup_ne.
Qed.

Lemma bin_erase_keeps b pid bins b' s q :
  bins !! b' = Some s -> q ∈ s -> q <> pid ->
  exists s', bin_erase b pid bins !! b' = Some s' /\ q ∈ s'.
Proof.
  intros Hs Hq Hne. destruct (decide (b = b')) as [->|Hb].
  - exists (s ∖ {[pid]}). split; [by apply bin_erase_lookup_eq|set_solver].
  - exists s. by rewrite bin_erase_lookup_ne.
Qed.

Lemma bin_insert_adds b pid bins :
  (b < length bins)%nat -> exists s', bin_insert b pid bins !! b = Some s' /\ pid ∈ s'.
Proof.
  intros Hb. destruct (lookup_lt_is_Some_2 bins b Hb) as [s Hs].
  exists (s ∪ {[pid]}). split; [by apply bin_insert_lookup_eq|set_solver].
Qed.

Lemma BinIndex_lt st f : fsm_inv st -> (BinIndex st f < length (bins_ st))%nat.
Proof.
  intros (Hlen & _). rewrite Hlen. unfold BinIndex.
  pose proof (lower_bound_le (thresholds_ st) f). lia.
Qed.

Lemma fsm_inv_make psz ths : fsm_inv (make psz ths).
Proof.
  split; [|split]; simpl.
  - by rewrite length_replicate.
  - intros pid. by rewrite !lookup_empty.
  - intros pid f. by rewrite lookup_empty.
Qed.

Lemma fsm_inv_update st pid free : fsm_inv st -> fsm_inv (Update st pid free).
Proof.
  intros Hinv. pose proof (BinIndex_lt st free Hinv) as Hlt.
  destruct Hinv as (Hlen & Hdom & Hbin).
  unfold Update. destruct (pid2bin_ st !! pid) as [old|] eqn:Eold.
  - assert (exists f0, pid2free_ st !! pid = Some f0) as [f0 Hf0].
    { destruct (pid2free_ st !! pid) eqn:E; [eauto|].
      apply Hdom in E. congruence. }
    destruct (Hbin _ _ Hf0) as (Hb0 & s0 & Hs0 & Hin0).
    assert (old = BinIndex st f0) as Hold by congruence.
    destruct (decide (old = BinIndex st free)) as [Heq|Hne].
    + split; [|split]; simpl; [done|..].
      * intros q. destruct (decide (q = pid)) as [->|Hq].
        -- rewrite lookup_insert_eq, Eold. split; congruence.
        -- rewrite lookup_insert_ne by done. apply Hdom.
      * intros q f. destruct (decide (q = pid)) as [->|Hq].
        -- rewrite lookup_insert_eq. intros [= <-].
           unfold BinIndex in *; simpl. split; [congruence|].
           exists s0. split; [congruence|done].
        -- rewrite lookup_insert_ne by done. apply Hbin.
    + split; [|split]; simpl.
      * by rewrite bin_insert_length, bin_erase_length.
      * intros q. destruct (decide (q = pid)) as [->|Hq].
        -- rewrite !lookup_insert_eq. split; congruence.
        -- rewrite !lookup_insert_ne by done. apply Hdom.
      * intros q f. destruct (decide (q = pid)) as [->|Hq].
        -- rewrite !lookup_insert_eq. intros [= <-]. split; [done|].
           apply bin_insert_adds. by rewrite bin_erase_length.
        -- rewrite !lookup_insert_ne by done. intros Hf.
           destruct (Hbin _ _ Hf) as (Hb & s & Hs & Hin). split; [done|].
           destruct (bin_erase_keeps old pid _ _ _ q Hs Hin Hq) as (s1 & Hs1 & Hin1).
           exact (bin_insert_keeps _ pid _ _ _ q Hs1 Hin1).
  - assert (pid2free_ st !! pid = None) as Hfree by (by apply Hdom).
    split; [|split]; simpl.
    + by rewrite bin_insert_length.
    + intros q. destruct (decide (q = pid)) as [->|Hq].
      * rewrite !emplace_lookup_eq_None by done. split; congruence.
      * rewrite !emplace_lookup_ne by done. apply Hdom.
    + intros q f. destruct (decide (q = pid)) as [->|Hq].
      * rewrite !emplace_lookup_eq_None by done. intros [= <-]. split; [done|].
        by apply bin_insert_adds.
      * rewrite !emplace_lookup_ne by done. intros Hf.
        destruct (Hbin _ _ Hf) as (Hb & s & Hs & Hin). split; [done|].
        exact (bin_insert_keeps _ pid _ _ _ q Hs Hin).
Qed.

Lemma fsm_inv_remove st pid : fsm_inv st -> fsm_inv (Remove st pid).
Proof.
  intros (Hlen & Hdom & Hbin). unfold Remove.
  destruct (pid2bin_ st !! pid) as [old|] eqn:Eold; [|done].
  split; [|split]; simpl.
  - by rewrite bin_erase_length.
  - intros q. destruct (decide (q = pid)) as [->|Hq].
    + by rewrite !lookup_delete_eq.
    + rewrite !lookup_delete_ne by done. apply Hdom.
  - intros q f. destruct (decide (q = pid)) as [->|Hq].
    + by rewrite lookup_delete_eq.
    + rewrite !lookup_delete_ne by done. intros Hf.
      destruct (Hbin _ _ Hf) as (Hb & s & Hs & Hin). split; [done|].
      exact (bin_erase_keeps old pid _ _ _ q Hs Hin Hq).
Qed.

Lemma fsm_inv_cleared st : fsm_inv st -> fsm_inv (cleared st).
Proof.
  intros (Hlen & _). split; [|split]; simpl.
  - by rewrite length_fmap.
  - intros pid. by rewrite !lookup_empty.
  - intros pid f. by rewrite lookup_empty.
Qed.

Lemma fsm_inv_rebuild_step probe seg st i :
  fsm_inv st -> fsm_inv (rebuild_step probe seg st i).
Proof.
  intros Hinv. unfold rebuild_step.
  set (pid := u32 i). set (free := u16 (probe seg pid)).
  pose proof (BinIndex_lt st free Hinv) as Hlt.
  destruct Hinv as (Hlen & Hdom & Hbin).
  split; [|split]; simpl.
  - by rewrite bin_insert_length.
  - intros q. destruct (decide (q = pid)) as [->|Hq].
    + destruct (pid2bin_ st !! pid) as [b0|] eqn:Eb.
      * assert (exists f0, pid2free_ st !! pid = Some f0) as [f0 Hf0].
        { destruct (pid2free_ st !! pid) eqn:E; [eauto|]. apply Hdom in E. congruence. }
        rewrite (emplace_lookup_eq_Some _ _ _ _ Eb), (emplace_lookup_eq_Some _ _ _ _ Hf0).
        apply Hdom.
      * assert (pid2free_ st !! pid = None) as Hf by (by apply Hdom).
        rewrite !emplace_lookup_eq_None by done. split; congruence.
    + rewrite !emplace_lookup_ne by done. apply Hdom.
  - intros q f Hf.
    assert (exists f0, (pid2free_ st !! q = Some f0 /\ f = f0) \/
            (q = pid /\ pid2free_ st !! pid = None /\ f = free)) as [f0 Hcase].
    { destruct (decide (q = pid)) as [->|Hq].
      - destruct (pid2free_ st !! pid) as [f0|] eqn:E.
        + exists f0. left. rewrite (emplace_lookup_eq_Some _ _ _ _ E) in Hf. split; congruence.
        + exists 0. right. rewrite emplace_lookup_eq_None in Hf by done. split; [done|]. split; congruence.
      - exists f. left. rewrite emplace_lookup_ne in Hf by done. done. }
    destruct Hcase as [[Hf0 ->]|(-> & Hnone & ->)].
    + destruct (Hbin _ _ Hf0) as (Hb & s & Hs & Hin).
      split.
      * destruct (decide (q = pid)) as [->|Hq].
        -- by rewrite (emplace_lookup_eq_Some _ _ _ _ Hb).
        -- by rewrite emplace_lookup_ne.
      * exact (bin_insert_keeps _ pid _ _ _ q Hs Hin).
    + assert (pid2bin_ st !! pid = None) as Hb by (by apply Hdom).
      split; [by rewrite emplace_lookup_eq_None|].
      by apply bin_insert_adds.
Qed.

Lemma fsm_inv_rebuild st seg : fsm_inv st -> fsm_inv (snd (RebuildFromSegment st seg)).
Proof.
  intros Hinv. unfold RebuildFromSegment.
  destruct (probe_free_ st) as [probe|]; [|done].
  destruct (probe_count_ st) as [count|]; [|done]. simpl.
  pose proof (fsm_inv_cleared st Hinv) as Hc.
  revert Hc. generalize (cleared st). generalize (seqZ 0 (count seg)).
  intros l. induction l as [|i l IH]; intros st0 H0; simpl; [done|].
  apply IH. by apply fsm_inv_rebuild_step.
Qed.

Lemma fsm_reachable_inv st : fsm_reachable st -> fsm_inv st.
Proof.
  induction 1.
  - apply fsm_inv_make.
  - done.
  - by apply fsm_inv_update.
  - by apply fsm_inv_remove.
  - by apply fsm_inv_rebuild.
Qed.

(** The scan of [Find] over a list of bins. *)
Lemma find_from_miss st n bins :
  (forall pid, fits st n pid = false) -> find_from st n bins = kInvalidPageId.
Proof.
  intros Hno. induction bins as [|b rest IH]; simpl; [done|].
  destruct (List.find (fits st n) (elements b)) as [pid|] eqn:E; [|done].
  apply List.find_some in E as [_ E]. by rewrite Hno in E.
Qed.

Lemma find_from_hit st n bins (k : nat) s pid :
  bins !! k = Some s -> pid ∈ s -> fits st n pid = true ->
  fits st n (find_from st n bins) = true.
Proof.
  revert k. induction bins as [|b rest IH]; intros k Hk Hin Hfit; [done|]. simpl.
  destruct (List.find (fits st n) (elements b)) as [q|] eqn:E.
  - by apply List.find_some in E as [_ E].
  - destruct k as [|k]; simpl in Hk.
    + injection Hk as ->.
      assert (In pid (elements s)) as HIn
        by (apply list_elem_of_In, elem_of_elements, Hin).
      pose proof (List.find_none _ _ E pid HIn). congruence.
    + by apply (IH k).
Qed.

Lemma fits_spec st n pid :
  fits st n pid = true <-> exists f, pid2free_ st !! pid = Some f /\ n <= f.
Proof.
  unfold fits. destruct (pid2free_ st !! pid) as [f|].
  - rewrite Z.leb_le. split; [eauto|]. by intros (f' & [= <-] & H).
  - split; [done|]. by intros (f' & ? & _).
Qed.

Lemma find_from_cases st n bins :
  find_from st n bins = kInvalidPageId \/ fits st n (find_from st n bins) = true.
Proof.
  induction bins as [|b rest IH]; simpl; [by left|].
  destruct (List.find (fits st n) (elements b)) as [q|] eqn:E; [|done].
  right. by apply List.find_some in E as [_ E].
Qed.

(** C5: in every state reachable through [Update], [Remove] and
    [RebuildFromSegment] (and the constructor and probe registration), and for
    every request [n]: [Find n] is [kInvalidPageId] when no tracked page has a
    recorded free size of at least [n]; otherwise it is a tracked page whose
    recorded free size is at least [n]; a page id other than the miss value
    is never returned with a recorded free size below [n]. *)
Theorem C5_find_returns_fitting_page st n :
  fsm_reachable st ->
  ((forall pid f, pid2free_ st !! pid = Some f -> f < n) ->
     Find st n = kInvalidPageId) /\
  ((exists pid f, pid2free_ st !! pid = Some f /\ n <= f) ->
     exists f', pid2free_ st !! Find st n = Some f' /\ n <= f') /\
  (Find st n <> kInvalidPageId ->
     exists f', pid2free_ st !! Find st n = Some f' /\ n <= f').
Proof.
  intros Hreach. pose proof (fsm_reachable_inv st Hreach) as Hinv.
  split; [|split].
  - intros Hnone. apply find_from_miss. intros pid.
    destruct (fits st n pid) eqn:E; [|done].
    apply fits_spec in E as (f & Hf & Hle). specialize (Hnone _ _ Hf). lia.
  - intros (pid & f & Hf & Hle). apply fits_spec.
    destruct Hinv as (Hlen & Hdom & Hbin).
    destruct (Hbin _ _ Hf) as (_ & s & Hs & Hin).
    assert (BinIndex st n <= BinIndex st f)%nat as Hmono
      by (by apply lower_bound_mono).
    unfold Find.
    apply (find_from_hit st n _ (BinIndex st f - BinIndex st n) s pid).
    + rewrite lookup_drop. rewrite <- Hs. f_equal. lia.
    + done.
    + apply fits_spec. eauto.
  - intros Hne. apply fits_spec. unfold Find in *.
    destruct (find_from_cases st n (drop (BinIndex st n) (bins_ st))); [done|done].
Qed.

Lemma C5_find_returns_fitting_page_witness :
  let st := Update (Update (make 4096 [128; 512]) 3 200) 5 90 in
  fsm_reachable st /\
  exists f', pid2free_ st !! Find st 100 = Some f' /\ 100 <= f'.
Proof.
  intros st.
  assert (fsm_reachable st) as Hr by (repeat constructor).
  split; [exact Hr|].
  destruct (C5_find_returns_fitting_page st 100 Hr) as (_ & Hhit & _).
  apply Hhit. exists 3, 200. split; [reflexivity|lia].
Defined.

(** What the code computes: with strictly increasing thresholds, the bin of
    [v] is the position [i] with [t_(i-1) < v <= t_i]. *)
Lemma lower_bound_spec ths v (i : nat) :
  lower_bound ths v = i ->
  (forall (j : nat) t, (j < i)%nat -> ths !! j = Some t -> t < v) /\
  (forall t, ths !! i = Some t -> v <= t).
Proof.
  revert i. induction ths as [|x tl IH]; intros i; simpl.
  - intros <-. split; [intros; lia|]. intros t. done.
  - destruct (x <? v) eqn:E.
    + apply Z.ltb_lt in E. intros <-.
      destruct (IH _ eq_refl) as [Hlo Hhi]. split.
      * intros [|j] t Hj; simpl; [by intros [= <-]|]. apply Hlo. lia.
      * intros t. simpl. apply Hhi.
    + apply Z.ltb_ge in E. intros <-. split; [intros; lia|].
      intros t. simpl. by intros [= <-].
Qed.

Lemma lower_bound_at_threshold ths (i : nat) t :
  StronglySorted Z.lt ths -> ths !! i = Some t -> lower_bound ths t = i.
Proof.
  intros Hs. revert i. induction Hs as [|x tl Hs IH Hall]; intros i; [done|].
  destruct i as [|i]; simpl.
  - intros [= ->]. by rewrite Z.ltb_irrefl.
  - intros Hi. rewrite List.Forall_forall in Hall.
    assert (x < t) as Hlt by (apply Hall, list_elem_of_In, list_elem_of_lookup; eauto).
    apply Z.ltb_lt in Hlt. rewrite Hlt. f_equal. by apply IH.
Qed.

Lemma documented_bin_at_threshold ths (i : nat) t :
  StronglySorted Z.lt ths -> ths !! i = Some t -> documented_bin ths t = S i.
Proof.
  intros Hs. revert i. induction Hs as [|x tl Hs IH Hall]; intros i; [done|].
  destruct i as [|i]; simpl.
  - intros [= ->]. rewrite Z.leb_refl. f_equal.
    destruct tl as [|y tl']; [done|]. simpl.
    apply Forall_cons in Hall as [Hy _].
    assert ((y <=? t) = false) as -> by (apply Z.leb_gt; lia). done.
  - intros Hi. rewrite List.Forall_forall in Hall.
    assert (x < t) as Hlt by (apply Hall, list_elem_of_In, list_elem_of_lookup; eauto).
    assert ((x <=? t) = true) as -> by (apply Z.leb_le; lia). f_equal. by apply IH.
Qed.

Lemma Update_records_BinIndex st pid f :
  fsm_inv st -> pid2bin_ (Update st pid f) !! pid = Some (BinIndex st f).
Proof.
  intros Hinv. pose proof (fsm_inv_update st pid f Hinv) as (_ & _ & Hbin).
  assert (pid2free_ (Update st pid f) !! pid = Some f) as Hf.
  { unfold Update. destruct (pid2bin_ st !! pid) eqn:E.
    - destruct (decide _); simpl; apply lookup_insert_eq.
    - simpl. apply emplace_lookup_eq_None. by apply Hinv. }
  destruct (Hbin _ _ Hf) as [Hb _]. rewrite Hb. f_equal.
  unfold BinIndex, Update. destruct (pid2bin_ st !! pid); [destruct (decide _)|]; done.
Qed.

(** In general [Update] records a free size equal to threshold [t_i] in
    bin [i], one below the documented bin [i+1]. *)
Lemma Update_at_threshold st pid (i : nat) t :
  fsm_inv st -> StronglySorted Z.lt (thresholds_ st) ->
  thresholds_ st !! i = Some t ->
  pid2bin_ (Update st pid t) !! pid = Some i /\
  documented_bin (thresholds_ st) t = S i.
Proof.
  intros Hinv Hs Hi. split.
  - rewrite Update_records_BinIndex by done. f_equal.
    by apply lower_bound_at_threshold.
  - by apply documented_bin_at_threshold.
Qed.

(** C4 (the code departs from its header comment): with the default
    thresholds, a page whose free size equals the smallest threshold 128 is
    recorded in bin 0 by [Update], whereas the documented intervals
    [t_(i-1), t_i) put the value 128 in bin 1. *)
Theorem C4_threshold_value_recorded_one_bin_low :
  let st := Update (make 8192 [128; 512; 1024; 2048; 4096; 8192]) 7 128 in
  pid2bin_ st !! 7 = Some 0%nat /\
  (exists s, bins_ st !! 0%nat = Some s /\ 7 ∈ s) /\
  documented_bin (thresholds_ st) 128 = 1%nat.
Proof.
  split; [reflexivity|]. split; [|reflexivity].
  exists {[7]}. split; [reflexivity|set_solver].
Qed.

End FsmProofs.
(** * CLOCK replacer *)

Section ClockProofs.
Import ClockReplacer.

Lemma clock3_after_unpins a b c :
  (a = 0 \/ a = 1 \/ a = 2) -> (b = 0 \/ b = 1 \/ b = 2) -> (c = 0 \/ c = 1 \/ c = 2) ->
  a <> b -> a <> c -> b <> c ->
  Unpin (Unpin (Unpin (make 3) a) b) c = clock3 0.
Proof.
  intros [-> | [-> | ->]] [-> | [-> | ->]] [-> | [-> | ->]] Hab Hac Hbc;
    try congruence; reflexivity.
Qed.

(** C8, as stated, fails: the first call does select a victim. *)
Lemma C8_first_call_selects_a_victim :
  fst (Victim (Unpin (Unpin (Unpin (make 3) 0) 1) 2)) = Some 0 /\
  fst (Victim (Unpin (Unpin (Unpin (make 3) 0) 1) 2)) <> None.
Proof. split; [reflexivity|discriminate]. Qed.

(** C8 (amended): with three frames, all in the candidate set and all with the
    reference bit set, the first call to [Victim] clears the three reference
    bits and, continuing the same sweep (its cap is six steps), selects the
    frame under the hand and removes it from the candidate set; the second
    call returns the next frame in hand order.  The order in which the frames
    were unpinned plays no role: after unpinning 0, 1, 2 in any order the
    two victims are frames 0 and 1. *)
Theorem C8_clock_three_frames h :
  0 <= h < 3 ->
  Victim (clock3 h) =
    (Some h,
     {| present_ := set_ [true; true; true] h false;
        ref_ := [false; false; false];
        hand_ := (h + 1) mod 3; cap_ := 3 |}) /\
  fst (Victim (snd (Victim (clock3 h)))) = Some ((h + 1) mod 3) /\
  (forall a b c,
     (a = 0 \/ a = 1 \/ a = 2) -> (b = 0 \/ b = 1 \/ b = 2) -> (c = 0 \/ c = 1 \/ c = 2) ->
     a <> b -> a <> c -> b <> c ->
     let st := Unpin (Unpin (Unpin (make 3) a) b) c in
     fst (Victim st) = Some 0 /\ fst (Victim (snd (Victim st))) = Some 1).
Proof.
  intros Hh.
  assert (h = 0 \/ h = 1 \/ h = 2) as [-> | [-> | ->]] by lia;
    (split; [reflexivity|]; split; [reflexivity|]);
    intros a b c Ha Hb Hc Hab Hac Hbc st; subst st;
    rewrite (clock3_after_unpins a b c) by assumption; split; reflexivity.
Qed.

Lemma C8_clock_three_frames_witness :
  0 <= 0 < 3 /\ fst (Victim (clock3 0)) = Some 0 /\
  fst (Victim (snd (Victim (clock3 0)))) = Some 1.
Proof.
  split; [lia|].
  destruct (C8_clock_three_frames 0 ltac:(lia)) as (H1 & H2 & _).
  split; [rewrite H1; reflexivity|exact H2].
Defined.

End ClockProofs.
(** ** The CLOCK policy meets the replacer contract *)

Section ClockLaws.
Import ClockReplacer.

Lemma at_lookup (v : list bool) (i : Z) b :
  v !! Z.to_nat i = Some b -> at_ v i = b.
Proof. intros Hv. unfold at_. by rewrite (list_lookup_total_correct _ _ _ Hv). Qed.

Lemma next_hand cap h :
  0 <= h < cap -> (h + 1) mod cap = if h + 1 <? cap then h + 1 else 0.
Proof.
  intros Hh. destruct (h + 1 <? cap) eqn:E.
  - apply Z.ltb_lt in E. apply Z.mod_small. lia.
  - apply Z.ltb_ge in E. replace (h + 1) with cap by lia. apply Z.mod_same. lia.
Qed.

Lemma next_hand_range cap h : 0 <= h < cap -> 0 <= (h + 1) mod cap < cap.
Proof. intros Hh. apply Z.mod_pos_bound. lia. Qed.

Lemma clock_ok_advance r refs :
  clock_ok r -> 0 <= hand_ r < cap_ r -> length refs = length (ref_ r) ->
  clock_ok {| present_ := present_ r; ref_ := refs;
              hand_ := (hand_ r + 1) mod cap_ r; cap_ := cap_ r |}.
Proof.
  intros (Hp & Hr & _) Hh Hl. unfold clock_ok. cbn [present_ ref_ hand_ cap_].
  rewrite Hl. repeat (split; [done|]). left. by apply next_hand_range.
Qed.

(** A sweep that returns a frame returns a candidate and removes it. *)
Lemma sweep_some fuel : forall r v r',
  clock_ok r -> 0 < cap_ r -> sweep fuel r = (Some v, r') ->
  0 <= v < cap_ r /\ present_ r !! Z.to_nat v = Some true /\
  present_ r' = <[Z.to_nat v := false]> (present_ r) /\
  clock_ok r' /\ cap_ r' = cap_ r.
Proof.
  induction fuel as [|fuel IH]; intros r v r' Hok Hcap Hs; [done|].
  pose proof Hok as (Hp & Hr & Hh).
  destruct Hh as [Hh|[Hh _]]; [|lia].
  pose proof (next_hand_range _ _ Hh) as Hn.
  cbn [sweep] in Hs.
  destruct (lookup_lt_is_Some_2 (present_ r) (Z.to_nat (hand_ r)) ltac:(lia)) as [bp Hbp].
  destruct (lookup_lt_is_Some_2 (ref_ r) (Z.to_nat (hand_ r)) ltac:(lia)) as [br Hbr].
  rewrite (at_lookup _ _ _ Hbp), (at_lookup _ _ _ Hbr) in Hs.
  destruct bp.
  - destruct br; cbn [negb] in Hs.
    + apply IH in Hs; [|apply clock_ok_advance; [done|done|apply length_insert]|done].
      cbn in Hs. exact Hs.
    + injection Hs as <- <-. unfold clock_ok, set_. cbn [present_ ref_ hand_ cap_].
      rewrite !length_insert. repeat (split; [done|]). split; [|done].
      repeat (split; [done|]). by left.
  - apply IH in Hs; [|by apply clock_ok_advance|done]. cbn in Hs. exact Hs.
Qed.

(** A candidate with a cleared reference bit is reached within its distance. *)
Lemma sweep_finds_cleared (d : nat) : forall fuel r g,
  clock_ok r -> 0 < cap_ r -> 0 <= g < cap_ r ->
  present_ r !! Z.to_nat g = Some true -> ref_ r !! Z.to_nat g = Some false ->
  clock_dist (cap_ r) (hand_ r) g = Z.of_nat d -> (d < fuel)%nat ->
  exists v r', sweep fuel r = (Some v, r').
Proof.
  induction d as [|d IH]; intros fuel r g Hok Hcap Hg Hpg Hrg Hd Hfuel;
    pose proof Hok as (Hp & Hr & Hh);
    (destruct fuel as [|fuel]; [lia|]);
    (destruct Hh as [Hh|[Hh _]]; [|lia]);
    pose proof (next_hand _ _ Hh) as Hnext;
    destruct (lookup_lt_is_Some_2 (present_ r) (Z.to_nat (hand_ r)) ltac:(lia)) as [bp Hbp];
    destruct (lookup_lt_is_Some_2 (ref_ r) (Z.to_nat (hand_ r)) ltac:(lia)) as [br Hbr];
    cbn [sweep]; rewrite (at_lookup _ _ _ Hbp), (at_lookup _ _ _ Hbr);
    unfold clock_dist in Hd.
  - assert (hand_ r = g) as Heq by (destruct (hand_ r <=? g) eqn:E;
      [apply Z.leb_le in E|apply Z.leb_gt in E]; lia).
    rewrite Heq in Hbp, Hbr. assert (bp = true) as -> by congruence.
    assert (br = false) as -> by congruence. cbn. eauto.
  - assert (hand_ r <> g) as Hne by (intros He; rewrite He, Z.leb_refl in Hd; lia).
    assert (Hd' : clock_dist (cap_ r) ((hand_ r + 1) mod cap_ r) g = Z.of_nat d).
    { rewrite Hnext. unfold clock_dist.
      destruct (hand_ r <=? g) eqn:E1; [apply Z.leb_le in E1|apply Z.leb_gt in E1];
        destruct (hand_ r + 1 <? cap_ r) eqn:E2;
        [apply Z.ltb_lt in E2|apply Z.ltb_ge in E2|apply Z.ltb_lt in E2|apply Z.ltb_ge in E2];
        match goal with |- context [?a <=? ?b] =>
          destruct (a <=? b) eqn:E3; [apply Z.leb_le in E3|apply Z.leb_gt in E3] end;
        lia. }
    destruct bp.
    + destruct br; cbn [negb]; [|eauto].
      apply (IH fuel _ g); cbn [present_ ref_ hand_ cap_]; try done; try lia.
      * apply clock_ok_advance; [done|done|apply length_insert].
      * unfold set_. destruct (decide (Z.to_nat (hand_ r) = Z.to_nat g)) as [He|He]; [lia|].
        by rewrite list_lookup_insert_ne.
    + apply (IH fuel _ g); cbn [present_ ref_ hand_ cap_]; try done; try lia.
      by apply clock_ok_advance.
Qed.

(** Any candidate makes a sweep of [d + 1 + cap] steps succeed. *)
Lemma sweep_finds_candidate (d : nat) : forall fuel r g,
  clock_ok r -> 0 < cap_ r -> 0 <= g < cap_ r ->
  present_ r !! Z.to_nat g = Some true ->
  clock_dist (cap_ r) (hand_ r) g = Z.of_nat d ->
  (Z.of_nat d + cap_ r < Z.of_nat fuel) ->
  exists v r', sweep fuel r = (Some v, r').
Proof.
  induction d as [|d IH]; intros fuel r g Hok Hcap Hg Hpg Hd Hfuel;
    pose proof Hok as (Hp & Hr & Hh);
    (destruct fuel as [|fuel]; [lia|]);
    (destruct Hh as [Hh|[Hh _]]; [|lia]);
    pose proof (next_hand _ _ Hh) as Hnext;
    destruct (lookup_lt_is_Some_2 (present_ r) (Z.to_nat (hand_ r)) ltac:(lia)) as [bp Hbp];
    destruct (lookup_lt_is_Some_2 (ref_ r) (Z.to_nat (hand_ r)) ltac:(lia)) as [br Hbr];
    cbn [sweep]; rewrite (at_lookup _ _ _ Hbp), (at_lookup _ _ _ Hbr);
    unfold clock_dist in Hd.
  - assert (hand_ r = g) as Heq by (destruct (hand_ r <=? g) eqn:E;
      [apply Z.leb_le in E|apply Z.leb_gt in E]; lia).
    rewrite Heq in Hbp, Hbr, Hnext. assert (bp = true) as -> by congruence.
    destruct br; cbn [negb]; [|eauto].
    set (r1 := {| present_ := present_ r; ref_ := set_ (ref_ r) (hand_ r) false;
                  hand_ := (hand_ r + 1) mod cap_ r; cap_ := cap_ r |}).
    assert (Hok1 : clock_ok r1).
    { apply clock_ok_advance; [done|done|apply length_insert]. }
    assert (exists d1 : nat, clock_dist (cap_ r1) (hand_ r1) g = Z.of_nat d1 /\
                             Z.of_nat d1 < cap_ r) as (d1 & Hd1 & Hlt).
    { cbn. rewrite Heq, Hnext. unfold clock_dist.
      destruct (g + 1 <? cap_ r) eqn:E; [apply Z.ltb_lt in E|apply Z.ltb_ge in E];
        match goal with |- context [?a <=? ?b] =>
          destruct (a <=? b) eqn:E3; [apply Z.leb_le in E3|apply Z.leb_gt in E3] end.
      - lia.
      - exists (Z.to_nat (g - (g + 1) + cap_ r)). lia.
      - exists (Z.to_nat (g - 0)). lia.
      - lia. }
    apply (sweep_finds_cleared d1 fuel r1 g); try done; try lia.
    cbn. unfold set_. rewrite Heq. apply list_lookup_insert_eq. lia.
  - assert (hand_ r <> g) as Hne by (intros He; rewrite He, Z.leb_refl in Hd; lia).
    assert (Hd' : clock_dist (cap_ r) ((hand_ r + 1) mod cap_ r) g = Z.of_nat d).
    { rewrite Hnext. unfold clock_dist.
      destruct (hand_ r <=? g) eqn:E1; [apply Z.leb_le in E1|apply Z.leb_gt in E1];
        destruct (hand_ r + 1 <? cap_ r) eqn:E2;
        [apply Z.ltb_lt in E2|apply Z.ltb_ge in E2|apply Z.ltb_lt in E2|apply Z.ltb_ge in E2];
        match goal with |- context [?a <=? ?b] =>
          destruct (a <=? b) eqn:E3; [apply Z.leb_le in E3|apply Z.leb_gt in E3] end;
        lia. }
    destruct bp.
    + destruct br; cbn [negb]; [|eauto].
      apply (IH fuel _ g); cbn [present_ ref_ hand_ cap_]; try done; try lia.
      apply clock_ok_advance; [done|done|apply length_insert].
    + apply (IH fuel _ g); cbn [present_ ref_ hand_ cap_]; try done; try lia.
      by apply clock_ok_advance.
Qed.

End ClockLaws.
Section ClockInstance.
Import ClockReplacer.

Lemma range_test (c f : Z) : ((f <? 0) || (c <=? f)) = false <-> 0 <= f < c.
Proof.
  rewrite orb_false_iff, Z.ltb_ge, Z.leb_gt. lia.
Qed.

Lemma clock_cand_range r f : clock_ok r -> clock_cand r f -> 0 <= f < cap_ r.
Proof. by intros _ [Hf _]. Qed.

Lemma clock_pin_laws r f : clock_ok r ->
  clock_ok (Pin r f) /\ cap_ (Pin r f) = cap_ r /\
  forall g, clock_cand (Pin r f) g <-> clock_cand r g /\ g <> f.
Proof.
  intros Hok. pose proof Hok as (Hp & Hr & Hh). unfold Pin.
  destruct ((f <? 0) || (cap_ r <=? f)) eqn:E.
  - split; [done|]. split; [done|]. intros g. split; [|by intros [? _]].
    intros Hc. split; [done|]. intros ->. destruct Hc as [Hg _].
    apply range_test in Hg. congruence.
  - apply range_test in E. split.
    { unfold clock_ok, set_. cbn [present_ ref_ hand_ cap_]. by rewrite !length_insert. }
    split; [done|]. intros g. unfold clock_cand, set_. cbn [present_ cap_].
    destruct (decide (g = f)) as [->|Hne].
    + rewrite list_lookup_insert_eq by lia. split; [intros [_ [=]]|by intros [_ ?]].
    + split.
      * intros [Hg Hl]. by rewrite list_lookup_insert_ne in Hl by lia.
      * intros [[Hg Hl] _]. split; [done|]. by rewrite list_lookup_insert_ne by lia.
Qed.

Lemma clock_unpin_laws r f : clock_ok r -> 0 <= f < cap_ r ->
  clock_ok (Unpin r f) /\ cap_ (Unpin r f) = cap_ r /\
  forall g, clock_cand (Unpin r f) g <-> clock_cand r g \/ g = f.
Proof.
  intros Hok Hf. pose proof Hok as (Hp & Hr & Hh). unfold Unpin.
  apply range_test in Hf as E. rewrite E. split.
  { unfold clock_ok, set_. cbn [present_ ref_ hand_ cap_]. by rewrite !length_insert. }
  split; [done|]. intros g. unfold clock_cand, set_. cbn [present_ cap_].
  destruct (decide (g = f)) as [->|Hne].
  - rewrite list_lookup_insert_eq by lia. split; [by right|done].
  - split.
    + intros [Hg Hl]. left. by rewrite list_lookup_insert_ne in Hl by lia.
    + intros [[Hg Hl]|Hc]; [|done]. split; [done|].
      by rewrite list_lookup_insert_ne by lia.
Qed.

Lemma clock_victim_some r v r' : clock_ok r -> Victim r = (Some v, r') ->
  clock_cand r v /\ clock_ok r' /\ cap_ r' = cap_ r /\
  forall g, clock_cand r' g <-> clock_cand r g /\ g <> v.
Proof.
  intros Hok Hv. pose proof Hok as (Hp & Hr & Hh). unfold Victim in Hv.
  destruct (cap_ r =? 0) eqn:E; [done|]. apply Z.eqb_neq in E.
  apply sweep_some in Hv as (Hvr & Hpv & Hp' & Hok' & Hcap); [|done|lia].
  split; [done|]. split; [done|]. split; [done|].
  intros g. unfold clock_cand. rewrite Hcap, Hp'.
  destruct (decide (g = v)) as [->|Hne].
  - rewrite list_lookup_insert_eq by lia. split; [intros [_ [=]]|by intros [_ ?]].
  - split.
    + intros [Hg Hl]. rewrite list_lookup_insert_ne in Hl by lia. done.
    + intros [[Hg Hl] _]. split; [done|]. by rewrite list_lookup_insert_ne by lia.
Qed.

Lemma clock_victim_none r r' : clock_ok r -> Victim r = (None, r') ->
  forall g, ~ clock_cand r g.
Proof.
  intros Hok Hv g [Hg Hl]. unfold Victim in Hv.
  destruct (cap_ r =? 0) eqn:E; [apply Z.eqb_eq in E; lia|].
  pose proof Hok as (Hp & Hr & [Hh|[Hh _]]); [|lia].
  assert (0 <= clock_dist (cap_ r) (hand_ r) g < cap_ r) as Hd.
  { unfold clock_dist. destruct (hand_ r <=? g) eqn:E1;
      [apply Z.leb_le in E1|apply Z.leb_gt in E1]; lia. }
  destruct (sweep_finds_candidate (Z.to_nat (clock_dist (cap_ r) (hand_ r) g))
              (Z.to_nat (cap_ r * 2)) r g) as (v & r1 & Hs); try done; try lia.
  congruence.
Qed.

End ClockInstance.

#[global] Instance ClockReplacer_laws : ReplacerLaws ClockReplacer.t := {
  rOk := clock_ok;
  rCap := ClockReplacer.cap_;
  rCand := clock_cand;
  rCand_range := clock_cand_range;
  rPin_laws := clock_pin_laws;
  rUnpin_laws := clock_unpin_laws;
  rVictim_some := clock_victim_some;
  rVictim_none := clock_victim_none
}.

Lemma clock_make_ok (c : Z) : 0 <= c ->
  clock_ok (ClockReplacer.make c) /\ ClockReplacer.cap_ (ClockReplacer.make c) = c /\
  forall g, ~ clock_cand (ClockReplacer.make c) g.
Proof.
  intros Hc. split; [|split; [done|]].
  - unfold clock_ok, ClockReplacer.make. cbn. rewrite !length_replicate. lia.
  - intros g [Hg Hl]. cbn in Hl. apply lookup_replicate in Hl as [[=] _].
Qed.
(** * Byte buffers *)

Section MemProofs.

Lemma Z_of_byte_range b : 0 <= Z_of_byte b < 256.
Proof.
  unfold Z_of_byte. pose proof (Byte.to_N_bounded b) as H. lia.
Qed.

Lemma Z_of_byte_of_Z z : Z_of_byte (byte_of_Z z) = z mod 256.
Proof.
  unfold Z_of_byte, byte_of_Z.
  assert (0 <= z mod 256 < 256) as Hr by (apply Z.mod_pos_bound; lia).
  destruct (Byte.of_N (Z.to_N (z mod 256))) as [b|] eqn:E.
  - apply Byte.to_of_N in E. rewrite E. lia.
  - apply Byte.of_N_None_iff in E. lia.
Qed.

Lemma byte_of_Z_of_byte b : byte_of_Z (Z_of_byte b) = b.
Proof.
  unfold byte_of_Z. pose proof (Z_of_byte_range b) as Hr.
  rewrite Z.mod_small by lia. unfold Z_of_byte. rewrite N2Z.id.
  by rewrite Byte.of_to_N.
Qed.

Lemma length_store m a bs : length (store m a bs) = length m.
Proof.
  unfold store. case_decide as H; [|done].
  rewrite !length_app, length_take, length_drop. lia.
Qed.

Lemma length_sub m a len :
  0 <= a -> 0 <= len -> a + len <= Z.of_nat (length m) ->
  length (sub m a len) = Z.to_nat len.
Proof.
  intros. unfold sub. rewrite length_take, length_drop. lia.
Qed.

Lemma load8_lookup m a : load8 m a = default x00 (m !! Z.to_nat a).
Proof. unfold load8. by rewrite nth_lookup. Qed.

Lemma load8_store_out m a bs x :
  0 <= x -> (x < a \/ a + Z.of_nat (length bs) <= x) ->
  load8 (store m a bs) x = load8 m x.
Proof.
  intros Hx Hout. unfold store. case_decide as H; [|done].
  rewrite !load8_lookup. f_equal. destruct Hout as [Hlt|Hge].
  - rewrite lookup_app_l by (rewrite length_take; lia).
    rewrite lookup_take_lt by lia. done.
  - rewrite lookup_app_r by (rewrite length_take; lia).
    rewrite lookup_app_r by (rewrite length_take; lia).
    rewrite lookup_drop, length_take. f_equal. lia.
Qed.

Lemma load8_store_in m a bs x :
  0 <= a -> a + Z.of_nat (length bs) <= Z.of_nat (length m) ->
  a <= x < a + Z.of_nat (length bs) ->
  load8 (store m a bs) x = nth (Z.to_nat (x - a)) bs x00.
Proof.
  intros Ha Hfit Hx. unfold store. rewrite decide_True by done.
  rewrite load8_lookup, nth_lookup. f_equal.
  rewrite lookup_app_r by (rewrite length_take; lia).
  rewrite lookup_app_l by (rewrite length_take; lia).
  rewrite length_take. f_equal. lia.
Qed.

Lemma nth_sub m a len (k : nat) :
  0 <= a -> Z.of_nat k < len ->
  nth k (sub m a len) x00 = load8 m (a + Z.of_nat k).
Proof.
  intros Ha Hk. unfold sub. rewrite load8_lookup, nth_lookup. f_equal.
  rewrite lookup_take_lt by lia. rewrite lookup_drop. f_equal. lia.
Qed.

Lemma load8_memmove_in m dst src len x :
  0 <= dst -> 0 <= src -> 0 <= len ->
  dst + len <= Z.of_nat (length m) -> src + len <= Z.of_nat (length m) ->
  dst <= x < dst + len ->
  load8 (memmove m dst src len) x = load8 m (src + (x - dst)).
Proof.
  intros. unfold memmove.
  rewrite load8_store_in by (rewrite ?length_sub; lia).
  rewrite nth_sub by lia. f_equal. lia.
Qed.

Lemma load8_memmove_out m dst src len x :
  0 <= x -> 0 <= src -> 0 <= len -> src + len <= Z.of_nat (length m) ->
  (x < dst \/ dst + len <= x) ->
  load8 (memmove m dst src len) x = load8 m x.
Proof.
  intros. unfold memmove. apply load8_store_out; [done|].
  rewrite length_sub by lia. lia.
Qed.

Lemma length_memmove m dst src len : length (memmove m dst src len) = length m.
Proof. apply length_store. Qed.

(** Two slices are equal when they agree byte by byte. *)
Lemma sub_ext m1 a1 m2 a2 len :
  0 <= a1 -> 0 <= a2 -> 0 <= len ->
  a1 + len <= Z.of_nat (length m1) -> a2 + len <= Z.of_nat (length m2) ->
  (forall k, 0 <= k < len -> load8 m1 (a1 + k) = load8 m2 (a2 + k)) ->
  sub m1 a1 len = sub m2 a2 len.
Proof.
  intros H1 H2 Hl Hf1 Hf2 Hext.
  apply (nth_ext _ _ x00 x00).
  - rewrite !length_sub by lia. done.
  - intros k Hk. rewrite length_sub in Hk by lia.
    rewrite !nth_sub by lia. apply Hext. lia.
Qed.

Lemma sub_store_same m a bs :
  0 <= a -> a + Z.of_nat (length bs) <= Z.of_nat (length m) ->
  sub (store m a bs) a (Z.of_nat (length bs)) = bs.
Proof.
  intros Ha Hfit. unfold sub, store. rewrite decide_True by done.
  rewrite drop_app_length' by (rewrite length_take; lia).
  rewrite Nat2Z.id. by rewrite take_app_length.
Qed.

Lemma sub_store_other m a bs a' len :
  0 <= a' -> 0 <= len -> a' + len <= Z.of_nat (length m) ->
  (a' + len <= a \/ a + Z.of_nat (length bs) <= a') ->
  sub (store m a bs) a' len = sub m a' len.
Proof.
  intros Ha' Hl Hfit Hdis. apply sub_ext; try lia.
  - rewrite length_store. lia.
  - intros k Hk. apply load8_store_out; lia.
Qed.

Lemma load16_range m a : 0 <= load16 m a < 65536.
Proof.
  unfold load16.
  pose proof (Z_of_byte_range (load8 m a)).
  pose proof (Z_of_byte_range (load8 m (a + 1))). lia.
Qed.

Lemma load16_ext m1 m2 a :
  load8 m1 a = load8 m2 a -> load8 m1 (a + 1) = load8 m2 (a + 1) ->
  load16 m1 a = load16 m2 a.
Proof. unfold load16. by intros -> ->. Qed.

Lemma load16_store_other m a bs a' :
  0 <= a' -> (a' + 2 <= a \/ a + Z.of_nat (length bs) <= a') ->
  load16 (store m a bs) a' = load16 m a'.
Proof.
  intros Ha' Hdis. apply load16_ext; apply load8_store_out; lia.
Qed.

Lemma load16_store16_same m a v :
  0 <= a -> a + 2 <= Z.of_nat (length m) ->
  load16 (store16 m a v) a = v mod 65536.
Proof.
  intros Ha Hfit. unfold load16, store16.
  rewrite !load8_store_in by (simpl; lia).
  replace (Z.to_nat (a - a)) with 0%nat by lia.
  replace (Z.to_nat (a + 1 - a)) with 1%nat by lia. simpl.
  rewrite !Z_of_byte_of_Z. lia.
Qed.

Lemma load16_store16_other m a v a' :
  0 <= a' -> (a' + 2 <= a \/ a + 2 <= a') ->
  load16 (store16 m a v) a' = load16 m a'.
Proof. intros. unfold store16. apply load16_store_other; simpl; lia. Qed.

Lemma length_store16 m a v : length (store16 m a v) = length m.
Proof. apply length_store. Qed.

Lemma load8_store16_other m a v x :
  0 <= x -> (x < a \/ a + 2 <= x) ->
  load8 (store16 m a v) x = load8 m x.
Proof. intros. unfold store16. apply load8_store_out; simpl; lia. Qed.

Lemma sub_store16_other m a v a' len :
  0 <= a' -> 0 <= len -> a' + len <= Z.of_nat (length m) ->
  (a' + len <= a \/ a + 2 <= a') ->
  sub (store16 m a v) a' len = sub m a' len.
Proof. intros. unfold store16. apply sub_store_other; simpl; lia. Qed.

Lemma load16_memmove_other m dst src len a' :
  0 <= a' -> 0 <= src -> 0 <= len -> src + len <= Z.of_nat (length m) ->
  (a' + 2 <= dst \/ dst + len <= a') ->
  load16 (memmove m dst src len) a' = load16 m a'.
Proof.
  intros. apply load16_ext; apply load8_memmove_out; lia.
Qed.

End MemProofs.
(** * Slotted page *)

Section PageProofs.
Import PageHeader SlottedPage.

Ltac unf :=
  unfold slot_count, free_off, free_size, set_slot_count, set_free_off, set_free_size,
    slot_off, slot_len, set_slot_off, set_slot_len, SlotAt, sizeof_Slot, sizeof,
    off_slot_count, off_free_off, off_free_size, u16, u32 in *.

Ltac len_rw := rewrite ?length_store16, ?length_store, ?length_memmove in *.

Ltac mem_step :=
  first
  [ rewrite load16_store16_same by (len_rw; lia)
  | rewrite load16_store16_other by lia
  | rewrite load16_store_other by (rewrite ?length_take; lia)
  | rewrite load8_store16_other by lia
  | rewrite load8_store_out by (rewrite ?length_take; lia) ].

Ltac mem := repeat mem_step.

Lemma place_new_spec psz m rec len :
  page_wf psz m -> 0 < len -> len <= Z.of_nat (length rec) ->
  len + 4 <= free_size m ->
  let r := place psz m rec len None in
  fst r = slot_count m /\
  length (snd r) = length m /\
  slot_count (snd r) = slot_count m + 1 /\
  free_off (snd r) = free_off m + len /\
  free_size (snd r) = free_size m - len - 4 /\
  slot_off psz (snd r) (slot_count m) = free_off m /\
  slot_len psz (snd r) (slot_count m) = len /\
  (forall i, 0 <= i < slot_count m ->
     slot_off psz (snd r) i = slot_off psz m i /\
     slot_len psz (snd r) i = slot_len psz m i) /\
  (forall x, 0 <= x < psz ->
     (x < 16 \/ 22 <= x < free_off m \/ free_off m + len <= x < psz - (slot_count m + 1) * 4) ->
     load8 (snd r) x = load8 m x) /\
  sub (snd r) (free_off m) len = take (Z.to_nat len) rec.
Proof.
  intros [Hpsz Hlen Hhdr Hfo Hlive Hdisj] Hpos Hrec Hfit.
  pose proof (load16_range m 16) as Rn.
  pose proof (load16_range m 18) as Rfo.
  pose proof (load16_range m 20) as Rfs.
  unfold place. simpl. unf.
  set (bs := take (Z.to_nat len) rec).
  assert (Z.of_nat (length bs) = len) as Hbs by (unfold bs; rewrite length_take; lia).
  set (n := load16 m 16) in *. set (fo := load16 m 18) in *. set (fs := load16 m 20) in *.
  set (m1 := store m fo bs).
  assert (Hl1 : length m1 = length m) by apply length_store.
  assert (H1n : load16 m1 16 = n) by (unfold m1; apply load16_store_other; lia).
  assert (H1fo : load16 m1 18 = fo) by (unfold m1; apply load16_store_other; lia).
  assert (H1fs : load16 m1 20 = fs) by (unfold m1; apply load16_store_other; lia).
  rewrite H1fo.
  set (m2 := store16 m1 18 ((fo + len) mod 65536)).
  assert (H2fs : load16 m2 20 = fs) by (unfold m2; rewrite load16_store16_other by lia; done).
  rewrite H2fs.
  set (m3 := store16 m2 20 ((fs - len) mod 65536)).
  assert (H3n : load16 m3 16 = n)
    by (unfold m3, m2; rewrite !load16_store16_other by lia; done).
  rewrite H3n.
  set (m4 := store16 m3 16 ((n + 1) mod 65536)).
  assert (H4fs : load16 m4 20 = (fs - len) mod 65536).
  { unfold m4. rewrite load16_store16_other by lia. unfold m3.
    rewrite load16_store16_same; unfold m2; len_rw; lia. }
  rewrite H4fs.
  set (m5 := store16 m4 20 (((fs - len) mod 65536 - 4) mod 65536)).
  set (m6 := store16 m5 (psz - (n + 1) * 4) fo).
  set (m7 := store16 m6 (psz - (n + 1) * 4 + 2) len).
  assert (Hl7 : length m7 = length m)
    by (unfold m7, m6, m5, m4, m3, m2; len_rw; done).
  split; [done|]. split; [done|].
  split. { unfold m7, m6. rewrite !load16_store16_other by lia.
           unfold m5. rewrite load16_store16_other by lia.
           unfold m4. rewrite load16_store16_same; unfold m3, m2; len_rw; lia. }
  split. { unfold m7, m6, m5, m4, m3. rewrite !load16_store16_other by lia.
           unfold m2. rewrite load16_store16_same; len_rw; lia. }
  split. { unfold m7, m6. rewrite !load16_store16_other by lia.
           unfold m5. rewrite load16_store16_same; unfold m4, m3, m2; len_rw; lia. }
  split. { unfold m7. rewrite load16_store16_other by lia.
           unfold m6. rewrite load16_store16_same; unfold m5, m4, m3, m2; len_rw; lia. }
  split. { unfold m7. rewrite load16_store16_same; unfold m6, m5, m4, m3, m2; len_rw; lia. }
  split. { intros i Hi. unfold m7, m6, m5, m4, m3, m2.
           rewrite !load16_store16_other by lia.
           unfold m1. rewrite !load16_store_other by lia. done. }
  split. { intros x Hx Hreg. unfold m7, m6, m5, m4, m3, m2.
           rewrite !load8_store16_other by lia.
           unfold m1. rewrite load8_store_out by lia. done. }
  unfold m7, m6, m5, m4, m3, m2.
  rewrite !sub_store16_other by (len_rw; lia).
  unfold m1. rewrite <- Hbs at 1. apply sub_store_same; lia.
Qed.

Lemma place_reuse_spec psz m rec len t :
  page_wf psz m -> 0 < len -> len <= Z.of_nat (length rec) ->
  len <= free_size m -> 0 <= t < slot_count m ->
  let r := place psz m rec len (Some t) in
  fst r = t /\
  length (snd r) = length m /\
  slot_count (snd r) = slot_count m /\
  free_off (snd r) = free_off m + len /\
  free_size (snd r) = free_size m - len /\
  slot_off psz (snd r) t = free_off m /\
  slot_len psz (snd r) t = len /\
  (forall i, 0 <= i < slot_count m -> i <> t ->
     slot_off psz (snd r) i = slot_off psz m i /\
     slot_len psz (snd r) i = slot_len psz m i) /\
  (forall x, 32 <= x < free_off m -> load8 (snd r) x = load8 m x) /\
  sub (snd r) (free_off m) len = take (Z.to_nat len) rec.
Proof.
  intros [Hpsz Hlen Hhdr Hfo Hlive Hdisj] Hpos Hrec Hfit Ht.
  pose proof (load16_range m 16) as Rn.
  pose proof (load16_range m 18) as Rfo.
  pose proof (load16_range m 20) as Rfs.
  unfold place. simpl. unf.
  set (bs := take (Z.to_nat len) rec).
  assert (Z.of_nat (length bs) = len) as Hbs by (unfold bs; rewrite length_take; lia).
  set (n := load16 m 16) in *. set (fo := load16 m 18) in *. set (fs := load16 m 20) in *.
  set (m1 := store m fo bs).
  assert (Hl1 : length m1 = length m) by apply length_store.
  assert (H1fo : load16 m1 18 = fo) by (unfold m1; apply load16_store_other; lia).
  assert (H1fs : load16 m1 20 = fs) by (unfold m1; apply load16_store_other; lia).
  rewrite H1fo.
  set (m2 := store16 m1 18 ((fo + len) mod 65536)).
  assert (H2fs : load16 m2 20 = fs) by (unfold m2; rewrite load16_store16_other by lia; done).
  rewrite H2fs.
  set (m3 := store16 m2 20 ((fs - len) mod 65536)).
  set (m6 := store16 m3 (psz - (t + 1) * 4) fo).
  set (m7 := store16 m6 (psz - (t + 1) * 4 + 2) len).
  assert (Hl7 : length m7 = length m)
    by (unfold m7, m6, m3, m2, m1; len_rw; done).
  split; [done|]. split; [done|].
  split. { unfold m7, m6, m3, m2. rewrite !load16_store16_other by lia.
           unfold m1. apply load16_store_other; lia. }
  split. { unfold m7, m6, m3. rewrite !load16_store16_other by lia.
           unfold m2. rewrite load16_store16_same; unfold m1; len_rw; lia. }
  split. { unfold m7, m6. rewrite !load16_store16_other by lia.
           unfold m3. rewrite load16_store16_same; unfold m2, m1; len_rw; lia. }
  split. { unfold m7. rewrite load16_store16_other by lia.
           unfold m6. rewrite load16_store16_same; unfold m3, m2, m1; len_rw; lia. }
  split. { unfold m7. rewrite load16_store16_same; unfold m6, m3, m2, m1; len_rw; lia. }
  split. { intros i Hi Hit. unfold m7, m6, m3, m2.
           rewrite !load16_store16_other by lia.
           unfold m1. rewrite !load16_store_other by lia. done. }
  split. { intros x Hx. unfold m7, m6, m3, m2.
           rewrite !load8_store16_other by lia.
           unfold m1. rewrite load8_store_out by lia. done. }
  unfold m7, m6, m3, m2.
  rewrite !sub_store16_other by (len_rw; lia).
  unfold m1. rewrite <- Hbs at 1. apply sub_store_same; lia.
Qed.

(** The in-place branch of [Update]. *)
Lemma update_in_place_spec psz m s rec len :
  page_wf psz m -> 0 <= s < slot_count m -> slot_len psz m s <> 0 ->
  0 <= len <= slot_len psz m s -> len <= Z.of_nat (length rec) ->
  let m' := set_slot_len psz (store m (slot_off psz m s) (take (Z.to_nat len) rec)) s len in
  length m' = length m /\
  slot_count m' = slot_count m /\ free_off m' = free_off m /\ free_size m' = free_size m /\
  slot_len psz m' s = len /\
  (forall i, 0 <= i < slot_count m -> slot_off psz m' i = slot_off psz m i) /\
  (forall i, 0 <= i < slot_count m -> i <> s -> slot_len psz m' i = slot_len psz m i) /\
  (forall x, 32 <= x < free_off m ->
     (x < slot_off psz m s \/ slot_off psz m s + len <= x) -> load8 m' x = load8 m x) /\
  sub m' (slot_off psz m s) len = take (Z.to_nat len) rec.
Proof.
  intros Hwf Hs Hlive Hle Hrec. pose proof Hwf as [Hpsz Hlen Hhdr Hfo Hl Hdisj].
  destruct (Hl s Hs Hlive) as [Hlo Hhi].
  pose proof (load16_range m 16) as Rn.
  pose proof (load16_range m 18) as Rfo.
  pose proof (load16_range m 20) as Rfs.
  unf.
  set (bs := take (Z.to_nat len) rec).
  assert (Z.of_nat (length bs) = len) as Hbs by (unfold bs; rewrite length_take; lia).
  set (n := load16 m 16) in *. set (fo := load16 m 18) in *. set (fs := load16 m 20) in *.
  set (so := load16 m (psz - (s + 1) * 4)) in *.
  set (sl := load16 m (psz - (s + 1) * 4 + 2)) in *.
  set (m1 := store m so bs).
  assert (Hl1 : length m1 = length m) by apply length_store.
  set (m2 := store16 m1 (psz - (s + 1) * 4 + 2) len). simpl.
  split. { unfold m2, m1. len_rw. done. }
  split. { unfold m2. rewrite load16_store16_other by lia.
           unfold m1. apply load16_store_other; lia. }
  split. { unfold m2. rewrite load16_store16_other by lia.
           unfold m1. apply load16_store_other; lia. }
  split. { unfold m2. rewrite load16_store16_other by lia.
           unfold m1. apply load16_store_other; lia. }
  split. { unfold m2. rewrite load16_store16_same; unfold m1; len_rw; lia. }
  split. { intros i Hi. unfold m2. rewrite load16_store16_other by lia.
           unfold m1. apply load16_store_other; lia. }
  split. { intros i Hi His. unfold m2. rewrite load16_store16_other by lia.
           unfold m1. apply load16_store_other; lia. }
  split. { intros x Hx Hout. unfold m2. rewrite load8_store16_other by lia.
           unfold m1. apply load8_store_out; lia. }
  unfold m2. rewrite sub_store16_other by (len_rw; lia).
  unfold m1. rewrite <- Hbs at 1. apply sub_store_same; lia.
Qed.

(** The append branch of [Update], on the page [m] it starts from. *)
Lemma update_append_spec psz m s rec len :
  page_wf psz m -> 0 <= s < slot_count m ->
  0 < len -> len <= free_size m -> len <= Z.of_nat (length rec) ->
  let m1 := store m (free_off m) (take (Z.to_nat len) rec) in
  let m2 := set_slot_off psz m1 s (free_off m1) in
  let m3 := set_slot_len psz m2 s len in
  let m4 := set_free_off m3 (u16 (free_off m3 + len)) in
  let m' := set_free_size m4 (u16 (free_size m4 - len)) in
  length m' = length m /\
  slot_count m' = slot_count m /\
  free_off m' = free_off m + len /\ free_size m' = free_size m - len /\
  slot_off psz m' s = free_off m /\ slot_len psz m' s = len /\
  (forall i, 0 <= i < slot_count m -> i <> s ->
     slot_off psz m' i = slot_off psz m i /\ slot_len psz m' i = slot_len psz m i) /\
  (forall x, 32 <= x < free_off m -> load8 m' x = load8 m x) /\
  sub m' (free_off m) len = take (Z.to_nat len) rec.
Proof.
  intros [Hpsz Hlen Hhdr Hfo Hlive Hdisj] Hs Hpos Hfit Hrec.
  pose proof (load16_range m 16) as Rn.
  pose proof (load16_range m 18) as Rfo.
  pose proof (load16_range m 20) as Rfs.
  unf.
  set (bs := take (Z.to_nat len) rec).
  assert (Z.of_nat (length bs) = len) as Hbs by (unfold bs; rewrite length_take; lia).
  set (n := load16 m 16) in *. set (fo := load16 m 18) in *. set (fs := load16 m 20) in *.
  set (m1 := store m fo bs).
  assert (Hl1 : length m1 = length m) by apply length_store.
  assert (H1fo : load16 m1 18 = fo) by (unfold m1; apply load16_store_other; lia).
  assert (H1fs : load16 m1 20 = fs) by (unfold m1; apply load16_store_other; lia).
  rewrite H1fo.
  set (m2 := store16 m1 (psz - (s + 1) * 4) fo).
  set (m3 := store16 m2 (psz - (s + 1) * 4 + 2) len).
  assert (H3fo : load16 m3 18 = fo)
    by (unfold m3, m2; rewrite !load16_store16_other by lia; done).
  rewrite H3fo.
  set (m4 := store16 m3 18 ((fo + len) mod 65536)).
  assert (H4fs : load16 m4 20 = fs)
    by (unfold m4, m3, m2; rewrite !load16_store16_other by lia; done).
  rewrite H4fs.
  set (m5 := store16 m4 20 ((fs - len) mod 65536)). simpl.
  split. { unfold m5, m4, m3, m2, m1. len_rw. done. }
  split. { unfold m5, m4, m3, m2. rewrite !load16_store16_other by lia.
           unfold m1. apply load16_store_other; lia. }
  split. { unfold m5. rewrite load16_store16_other by lia.
           unfold m4. rewrite load16_store16_same; unfold m3, m2, m1; len_rw; lia. }
  split. { unfold m5. rewrite load16_store16_same; unfold m4, m3, m2, m1; len_rw; lia. }
  split. { unfold m5, m4, m3. rewrite !load16_store16_other by lia.
           unfold m2. rewrite load16_store16_same; unfold m1; len_rw; lia. }
  split. { unfold m5, m4. rewrite !load16_store16_other by lia.
           unfold m3. rewrite load16_store16_same; unfold m2, m1; len_rw; lia. }
  split. { intros i Hi His. unfold m5, m4, m3, m2.
           rewrite !load16_store16_other by lia.
           unfold m1. rewrite !load16_store_other by lia. done. }
  split. { intros x Hx. unfold m5, m4, m3, m2.
           rewrite !load8_store16_other by lia.
           unfold m1. apply load8_store_out; lia. }
  unfold m5, m4, m3, m2.
  rewrite !sub_store16_other by (len_rw; lia).
  unfold m1. rewrite <- Hbs at 1. apply sub_store_same; lia.
Qed.

Lemma erase_spec psz m s v :
  page_wf psz m -> 0 <= s < slot_count m -> 0 <= v < 65536 ->
  let m' := set_slot_len psz m s v in
  length m' = length m /\
  slot_count m' = slot_count m /\ free_off m' = free_off m /\ free_size m' = free_size m /\
  slot_len psz m' s = v /\
  (forall i, 0 <= i < slot_count m -> slot_off psz m' i = slot_off psz m i) /\
  (forall i, 0 <= i < slot_count m -> i <> s -> slot_len psz m' i = slot_len psz m i) /\
  (forall x, 32 <= x < free_off m -> load8 m' x = load8 m x).
Proof.
  intros [Hpsz Hlen Hhdr Hfo Hlive Hdisj] Hs Hv.
  pose proof (load16_range m 16) as Rn.
  pose proof (load16_range m 18) as Rfo.
  pose proof (load16_range m 20) as Rfs.
  unf. simpl.
  split. { len_rw. done. }
  split. { rewrite load16_store16_other by lia. done. }
  split. { rewrite load16_store16_other by lia. done. }
  split. { rewrite load16_store16_other by lia. done. }
  split. { rewrite load16_store16_same by lia. lia. }
  split. { intros i Hi. rewrite load16_store16_other by lia. done. }
  split. { intros i Hi His. rewrite load16_store16_other by lia. done. }
  intros x Hx. rewrite load8_store16_other by lia. done.
Qed.

End PageProofs.
Section CompactProofs.
Import PageHeader SlottedPage.

Ltac unf :=
  unfold slot_count, free_off, free_size, set_slot_count, set_free_off, set_free_size,
    slot_off, slot_len, set_slot_off, set_slot_len, SlotAt, sizeof_Slot, sizeof,
    off_slot_count, off_free_off, off_free_size, u16, u32 in *.

Ltac len_rw := rewrite ?length_store16, ?length_store, ?length_memmove in *.

Lemma compact_step_spec psz m n fo q cur done e :
  Z.of_nat (length m) = psz -> psz <= 65536 -> 0 <= n -> fo + n * 4 <= psz ->
  compact_state psz m n fo q cur done ->
  Forall (entry_ok psz m n fo) done ->
  entry_ok psz m n fo e ->
  cur <= l_off e ->
  (forall a, a ∈ done -> l_slot a <> l_slot e) ->
  exists q',
    compact_step psz (q, cur) e = (q', cur + l_len e) /\
    compact_state psz m n fo q' (cur + l_len e) (done ++ [e]).
Proof.
  intros Hlen Hpsz Hn Hdir [Hl Hcur Hhdr Hlens Hrest Hmoved Hdisj] Hdone
    (Hslot & Helen & Hne & Heoff & Hlo & Hhi) Hce Hfresh.
  pose proof (load16_range m (SlotAt psz (l_slot e) + 2)) as Rlen.
  fold (slot_len psz m (l_slot e)) in Rlen. rewrite <- Helen in Rlen.
  unfold compact_step.
  assert ((l_off e <? sizeof) || (psz <? l_off e + l_len e) = false) as ->.
  { apply orb_false_iff. split; [apply Z.ltb_ge|apply Z.ltb_ge]; unf; lia. }
  eexists. split.
  { f_equal. unf. apply Z.mod_small. lia. }
  set (q1 := memmove q cur (l_off e) (l_len e)).
  assert (Hq1out : forall x, 0 <= x -> (x < cur \/ cur + l_len e <= x) -> load8 q1 x = load8 q x).
  { intros x Hx Hout. unfold q1. apply load8_memmove_out; unf; lia. }
  assert (Hq1in : forall k, 0 <= k < l_len e -> load8 q1 (cur + k) = load8 m (l_off e + k)).
  { intros k Hk. unfold q1. rewrite load8_memmove_in by (unf; lia).
    replace (l_off e + (cur + k - cur)) with (l_off e + k) by lia.
    apply Hrest. unf. lia. }
  set (q2 := set_slot_off psz q1 (l_slot e) cur).
  assert (Hq2out : forall x, 0 <= x ->
            (x < psz - (l_slot e + 1) * 4 \/ psz - (l_slot e + 1) * 4 + 2 <= x) ->
            load8 q2 x = load8 q1 x).
  { intros x Hx Hout. unfold q2. unf. apply load8_store16_other; lia. }
  assert (Hoff_e : slot_off psz q2 (l_slot e) = cur).
  { unfold q2. unf. rewrite load16_store16_same; unfold q1; len_rw; lia. }
  assert (Hoff_other : forall i, 0 <= i < n -> i <> l_slot e ->
            slot_off psz q2 i = slot_off psz q i).
  { intros i Hi Hie. unfold q2. unf. rewrite load16_store16_other by lia.
    unfold q1. apply load16_memmove_other; lia. }
  assert (Hlen_all : forall i, 0 <= i < n -> slot_len psz q2 i = slot_len psz q i).
  { intros i Hi. unfold q2. unf. rewrite load16_store16_other by lia.
    unfold q1. apply load16_memmove_other; lia. }
  split.
  - unfold q2, q1. unf. len_rw. done.
  - unf. lia.
  - intros x Hx. rewrite Hq2out by (unf; lia). rewrite Hq1out by (unf; lia). by apply Hhdr.
  - intros i Hi. rewrite Hlen_all by done. by apply Hlens.
  - intros x Hx. rewrite Hq2out by (unf; lia). rewrite Hq1out by (unf; lia).
    apply Hrest. unf. lia.
  - intros a Ha. apply elem_of_app in Ha as [Ha|Ha].
    + destruct (Hmoved a Ha) as (Ha1 & Ha2 & Ha3).
      rewrite List.Forall_forall in Hdone.
      destruct (Hdone a (proj1 (list_elem_of_In _ _) Ha)) as (Hsa & Hla & _).
      pose proof (load16_range m (SlotAt psz (l_slot a) + 2)) as Ra.
      fold (slot_len psz m (l_slot a)) in Ra. rewrite <- Hla in Ra.
      unfold moved. rewrite Hoff_other by (try apply Hfresh; done).
      split; [done|]. split; [lia|].
      intros k Hk. rewrite Hq2out by (unf; lia). rewrite Hq1out by (unf; lia).
      by apply Ha3.
    + apply list_elem_of_singleton in Ha as ->. unfold moved. rewrite Hoff_e.
      split; [unf; lia|]. split; [lia|].
      intros k Hk. rewrite Hq2out by (unf; lia). by apply Hq1in.
  - intros a b Ha Hb Hab.
    apply elem_of_app in Ha as [Ha|Ha]; apply elem_of_app in Hb as [Hb|Hb].
    + rewrite List.Forall_forall in Hdone.
      destruct (Hdone a (proj1 (list_elem_of_In _ _) Ha)) as (Hsa & _).
      destruct (Hdone b (proj1 (list_elem_of_In _ _) Hb)) as (Hsb & _).
      rewrite !Hoff_other by (try apply Hfresh; done). by apply Hdisj.
    + apply list_elem_of_singleton in Hb as ->.
      rewrite List.Forall_forall in Hdone.
      destruct (Hdone a (proj1 (list_elem_of_In _ _) Ha)) as (Hsa & _).
      destruct (Hmoved a Ha) as (Ha1 & Ha2 & _).
      rewrite Hoff_e, Hoff_other by (try apply Hfresh; done). lia.
    + apply list_elem_of_singleton in Ha as ->.
      rewrite List.Forall_forall in Hdone.
      destruct (Hdone b (proj1 (list_elem_of_In _ _) Hb)) as (Hsb & _).
      destruct (Hmoved b Hb) as (Hb1 & Hb2 & _).
      rewrite Hoff_e, Hoff_other by (try apply Hfresh; done). lia.
    + apply list_elem_of_singleton in Ha as ->.
      apply list_elem_of_singleton in Hb as ->. done.
Qed.

Lemma compact_loop_spec psz m n fo todo :
  Z.of_nat (length m) = psz -> psz <= 65536 -> 0 <= n -> fo + n * 4 <= psz ->
  forall done q cur,
  compact_state psz m n fo q cur done ->
  Forall (entry_ok psz m n fo) done ->
  Forall (entry_ok psz m n fo) todo ->
  StronglySorted live_before todo ->
  (forall e, e ∈ todo -> cur <= l_off e) ->
  NoDup (l_slot <$> (done ++ todo)) ->
  exists q' cur',
    fold_left (compact_step psz) todo (q, cur) = (q', cur') /\
    compact_state psz m n fo q' cur' (done ++ todo).
Proof.
  intros Hlen Hpsz Hn Hdir.
  induction todo as [|e todo IH]; intros done q cur Hst Hdone Htodo Hsorted Hcur Hnd.
  - exists q, cur. rewrite app_nil_r. done.
  - apply Forall_cons in Htodo as [He Htodo].
    apply StronglySorted_inv in Hsorted as [Hsorted Hbefore].
    assert (Hfresh : forall a, a ∈ done -> l_slot a <> l_slot e).
    { intros a Ha Heq. rewrite fmap_app, fmap_cons in Hnd.
      apply NoDup_app in Hnd as (_ & Hnd & _).
      apply (Hnd (l_slot a)); [by apply list_elem_of_fmap_2|].
      rewrite Heq. left. }
    destruct (compact_step_spec psz m n fo q cur done e) as (q1 & Hstep & Hst1);
      try done.
    { apply Hcur. left. }
    cbn [fold_left]. rewrite Hstep.
    destruct (IH (done ++ [e]) q1 (cur + l_len e)) as (q' & cur' & Hfold & Hfin);
      try done.
    + apply Forall_app. split; [done|]. by apply Forall_singleton.
    + intros e' He'. rewrite List.Forall_forall in Hbefore.
      specialize (Hbefore e' (proj1 (list_elem_of_In _ _) He')).
      pose proof (Hcur e ltac:(left)) as Hce.
      unfold live_before in Hbefore. lia.
    + by rewrite <- app_assoc.
    + exists q', cur'. split; [done|]. by rewrite <- app_assoc in Hfin.
Qed.

Lemma lives_slots psz m (l : list Z) :
  l_slot <$> flat_map
    (fun i => if slot_len psz m i =? 0 then []
              else [mkLive (slot_off psz m i) i (slot_len psz m i)]) l
  = filter (fun i => slot_len psz m i <> 0) l.
Proof.
  induction l as [|i l IH]; [done|]. simpl. rewrite fmap_app, IH.
  rewrite filter_cons. destruct (slot_len psz m i =? 0) eqn:E.
  - apply Z.eqb_eq in E. by rewrite decide_False by lia.
  - apply Z.eqb_neq in E. by rewrite decide_True by done.
Qed.

Lemma lives_NoDup psz m n : NoDup (l_slot <$> lives psz m n).
Proof.
  unfold lives. rewrite lives_slots. apply NoDup_filter, NoDup_seqZ.
Qed.

Lemma elem_of_lives psz m n e :
  e ∈ lives psz m n <->
  0 <= l_slot e < n /\ slot_len psz m (l_slot e) <> 0 /\
  e = mkLive (slot_off psz m (l_slot e)) (l_slot e) (slot_len psz m (l_slot e)).
Proof.
  unfold lives. rewrite list_elem_of_In, in_flat_map. split.
  - intros (i & Hi & He). apply list_elem_of_In, elem_of_seqZ in Hi.
    destruct (slot_len psz m i =? 0) eqn:E; [by destruct He|].
    apply Z.eqb_neq in E. destruct He as [<-|[]]. simpl. split; [lia|done].
  - intros (Hi & Hne & He). exists (l_slot e). split.
    + apply list_elem_of_In, elem_of_seqZ. lia.
    + apply Z.eqb_neq in Hne. rewrite Hne. left. done.
Qed.

#[local] Instance live_le_trans : Transitive live_le.
Proof. intros a b c. unfold live_le. lia. Qed.

#[local] Instance live_le_total : Total live_le.
Proof. intros a b. unfold live_le. lia. Qed.

Lemma lives_entry_ok psz m e :
  page_wf psz m -> e ∈ lives psz m (slot_count m) ->
  entry_ok psz m (slot_count m) (free_off m) e.
Proof.
  intros Hwf He. apply elem_of_lives in He as (Hi & Hne & He).
  destruct (wf_live _ _ Hwf _ Hi Hne) as [Hlo Hhi].
  destruct e as [o s l]. simpl in *. injection He as -> ->.
  unfold entry_ok. simpl. split; [done|]. split; [done|]. split; [done|].
  split; [done|]. split; done.
Qed.

Lemma sorted_lives_chain psz m (l : list Live) :
  page_wf psz m ->
  Forall (entry_ok psz m (slot_count m) (free_off m)) l ->
  NoDup (l_slot <$> l) ->
  StronglySorted live_le l -> StronglySorted live_before l.
Proof.
  intros Hwf Hok Hnd Hs. induction Hs as [|x l Hs IH Hall]; [constructor|].
  apply Forall_cons in Hok as [Hx Hok].
  rewrite fmap_cons in Hnd. apply NoDup_cons in Hnd as [Hxl Hnd].
  constructor; [by apply IH|].
  apply List.Forall_forall. intros b Hb.
  rewrite List.Forall_forall in Hall. pose proof (Hall b Hb) as Hle.
  apply list_elem_of_In in Hb.
  rewrite List.Forall_forall in Hok.
  pose proof (Hok b (proj1 (list_elem_of_In _ _) Hb)) as (Hbs & Hbl & Hbne & Hbo & _).
  destruct Hx as (Hxs & Hxl' & Hxne & Hxo & _).
  assert (l_slot x <> l_slot b) as Hne.
  { intros Heq. apply Hxl. rewrite Heq. by apply list_elem_of_fmap_2. }
  pose proof (wf_disjoint _ _ Hwf _ _ Hxs Hbs Hne) as Hd.
  rewrite <- Hxl', <- Hbl, <- Hxo, <- Hbo in Hd. specialize (Hd Hxne Hbne).
  pose proof (load16_range m (SlotAt psz (l_slot b) + 2)) as Rb.
  fold (slot_len psz m (l_slot b)) in Rb. rewrite <- Hbl in Rb.
  unfold live_before, live_le in *. lia.
Qed.

(** The whole of [Compact] on a well-formed page. *)
Lemma Compact_spec psz m :
  page_wf psz m ->
  page_wf psz (Compact psz m) /\
  slot_count (Compact psz m) = slot_count m /\
  free_size m <= free_size (Compact psz m) /\
  (forall i, 0 <= i < slot_count m ->
     slot_len psz (Compact psz m) i = slot_len psz m i) /\
  (forall i, 0 <= i < slot_count m -> slot_len psz m i <> 0 ->
     sub (Compact psz m) (slot_off psz (Compact psz m) i) (slot_len psz m i)
     = sub m (slot_off psz m i) (slot_len psz m i)).
Proof.
  intros Hwf. pose proof Hwf as [Hpsz Hlen Hhdr Hfo Hlive Hdisj].
  pose proof (load16_range m 16) as Rn. pose proof (load16_range m 18) as Rfo.
  pose proof (load16_range m 20) as Rfs.
  unfold Compact.
  set (n := slot_count m) in *. set (fo := free_off m) in *. set (fs := free_size m) in *.
  set (L := merge_sort live_le (lives psz m n)).
  assert (HLperm : L ≡ₚ lives psz m n) by apply merge_sort_Permutation.
  assert (HLok : Forall (entry_ok psz m n fo) L).
  { apply List.Forall_forall. intros e He. apply lives_entry_ok; [done|].
    change (e ∈ lives psz m n). rewrite <- HLperm. by apply list_elem_of_In. }
  assert (HLnd : NoDup (l_slot <$> L)).
  { rewrite HLperm. apply lives_NoDup. }
  assert (HLchain : StronglySorted live_before L).
  { apply (sorted_lives_chain psz m); try done. apply StronglySorted_merge_sort; apply _. }
  assert (Hinit : compact_state psz m n fo m (u16 sizeof) []).
  { split; try done; try (unf; lia).
    - intros e He. by apply elem_of_nil in He.
    - intros a b Ha. by apply elem_of_nil in Ha. }
  destruct (compact_loop_spec psz m n fo L Hlen ltac:(lia) ltac:(unf; lia)
              ltac:(unf; lia) [] m (u16 sizeof) Hinit)
    as (q & cur & Hfold & Hfin); try done.
  { intros e He. rewrite List.Forall_forall in HLok.
    destruct (HLok e (proj1 (list_elem_of_In _ _) He)) as (_ & _ & _ & _ & Hlo & _).
    unf. lia. }
  rewrite Hfold. simpl in Hfin.
  destruct Hfin as [Hql Hcur Hqhdr Hqlens Hqrest Hmoved Hqdisj].
  set (m2 := set_free_off q cur).
  set (m3 := set_free_size m2 _).
  assert (Hfs3 : free_size m3 = psz - cur - n * 4).
  { unfold m3, m2. unf. rewrite load16_store16_same by (len_rw; lia). lia. }
  assert (Hfo3 : free_off m3 = cur).
  { unfold m3, m2. unf. rewrite load16_store16_other by lia.
    rewrite load16_store16_same by (len_rw; lia). lia. }
  assert (Hn3 : slot_count m3 = n).
  { unfold m3, m2. unf. rewrite !load16_store16_other by lia.
    apply load16_ext; apply Hqhdr; lia. }
  assert (Hb3 : forall x, 32 <= x -> load8 m3 x = load8 q x).
  { intros x Hx. unfold m3, m2. unf. rewrite !load8_store16_other by lia. done. }
  assert (Hoff3 : forall i, 0 <= i < n -> slot_off psz m3 i = slot_off psz q i).
  { intros i Hi. unf. apply load16_ext; apply Hb3; lia. }
  assert (Hlen3 : forall i, 0 <= i < n -> slot_len psz m3 i = slot_len psz m i).
  { intros i Hi. rewrite <- Hqlens by done. unf. apply load16_ext; apply Hb3; lia. }
  assert (Hentry : forall i, 0 <= i < n -> slot_len psz m i <> 0 ->
            exists e, e ∈ L /\ l_slot e = i /\ l_len e = slot_len psz m i
                      /\ l_off e = slot_off psz m i).
  { intros i Hi Hne. exists (mkLive (slot_off psz m i) i (slot_len psz m i)). split.
    - rewrite HLperm. apply elem_of_lives. simpl. split; [exact Hi|]. split; [exact Hne|done].
    - done. }
  split; [|split; [done|split; [unf; lia|split; [done|]]]].
  - split.
    + done.
    + unfold m3, m2. unf. len_rw. lia.
    + rewrite Hfs3, Hfo3, Hn3. unf. lia.
    + rewrite Hfo3. lia.
    + intros i Hi Hne. rewrite Hn3 in Hi. rewrite Hlen3 in * by done.
      destruct (Hentry i Hi Hne) as (e & He & <- & Hel & Heo).
      destruct (Hmoved e He) as (H1 & H2 & _).
      rewrite Hoff3, Hfo3 by done. rewrite <- Hel. done.
    + intros i j Hi Hj Hij Hni Hnj. rewrite Hn3 in Hi, Hj.
      rewrite !Hlen3 in * by done. rewrite !Hoff3 by done.
      destruct (Hentry i Hi Hni) as (a & Ha & <- & Hal & _).
      destruct (Hentry j Hj Hnj) as (b & Hb & <- & Hbl & _).
      rewrite <- Hal, <- Hbl. by apply Hqdisj.
  - intros i Hi Hne.
    destruct (Hentry i Hi Hne) as (e & He & <- & Hel & Heo).
    destruct (Hmoved e He) as (H1 & H2 & H3).
    pose proof (load16_range m (SlotAt psz (l_slot e) + 2)) as Re.
    fold (slot_len psz m (l_slot e)) in Re.
    destruct (Hlive _ Hi Hne) as [Hlo Hhi].
    rewrite Hoff3 by done. rewrite <- Hel in *. unf.
    apply sub_ext; try lia.
    + unfold m3, m2. len_rw. lia.
    + intros k Hk. rewrite Hb3 by lia. rewrite H3 by done. by rewrite Heo.
Qed.

End CompactProofs.
(** ** The logical content of a page *)

Section RecordsProofs.
Import PageHeader SlottedPage.

Ltac unf :=
  unfold slot_count, free_off, free_size, set_slot_count, set_free_off, set_free_size,
    slot_off, slot_len, set_slot_off, set_slot_len, SlotAt, sizeof_Slot, sizeof,
    off_slot_count, off_free_off, off_free_size, u16, u32 in *.

Lemma slot_count_range m : 0 <= slot_count m < 65536.
Proof. apply load16_range. Qed.
Lemma free_off_range m : 0 <= free_off m < 65536.
Proof. apply load16_range. Qed.
Lemma free_size_range m : 0 <= free_size m < 65536.
Proof. apply load16_range. Qed.
Lemma slot_len_range psz m i : 0 <= slot_len psz m i < 65536.
Proof. apply load16_range. Qed.
Lemma slot_off_range psz m i : 0 <= slot_off psz m i < 65536.
Proof. apply load16_range. Qed.

Lemma record_at_frame psz m m' i :
  page_wf psz m -> 0 <= i < slot_count m -> length m' = length m ->
  slot_off psz m' i = slot_off psz m i -> slot_len psz m' i = slot_len psz m i ->
  (forall x, slot_off psz m i <= x < slot_off psz m i + slot_len psz m i ->
     load8 m' x = load8 m x) ->
  record_at psz m' i = record_at psz m i.
Proof.
  intros Hwf Hi Hl Hoff Hlen Hbytes. unfold record_at. rewrite Hlen, Hoff.
  destruct (slot_len psz m i =? 0) eqn:E; [done|]. apply Z.eqb_neq in E.
  destruct (wf_live _ _ Hwf _ Hi E) as [Hlo Hhi].
  pose proof (wf_header _ _ Hwf) as Hh. pose proof (wf_length _ _ Hwf) as Hlm.
  pose proof (free_size_range m). pose proof (slot_count_range m).
  pose proof (slot_len_range psz m i).
  f_equal. apply sub_ext; unf; try lia.
  intros k Hk. apply Hbytes. lia.
Qed.

Lemma records_length psz m : length (records psz m) = Z.to_nat (slot_count m).
Proof. unfold records. by rewrite length_fmap, length_seqZ. Qed.

Lemma records_lookup psz m (k : nat) :
  Z.of_nat k < slot_count m ->
  records psz m !! k = Some (record_at psz m (Z.of_nat k)).
Proof.
  intros Hk. unfold records. rewrite list_lookup_fmap, lookup_seqZ_lt by done. done.
Qed.

Lemma records_lookup_Z psz m i :
  0 <= i < slot_count m ->
  records psz m !! Z.to_nat i = Some (record_at psz m i).
Proof.
  intros Hi. rewrite records_lookup by lia. do 2 f_equal. lia.
Qed.

Lemma records_lookup_ge psz m (k : nat) :
  slot_count m <= Z.of_nat k -> records psz m !! k = None.
Proof.
  intros Hk. apply lookup_ge_None. rewrite records_length. lia.
Qed.

Lemma records_ext psz m m' :
  slot_count m' = slot_count m ->
  (forall i, 0 <= i < slot_count m -> record_at psz m' i = record_at psz m i) ->
  records psz m' = records psz m.
Proof.
  intros Hn Hsame. unfold records. rewrite Hn. apply list_fmap_ext.
  intros k i Hk. apply lookup_seqZ in Hk as [-> Hk]. apply Hsame. lia.
Qed.

Lemma records_insert psz m m' s :
  slot_count m' = slot_count m -> 0 <= s < slot_count m ->
  (forall i, 0 <= i < slot_count m -> i <> s -> record_at psz m' i = record_at psz m i) ->
  records psz m' = <[Z.to_nat s := record_at psz m' s]> (records psz m).
Proof.
  intros Hn Hs Hsame. apply list_eq. intros k.
  destruct (decide (Z.of_nat k < slot_count m)) as [Hk|Hk].
  - rewrite records_lookup by lia.
    destruct (decide (k = Z.to_nat s)) as [->|Hne].
    + rewrite list_lookup_insert_eq by (rewrite records_length; lia).
      do 2 f_equal. lia.
    + rewrite list_lookup_insert_ne by done. rewrite records_lookup by done.
      f_equal. apply Hsame; lia.
  - rewrite records_lookup_ge by lia. symmetry. apply lookup_ge_None.
    rewrite length_insert, records_length. lia.
Qed.

Lemma records_snoc psz m m' :
  slot_count m' = slot_count m + 1 ->
  (forall i, 0 <= i < slot_count m -> record_at psz m' i = record_at psz m i) ->
  records psz m' = records psz m ++ [record_at psz m' (slot_count m)].
Proof.
  intros Hn Hsame. pose proof (slot_count_range m) as Rn.
  unfold records. rewrite Hn, seqZ_app by lia. rewrite fmap_app. f_equal.
  apply list_fmap_ext. intros k i Hk. apply lookup_seqZ in Hk as [-> Hk].
  apply Hsame. lia.
Qed.

(** [Get] reads the logical content. *)
Lemma Get_records psz m i :
  page_wf psz m -> 0 <= i ->
  Get psz m i =
    match records psz m !! Z.to_nat i with
    | Some (Some bs) => (kOk, bs)
    | _ => (kNotFound, [])
    end.
Proof.
  intros Hwf Hi. unfold Get.
  destruct (slot_count m <=? i) eqn:E.
  - apply Z.leb_le in E. rewrite records_lookup_ge by lia. done.
  - apply Z.leb_gt in E. rewrite records_lookup_Z by lia. unfold record_at.
    destruct (slot_len psz m i =? 0) eqn:E0; [done|]. apply Z.eqb_neq in E0.
    assert (0 <= i < slot_count m) as Hi' by lia.
    destruct (wf_live _ _ Hwf _ Hi' E0) as [Hlo Hhi].
    pose proof (wf_header _ _ Hwf) as Hh.
    pose proof (free_size_range m). pose proof (slot_count_range m).
    assert ((slot_off psz m i <? sizeof)
            || (psz <? slot_off psz m i + slot_len psz m i) = false) as ->; [|done].
    apply orb_false_iff. split; apply Z.ltb_ge; unf; lia.
Qed.

Lemma first_tombstone_Some psz m fuel : forall i0 t,
  first_tombstone psz m i0 fuel = Some t ->
  i0 <= t < i0 + Z.of_nat fuel /\ slot_len psz m t = 0 /\
  forall j, i0 <= j < t -> slot_len psz m j <> 0.
Proof.
  induction fuel as [|fuel IH]; intros i0 t; simpl; [done|].
  destruct (slot_len psz m i0 =? 0) eqn:E.
  - intros [= <-]. apply Z.eqb_eq in E. split; [lia|]. split; [done|]. intros; lia.
  - intros H. apply IH in H as (Hr & Ht & Hlt). apply Z.eqb_neq in E.
    split; [lia|]. split; [done|]. intros j Hj.
    destruct (decide (j = i0)) as [->|]; [done|]. apply Hlt. lia.
Qed.

Lemma first_tombstone_None psz m fuel : forall i0,
  first_tombstone psz m i0 fuel = None ->
  forall j, i0 <= j < i0 + Z.of_nat fuel -> slot_len psz m j <> 0.
Proof.
  induction fuel as [|fuel IH]; intros i0; simpl; [intros; lia|].
  destruct (slot_len psz m i0 =? 0) eqn:E; [done|].
  intros H j Hj. apply Z.eqb_neq in E.
  destruct (decide (j = i0)) as [->|]; [done|]. apply (IH _ H). lia.
Qed.

Lemma first_tombstone_ext psz m m' fuel : forall i0,
  (forall j, i0 <= j < i0 + Z.of_nat fuel -> slot_len psz m' j = slot_len psz m j) ->
  first_tombstone psz m' i0 fuel = first_tombstone psz m i0 fuel.
Proof.
  induction fuel as [|fuel IH]; intros i0 Hsame; simpl; [done|].
  rewrite Hsame by lia. destruct (slot_len psz m i0 =? 0); [done|].
  apply IH. intros j Hj. apply Hsame. lia.
Qed.

Lemma length_le_bytes n v : length (le_bytes n v) = n.
Proof. revert v. induction n as [|n IH]; intros v; simpl; [done|]. by rewrite IH. Qed.

(** A freshly initialised page. *)
Lemma InitNew_spec buf pid psz :
  sizeof <= psz <= 65536 -> Z.of_nat (length buf) = psz ->
  page_wf psz (InitNew buf pid psz) /\
  slot_count (InitNew buf pid psz) = 0 /\
  free_off (InitNew buf pid psz) = sizeof /\
  free_size (InitNew buf pid psz) = psz - sizeof /\
  records psz (InitNew buf pid psz) = [].
Proof.
  intros Hpsz Hlen. unfold InitNew.
  set (m0 := memset0 buf psz).
  set (m1 := store32 m0 off_page_id pid).
  set (m2 := store64 m1 off_page_lsn 0).
  assert (Hl2 : length m2 = length buf).
  { unfold m2, m1, m0, store64, store32, memset0. by rewrite !length_store. }
  set (m3 := set_slot_count m2 0).
  set (m4 := set_free_off m3 (u16 sizeof)).
  set (m5 := set_free_size m4 (u16 (psz - sizeof))).
  set (m6 := store32 m5 off_checksum 0).
  set (m7 := store32 m6 off_format_version kPageFormatVersion).
  assert (Hl7 : length m7 = length buf).
  { unfold m7, m6, m5, m4, m3, store32. unf. by rewrite !length_store, !length_store16. }
  assert (Hn : slot_count m7 = 0).
  { unfold m7, m6, store32, off_format_version, off_checksum. unf.
    rewrite !load16_store_other by (rewrite ?length_le_bytes; lia).
    unfold m5, m4. unf. rewrite !load16_store16_other by lia.
    unfold m3. unf. rewrite load16_store16_same by lia. done. }
  assert (Hfo : free_off m7 = 32).
  { unfold m7, m6, store32, off_format_version, off_checksum. unf.
    rewrite !load16_store_other by (rewrite ?length_le_bytes; lia).
    unfold m5. unf. rewrite !load16_store16_other by lia.
    unfold m4. unf. rewrite load16_store16_same; unfold m3; unf;
      rewrite ?length_store16; lia. }
  assert (Hfs : free_size m7 = psz - 32).
  { unfold m7, m6, store32, off_format_version, off_checksum. unf.
    rewrite !load16_store_other by (rewrite ?length_le_bytes; lia).
    unfold m5. unf. rewrite load16_store16_same; unfold m4, m3; unf;
      rewrite ?length_store16; lia. }
  split; [|split; [done|split; [done|split; [done|]]]].
  - split.
    + done.
    + rewrite Hl7. done.
    + rewrite Hn, Hfo, Hfs. unf. lia.
    + rewrite Hfo. unf. lia.
    + intros i Hi. rewrite Hn in Hi. lia.
    + intros i j Hi. rewrite Hn in Hi. lia.
  - unfold records. rewrite Hn. done.
Qed.

End RecordsProofs.
(** ** The operations on well-formed pages *)

Section OpsProofs.
Import PageHeader SlottedPage.

Ltac unf :=
  unfold slot_count, free_off, free_size, set_slot_count, set_free_off, set_free_size,
    slot_off, slot_len, set_slot_off, set_slot_len, SlotAt, sizeof_Slot, sizeof,
    off_slot_count, off_free_off, off_free_size, u16, u32 in *.

Lemma record_at_frame_area psz m m' i :
  page_wf psz m -> 0 <= i < slot_count m -> length m' = length m ->
  slot_off psz m' i = slot_off psz m i -> slot_len psz m' i = slot_len psz m i ->
  (forall x, 32 <= x < free_off m -> load8 m' x = load8 m x) ->
  record_at psz m' i = record_at psz m i.
Proof.
  intros Hwf Hi Hl Hoff Hlen Hbytes. apply record_at_frame; try done.
  intros x Hx. apply Hbytes.
  destruct (decide (slot_len psz m i = 0)) as [E|E]; [lia|].
  destruct (wf_live _ _ Hwf _ Hi E) as [Hlo Hhi]. unf. lia.
Qed.

Lemma record_at_live psz m i bs :
  slot_len psz m i <> 0 -> sub m (slot_off psz m i) (slot_len psz m i) = bs ->
  record_at psz m i = Some bs.
Proof.
  intros Hne Hs. unfold record_at. apply Z.eqb_neq in Hne. by rewrite Hne, Hs.
Qed.

Lemma record_at_tombstone psz m i :
  slot_len psz m i = 0 -> record_at psz m i = None.
Proof. intros H. unfold record_at. by rewrite H. Qed.

Lemma place_new_wf psz m rec len :
  page_wf psz m -> 0 < len -> len <= Z.of_nat (length rec) ->
  len + 4 <= free_size m ->
  let r := place psz m rec len None in
  fst r = slot_count m /\
  page_wf psz (snd r) /\
  slot_count (snd r) = slot_count m + 1 /\
  free_off (snd r) = free_off m + len /\
  free_size (snd r) = free_size m - len - 4 /\
  records psz (snd r) = records psz m ++ [Some (take (Z.to_nat len) rec)].
Proof.
  intros Hwf Hpos Hrec Hfit r.
  destruct (place_new_spec psz m rec len Hwf Hpos Hrec Hfit)
    as (Hs & Hl & Hn & Hfo & Hfs & Hso & Hsl & Hold & Hbytes & Hsub).
  fold r in Hs, Hl, Hn, Hfo, Hfs, Hso, Hsl, Hold, Hbytes, Hsub.
  pose proof Hwf as [Hpsz Hlen Hhdr Hfo0 Hlive Hdisj].
  pose proof (slot_count_range m) as Rn. pose proof (free_size_range m) as Rfs.
  split; [done|]. split; [|split; [done|split; [done|split; [done|]]]].
  - split.
    + done.
    + by rewrite Hl.
    + rewrite Hfo, Hfs, Hn. unf. lia.
    + rewrite Hfo. lia.
    + intros i Hi Hne. rewrite Hn in Hi. rewrite Hfo.
      destruct (decide (i = slot_count m)) as [->|Hin].
      * rewrite Hso, Hsl. lia.
      * assert (0 <= i < slot_count m) as Hi' by lia.
        destruct (Hold i Hi') as [Ho Hle]. rewrite Ho, Hle in *.
        destruct (Hlive i Hi' Hne). lia.
    + intros i j Hi Hj Hij Hni Hnj. rewrite Hn in Hi, Hj.
      destruct (decide (i = slot_count m)) as [->|Hin];
        destruct (decide (j = slot_count m)) as [->|Hjn]; try done.
      * assert (0 <= j < slot_count m) as Hj' by lia.
        destruct (Hold j Hj') as [Ho Hle]. rewrite Ho, Hle, Hso, Hsl in *.
        destruct (Hlive j Hj' Hnj). lia.
      * assert (0 <= i < slot_count m) as Hi' by lia.
        destruct (Hold i Hi') as [Ho Hle]. rewrite Ho, Hle, Hso, Hsl in *.
        destruct (Hlive i Hi' Hni). lia.
      * assert (0 <= i < slot_count m) as Hi' by lia.
        assert (0 <= j < slot_count m) as Hj' by lia.
        destruct (Hold i Hi') as [Ho Hle]. destruct (Hold j Hj') as [Ho' Hle'].
        rewrite Ho, Hle, Ho', Hle' in *. by apply Hdisj.
  - rewrite (records_snoc psz m (snd r)); [|done|].
    + f_equal. f_equal. apply record_at_live; [rewrite Hsl; lia|].
      rewrite Hso, Hsl. done.
    + intros i Hi. destruct (Hold i Hi) as [Ho Hle].
      apply record_at_frame_area; try done.
      intros x Hx. apply Hbytes; unf; lia.
Qed.

Lemma place_reuse_wf psz m rec len t :
  page_wf psz m -> 0 < len -> len <= Z.of_nat (length rec) ->
  len <= free_size m -> 0 <= t < slot_count m -> slot_len psz m t = 0 ->
  let r := place psz m rec len (Some t) in
  fst r = t /\
  page_wf psz (snd r) /\
  slot_count (snd r) = slot_count m /\
  free_off (snd r) = free_off m + len /\
  free_size (snd r) = free_size m - len /\
  records psz (snd r) = <[Z.to_nat t := Some (take (Z.to_nat len) rec)]> (records psz m).
Proof.
  intros Hwf Hpos Hrec Hfit Ht Htomb r.
  destruct (place_reuse_spec psz m rec len t Hwf Hpos Hrec Hfit Ht)
    as (Hs & Hl & Hn & Hfo & Hfs & Hso & Hsl & Hold & Hbytes & Hsub).
  fold r in Hs, Hl, Hn, Hfo, Hfs, Hso, Hsl, Hold, Hbytes, Hsub.
  pose proof Hwf as [Hpsz Hlen Hhdr Hfo0 Hlive Hdisj].
  pose proof (slot_count_range m) as Rn. pose proof (free_size_range m) as Rfs.
  split; [done|]. split; [|split; [done|split; [done|split; [done|]]]].
  - split.
    + done.
    + by rewrite Hl.
    + rewrite Hfo, Hfs, Hn. unf. lia.
    + rewrite Hfo. lia.
    + intros i Hi Hne. rewrite Hn in Hi. rewrite Hfo.
      destruct (decide (i = t)) as [->|Hin].
      * rewrite Hso, Hsl. lia.
      * destruct (Hold i Hi Hin) as [Ho Hle]. rewrite Ho, Hle in *.
        destruct (Hlive i Hi Hne). lia.
    + intros i j Hi Hj Hij Hni Hnj. rewrite Hn in Hi, Hj.
      destruct (decide (i = t)) as [->|Hin];
        destruct (decide (j = t)) as [->|Hjn]; try done.
      * destruct (Hold j Hj Hjn) as [Ho Hle]. rewrite Ho, Hle, Hso, Hsl in *.
        destruct (Hlive j Hj Hnj). lia.
      * destruct (Hold i Hi Hin) as [Ho Hle]. rewrite Ho, Hle, Hso, Hsl in *.
        destruct (Hlive i Hi Hni). lia.
      * destruct (Hold i Hi Hin) as [Ho Hle]. destruct (Hold j Hj Hjn) as [Ho' Hle'].
        rewrite Ho, Hle, Ho', Hle' in *. by apply Hdisj.
  - rewrite (records_insert psz m (snd r) t); [|done|done|].
    + f_equal. apply record_at_live; [rewrite Hsl; lia|].
      rewrite Hso, Hsl. done.
    + intros i Hi Hit. destruct (Hold i Hi Hit) as [Ho Hle].
      apply record_at_frame_area; try done.
Qed.

Lemma Compact_records psz m :
  page_wf psz m -> records psz (Compact psz m) = records psz m.
Proof.
  intros Hwf. destruct (Compact_spec psz m Hwf) as (_ & Hn & _ & Hlens & Hsub).
  apply records_ext; [done|]. intros i Hi. unfold record_at.
  rewrite Hlens by done. destruct (slot_len psz m i =? 0) eqn:E; [done|].
  apply Z.eqb_neq in E. by rewrite Hsub.
Qed.

Lemma update_in_place_wf psz m s rec len :
  page_wf psz m -> 0 <= s < slot_count m -> slot_len psz m s <> 0 ->
  0 <= len <= slot_len psz m s -> len <= Z.of_nat (length rec) ->
  let m' := set_slot_len psz (store m (slot_off psz m s) (take (Z.to_nat len) rec)) s len in
  page_wf psz m' /\
  slot_count m' = slot_count m /\ free_off m' = free_off m /\ free_size m' = free_size m /\
  records psz m' =
    <[Z.to_nat s := if len =? 0 then None else Some (take (Z.to_nat len) rec)]> (records psz m).
Proof.
  intros Hwf Hs Hlive Hle Hrec m'.
  destruct (update_in_place_spec psz m s rec len Hwf Hs Hlive Hle Hrec)
    as (Hl & Hn & Hfo & Hfs & Hsl & Hoffs & Hlens & Hbytes & Hsub).
  fold m' in Hl, Hn, Hfo, Hfs, Hsl, Hoffs, Hlens, Hbytes, Hsub.
  pose proof Hwf as [Hpsz Hlen Hhdr Hfo0 Hlv Hdisj].
  destruct (Hlv s Hs Hlive) as [Hslo Hshi].
  split; [|split; [done|split; [done|split; [done|]]]].
  - split.
    + done.
    + by rewrite Hl.
    + by rewrite Hfo, Hfs, Hn.
    + by rewrite Hfo.
    + intros i Hi Hne. rewrite Hn in Hi. rewrite Hfo, Hoffs by done.
      destruct (decide (i = s)) as [->|His].
      * rewrite Hsl. lia.
      * rewrite Hlens in * by done. by apply Hlv.
    + intros i j Hi Hj Hij Hni Hnj. rewrite Hn in Hi, Hj. rewrite !Hoffs by done.
      destruct (decide (i = s)) as [->|His]; destruct (decide (j = s)) as [->|Hjs];
        try done.
      * rewrite Hsl, Hlens in * by done.
        destruct (Hdisj s j Hs Hj Hij Hlive Hnj); lia.
      * rewrite Hsl, Hlens in * by done.
        destruct (Hdisj i s Hi Hs Hij Hni Hlive); lia.
      * rewrite !Hlens in * by done. by apply Hdisj.
  - rewrite (records_insert psz m m' s); [|done|done|].
    + f_equal. destruct (len =? 0) eqn:E.
      * apply Z.eqb_eq in E. apply record_at_tombstone. by rewrite Hsl.
      * apply Z.eqb_neq in E. apply record_at_live; [by rewrite Hsl|].
        rewrite Hsl, Hoffs by done. done.
    + intros i Hi His. apply record_at_frame; try done.
      * by apply Hoffs.
      * by apply Hlens.
      * intros x Hx.
        destruct (decide (slot_len psz m i = 0)) as [E|E]; [lia|].
        destruct (Hlv i Hi E) as [Hlo Hhi].
        apply Hbytes; [unf; lia|].
        destruct (Hdisj i s Hi Hs His E Hlive); lia.
Qed.

Lemma update_append_wf psz m s rec len :
  page_wf psz m -> 0 <= s < slot_count m ->
  0 < len -> len <= free_size m -> len <= Z.of_nat (length rec) ->
  let m1 := store m (free_off m) (take (Z.to_nat len) rec) in
  let m2 := set_slot_off psz m1 s (free_off m1) in
  let m3 := set_slot_len psz m2 s len in
  let m4 := set_free_off m3 (u16 (free_off m3 + len)) in
  let m' := set_free_size m4 (u16 (free_size m4 - len)) in
  page_wf psz m' /\
  slot_count m' = slot_count m /\
  free_off m' = free_off m + len /\ free_size m' = free_size m - len /\
  records psz m' = <[Z.to_nat s := Some (take (Z.to_nat len) rec)]> (records psz m).
Proof.
  intros Hwf Hs Hpos Hfit Hrec m1 m2 m3 m4 m'.
  destruct (update_append_spec psz m s rec len Hwf Hs Hpos Hfit Hrec)
    as (Hl & Hn & Hfo & Hfs & Hso & Hsl & Hold & Hbytes & Hsub).
  fold m1 m2 m3 m4 m' in Hl, Hn, Hfo, Hfs, Hso, Hsl, Hold, Hbytes, Hsub.
  pose proof Hwf as [Hpsz Hlen Hhdr Hfo0 Hlive Hdisj].
  pose proof (slot_count_range m) as Rn. pose proof (free_size_range m) as Rfs.
  split; [|split; [done|split; [done|split; [done|]]]].
  - split.
    + done.
    + by rewrite Hl.
    + rewrite Hfo, Hfs, Hn. unf. lia.
    + rewrite Hfo. lia.
    + intros i Hi Hne. rewrite Hn in Hi. rewrite Hfo.
      destruct (decide (i = s)) as [->|Hin].
      * rewrite Hso, Hsl. lia.
      * destruct (Hold i Hi Hin) as [Ho Hle]. rewrite Ho, Hle in *.
        destruct (Hlive i Hi Hne). lia.
    + intros i j Hi Hj Hij Hni Hnj. rewrite Hn in Hi, Hj.
      destruct (decide (i = s)) as [->|Hin];
        destruct (decide (j = s)) as [->|Hjn]; try done.
      * destruct (Hold j Hj Hjn) as [Ho Hle]. rewrite Ho, Hle, Hso, Hsl in *.
        destruct (Hlive j Hj Hnj). lia.
      * destruct (Hold i Hi Hin) as [Ho Hle]. rewrite Ho, Hle, Hso, Hsl in *.
        destruct (Hlive i Hi Hni). lia.
      * destruct (Hold i Hi Hin) as [Ho Hle]. destruct (Hold j Hj Hjn) as [Ho' Hle'].
        rewrite Ho, Hle, Ho', Hle' in *. by apply Hdisj.
  - rewrite (records_insert psz m m' s); [|done|done|].
    + f_equal. apply record_at_live; [rewrite Hsl; lia|].
      rewrite Hso, Hsl. done.
    + intros i Hi Hit. destruct (Hold i Hi Hit) as [Ho Hle].
      apply record_at_frame_area; try done.
Qed.

Lemma erase_wf psz m s :
  page_wf psz m -> 0 <= s < slot_count m ->
  let m' := set_slot_len psz m s 0 in
  page_wf psz m' /\
  slot_count m' = slot_count m /\ free_off m' = free_off m /\ free_size m' = free_size m /\
  records psz m' = <[Z.to_nat s := None]> (records psz m).
Proof.
  intros Hwf Hs m'.
  destruct (erase_spec psz m s 0 Hwf Hs ltac:(lia))
    as (Hl & Hn & Hfo & Hfs & Hsl & Hoffs & Hlens & Hbytes).
  fold m' in Hl, Hn, Hfo, Hfs, Hsl, Hoffs, Hlens, Hbytes.
  pose proof Hwf as [Hpsz Hlen Hhdr Hfo0 Hlv Hdisj].
  split; [|split; [done|split; [done|split; [done|]]]].
  - split.
    + done.
    + by rewrite Hl.
    + by rewrite Hfo, Hfs, Hn.
    + by rewrite Hfo.
    + intros i Hi Hne. rewrite Hn in Hi. rewrite Hfo, Hoffs by done.
      destruct (decide (i = s)) as [->|His]; [by rewrite Hsl in Hne|].
      rewrite Hlens in * by done. by apply Hlv.
    + intros i j Hi Hj Hij Hni Hnj. rewrite Hn in Hi, Hj. rewrite !Hoffs by done.
      destruct (decide (i = s)) as [->|His]; [by rewrite Hsl in Hni|].
      destruct (decide (j = s)) as [->|Hjs]; [by rewrite Hsl in Hnj|].
      rewrite !Hlens in * by done. by apply Hdisj.
  - rewrite (records_insert psz m m' s); [|done|done|].
    + f_equal. apply record_at_tombstone. done.
    + intros i Hi His. apply record_at_frame_area; try done.
      * by apply Hoffs.
      * by apply Hlens.
Qed.

End OpsProofs.
Section OpsProofs2.
Import PageHeader SlottedPage.

Ltac unf :=
  unfold slot_count, free_off, free_size, set_slot_count, set_free_off, set_free_size,
    slot_off, slot_len, set_slot_off, set_slot_len, SlotAt, sizeof_Slot, sizeof,
    off_slot_count, off_free_off, off_free_size, u16, u32 in *.

Lemma first_tombstone_lowest psz m t :
  first_tombstone psz m 0 (Z.to_nat (slot_count m)) = Some t -> lowest_tombstone psz m t.
Proof.
  intros H. apply first_tombstone_Some in H as (Hr & Ht & Hlt).
  pose proof (slot_count_range m). split; [lia|]. split; [done|]. intros j Hj. apply Hlt. lia.
Qed.

Lemma first_tombstone_none psz m :
  first_tombstone psz m 0 (Z.to_nat (slot_count m)) = None -> no_tombstone psz m.
Proof.
  intros H j Hj. apply (first_tombstone_None _ _ _ _ H). lia.
Qed.

Lemma lowest_tombstone_unique psz m t t' :
  lowest_tombstone psz m t -> lowest_tombstone psz m t' -> t = t'.
Proof.
  intros (Ht & Hz & Hlt) (Ht' & Hz' & Hlt').
  destruct (Z.lt_trichotomy t t') as [H|[H|H]]; [|done|].
  - exfalso. apply (Hlt' t); [lia|done].
  - exfalso. apply (Hlt t'); [lia|done].
Qed.

(** [Insert] on a well-formed page, for a non-null record of length [len]. *)
Lemma Insert_run_spec psz m bytes len :
  page_wf psz m -> 0 < len < 65536 -> len <= Z.of_nat (length bytes) ->
  let r := Insert_run psz m (Some bytes) len in
  let tomb := first_tombstone psz m 0 (Z.to_nat (slot_count m)) in
  let need := len + match tomb with Some _ => 0 | None => sizeof_Slot end in
  let base := if free_size m <? need then Compact psz m else m in
  page_wf psz base /\ records psz base = records psz m /\
  slot_count base = slot_count m /\
  page_wf psz (ins_page r) /\
  ins_compactions r = (if free_size m <? need then 1%nat else 0%nat) /\
  (free_size base < need ->
     ins_status r = kOutOfRange /\ ins_slot r = None /\ ins_page r = base /\
     free_size m < need) /\
  (need <= free_size base ->
     ins_status r = kOk /\
     ins_slot r = Some (default (slot_count m) tomb) /\
     slot_count (ins_page r)
       = slot_count m + match tomb with Some _ => 0 | None => 1 end /\
     free_off (ins_page r) = free_off base + len /\
     free_size (ins_page r) = free_size base - need /\
     records psz (ins_page r) =
       match tomb with
       | Some t => <[Z.to_nat t := Some (take (Z.to_nat len) bytes)]> (records psz m)
       | None => records psz m ++ [Some (take (Z.to_nat len) bytes)]
       end).
Proof.
  intros Hwf Hlen Hrec r tomb need base.
  assert (Hbase : page_wf psz base /\ records psz base = records psz m /\
                  slot_count base = slot_count m /\
                  (forall i, 0 <= i < slot_count m -> slot_len psz base i = slot_len psz m i)).
  { unfold base. destruct (free_size m <? need); [|done].
    destruct (Compact_spec psz m Hwf) as (Hw & Hn & _ & Hl & _).
    split; [done|]. split; [by apply Compact_records|]. done. }
  destruct Hbase as (Hbwf & Hbrec & Hbn & Hblen).
  split; [done|]. split; [done|]. split; [done|].
  assert (Hneed : u32 (len + match tomb with Some _ => 0 | None => u16 sizeof_Slot end) = need).
  { unfold need. destruct tomb; unf; lia. }
  assert (Hr : r =
    if free_size base <? need
    then mkInsertRun kOutOfRange None base (if free_size m <? need then 1%nat else 0%nat)
    else let '(slot_id, m2) := place psz base bytes len tomb in
         mkInsertRun kOk (Some slot_id) m2 (if free_size m <? need then 1%nat else 0%nat)).
  { unfold r, Insert_run. assert ((len =? 0) = false) as -> by (apply Z.eqb_neq; lia).
    fold tomb. rewrite Hneed. unfold base.
    destruct (free_size m <? need) eqn:E; [done|]. rewrite E. done. }
  assert (Hfm : free_size base < need -> free_size m < need).
  { unfold base. destruct (free_size m <? need) eqn:E; [|done].
    apply Z.ltb_lt in E. done. }
  destruct (free_size base <? need) eqn:Eb.
  - apply Z.ltb_lt in Eb. rewrite Hr. simpl.
    split; [done|]. split; [done|]. split; [auto|]. intros; lia.
  - apply Z.ltb_ge in Eb.
    destruct tomb as [t|] eqn:Et.
    + pose proof (first_tombstone_lowest psz m t Et) as (Ht & Hz & _).
      destruct (place_reuse_wf psz base bytes len t Hbwf ltac:(lia) Hrec)
        as (Hs & Hw & Hn & Hfo & Hfs & Hrecs).
      { unfold need in Eb. lia. } { by rewrite Hbn. } { by rewrite Hblen. }
      destruct (place psz base bytes len (Some t)) as [slot_id m2] eqn:Ep.
      simpl in Hs, Hw, Hn, Hfo, Hfs, Hrecs. rewrite Hr. simpl.
      split; [done|]. split; [done|]. split; [intros; lia|]. intros _.
      split; [done|]. split; [by rewrite Hs|]. split; [rewrite Hn, Hbn; lia|].
      split; [done|]. split; [unfold need; lia|]. by rewrite Hrecs, Hbrec.
    + destruct (place_new_wf psz base bytes len Hbwf ltac:(lia) Hrec)
        as (Hs & Hw & Hn & Hfo & Hfs & Hrecs).
      { unfold need in Eb. unf. lia. }
      destruct (place psz base bytes len None) as [slot_id m2] eqn:Ep.
      simpl in Hs, Hw, Hn, Hfo, Hfs, Hrecs. rewrite Hr. simpl.
      split; [done|]. split; [done|]. split; [intros; lia|]. intros _.
      split; [done|]. split; [by rewrite Hs, Hbn|]. split; [rewrite Hn, Hbn; lia|].
      split; [done|]. split; [unfold need; unf; lia|]. by rewrite Hrecs, Hbrec.
Qed.

(** [Update] on a well-formed page, for a non-null record. *)
Lemma Update_spec psz m s bytes len :
  page_wf psz m -> 0 <= s -> 0 <= len < 65536 -> len <= Z.of_nat (length bytes) ->
  let r := Update psz m s (Some bytes) len in
  page_wf psz (snd r) /\
  (~ live_slot psz m s -> r = (kNotFound, m)) /\
  (live_slot psz m s ->
     (fst r = kOk /\
      slot_count (snd r) = slot_count m /\
      records psz (snd r) =
        <[Z.to_nat s := if len =? 0 then None else Some (take (Z.to_nat len) bytes)]>
          (records psz m)) \/
     (r = (kOutOfRange, Compact psz m) /\
      slot_len psz m s < len /\ free_size m < len /\ free_size (Compact psz m) < len)).
Proof.
  intros Hwf Hs Hlen Hrec r. unfold r, Update.
  destruct (slot_count m <=? s) eqn:E1.
  { apply Z.leb_le in E1. simpl. split; [done|]. split; [done|].
    intros [Hr _]. lia. }
  apply Z.leb_gt in E1.
  destruct (slot_len psz m s =? 0) eqn:E2.
  { apply Z.eqb_eq in E2. simpl. split; [done|]. split; [done|].
    intros [_ Hne]. done. }
  apply Z.eqb_neq in E2.
  assert (live_slot psz m s) as Hlive by (split; [lia|done]).
  destruct (len <=? slot_len psz m s) eqn:E3.
  { apply Z.leb_le in E3.
    destruct (update_in_place_wf psz m s bytes len Hwf ltac:(lia) E2 ltac:(lia) Hrec)
      as (Hw & Hn & _ & _ & Hrecs).
    cbn [fst snd]. split; [done|]. split; [done|]. intros _. left. done. }
  apply Z.leb_gt in E3. pose proof (slot_len_range psz m s) as Rs.
  destruct (free_size m <? len) eqn:E4.
  - apply Z.ltb_lt in E4.
    destruct (Compact_spec psz m Hwf) as (Hcw & Hcn & _ & _ & _).
    destruct (free_size (Compact psz m) <? len) eqn:E5.
    + apply Z.ltb_lt in E5. cbn [fst snd]. split; [done|]. split; [done|].
      intros _. right. done.
    + apply Z.ltb_ge in E5.
      destruct (update_append_wf psz (Compact psz m) s bytes len Hcw
                  ltac:(lia) ltac:(lia) E5 Hrec) as (Hw & Hn & _ & _ & Hrecs).
      cbn [fst snd]. split; [done|]. split; [done|]. intros _. left.
      split; [done|]. split; [lia|].
      rewrite Hrecs, Compact_records by done.
      assert ((len =? 0) = false) as -> by (apply Z.eqb_neq; lia). done.
  - apply Z.ltb_ge in E4.
    destruct (update_append_wf psz m s bytes len Hwf ltac:(lia) ltac:(lia) E4 Hrec)
      as (Hw & Hn & _ & _ & Hrecs).
    cbn [fst snd]. split; [done|]. split; [done|]. intros _. left.
    split; [done|]. split; [done|]. rewrite Hrecs.
    assert ((len =? 0) = false) as -> by (apply Z.eqb_neq; lia). done.
Qed.

Lemma Erase_spec psz m s :
  page_wf psz m -> 0 <= s ->
  let r := Erase psz m s in
  page_wf psz (snd r) /\
  (~ live_slot psz m s -> r = (kNotFound, m)) /\
  (live_slot psz m s ->
     fst r = kOk /\ slot_count (snd r) = slot_count m /\
     free_size (snd r) = free_size m /\
     records psz (snd r) = <[Z.to_nat s := None]> (records psz m)).
Proof.
  intros Hwf Hs r. unfold r, Erase.
  destruct (slot_count m <=? s) eqn:E1.
  { apply Z.leb_le in E1. simpl. split; [done|]. split; [done|]. intros [Hr _]. lia. }
  apply Z.leb_gt in E1.
  destruct (slot_len psz m s =? 0) eqn:E2.
  { apply Z.eqb_eq in E2. simpl. split; [done|]. split; [done|]. intros [_ Hne]. done. }
  destruct (erase_wf psz m s Hwf ltac:(lia)) as (Hw & Hn & _ & Hfs & Hrecs).
  cbn [fst snd]. split; [done|]. split; [|done].
  intros Hnl. exfalso. apply Hnl. apply Z.eqb_neq in E2. split; [lia|done].
Qed.

(** Every reachable page of a supported size is well formed. *)
Lemma page_reachable_wf psz m :
  sizeof <= psz <= 65536 -> page_reachable psz m -> page_wf psz m.
Proof.
  intros Hpsz Hr. induction Hr as
    [buf pid Hlen | m rec len Hr IH [Hlen Hrec] | m s rec len Hr IH Hs [Hlen Hrec]
    | m s Hr IH Hs | m Hr IH].
  - by apply InitNew_spec.
  - destruct rec as [bytes|]; [|done].
    destruct (decide (len = 0)) as [->|Hne]; [done|].
    by apply Insert_run_spec; [|lia|].
  - destruct rec as [bytes|]; [|done].
    apply Update_spec; try done. unfold slot_arg_ok in Hs. lia.
  - apply Erase_spec; [done|]. unfold slot_arg_ok in Hs. lia.
  - by apply Compact_spec.
Qed.

End OpsProofs2.
(** ** Theorems about the slotted page *)

Section PageTheorems.
Import PageHeader SlottedPage.

Lemma demo_page_reachable : page_reachable 64 demo_page.
Proof.
  unfold demo_page. apply reach_Erase; [|unfold slot_arg_ok; lia].
  apply reach_Insert; [|split; [lia|simpl; lia]].
  apply reach_Insert; [|split; [lia|simpl; lia]].
  apply reach_InitNew. reflexivity.
Qed.

(** C1, as stated, fails for a page size the 16-bit header fields cannot
    hold: after [InitNew] with [page_size = 70000] the header has
    [free_off = 32], [free_size = 4432] and [slot_count = 0]. *)
Lemma C1_header_equation_fails_for_large_page :
  page_reachable 70000 (InitNew (replicate (Z.to_nat 70000) x00) 0 70000) /\
  free_off (InitNew (replicate (Z.to_nat 70000) x00) 0 70000) = 32 /\
  free_size (InitNew (replicate (Z.to_nat 70000) x00) 0 70000) = 4432 /\
  slot_count (InitNew (replicate (Z.to_nat 70000) x00) 0 70000) = 0 /\
  ~ header_invariant 70000 (InitNew (replicate (Z.to_nat 70000) x00) 0 70000).
Proof.
  assert (free_off (InitNew (replicate (Z.to_nat 70000) x00) 0 70000) = 32) as Hfo
    by (vm_compute; reflexivity).
  assert (free_size (InitNew (replicate (Z.to_nat 70000) x00) 0 70000) = 4432) as Hfs
    by (vm_compute; reflexivity).
  assert (slot_count (InitNew (replicate (Z.to_nat 70000) x00) 0 70000) = 0) as Hn
    by (vm_compute; reflexivity).
  split; [|split; [done|split; [done|split; [done|]]]].
  - apply reach_InitNew. rewrite length_replicate. lia.
  - unfold header_invariant. rewrite Hfo, Hfs, Hn. unfold sizeof_Slot. lia.
Qed.

(** C1 (amended): for every page size from [sizeof(PageHeader)] up to 65536,
    every page initialised by [InitNew] and then changed by any sequence of
    [Insert], [Update], [Erase] and [Compact] calls satisfies
    [free_off + free_size + slot_count * sizeof(Slot) = page_size] and
    [free_off >= sizeof(PageHeader)] after every call. *)
Theorem C1_header_invariant psz m :
  sizeof <= psz <= 65536 -> page_reachable psz m -> header_invariant psz m.
Proof.
  intros Hpsz Hr. pose proof (page_reachable_wf psz m Hpsz Hr) as Hwf.
  split; [apply (wf_header _ _ Hwf)|apply (wf_free_off _ _ Hwf)].
Qed.

Lemma C1_header_invariant_witness :
  sizeof <= 64 <= 65536 /\ page_reachable 64 demo_page /\ header_invariant 64 demo_page.
Proof.
  assert (sizeof <= 64 <= 65536) as H by (unfold sizeof; lia).
  split; [exact H|]. split; [exact demo_page_reachable|].
  exact (C1_header_invariant 64 demo_page H demo_page_reachable).
Defined.

(** C2, as stated, fails for a page size the 16-bit header fields cannot
    hold.  With [page_size = 65567], after [InitNew], an [Insert] of 65520
    bytes ([free_off] wraps to 16) and an [Insert] of 7 bytes, slot 1 is live
    and [Get] on it returns [Ok]; after [Compact] its record has been moved
    into the header and [Get] returns [Corruption]. *)
Lemma C2_compact_breaks_record_on_large_page :
  page_reachable 65567 demo_big_page /\
  live_slot 65567 demo_big_page 1 /\
  Get 65567 demo_big_page 1 = (kOk, replicate 7 x01) /\
  Get 65567 (Compact 65567 demo_big_page) 1 = (kCorruption, []) /\
  ~ (live_slot 65567 demo_big_page 1 ->
     live_slot 65567 (Compact 65567 demo_big_page) 1 /\
     Get 65567 (Compact 65567 demo_big_page) 1 = Get 65567 demo_big_page 1).
Proof.
  assert (Hlive : live_slot 65567 demo_big_page 1).
  { split; vm_compute; [split|]; congruence. }
  assert (Hget : Get 65567 demo_big_page 1 = (kOk, replicate 7 x01))
    by (vm_compute; reflexivity).
  assert (Hget' : Get 65567 (Compact 65567 demo_big_page) 1 = (kCorruption, []))
    by (vm_compute; reflexivity).
  split; [|split; [done|split; [done|split; [done|]]]].
  - unfold demo_big_page.
    apply reach_Insert; [|split; [lia|simpl; lia]].
    apply reach_Insert; [|split; [lia|rewrite length_replicate; lia]].
    apply reach_InitNew. rewrite length_replicate. lia.
  - intros Hc. destruct (Hc Hlive) as [_ Heq]. rewrite Hget, Hget' in Heq. discriminate.
Qed.

(** C2 (amended): for every page size from [sizeof(PageHeader)] up to 65536,
    on every page reachable from [InitNew], a slot that is live before
    [Compact] is live after it under the same slot id, and [Get] returns [Ok]
    with the same bytes before and after. *)
Theorem C2_compact_preserves_live_records psz m i :
  sizeof <= psz <= 65536 -> page_reachable psz m -> live_slot psz m i ->
  live_slot psz (Compact psz m) i /\
  fst (Get psz m i) = kOk /\
  Get psz (Compact psz m) i = Get psz m i.
Proof.
  intros Hpsz Hr [Hi Hne]. pose proof (page_reachable_wf psz m Hpsz Hr) as Hwf.
  destruct (Compact_spec psz m Hwf) as (Hcw & Hn & _ & Hlens & _).
  split; [|split].
  - split; [by rewrite Hn|]. by rewrite Hlens.
  - rewrite Get_records by (done || lia). rewrite records_lookup_Z by done.
    unfold record_at. apply Z.eqb_neq in Hne. by rewrite Hne.
  - rewrite !Get_records by (done || lia). by rewrite Compact_records.
Qed.

Lemma C2_compact_preserves_live_records_witness :
  sizeof <= 64 <= 65536 /\ page_reachable 64 demo_page /\ live_slot 64 demo_page 1 /\
  Get 64 (Compact 64 demo_page) 1 = (kOk, [x04; x05]).
Proof.
  assert (sizeof <= 64 <= 65536) as H by (unfold sizeof; lia).
  assert (live_slot 64 demo_page 1) as Hl.
  { split; [vm_compute; split; congruence|vm_compute; congruence]. }
  split; [exact H|]. split; [exact demo_page_reachable|]. split; [exact Hl|].
  destruct (C2_compact_preserves_live_records 64 demo_page 1 H demo_page_reachable Hl)
    as (_ & _ & Heq).
  rewrite Heq. vm_compute. reflexivity.
Defined.


Lemma demo_page_wf : page_wf 64 demo_page.
Proof.
  apply page_reachable_wf; [unfold sizeof; lia|exact demo_page_reachable].
Qed.


(** C10: [Update] with [len = 0] on a live slot returns [Ok] and turns the
    slot into a tombstone: [Get] on it then returns [NotFound], and a later
    successful [Insert] returns this slot id when no lower slot is a
    tombstone; [Insert] itself rejects a zero-length record with
    [InvalidArgument]. *)
Theorem C10_update_zero_length_tombstones psz m s bytes :
  page_wf psz m -> live_slot psz m s ->
  let r := Update psz m s (Some bytes) 0 in
  fst r = kOk /\
  page_wf psz (snd r) /\
  slot_len psz (snd r) s = 0 /\
  Get psz (snd r) s = (kNotFound, []) /\
  (forall bytes2 len2,
     rec_arg_ok (Some bytes2) len2 -> len2 <> 0 ->
     (forall j, 0 <= j < s -> slot_len psz (snd r) j <> 0) ->
     ins_status (Insert_run psz (snd r) (Some bytes2) len2) = kOk ->
     ins_slot (Insert_run psz (snd r) (Some bytes2) len2) = Some s) /\
  ins_status (Insert_run psz m (Some bytes) 0) = kInvalidArgument.
Proof.
  intros Hwf Hlive r. destruct Hlive as [Hs Hne].
  pose proof (slot_len_range psz m s) as Rs.
  assert (Hr : r = (kOk, set_slot_len psz
                      (store m (slot_off psz m s) (take (Z.to_nat 0) bytes)) s 0)).
  { unfold r, Update.
    assert ((slot_count m <=? s) = false) as -> by (apply Z.leb_gt; lia).
    assert ((slot_len psz m s =? 0) = false) as -> by (by apply Z.eqb_neq).
    assert ((0 <=? slot_len psz m s) = true) as -> by (apply Z.leb_le; lia). done. }
  destruct (update_in_place_spec psz m s bytes 0 Hwf Hs Hne ltac:(lia) ltac:(lia))
    as (_ & Hn & _ & _ & Hsl & _).
  destruct (update_in_place_wf psz m s bytes 0 Hwf Hs Hne ltac:(lia) ltac:(lia))
    as (Hw & _).
  rewrite Hr. cbn [fst snd].
  set (m' := set_slot_len psz _ s 0) in *.
  split; [done|]. split; [done|]. split; [done|]. split; [|split; [|done]].
  - unfold Get. rewrite Hn.
    assert ((slot_count m <=? s) = false) as -> by (apply Z.leb_gt; lia).
    by rewrite Hsl.
  - intros bytes2 len2 [Hlen2 Hrec2] Hne2 Hlow Hst.
    assert (lowest_tombstone psz m' s) as Hlt.
    { split; [by rewrite Hn|]. split; [done|]. exact Hlow. }
    destruct (Insert_run_spec psz m' bytes2 len2 Hw ltac:(lia) Hrec2)
      as (_ & _ & _ & _ & _ & Hfail & Hok).
    destruct (first_tombstone psz m' 0 (Z.to_nat (slot_count m'))) as [t|] eqn:Et.
    + apply first_tombstone_lowest in Et.
      rewrite (lowest_tombstone_unique _ _ _ _ Hlt Et).
      set (base := if free_size m' <? len2 + 0 then Compact psz m' else m') in *.
      destruct (Z_lt_le_dec (free_size base) (len2 + 0)) as [Hb|Hb].
      * destruct (Hfail Hb) as (Hs' & _). congruence.
      * by destruct (Hok Hb) as (_ & Hslot & _).
    + apply first_tombstone_none in Et. destruct Hlt as (Hr' & Hz & _).
      by destruct (Et s Hr').
Qed.

Lemma C10_update_zero_length_tombstones_witness :
  page_wf 64 demo_page /\ live_slot 64 demo_page 1 /\
  Get 64 (snd (Update 64 demo_page 1 (Some []) 0)) 1 = (kNotFound, []).
Proof.
  assert (live_slot 64 demo_page 1) as Hl.
  { split; [vm_compute; split; congruence|vm_compute; congruence]. }
  split; [exact demo_page_wf|]. split; [exact Hl|].
  destruct (C10_update_zero_length_tombstones 64 demo_page 1 [] demo_page_wf Hl)
    as (_ & _ & _ & Hget & _).
  exact Hget.
Defined.

End PageTheorems.
(** * Buffer pool *)

Section BpmProofs.
Import BufferPoolManager.
Context {R : Type} `{IReplacer R}.

(** Frame acquisition when the victim is dirty and its write-back fails. *)
Lemma AcquireFrameFor_failed_flush (p : Impl R) d pid v r1 q pc dat :
  free_list p = [] ->
  rVictim (replacer p) = (Some v, r1) ->
  frame_at p v = mkFrame q pc true dat -> q <> kInvalidPageId ->
  fst (DiskManager.WritePage d q dat) <> kOk ->
  let p1 := if flush_cb p
            then log_flush_cb (set_replacer p r1) q (PageHeader.page_lsn dat)
            else set_replacer p r1 in
  AcquireFrameFor p (Some d) pid =
    (v, q,
     set_stats (set_table p1 (delete q (table p))) (count_eviction (stats p)),
     Some (snd (DiskManager.WritePage d q dat))).
Proof.
  intros Hfl Hv Hf Hq Hw p1. unfold AcquireFrameFor. rewrite Hfl, Hv.
  assert (Hf1 : frame_at (set_replacer p r1) v = mkFrame q pc true dat) by exact Hf.
  rewrite Hf1. cbn [f_page_id].
  assert ((q =? kInvalidPageId) = false) as Hqb by (by apply Z.eqb_neq).
  rewrite Hqb. unfold FlushFrame. rewrite Hf1. cbn [f_page_id dirty data negb orb].
  rewrite Hqb.
  destruct (DiskManager.WritePage d q dat) as [s d1] eqn:Ew. simpl in Hw.
  assert (ok s = false) as -> by (unfold ok; by apply bool_decide_eq_false).
  cbn [snd]. unfold p1.
  destruct (flush_cb p) eqn:Ecb; cbn [flush_cb set_replacer]; rewrite ?Ecb;
    (assert (forall p' : Impl R, frames p' = frames p -> page_size p' = page_size p ->
              frame_at p' v = mkFrame q pc true dat) as Hfa
      by (intros p' Hfr Hps; unfold frame_at in *; rewrite Hfr, Hps; exact Hf));
    rewrite Hfa by done; done.
Qed.

Lemma frame_at_set_frame_eq (p : Impl R) v f :
  0 <= v < Z.of_nat (length (frames p)) -> frame_at (set_frame p v f) v = f.
Proof.
  intros Hv. unfold frame_at, set_frame. cbn [frames page_size].
  rewrite list_lookup_insert_eq by lia. done.
Qed.

(** What the code does in the situation of C3, for every pool: when no frame
    is free, the replacer picks the victim [v], the victim holds the dirty
    page [q] and the disk write of [q] fails, the eviction is not aborted.
    Frame acquisition counts no flush, removes the page-table entry of [q],
    counts an eviction and returns [v]; [FetchPage] (when the read of the
    requested page then succeeds) and [NewPage] rebind the frame to the new
    page and return [Ok], and the unwritten bytes of [q] are dropped. *)
Theorem C3_failed_flush_eviction_proceeds (p : Impl R) d pid v r1 q pc dat :
  free_list p = [] ->
  rVictim (replacer p) = (Some v, r1) ->
  0 <= v < Z.of_nat (length (frames p)) ->
  frame_at p v = mkFrame q pc true dat -> q <> kInvalidPageId ->
  table p !! q = Some v -> table p !! pid = None ->
  fst (DiskManager.WritePage d q dat) <> kOk ->
  let d1 := snd (DiskManager.WritePage d q dat) in
  (exists p',
     AcquireFrameFor p (Some d) pid = (v, q, p', Some d1) /\
     table p' = delete q (table p) /\
     flushes (stats p') = flushes (stats p) /\
     evictions (stats p') = evictions (stats p) + 1 /\
     frame_at p' v = mkFrame q pc true dat) /\
  (forall bytes, DiskManager.ReadPage d1 pid = (kOk, bytes) ->
     exists p'',
       FetchPage p (Some d) pid = (kOk, bytes, p'', Some d1) /\
       table p'' !! q = None /\ table p'' !! pid = Some v /\
       frame_at p'' v = mkFrame pid 1 false bytes) /\
  (exists npid zero p'' d2,
     NewPage p (Some d) = (kOk, npid, zero, p'', d2) /\
     (npid <> q -> table p'' !! q = None) /\ table p'' !! npid = Some v /\
     frame_at p'' v = mkFrame npid 1 false zero).
Proof.
  intros Hfl Hv Hvr Hf Hq Hqv Hpid Hw d1.
  pose proof (AcquireFrameFor_failed_flush p d pid v r1 q pc dat Hfl Hv Hf Hq Hw) as Hacq.
  pose proof (AcquireFrameFor_failed_flush p d 0 v r1 q pc dat Hfl Hv Hf Hq Hw) as Hacq0.
  cbv zeta in Hacq, Hacq0. fold d1 in Hacq, Hacq0.
  set (p1 := if flush_cb p
             then log_flush_cb (set_replacer p r1) q (PageHeader.page_lsn dat)
             else set_replacer p r1) in *.
  set (pa := set_stats (set_table p1 (delete q (table p))) (count_eviction (stats p))) in *.
  assert (Hp1 : frames p1 = frames p /\ stats p1 = stats p /\ page_size p1 = page_size p).
  { unfold p1. destruct (flush_cb p); done. }
  destruct Hp1 as (Hfr1 & Hst1 & Hps1).
  assert (Hvneg : (v <? 0) = false) by (apply Z.ltb_ge; lia).
  split; [|split].
  - exists pa. split; [done|]. split; [done|]. split; [done|]. split; [done|].
    unfold frame_at in *. unfold pa. cbn [frames page_size set_stats set_table].
    by rewrite Hfr1, Hps1.
  - intros bytes Hread. eexists. split.
    + unfold FetchPage, LookupFrame. rewrite Hpid. cbn [Z.leb Z.compare].
      change (0 <=? -1) with false. cbv iota.
      rewrite Hacq, Hvneg, Hread. change (ok kOk) with true. cbn [negb]. reflexivity.
    + unfold pa. cbn [table set_stats set_replacer set_table set_frame].
      assert (q <> pid) as Hne by (intros ->; congruence).
      split; [by rewrite lookup_insert_ne, lookup_delete_eq|].
      split; [by rewrite lookup_insert_eq|].
      unfold frame_at. cbn [frames page_size set_stats set_replacer set_table set_frame].
      rewrite list_lookup_insert_eq by (rewrite Hfr1; lia). done.
  - unfold NewPage. rewrite Hacq0, Hvneg.
    destruct (DiskManager.WritePage d1 (u32 (DiskManager.PageCount d1))
                (replicate (Z.to_nat (page_size pa)) x00)) as [s2 d2] eqn:Ew2.
    eexists _, _, _, _. split; [reflexivity|].
    unfold pa. cbn [table set_stats set_replacer set_table set_frame].
    split; [intros Hne; by rewrite lookup_insert_ne, lookup_delete_eq|].
    split; [by rewrite lookup_insert_eq|].
    unfold frame_at. cbn [frames page_size set_stats set_replacer set_table set_frame].
    rewrite list_lookup_insert_eq by (rewrite Hfr1; lia). done.
Qed.

End BpmProofs.

Section BpmTheorems.
Import BufferPoolManager.

(** C3: the code does not do what the claim says, and what its own comments
    promise (a dirty victim is flushed first; an unpinned dirty page is
    written back).  With one frame holding the dirty page 0 and a disk whose
    writes fail, [FetchPage] of page 1 returns [Ok] and still evicts page 0:
    its page-table entry is removed and the frame is rebound to page 1, so
    the bytes of page 0 that were never written are lost. *)
Lemma C3_failed_flush_still_evicts :
  let p := demo_pool in
  let r := FetchPage p (Some demo_disk_failing) 1 in
  f_page_id (frame_at p 0) = 0 /\ dirty (frame_at p 0) = true /\
  table p !! 0 = Some 0 /\
  fst (DiskManager.WritePage demo_disk_failing 0 (data (frame_at p 0))) = kIOError /\
  fst (fst (fst r)) = kOk /\
  table (snd (fst r)) !! 0 = None /\
  table (snd (fst r)) !! 1 = Some 0 /\
  f_page_id (frame_at (snd (fst r)) 0) = 1 /\
  ~ (table (snd (fst r)) !! 0 = table p !! 0 /\ f_page_id (frame_at (snd (fst r)) 0) = 0).
Proof.
  vm_compute. repeat split; try reflexivity. intros [? ?]. discriminate.
Qed.

Lemma C3_failed_flush_eviction_proceeds_witness :
  let p := demo_pool in
  let d := demo_disk_failing in
  free_list p = [] /\
  rVictim (replacer p) = (Some 0, snd (rVictim (replacer p))) /\
  0 <= 0 < Z.of_nat (length (frames p)) /\
  frame_at p 0 = mkFrame 0 0 true (data (frame_at p 0)) /\
  0 <> kInvalidPageId /\ table p !! 0 = Some 0 /\ table p !! 1 = None /\
  fst (DiskManager.WritePage d 0 (data (frame_at p 0))) <> kOk /\
  exists p' d',
    AcquireFrameFor p (Some d) 1 = (0, 0, p', d') /\ table p' = delete 0 (table p).
Proof.
  intros p d.
  assert (free_list p = []) as H1 by reflexivity.
  assert (rVictim (replacer p) = (Some 0, snd (rVictim (replacer p)))) as H2 by reflexivity.
  assert (0 <= 0 < Z.of_nat (length (frames p))) as H3 by (vm_compute; split; congruence).
  assert (frame_at p 0 = mkFrame 0 0 true (data (frame_at p 0))) as H4 by reflexivity.
  assert (0 <> kInvalidPageId) as H5 by discriminate.
  assert (table p !! 0 = Some 0) as H6 by reflexivity.
  assert (table p !! 1 = None) as H7 by reflexivity.
  assert (fst (DiskManager.WritePage d 0 (data (frame_at p 0))) <> kOk) as H8
    by (vm_compute; discriminate).
  repeat (split; [assumption|]).
  destruct (C3_failed_flush_eviction_proceeds p d 1 0 _ 0 0 _ H1 H2 H3 H4 H5 H6 H7 H8)
    as ((p' & Hacq & Htab & _) & _ & _).
  eexists p', _. split; [exact Hacq|exact Htab].
Defined.

End BpmTheorems.
(** * Record model *)

Section TupleProofs.

Lemma le_value_le_bytes n v : le_value (le_bytes n v) = v mod 256 ^ Z.of_nat n.
Proof.
  revert v. induction n as [|n IH]; intros v.
  - simpl. by rewrite Z.mod_1_r.
  - cbn [le_bytes le_value]. rewrite IH, Z_of_byte_of_Z.
    rewrite Nat2Z.inj_succ, Z.pow_succ_r by lia.
    rewrite Z.rem_mul_r by lia. done.
Qed.

Lemma signed_mod_32 z : - 2 ^ 31 <= z < 2 ^ 31 -> signed 32 (z mod 2 ^ 32) = z.
Proof.
  intros Hz. unfold signed. change (2 ^ (32 - 1)) with 2147483648.
  change (2 ^ 32) with 4294967296 in *. change (2 ^ 31) with 2147483648 in *.
  destruct (z mod 4294967296 <? 2147483648) eqn:E.
  - apply Z.ltb_lt in E. lia.
  - apply Z.ltb_ge in E. lia.
Qed.

Lemma signed_mod_64 z : - 2 ^ 63 <= z < 2 ^ 63 -> signed 64 (z mod 2 ^ 64) = z.
Proof.
  intros Hz. unfold signed. change (2 ^ (64 - 1)) with 9223372036854775808.
  change (2 ^ 64) with 18446744073709551616 in *.
  change (2 ^ 63) with 9223372036854775808 in *.
  destruct (z mod 18446744073709551616 <? 9223372036854775808) eqn:E.
  - apply Z.ltb_lt in E. lia.
  - apply Z.ltb_ge in E. lia.
Qed.

Lemma load8_app_l a b x :
  0 <= x < Z.of_nat (length a) -> load8 (a ++ b) x = load8 a x.
Proof.
  intros Hx. rewrite !load8_lookup. f_equal. apply lookup_app_l. lia.
Qed.

Lemma load8_app_r a b x :
  0 <= x -> load8 (a ++ b) (Z.of_nat (length a) + x) = load8 b x.
Proof.
  intros Hx. rewrite !load8_lookup. f_equal.
  rewrite lookup_app_r by lia. f_equal. lia.
Qed.

Lemma sub_app_l a b o n :
  0 <= o -> 0 <= n -> o + n <= Z.of_nat (length a) -> sub (a ++ b) o n = sub a o n.
Proof.
  intros Ho Hn Hfit. apply sub_ext; try lia.
  - rewrite length_app. lia.
  - intros k Hk. apply load8_app_l. lia.
Qed.

Lemma sub_app_r a b k n :
  0 <= k -> 0 <= n -> k + n <= Z.of_nat (length b) ->
  sub (a ++ b) (Z.of_nat (length a) + k) n = sub b k n.
Proof.
  intros Hk Hn Hfit. apply sub_ext; try lia.
  - rewrite length_app. lia.
  - intros j Hj. rewrite <- Z.add_assoc. apply load8_app_r. lia.
Qed.

Lemma load16_app_l a b x :
  0 <= x -> x + 2 <= Z.of_nat (length a) -> load16 (a ++ b) x = load16 a x.
Proof.
  intros Hx Hfit. apply load16_ext; apply load8_app_l; lia.
Qed.

(** *** The layout computed by [BuildLayout] *)

Lemma col_size_nonneg c : 0 <= c_len c -> 0 <= col_size c.
Proof. unfold col_size. destruct (c_type c); simpl; lia. Qed.

Lemma layout_spec cols : forall off offs szs fin,
  Schema.layout cols off = (offs, szs, fin) ->
  Forall (fun c => 0 <= c_len c) cols -> 0 <= off -> fin < 2 ^ 32 ->
  length offs = length cols /\ off <= fin /\
  forall (i : nat) c, cols !! i = Some c ->
    exists o, offs !! i = Some o /\ off <= o /\ o + col_size c <= fin /\
      forall (j : nat) c' o', (i < j)%nat -> cols !! j = Some c' -> offs !! j = Some o' ->
        o + col_size c <= o'.
Proof.
  induction cols as [|col rest IH]; intros off offs szs fin Hl Hpos Hoff Hfin.
  - simpl in Hl. injection Hl as <- <- <-. split; [done|]. split; [lia|]. intros i c Hi. done.
  - cbn [Schema.layout] in Hl.
    destruct (Schema.layout rest (off + Schema.FixedSizeOfType (c_type col) (c_len col)))
      as [[offs' szs'] fin'] eqn:El.
    injection Hl as <- <- <-.
    apply Forall_cons in Hpos as [Hc Hpos].
    pose proof (col_size_nonneg col Hc) as Hsz. fold (col_size col) in El.
    destruct (IH _ _ _ _ El Hpos ltac:(lia) Hfin) as (Hlen & Hle & Hcells).
    split; [simpl; by rewrite Hlen|]. split; [lia|].
    assert (Hu : u32 off = off) by (unfold u32; change (2 ^ 32) with 4294967296 in Hfin; lia).
    intros [|i] c Hi; simpl in Hi.
    + injection Hi as <-. exists off. simpl. rewrite Hu. split; [done|]. split; [lia|].
      split; [lia|]. intros [|j] c' o' Hij Hj Ho'; [lia|]. simpl in Hj, Ho'.
      destruct (Hcells j c' Hj) as (o'' & Ho'' & Hlo & _). congruence || (rewrite Ho' in Ho''; injection Ho'' as ->; lia).
    + destruct (Hcells i c Hi) as (o & Ho & Hlo & Hhi & Hlater).
      exists o. simpl. split; [done|]. split; [lia|]. split; [done|].
      intros [|j] c' o' Hij Hj Ho'; [lia|]. simpl in Hj, Ho'.
      apply (Hlater j c' o'); [lia|done|done].
Qed.

Lemma schema_cells_ok s :
  schema_ok s -> Schema.FixedAreaSize s < 2 ^ 32 -> cells_ok s.
Proof.
  intros [(cols & b & ->) Hlens] Hfas. unfold cells_ok.
  unfold Schema.make in *.
  destruct (Schema.layout cols (if b then (Z.of_nat (length cols) + 7) / 8 else 0))
    as [[offs szs] fin] eqn:El.
  unfold Schema.FixedAreaSize, Schema.NullBitmapSize, Schema.ColumnCount,
    Schema.FixedOffsetOf, Schema.GetColumn in *. cbn in *.
  assert (Hnb : 0 <= (if b then (Z.of_nat (length cols) + 7) / 8 else 0))
    by (destruct b; lia).
  assert (Hpos : Forall (fun c => 0 <= c_len c) cols).
  { eapply Forall_impl; [exact Hlens|]. simpl. intros; lia. }
  destruct (layout_spec cols _ _ _ _ El Hpos Hnb Hfas) as (Hlen & Hle & Hcells).
  split; [lia|]. intros i Hi.
  destruct (lookup_lt_is_Some_2 cols (Z.to_nat i) ltac:(lia)) as [c Hc].
  destruct (Hcells _ _ Hc) as (o & Ho & Hlo & Hhi & Hlater).
  rewrite Hc, Ho. cbn.
  rewrite List.Forall_forall in Hpos.
  split. { apply col_size_nonneg, Hpos, list_elem_of_In, list_elem_of_lookup. eauto. }
  split; [done|]. split; [done|].
  intros j Hj Hij.
  destruct (lookup_lt_is_Some_2 cols (Z.to_nat j) ltac:(lia)) as [c' Hc'].
  destruct (Hcells _ _ Hc') as (o' & Ho' & Hlo' & Hhi' & Hlater').
  rewrite Hc', Ho'. cbn.
  destruct (decide (i < j)) as [Hlt|Hge].
  - left. apply (Hlater (Z.to_nat j) c' o'); [lia|done|done].
  - right. apply (Hlater' (Z.to_nat i) c o); [lia|done|done].
Qed.

Lemma length_char_cell N bs :
  0 <= N -> Z.of_nat (length (TupleBuilder.char_cell N bs)) = N.
Proof.
  intros HN. unfold TupleBuilder.char_cell.
  rewrite length_app, length_replicate, length_take. lia.
Qed.

Lemma fixed_cell_length c v bs :
  0 <= c_len c -> value_ok c v -> fixed_cell c v = Some bs ->
  Z.of_nat (length bs) = col_size c.
Proof.
  intros Hc Hv Hf. unfold col_size.
  destruct v; simpl in *; try discriminate; injection Hf as <-.
  1-5: destruct Hv as [Hv _]; by rewrite Hv.
  rewrite Hv. by apply length_char_cell.
Qed.

(** A cell survives writes outside of it and appends to the variable area. *)
Lemma cell_holds_frame s row var row' extra j w :
  0 <= c_len (Schema.GetColumn s j) -> 0 <= Schema.FixedOffsetOf s j ->
  Schema.FixedOffsetOf s j + col_size (Schema.GetColumn s j) <= Z.of_nat (length row) ->
  value_ok (Schema.GetColumn s j) w ->
  length row' = length row ->
  (forall x, Schema.FixedOffsetOf s j <= x
             < Schema.FixedOffsetOf s j + col_size (Schema.GetColumn s j) ->
     load8 row' x = load8 row x) ->
  cell_holds s row var j w -> cell_holds s row' (var ++ extra) j w.
Proof.
  intros Hc Ho Hin Hv Hl Hsame Hcell. unfold cell_holds in *.
  destruct (fixed_cell (Schema.GetColumn s j) w) as [bs|] eqn:Ef.
  - pose proof (fixed_cell_length _ _ _ Hc Hv Ef) as Hlen.
    assert (sub row' (Schema.FixedOffsetOf s j) (Z.of_nat (length bs))
            = sub row (Schema.FixedOffsetOf s j) (Z.of_nat (length bs))) as Hsub.
    { apply sub_ext; try lia. intros k Hk. apply Hsame. lia. }
    destruct w; try (by rewrite Hsub); done.
  - destruct w; try done. simpl in Hv. destruct Hv as [Hty Hvl].
    assert (col_size (Schema.GetColumn s j) = 4) as Hsz
      by (unfold col_size; by rewrite Hty).
    destruct Hcell as (k & Hk & Ho1 & Ho2 & Hfit & Hsub).
    exists k. split; [done|].
    split. { rewrite <- Ho1. apply load16_ext; apply Hsame; lia. }
    split. { rewrite <- Ho2. apply load16_ext; apply Hsame; lia. }
    split. { rewrite length_app. lia. }
    rewrite sub_app_l by lia. done.
Qed.

Lemma mark_set_inv s tb M i v row' extra :
  cells_ok s -> Forall (fun c => 0 <= c_len c < 2 ^ 32) (Schema.columns_ s) ->
  tb_inv s tb M -> 0 <= i < Schema.ColumnCount s ->
  value_ok (Schema.GetColumn s i) v ->
  length row' = length (TupleBuilder.row_ tb) ->
  (forall x, 0 <= x ->
     (x < Schema.FixedOffsetOf s i \/
      Schema.FixedOffsetOf s i + col_size (Schema.GetColumn s i) <= x) ->
     load8 row' x = load8 (TupleBuilder.row_ tb) x) ->
  cell_holds s row' (TupleBuilder.var_ tb ++ extra) i v ->
  tb_inv s (TupleBuilder.mark_set tb i row' (TupleBuilder.var_ tb ++ extra)) (upd M i v).
Proof.
  intros [Hnb Hcells] Hlens [Hs Hrow Hset Hnull Hold] Hi Hv Hl Hsame Hcell.
  destruct (Hcells i Hi) as (Hsz & Hlo & Hhi & Hdisj).
  assert (Hclen : forall j, 0 <= j < Schema.ColumnCount s -> 0 <= c_len (Schema.GetColumn s j)).
  { intros j Hj. unfold Schema.GetColumn, Schema.ColumnCount in *.
    destruct (lookup_lt_is_Some_2 (Schema.columns_ s) (Z.to_nat j) ltac:(lia)) as [c Hc].
    rewrite Hc. simpl. rewrite List.Forall_forall in Hlens.
    apply Hlens, list_elem_of_In, list_elem_of_lookup. eauto. }
  split; cbn [TupleBuilder.mark_set TupleBuilder.s_ TupleBuilder.row_ TupleBuilder.var_
              TupleBuilder.set_].
  - done.
  - by rewrite Hl.
  - by rewrite length_insert.
  - intros x Hx. rewrite Hsame by lia. by apply Hnull.
  - intros j w. unfold upd. destruct (decide (j = i)) as [->|Hji].
    + intros [= <-]. split; [done|]. split; [done|]. split; [|done].
      apply list_lookup_insert_eq. unfold Schema.ColumnCount in Hi. lia.
    + intros HM. destruct (Hold j w HM) as (Hj & Hvj & Hsetj & Hcj).
      destruct (Hcells j Hj) as (Hszj & Hloj & Hhij & _).
      split; [done|]. split; [done|].
      split; [rewrite list_lookup_insert_ne by lia; done|].
      apply (cell_holds_frame s (TupleBuilder.row_ tb)); try done; try lia.
      * by apply Hclen.
      * intros x Hx. apply Hsame; [lia|].
        destruct (Hdisj j Hj ltac:(congruence)); lia.
Qed.

Lemma set_value_step s tb M i v :
  cells_ok s -> Forall (fun c => 0 <= c_len c < 2 ^ 32) (Schema.columns_ s) ->
  tb_inv s tb M -> op_ok s (i, v) ->
  Schema.FixedAreaSize s + Z.of_nat (length (TupleBuilder.var_ tb)) + var_len v <= 65535 ->
  exists tb1,
    set_value tb i v = (kOk, tb1) /\ tb_inv s tb1 (upd M i v) /\
    Z.of_nat (length (TupleBuilder.var_ tb1))
    = Z.of_nat (length (TupleBuilder.var_ tb)) + var_len v.
Proof.
  intros Hcok Hlens Hinv [Hi Hv] Hbound. cbn [fst snd] in Hi, Hv.
  pose proof Hcok as [Hnb Hcells].
  destruct (Hcells i Hi) as (Hsz & Hlo & Hhi & Hdisj).
  pose proof (ti_schema _ _ _ Hinv) as Hs. pose proof (ti_row _ _ _ Hinv) as Hrow.
  assert (Hcnt : (Schema.ColumnCount (TupleBuilder.s_ tb) <=? i) = false)
    by (rewrite Hs; apply Z.leb_gt; lia).
  assert (Hclen : 0 <= c_len (Schema.GetColumn s i)).
  { unfold Schema.GetColumn, Schema.ColumnCount in *.
    destruct (lookup_lt_is_Some_2 (Schema.columns_ s) (Z.to_nat i) ltac:(lia)) as [c Hc].
    rewrite Hc. simpl. rewrite List.Forall_forall in Hlens.
    apply Hlens, list_elem_of_In, list_elem_of_lookup. eauto. }
  destruct (fixed_cell (Schema.GetColumn s i) v) as [bs|] eqn:Ef.
  - (* a fixed cell *)
    pose proof (fixed_cell_length _ _ _ Hclen Hv Ef) as Hbl.
    assert (Hset : set_value tb i v =
              (kOk, TupleBuilder.mark_set tb i
                      (store (TupleBuilder.row_ tb) (Schema.FixedOffsetOf s i) bs)
                      (TupleBuilder.var_ tb))).
    { destruct v; simpl in Hv, Ef; try discriminate; injection Ef as <-.
      1-5: destruct Hv as [Hv _].
      all: unfold set_value, TupleBuilder.SetInt32, TupleBuilder.SetInt64,
          TupleBuilder.SetFloat, TupleBuilder.SetDouble, TupleBuilder.SetDate,
          TupleBuilder.set_fixed, TupleBuilder.SetChar, TupleBuilder.WriteFixed;
        rewrite Hcnt, Hs; rewrite (bool_decide_eq_true_2 _ Hv); cbn [negb]; try done.
      unfold Schema.FixedSizeOf. rewrite Hv. done. }
    eexists. split; [exact Hset|].
    assert (var_len v = 0) as Hvl by (destruct v; simpl in *; done).
    split; [|cbn; lia].
    rewrite <- (app_nil_r (TupleBuilder.var_ tb)).
    apply mark_set_inv; try done.
    + apply length_store.
    + intros x Hx Hout. apply load8_store_out; lia.
    + unfold cell_holds. rewrite Ef.
      assert (sub (store (TupleBuilder.row_ tb) (Schema.FixedOffsetOf s i) bs)
                (Schema.FixedOffsetOf s i) (Z.of_nat (length bs)) = bs) as Hsub
        by (apply sub_store_same; lia).
      destruct v; simpl in Ef; try discriminate; done.
  - (* a VARCHAR cell *)
    destruct v as [| | | | | |bs]; simpl in Ef; try discriminate.
    simpl in Hv, Hbound. destruct Hv as [Hty Hvl].
    assert (Hsz4 : col_size (Schema.GetColumn s i) = 4)
      by (unfold col_size; by rewrite Hty).
    set (o := Schema.FixedOffsetOf s i) in *.
    set (k := Z.of_nat (length (TupleBuilder.var_ tb))) in *.
    set (row' := store16 (store16 (TupleBuilder.row_ tb) o (Schema.FixedAreaSize s + k))
                   (o + 2) (Z.of_nat (length bs))).
    assert (Hset : set_value tb i (VVarChar bs) =
              (kOk, TupleBuilder.mark_set tb i row' (TupleBuilder.var_ tb ++ bs))).
    { unfold set_value, TupleBuilder.SetVarChar, TupleBuilder.WriteVarMeta.
      rewrite Hcnt, Hs. rewrite (bool_decide_eq_true_2 _ Hty). cbn [negb].
      assert ((c_len (Schema.GetColumn s i) <? Z.of_nat (length bs)) = false) as ->
        by (apply Z.ltb_ge; lia).
      unfold row', u16. fold o. fold k. rewrite !Z.mod_small by lia. done. }
    eexists. split; [exact Hset|]. split.
    + apply mark_set_inv; try done.
      * unfold row'. by rewrite !length_store16.
      * intros x Hx Hout. unfold row'. rewrite !load8_store16_other by lia. done.
      * unfold cell_holds. exists k. split; [lia|].
        split. { unfold row'. rewrite load16_store16_other by lia.
                 rewrite load16_store16_same by lia. lia. }
        split. { unfold row'. rewrite load16_store16_same by (rewrite ?length_store16; lia).
                 lia. }
        split. { rewrite length_app. lia. }
        unfold k. rewrite <- (Z.add_0_r (Z.of_nat (length (TupleBuilder.var_ tb)))).
        rewrite sub_app_r by lia. unfold sub. rewrite drop_0, Nat2Z.id. apply firstn_all.
    + cbn. rewrite length_app. lia.
Qed.

Lemma run_sets_spec s ops : forall tb M,
  cells_ok s -> Forall (fun c => 0 <= c_len c < 2 ^ 32) (Schema.columns_ s) ->
  tb_inv s tb M -> Forall (op_ok s) ops ->
  Schema.FixedAreaSize s + Z.of_nat (length (TupleBuilder.var_ tb)) + var_bytes ops <= 65535 ->
  exists tb', run_sets tb ops = (kOk, tb') /\ tb_inv s tb' (extend M ops).
Proof.
  induction ops as [|[i v] ops IH]; intros tb M Hcok Hlens Hinv Hops Hbound.
  - exists tb. split; [done|]. exact Hinv.
  - apply Forall_cons in Hops as [Hop Hops].
    assert (Hvb : var_bytes ((i, v) :: ops) = var_len v + var_bytes ops)
      by (destruct v; simpl; lia).
    assert (0 <= var_bytes ops) as Hnn.
    { clear. induction ops as [|[j w] ops IH]; simpl; [lia|]. destruct w; lia. }
    destruct (set_value_step s tb M i v Hcok Hlens Hinv Hop ltac:(lia))
      as (tb1 & Hset & Hinv1 & Hlen1).
    destruct (IH tb1 (upd M i v) Hcok Hlens Hinv1 Hops ltac:(lia)) as (tb' & Hrun & Hinv').
    exists tb'. cbn [run_sets]. rewrite Hset. change (ok kOk) with true. cbv iota.
    split; [done|].
    destruct Hinv' as [H1 H2 H3 H4 H5]. split; try done.
    intros j w Hj. apply H5. unfold extend, upd in *. cbn [last_set] in Hj.
    destruct (last_set ops j); [done|]. destruct (decide (i = j)) as [->|Hne].
    + rewrite decide_True by done. done.
    + rewrite decide_False by congruence. done.
Qed.

Lemma make_inv s :
  cells_ok s -> tb_inv s (TupleBuilder.make s) (fun _ => None).
Proof.
  intros [Hnb _].
  split; cbn [TupleBuilder.make TupleBuilder.s_ TupleBuilder.row_ TupleBuilder.var_
              TupleBuilder.set_].
  - done.
  - rewrite length_replicate. lia.
  - by rewrite length_replicate.
  - intros x Hx. rewrite load8_lookup.
    rewrite lookup_replicate_2 by lia. done.
  - intros i v. done.
Qed.

Lemma first_unset_None l : forall i,
  (forall (k : nat) b, l !! k = Some b -> b = true) ->
  TupleBuilder.first_unset l i = None.
Proof.
  induction l as [|b l IH]; intros i Hall; [done|]. simpl.
  rewrite (Hall 0%nat b eq_refl). apply IH. intros k b' Hk. apply (Hall (S k)). done.
Qed.

Lemma Build_spec s tb M :
  tb_inv s tb M ->
  (forall i, 0 <= i < Schema.ColumnCount s -> M i <> None) ->
  TupleBuilder.Build tb = (kOk, TupleBuilder.row_ tb ++ TupleBuilder.var_ tb).
Proof.
  intros [Hs Hrow Hset Hnull Hcells] Hall. unfold TupleBuilder.Build.
  rewrite first_unset_None; [done|]. intros k b Hk.
  assert (Z.of_nat k < Schema.ColumnCount s) as Hlt.
  { apply lookup_lt_Some in Hk. unfold Schema.ColumnCount. lia. }
  destruct (M (Z.of_nat k)) as [v|] eqn:E.
  - destruct (Hcells _ _ E) as (_ & _ & Hsk & _). rewrite Nat2Z.id in Hsk. congruence.
  - by destruct (Hall (Z.of_nat k) ltac:(lia)).
Qed.

Lemma null_bitmap_covers s i :
  schema_ok s -> Schema.UseNullBitmap s = true -> 0 <= i < Schema.ColumnCount s ->
  0 <= i / 8 < Schema.NullBitmapSize s.
Proof.
  intros [(cols & b & ->) _]. unfold Schema.make.
  destruct (Schema.layout cols _) as [[offs szs] fin].
  unfold Schema.UseNullBitmap, Schema.ColumnCount, Schema.NullBitmapSize. cbn.
  intros -> Hi. lia.
Qed.

Lemma IsNull_built s tb M i :
  schema_ok s -> cells_ok s -> tb_inv s tb M -> 0 <= i < Schema.ColumnCount s ->
  Tuple.IsNull (TupleBuilder.row_ tb ++ TupleBuilder.var_ tb) s i = false.
Proof.
  intros Hok [Hnb _] [Hs Hrow Hset Hnull Hcells] Hi. unfold Tuple.IsNull.
  destruct (Schema.UseNullBitmap s) eqn:Eb; [|done]. cbn [negb].
  destruct ((Schema.NullBitmapSize s =? 0)
            || (Tuple.Size (TupleBuilder.row_ tb ++ TupleBuilder.var_ tb)
                <? Schema.NullBitmapSize s)); [done|].
  pose proof (null_bitmap_covers s i Hok Eb Hi) as Hb.
  rewrite load8_app_l by lia. rewrite Hnull by lia.
  change (Z_of_byte x00) with 0. apply Z.testbit_0_l.
Qed.

(** Each getter returns what was set. *)
Lemma get_value_built s tb M i v :
  schema_ok s -> cells_ok s -> tb_inv s tb M -> M i = Some v ->
  get_value (TupleBuilder.row_ tb ++ TupleBuilder.var_ tb) s i
  = (kOk, read_back (Schema.GetColumn s i) v).
Proof.
  intros Hok Hcok Hinv HM.
  destruct (ti_cells _ _ _ Hinv i v HM) as (Hi & Hv & _ & Hcell).
  pose proof (IsNull_built s tb M i Hok Hcok Hinv Hi) as Hnull.
  pose proof (ti_row _ _ _ Hinv) as Hrow.
  destruct Hcok as [Hnb Hcells]. destruct (Hcells i Hi) as (Hsz & Hlo & Hhi & _).
  unfold cell_holds in Hcell. unfold get_value.
  destruct v as [z|z|z|z|z|bs|bs]; simpl in Hv;
    cbv beta iota zeta in Hcell; unfold fixed_cell in Hcell; cbv beta iota in Hcell;
    rewrite ?length_le_bytes in Hcell;
    [destruct Hv as [Hty Hr] | destruct Hv as [Hty Hr] | destruct Hv as [Hty Hr]
    | destruct Hv as [Hty Hr] | destruct Hv as [Hty Hr] | rename Hv into Hty
    | destruct Hv as [Hty Hr]];
    rewrite Hty;
    unfold col_size in Hhi; rewrite Hty in Hhi; simpl in Hhi;
    unfold Tuple.GetInt32, Tuple.GetInt64, Tuple.GetFloat, Tuple.GetDouble,
      Tuple.GetDate, Tuple.get_fixed, Tuple.GetChar, Tuple.GetVarChar, Tuple.FixedPtr;
    rewrite Hnull, (bool_decide_eq_true_2 _ Hty); cbn [negb read_back].
  - rewrite sub_app_l by lia. change (Z.of_nat 4) with 4 in Hcell.
    rewrite Hcell, le_value_le_bytes. change (256 ^ Z.of_nat 4) with (2 ^ 32).
    by rewrite signed_mod_32.
  - rewrite sub_app_l by lia. change (Z.of_nat 8) with 8 in Hcell.
    rewrite Hcell, le_value_le_bytes. change (256 ^ Z.of_nat 8) with (2 ^ 64).
    by rewrite signed_mod_64.
  - rewrite sub_app_l by lia. change (Z.of_nat 4) with 4 in Hcell.
    rewrite Hcell, le_value_le_bytes. change (256 ^ Z.of_nat 4) with (2 ^ 32).
    by rewrite Z.mod_small.
  - rewrite sub_app_l by lia. change (Z.of_nat 8) with 8 in Hcell.
    rewrite Hcell, le_value_le_bytes. change (256 ^ Z.of_nat 8) with (2 ^ 64).
    by rewrite Z.mod_small.
  - rewrite sub_app_l by lia. change (Z.of_nat 4) with 4 in Hcell.
    rewrite Hcell, le_value_le_bytes. change (256 ^ Z.of_nat 4) with (2 ^ 32).
    by rewrite signed_mod_32.
  - unfold Schema.FixedSizeOf. rewrite Hty. cbn [Schema.FixedSizeOfType].
    unfold col_size in Hsz. rewrite Hty in Hsz. cbn [Schema.FixedSizeOfType] in Hsz.
    rewrite length_char_cell in Hcell by lia.
    rewrite sub_app_l by lia. by rewrite Hcell.
  - destruct Hcell as (k & Hk & Ho1 & Ho2 & Hfit & Hsub).
    rewrite !load16_app_l by lia. rewrite Ho1, Ho2.
    assert ((Tuple.Size (TupleBuilder.row_ tb ++ TupleBuilder.var_ tb)
             <? Schema.FixedAreaSize s + k + Z.of_nat (length bs)) = false) as ->.
    { apply Z.ltb_ge. unfold Tuple.Size. rewrite length_app. lia. }
    rewrite <- Hrow. rewrite sub_app_r by lia. by rewrite Hsub.
Qed.

End TupleProofs.

Section TupleTheorems.

(** C9, as stated, fails for a tuple that outgrows the 16-bit offset and
    length of a VARCHAR cell: for the schema with the single column
    VARCHAR(70000) and a value of 65536 bytes, [Build] succeeds and the getter
    returns the empty string. *)
Lemma C9_long_varchar_is_not_read_back :
  schema_ok big_schema /\ op_ok big_schema (0, VVarChar big_value) /\
  fst (build_tuple big_schema [(0, VVarChar big_value)]) = kOk /\
  get_value (snd (build_tuple big_schema [(0, VVarChar big_value)])) big_schema 0
  = (kOk, VVarChar []) /\
  VVarChar [] <> read_back (Schema.GetColumn big_schema 0) (VVarChar big_value).
Proof.
  split; [|split; [|split; [|split]]].
  - split; [by exists [mkColumn [] VARCHAR 70000 false], false|].
    repeat constructor; simpl; lia.
  - split; [change (0 <= 0 < 1); lia|]. cbn [fst snd]. unfold value_ok.
    split; [reflexivity|].
    change (c_len (Schema.GetColumn big_schema 0)) with 70000.
    unfold big_value. rewrite length_replicate. lia.
  - vm_compute. reflexivity.
  - vm_compute. reflexivity.
  - cbn [read_back]. intros Heq. injection Heq as Heq.
    apply (f_equal length) in Heq. unfold big_value in Heq.
    rewrite length_replicate in Heq. cbn [length] in Heq. lia.
Qed.

(** C9 (amended): for every schema and every sequence of setter calls with
    admissible values that sets every column, such that the fixed area plus
    the VARCHAR payloads stay within 65535 bytes, [Build] succeeds, and the
    getter of each column returns the value set last for it: integers, dates
    and floating-point bit patterns unchanged, VARCHAR exactly, and CHAR(N)
    cut or zero-padded to [N] bytes with trailing zero bytes removed. *)
Theorem C9_build_then_get s ops :
  schema_ok s -> Forall (op_ok s) ops ->
  (forall i, 0 <= i < Schema.ColumnCount s -> last_set ops i <> None) ->
  Schema.FixedAreaSize s + var_bytes ops <= 65535 ->
  exists t,
    build_tuple s ops = (kOk, t) /\
    forall i v, last_set ops i = Some v ->
      get_value t s i = (kOk, read_back (Schema.GetColumn s i) v).
Proof.
  intros Hok Hops Hall Hbound.
  assert (0 <= var_bytes ops) as Hnn.
  { clear. induction ops as [|[j w] ops IH]; simpl; [lia|]. destruct w; lia. }
  assert (Hcok : cells_ok s).
  { apply schema_cells_ok; [done|]. change (2 ^ 32) with 4294967296. lia. }
  destruct Hok as [Hmk Hlens].
  destruct (run_sets_spec s ops (TupleBuilder.make s) (fun _ => None) Hcok Hlens
              (make_inv s Hcok) Hops) as (tb & Hrun & Hinv).
  { cbn. lia. }
  assert (Hext : forall i, extend (fun _ => None) ops i = last_set ops i).
  { intros i. unfold extend. by destruct (last_set ops i). }
  exists (TupleBuilder.row_ tb ++ TupleBuilder.var_ tb). split.
  - unfold build_tuple. rewrite Hrun. change (ok kOk) with true. cbv iota.
    apply (Build_spec s tb _ Hinv). intros i Hi. rewrite Hext. by apply Hall.
  - intros i v Hv. apply (get_value_built s tb (extend (fun _ => None) ops)); try done.
    by rewrite Hext.
Qed.

Lemma C9_build_then_get_witness :
  schema_ok demo_schema /\ Forall (op_ok demo_schema) demo_ops /\
  (forall i, 0 <= i < Schema.ColumnCount demo_schema -> last_set demo_ops i <> None) /\
  Schema.FixedAreaSize demo_schema + var_bytes demo_ops <= 65535 /\
  exists t, build_tuple demo_schema demo_ops = (kOk, t) /\
    get_value t demo_schema 1 = (kOk, VChar [x41; x42]).
Proof.
  assert (schema_ok demo_schema) as H1.
  { split; [by eexists _, _|]. repeat constructor; simpl; lia. }
  assert (Forall (op_ok demo_schema) demo_ops) as H2.
  { repeat constructor; simpl; lia. }
  assert (forall i, 0 <= i < Schema.ColumnCount demo_schema -> last_set demo_ops i <> None)
    as H3.
  { intros i Hi. change (Schema.ColumnCount demo_schema) with 4 in Hi.
    assert (i = 0 \/ i = 1 \/ i = 2 \/ i = 3) as [-> | [-> | [-> | ->]]] by lia; done. }
  assert (Schema.FixedAreaSize demo_schema + var_bytes demo_ops <= 65535) as H4
    by (vm_compute; discriminate).
  split; [exact H1|]. split; [exact H2|]. split; [exact H3|]. split; [exact H4|].
  destruct (C9_build_then_get demo_schema demo_ops H1 H2 H3 H4) as (t & Hb & Hget).
  exists t. split; [exact Hb|]. exact (Hget 1 (VChar [x41; x42]) eq_refl).
Defined.

End TupleTheorems.
(** * Table heap *)

(** ** The file behind the pool *)

Section DiskProofs.
Import DiskManager.

Lemma page_bounds (psz N q : Z) : 0 < psz -> 0 <= q < N ->
  0 <= q * psz /\ q * psz + psz <= N * psz.
Proof. intros. nia. Qed.

Lemma pages_apart (psz q q' : Z) : 0 < psz -> q <> q' ->
  q * psz + psz <= q' * psz \/ q' * psz + psz <= q * psz.
Proof. intros. nia. Qed.

Lemma disk_page_length psz d N q :
  disk_ok psz d N -> 0 < psz -> 0 <= q < N ->
  Z.of_nat (length (disk_page psz d q)) = psz.
Proof.
  intros [] Hpsz Hq. pose proof (page_bounds psz N q Hpsz Hq).
  unfold disk_page. rewrite length_sub by lia. lia.
Qed.

Lemma PageCount_ok psz d N : disk_ok psz d N -> 0 < psz -> PageCount d = N.
Proof.
  intros [] Hpsz. unfold PageCount, SizeBytes. rewrite dk_length0, dk_page_size0.
  by apply Z.div_mul_cancel_r || (rewrite Z.div_mul by lia; done).
Qed.

Lemma ReadPage_ok psz d N q :
  disk_ok psz d N -> 0 < psz -> 0 <= q < N ->
  ReadPage d q = (kOk, disk_page psz d q).
Proof.
  intros [] Hpsz Hq. pose proof (page_bounds psz N q Hpsz Hq).
  unfold ReadPage, ReadAt, SizeBytes. rewrite dk_page_size0, dk_read0.
  assert ((Z.of_nat (length (file_ d)) <? q * psz + psz) = false) as ->
    by (apply Z.ltb_ge; lia).
  done.
Qed.

Lemma WritePage_ok psz d N q bytes :
  disk_ok psz d N -> 0 < psz -> 0 <= q < N -> Z.of_nat (length bytes) = psz ->
  exists d', WritePage d q bytes = (kOk, d') /\ disk_ok psz d' N /\
    disk_page psz d' q = bytes /\
    forall q', 0 <= q' < N -> q' <> q -> disk_page psz d' q' = disk_page psz d q'.
Proof.
  intros [] Hpsz Hq Hlen. pose proof (page_bounds psz N q Hpsz Hq).
  unfold WritePage, EnsureCapacityFor, SizeBytes. rewrite dk_page_size0.
  assert (((q + 1) * psz <=? Z.of_nat (length (file_ d))) = true) as ->
    by (apply Z.leb_le; lia).
  change (ok kOk) with true. cbv iota. unfold WriteAt. rewrite dk_write0.
  rewrite take_ge by lia.
  eexists. split; [reflexivity|]. split; [|split].
  - split; cbn; try done. by rewrite length_store.
  - unfold disk_page. cbn.
    pose proof (sub_store_same (file_ d) (q * psz) bytes) as Hs.
    rewrite Hlen in Hs. apply Hs; lia.
  - intros q' Hq' Hne. unfold disk_page. cbn.
    pose proof (page_bounds psz N q' Hpsz Hq').
    pose proof (pages_apart psz q q' Hpsz ltac:(congruence)).
    apply sub_store_other; lia.
Qed.

Lemma ResizeToPages_ok psz d N :
  disk_ok psz d N -> 0 < psz ->
  exists d', ResizeToPages d (N + 1) = (kOk, d') /\ disk_ok psz d' (N + 1) /\
    forall q, 0 <= q < N -> disk_page psz d' q = disk_page psz d q.
Proof.
  intros [] Hpsz. unfold ResizeToPages, Resize. rewrite dk_write0, dk_page_size0.
  assert (Hn : (N + 1) * psz = N * psz + psz) by lia.
  eexists. split; [reflexivity|]. split.
  - split; cbn; try done; [|lia].
    rewrite length_app, length_take, length_replicate. lia.
  - intros q Hq. pose proof (page_bounds psz N q Hpsz Hq).
    unfold disk_page, sub. cbn. rewrite (take_ge (file_ d)) by lia.
    rewrite drop_app_le by lia. rewrite take_app_le; [done|].
    rewrite length_drop. lia.
Qed.

End DiskProofs.
(** ** The buffer pool under a lawful replacer *)

Section PoolProofs.
Import BufferPoolManager.
Context {R : Type} `{ReplacerLaws R}.

Ltac pool_simpl :=
  cbn [frames table free_list num_frames page_size replacer stats flush_cb flush_cb_calls
       set_frame set_table set_free_list set_replacer set_stats log_flush_cb
       f_page_id pin_count dirty data] in *.

Lemma frame_at_set_frame (p : Impl R) fid f g :
  0 <= fid < Z.of_nat (length (frames p)) -> 0 <= g ->
  frame_at (set_frame p fid f) g = if decide (g = fid) then f else frame_at p g.
Proof.
  intros Hfid Hg. unfold frame_at, set_frame. pool_simpl.
  case_decide as E.
  - subst g. by rewrite list_lookup_insert_eq by lia.
  - by rewrite list_lookup_insert_ne by lia.
Qed.

Lemma frame_at_same (p p' : Impl R) g :
  frames p' = frames p -> page_size p' = page_size p -> frame_at p' g = frame_at p g.
Proof. intros Hf Hp. unfold frame_at. by rewrite Hf, Hp. Qed.

(** Two pages held by the same frame are the same page. *)
Lemma table_inj (p : Impl R) N n pin q q' fid :
  pool_base p N n pin -> table p !! q = Some fid -> table p !! q' = Some fid -> q = q'.
Proof.
  intros Hb Hq Hq'. destruct (pb_table _ _ _ _ Hb _ _ Hq) as (_ & <- & _).
  by destruct (pb_table _ _ _ _ Hb _ _ Hq') as (_ & <- & _).
Qed.

(** *** A page that is resident *)
Lemma FetchPage_hit_spec psz (p : Impl R) d N n pid fid :
  pool_ok p N n None -> content_ok psz p d n None -> table p !! pid = Some fid ->
  exists p', FetchPage p (Some d) pid = (kOk, pool_page psz p d pid, p', Some d) /\
    pool_ok p' N n (Some pid) /\ content_ok psz p' d n (Some pid) /\
    (forall q, pool_page psz p' d q = pool_page psz p d q) /\
    (forall q recs, disk_agrees psz p d q recs -> disk_agrees psz p' d q recs).
Proof.
  intros [Hb Hcov] Hc Hpid.
  destruct (pb_table _ _ _ _ Hb _ _ Hpid) as (Hfid & Hfp & HpN & _ & Hnf & Hpc).
  pose proof (pb_frames _ _ _ _ Hb) as Hlen.
  destruct (rPin_laws (replacer p) fid (pb_rok _ _ _ _ Hb)) as (Hrok & Hrcap & Hrc).
  set (f := frame_at p fid) in *.
  set (p' := set_stats
               (set_replacer (set_frame p fid (mkFrame (f_page_id f) (pin_count f + 1)
                                                 (dirty f) (data f)))
                  (rPin (replacer p) fid))
               (count_hit (stats p))).
  assert (Hfa : forall g, 0 <= g -> frame_at p' g =
            if decide (g = fid) then mkFrame (f_page_id f) (pin_count f + 1) (dirty f) (data f)
            else frame_at p g).
  { intros g Hg. unfold p'.
    rewrite <- (frame_at_set_frame p fid _ g) by lia. by apply frame_at_same. }
  assert (Hdata : forall g, 0 <= g -> data (frame_at p' g) = data (frame_at p g) /\
                                    dirty (frame_at p' g) = dirty (frame_at p g)).
  { intros g Hg. rewrite Hfa by done. destruct (decide (g = fid)) as [->|?]; done. }
  assert (Hpp : forall q, pool_page psz p' d q = pool_page psz p d q).
  { intros q. unfold pool_page. change (table p') with (table p).
    destruct (table p !! q) as [g|] eqn:Eq; [|done].
    destruct (pb_table _ _ _ _ Hb _ _ Eq) as (Hg & _). by apply Hdata; lia. }
  assert (Hda : forall q recs, disk_agrees psz p d q recs -> disk_agrees psz p' d q recs).
  { intros q recs Ha g Hg Hd. change (table p') with (table p) in Hg.
    destruct (pb_table _ _ _ _ Hb _ _ Hg) as (Hgr & _).
    apply (Ha g Hg). destruct (Hdata g ltac:(lia)) as [_ <-]. done. }
  exists p'. split; [|split; [|split; [|split]]]; try done.
  - unfold FetchPage, LookupFrame. rewrite Hpid.
    assert ((0 <=? fid) = true) as -> by (apply Z.leb_le; lia).
    unfold pool_page. rewrite Hpid. done.
  - split; [split|].
    + unfold p'. pool_simpl. by rewrite length_insert.
    + exact (pb_nonempty _ _ _ _ Hb).
    + intros q g Hq. change (table p') with (table p) in Hq.
      destruct (pb_table _ _ _ _ Hb _ _ Hq) as (Hg & Hgp & HqN & Hqn & Hgf & Hgpc).
      change (num_frames p') with (num_frames p). change (free_list p') with (free_list p).
      rewrite Hfa by lia. split; [done|]. split.
      { destruct (decide (g = fid)) as [->|?]; done. }
      split; [done|]. split; [destruct Hqn; [by left|done]|]. split; [done|].
      destruct (decide (g = fid)) as [->|Hne].
      * assert (q = pid) as -> by (by eapply table_inj). rewrite decide_True by done.
        cbn. fold f in Hpc. rewrite Hpc. by rewrite decide_False.
      * rewrite Hgpc. rewrite decide_False by done.
        rewrite decide_False; [done|]. intros [= ->]. apply Hne. congruence.
    + exact (pb_free _ _ _ _ Hb).
    + exact (pb_nodup _ _ _ _ Hb).
    + exact Hrok.
    + change (replacer p') with (rPin (replacer p) fid). rewrite Hrcap.
      exact (pb_rcap _ _ _ _ Hb).
    + intros g. change (replacer p') with (rPin (replacer p) fid).
      change (table p') with (table p). rewrite Hrc, (pb_cand _ _ _ _ Hb). split.
      * intros [(q & Hq & _) Hne]. exists q. split; [done|]. intros [= ->]. congruence.
      * intros (q & Hq & Hne). split; [by exists q|]. intros ->. apply Hne. f_equal.
        by eapply table_inj.
    + intros q [= ->]. change (table p') with (table p). by rewrite Hpid.
    + exact Hcov.
  - intros q Hq Hne. rewrite Hpp. destruct (Hc q Hq) as [Hw Ha]; [done|]. split; [done|].
    by apply Hda.
Qed.

(** *** Writing through the pointer of the pinned page *)
Lemma write_through_spec psz (p : Impl R) d N n pid bytes :
  pool_ok p N n (Some pid) -> content_ok psz p d n (Some pid) ->
  pool_ok (write_through p pid bytes) N n (Some pid) /\
  content_ok psz (write_through p pid bytes) d n (Some pid) /\
  pool_page psz (write_through p pid bytes) d pid = bytes /\
  (forall q, q <> pid ->
     pool_page psz (write_through p pid bytes) d q = pool_page psz p d q) /\
  (forall q recs, disk_agrees psz p d q recs ->
     disk_agrees psz (write_through p pid bytes) d q recs).
Proof.
  intros [Hb Hcov] Hc.
  destruct (pb_pin _ _ _ _ Hb pid eq_refl) as [fid Hpid].
  destruct (pb_table _ _ _ _ Hb _ _ Hpid) as (Hfid & Hfp & HpN & _ & Hnf & Hpc).
  pose proof (pb_frames _ _ _ _ Hb) as Hlen.
  set (f := frame_at p fid) in *.
  assert (Hw : write_through p pid bytes =
               set_frame p fid (mkFrame (f_page_id f) (pin_count f) (dirty f) bytes)).
  { unfold write_through, LookupFrame. rewrite Hpid.
    assert ((fid <? 0) = false) as -> by (apply Z.ltb_ge; lia). done. }
  rewrite Hw. set (p' := set_frame p fid _).
  assert (Hfa : forall g, 0 <= g -> frame_at p' g =
            if decide (g = fid) then mkFrame (f_page_id f) (pin_count f) (dirty f) bytes
            else frame_at p g).
  { intros g Hg. unfold p'. by apply frame_at_set_frame; lia. }
  assert (Hpp : forall q, q <> pid -> pool_page psz p' d q = pool_page psz p d q).
  { intros q Hne. unfold pool_page. change (table p') with (table p).
    destruct (table p !! q) as [g|] eqn:Eq; [|done].
    destruct (pb_table _ _ _ _ Hb _ _ Eq) as (Hg & _). rewrite Hfa by lia.
    rewrite decide_False; [done|]. intros ->. apply Hne. by eapply table_inj. }
  assert (Hda : forall q recs, disk_agrees psz p d q recs -> disk_agrees psz p' d q recs).
  { intros q recs Ha g Hg Hd. change (table p') with (table p) in Hg.
    destruct (pb_table _ _ _ _ Hb _ _ Hg) as (Hgr & _).
    apply (Ha g Hg). rewrite Hfa in Hd by lia. destruct (decide (g = fid)) as [->|?]; done. }
  split; [|split; [|split; [|split]]]; try done.
  - split; [split|].
    + unfold p'. pool_simpl. by rewrite length_insert.
    + exact (pb_nonempty _ _ _ _ Hb).
    + intros q g Hq. change (table p') with (table p) in Hq.
      destruct (pb_table _ _ _ _ Hb _ _ Hq) as (Hg & Hgp & HqN & Hqn & Hgf & Hgpc).
      change (num_frames p') with (num_frames p). change (free_list p') with (free_list p).
      rewrite Hfa by lia. split; [done|]. split.
      { destruct (decide (g = fid)) as [->|?]; done. }
      split; [done|]. split; [done|]. split; [done|].
      destruct (decide (g = fid)) as [->|?]; done.
    + exact (pb_free _ _ _ _ Hb).
    + exact (pb_nodup _ _ _ _ Hb).
    + exact (pb_rok _ _ _ _ Hb).
    + exact (pb_rcap _ _ _ _ Hb).
    + exact (pb_cand _ _ _ _ Hb).
    + exact (pb_pin _ _ _ _ Hb).
    + exact Hcov.
  - intros q Hq Hne. rewrite Hpp by congruence.
    destruct (Hc q Hq) as [Hwf Ha]; [done|]. split; [done|]. by apply Hda.
  - unfold pool_page. change (table p') with (table p). rewrite Hpid, Hfa by lia.
    by rewrite decide_True.
Qed.

(** *** Unpinning the pinned page *)
Lemma UnpinPage_spec psz (p : Impl R) d N n pid dty n' :
  pool_ok p N n (Some pid) -> content_ok psz p d n (Some pid) ->
  page_wf psz (pool_page psz p d pid) ->
  (dty = true \/ disk_agrees psz p d pid (records psz (pool_page psz p d pid))) ->
  n <= n' -> pid < n' -> (forall q, n <= q < n' -> q = pid) ->
  pool_ok (snd (UnpinPage p pid dty)) N n' None /\
  content_ok psz (snd (UnpinPage p pid dty)) d n' None /\
  forall q, pool_page psz (snd (UnpinPage p pid dty)) d q = pool_page psz p d q.
Proof.
  intros [Hb Hcov] Hc Hwf Hdty Hn Hpn Hnew.
  destruct (pb_pin _ _ _ _ Hb pid eq_refl) as [fid Hpid].
  destruct (pb_table _ _ _ _ Hb _ _ Hpid) as (Hfid & Hfp & HpN & _ & Hnf & Hpc).
  rewrite decide_True in Hpc by done.
  pose proof (pb_frames _ _ _ _ Hb) as Hlen.
  destruct (rUnpin_laws (replacer p) fid (pb_rok _ _ _ _ Hb)) as (Hrok & Hrcap & Hrc).
  { by rewrite (pb_rcap _ _ _ _ Hb). }
  set (f := frame_at p fid) in *.
  set (f1 := mkFrame (f_page_id f) 0 (dirty f || dty) (data f)).
  assert (Hu : snd (UnpinPage p pid dty) =
               set_replacer (set_frame p fid f1) (rUnpin (replacer p) fid)).
  { unfold UnpinPage, LookupFrame. rewrite Hpid.
    assert ((fid <? 0) = false) as -> by (apply Z.ltb_ge; lia).
    unfold UnpinFrame. fold f. rewrite Hpc. done. }
  rewrite Hu. set (p' := set_replacer _ _).
  assert (Hfa : forall g, 0 <= g -> frame_at p' g =
            if decide (g = fid) then f1 else frame_at p g).
  { intros g Hg. unfold p'.
    rewrite <- (frame_at_set_frame p fid _ g) by lia. by apply frame_at_same. }
  assert (Hpp : forall q, pool_page psz p' d q = pool_page psz p d q).
  { intros q. unfold pool_page. change (table p') with (table p).
    destruct (table p !! q) as [g|] eqn:Eq; [|done].
    destruct (pb_table _ _ _ _ Hb _ _ Eq) as (Hg & _). rewrite Hfa by lia.
    destruct (decide (g = fid)) as [->|?]; done. }
  split; [|split]; try done.
  - split; [split|].
    + unfold p'. pool_simpl. by rewrite length_insert.
    + exact (pb_nonempty _ _ _ _ Hb).
    + intros q g Hq. change (table p') with (table p) in Hq.
      destruct (pb_table _ _ _ _ Hb _ _ Hq) as (Hg & Hgp & HqN & Hqn & Hgf & Hgpc).
      change (num_frames p') with (num_frames p). change (free_list p') with (free_list p).
      rewrite Hfa by lia. split; [done|]. split.
      { destruct (decide (g = fid)) as [->|?]; done. }
      split; [done|]. split.
      { left. destruct Hqn as [Hqn|[= ->]]; lia. }
      split; [done|].
      destruct (decide (g = fid)) as [->|Hne]; [done|].
      rewrite Hgpc. rewrite decide_False; [done|].
      intros [= ->]. apply Hne. congruence.
    + exact (pb_free _ _ _ _ Hb).
    + exact (pb_nodup _ _ _ _ Hb).
    + exact Hrok.
    + change (replacer p') with (rUnpin (replacer p) fid). rewrite Hrcap.
      exact (pb_rcap _ _ _ _ Hb).
    + intros g. change (replacer p') with (rUnpin (replacer p) fid).
      change (table p') with (table p). rewrite Hrc, (pb_cand _ _ _ _ Hb). split.
      * intros [(q & Hq & _)| ->]; [by exists q|by exists pid].
      * intros (q & Hq & _). destruct (decide (q = pid)) as [->|Hne].
        { right. congruence. }
        left. exists q. split; [done|]. congruence.
    + done.
    + exact Hcov.
  - intros q Hq _. rewrite Hpp.
    assert (Hda : forall q' recs, q' <> pid ->
              disk_agrees psz p d q' recs -> disk_agrees psz p' d q' recs).
    { intros q' recs Hne Ha g Hg Hd. change (table p') with (table p) in Hg.
      destruct (pb_table _ _ _ _ Hb _ _ Hg) as (Hgr & _).
      apply (Ha g Hg). rewrite Hfa in Hd by lia.
      rewrite decide_False in Hd; [done|]. intros ->. apply Hne. by eapply table_inj. }
    destruct (decide (q = pid)) as [->|Hne].
    + split; [done|]. intros g Hg Hd. change (table p') with (table p) in Hg.
      assert (g = fid) as -> by congruence.
      rewrite Hfa, decide_True in Hd by (done || lia). cbn in Hd.
      apply orb_false_iff in Hd as [Hd1 Hd2].
      destruct Hdty as [->|Ha]; [done|]. by apply (Ha fid).
    + destruct (Hc q) as [Hw Ha]; [|congruence|].
      { destruct (decide (q < n)); [lia|]. exfalso. apply Hne. apply Hnew. lia. }
      split; [done|]. by apply Hda.
Qed.

(** *** Taking a frame for a page that is not resident *)

(** The pool once the page [old] has left the frame [v]. *)
Lemma evict_ok psz (p pF : Impl R) d d1 N n v old :
  pool_ok p N n None -> content_ok psz p d n None -> n <= N ->
  free_list p = [] -> table p !! old = Some v ->
  rOk (replacer pF) -> rCap (replacer pF) = rCap (replacer p) ->
  (forall g, rCand (replacer pF) g <-> rCand (replacer p) g /\ g <> v) ->
  length (frames pF) = length (frames p) -> num_frames pF = num_frames p ->
  (forall g, 0 <= g -> g <> v -> frame_at pF g = frame_at p g) ->
  table pF = delete old (table p) -> free_list pF = [] ->
  page_wf psz (disk_page psz d1 old) ->
  records psz (disk_page psz d1 old) = records psz (data (frame_at p v)) ->
  (forall q, 0 <= q < N -> q <> old -> disk_page psz d1 q = disk_page psz d q) ->
  disk_ok psz d1 N ->
  pool_hole pF N n v /\ disk_ok psz d1 N /\ content_ok psz pF d1 n None /\
  (forall q, 0 <= q < n ->
     records psz (pool_page psz pF d1 q) = records psz (pool_page psz p d q)) /\
  (forall q, table p !! q = None ->
     table pF !! q = None /\ (0 <= q < N -> disk_page psz d1 q = disk_page psz d q)).
Proof.
  intros [Hb Hcov] Hc HnN Hfl Hold Hrok Hrcap Hrc Hlen Hnf Hfa Htab Hfl' Hdw Hdr Hdo Hdk.
  destruct (pb_table _ _ _ _ Hb _ _ Hold) as (Hv & Hvp & HoN & Hon & _ & Hvpc).
  assert (Hlk : forall q, q <> old -> table pF !! q = table p !! q).
  { intros q Hne. rewrite Htab. by apply lookup_delete_ne. }
  assert (Hlo : table pF !! old = None) by (rewrite Htab; apply lookup_delete_eq).
  assert (Hother : forall q g, q <> old -> table p !! q = Some g -> 0 <= g /\ g <> v).
  { intros q g Hne Hq. destruct (pb_table _ _ _ _ Hb _ _ Hq) as (Hg & _).
    split; [lia|]. intros ->. apply Hne. by eapply table_inj. }
  assert (Hpp : forall q, q <> old -> 0 <= q < N ->
            pool_page psz pF d1 q = pool_page psz p d q).
  { intros q Hne Hq. unfold pool_page. rewrite Hlk by done.
    destruct (table p !! q) as [g|] eqn:Eq; [|by apply Hdo].
    destruct (Hother q g Hne Eq). by rewrite Hfa. }
  split; [|split; [done|split; [|split]]].
  - split; [split|].
    + rewrite Hlen, Hnf. exact (pb_frames _ _ _ _ Hb).
    + rewrite Hnf. exact (pb_nonempty _ _ _ _ Hb).
    + intros q g Hq. destruct (decide (q = old)) as [->|Hne]; [congruence|].
      rewrite Hlk in Hq by done. destruct (Hother q g Hne Hq).
      destruct (pb_table _ _ _ _ Hb _ _ Hq) as (Hg & Hgp & HqN & Hqn & Hgf & Hgpc).
      rewrite Hnf, Hfl', Hfa by done. rewrite Hfl in Hgf. done.
    + intros g. rewrite Hfl'. by intros ?%elem_of_nil.
    + rewrite Hfl'. constructor.
    + done.
    + rewrite Hrcap, Hnf. exact (pb_rcap _ _ _ _ Hb).
    + intros g. rewrite Hrc, (pb_cand _ _ _ _ Hb). split.
      * intros [(q & Hq & _) Hne]. exists q. split; [|done].
        rewrite Hlk; [done|]. intros ->. congruence.
      * intros (q & Hq & _). destruct (decide (q = old)) as [->|Hne]; [congruence|].
        rewrite Hlk in Hq by done. destruct (Hother q g Hne Hq).
        split; [|done]. by exists q.
    + done.
    + rewrite Hnf. split; [done|]. split; [rewrite Hfl'; by intros ?%elem_of_nil|].
      split.
      * intros q Hq. destruct (decide (q = old)) as [->|Hne]; [congruence|].
        rewrite Hlk in Hq by done. by destruct (Hother q v Hne Hq).
      * intros g Hg. destruct (decide (g = v)) as [->|Hne]; [by left|]. right. right.
        destruct (Hcov g Hg) as [Hin|(q & Hq)]; [rewrite Hfl in Hin; by apply elem_of_nil in Hin|].
        exists q. rewrite Hlk; [done|]. intros ->. congruence.
  - intros q Hq _. destruct (decide (q = old)) as [->|Hne].
    + unfold pool_page, disk_agrees. rewrite Hlo. split; [done|]. by intros g [=].
    + rewrite Hpp by (done || lia). destruct (Hc q Hq) as [Hw Ha]; [done|].
      split; [done|]. intros g Hg Hd. rewrite Hlk in Hg by done.
      destruct (Hother q g Hne Hg). rewrite Hfa in Hd by done.
      rewrite Hdo by (done || lia). by apply (Ha g).
  - intros q Hq. destruct (decide (q = old)) as [->|Hne].
    + unfold pool_page. rewrite Hlo, Hold. done.
    + by rewrite Hpp by (done || lia).
  - intros q Hq. assert (q <> old) by congruence.
    split; [by rewrite Hlk|]. intros HqN. by apply Hdo.
Qed.

Lemma AcquireFrameFor_spec psz (p : Impl R) d N n pid :
  pool_ok p N n None -> disk_ok psz d N -> content_ok psz p d n None ->
  0 < psz -> n <= N -> N < kInvalidPageId ->
  exists fid ev p1 d1, AcquireFrameFor p (Some d) pid = (fid, ev, p1, Some d1) /\
    0 <= fid /\ pool_hole p1 N n fid /\ disk_ok psz d1 N /\ content_ok psz p1 d1 n None /\
    (forall q, 0 <= q < n ->
       records psz (pool_page psz p1 d1 q) = records psz (pool_page psz p d q)) /\
    (forall q, table p !! q = None ->
       table p1 !! q = None /\ (0 <= q < N -> disk_page psz d1 q = disk_page psz d q)).
Proof.
  intros Hok Hd Hc Hpsz HnN HN. pose proof Hok as [Hb Hcov].
  unfold AcquireFrameFor. destruct (free_list p) as [|fid rest] eqn:Efl.
  - (* no free frame: a victim *)
    destruct (rVictim (replacer p)) as [[v|] r1] eqn:Ev.
    2:{ exfalso. pose proof (pb_nonempty _ _ _ _ Hb) as Hnf.
        destruct (Hcov 0 ltac:(lia)) as [Hin|(q & Hq)].
        { rewrite ?Efl in Hin. by apply elem_of_nil in Hin. }
        apply (rVictim_none _ _ (pb_rok _ _ _ _ Hb) Ev 0).
        apply (pb_cand _ _ _ _ Hb). by exists q. }
    destruct (rVictim_some _ _ _ (pb_rok _ _ _ _ Hb) Ev) as (Hcv & Hrok & Hrcap & Hrc).
    apply (pb_cand _ _ _ _ Hb) in Hcv as (old & Hold & _).
    destruct (pb_table _ _ _ _ Hb _ _ Hold) as (Hv & Hvp & HoN & Hon & _ & Hvpc).
    destruct Hon as [Hon|[=]].
    pose proof (pb_frames _ _ _ _ Hb) as Hlen.
    destruct (Hc old ltac:(lia) ltac:(done)) as [Hwf Hagree].
    unfold pool_page in Hwf, Hagree. rewrite Hold in Hwf, Hagree.
    set (p1 := set_replacer p r1).
    assert (Hf1 : frame_at p1 v = frame_at p v) by done.
    rewrite Hf1, Hvp.
    assert ((old =? kInvalidPageId) = false) as Hoi by (apply Z.eqb_neq; lia).
    rewrite Hoi. unfold FlushFrame. rewrite Hf1, Hvp, Hoi, orb_false_r.
    destruct (dirty (frame_at p v)) eqn:Edirty; cbn [negb].
    + (* dirty: written back *)
      destruct (WritePage_ok psz d N old (data (frame_at p v)) Hd Hpsz ltac:(lia))
        as (d' & Hw & Hd' & Hsame & Hoth).
      { exact (wf_length _ _ Hwf). }
      set (p1' := if flush_cb p1
                  then log_flush_cb p1 old (PageHeader.page_lsn (data (frame_at p v)))
                  else p1).
      assert (Hp1' : frames p1' = frames p /\ table p1' = table p /\
                     free_list p1' = free_list p /\ num_frames p1' = num_frames p /\
                     page_size p1' = page_size p /\ replacer p1' = r1).
      { unfold p1'. by destruct (flush_cb p1). }
      destruct Hp1' as (Hfr & Htb & Hfl1 & Hnf1 & Hps1 & Hr1).
      rewrite Hw. change (ok kOk) with true. cbv iota.
      set (fclean := mkFrame old (pin_count (frame_at p v)) false (data (frame_at p v))).
      assert (Hfa : forall g, 0 <= g -> frame_at (set_frame p1' v fclean) g =
                      if decide (g = v) then fclean else frame_at p g).
      { intros g Hg. rewrite frame_at_set_frame by (rewrite ?Hfr; lia).
        destruct (decide (g = v)); [done|]. by apply frame_at_same. }
      assert (Hfv : f_page_id (frame_at (set_stats (set_frame p1' v fclean)
                       (count_flush (stats (set_frame p1' v fclean)))) v) = old).
      { change (f_page_id (frame_at (set_frame p1' v fclean) v) = old).
        rewrite Hfa by lia. by rewrite decide_True. }
      rewrite Hfv. eexists v, old, _, d'. split; [reflexivity|]. split; [lia|].
      apply (evict_ok psz p _ d d' N n v old); try done;
        pool_simpl; rewrite ?Hr1, ?Hfr, ?Htb, ?Hfl1, ?Hnf1, ?length_insert; try done.
      * intros g Hg Hne.
        change (frame_at (set_frame p1' v fclean) g = frame_at p g).
        rewrite Hfa by done. by rewrite decide_False.
      * by rewrite Hsame.
      * by rewrite Hsame.
    + (* clean: dropped *)
      change (f_page_id (frame_at p1 v)) with (f_page_id (frame_at p v)). rewrite Hvp.
      destruct (Hagree v Hold Edirty) as [Hdw Hdr].
      eexists v, old, _, d. split; [reflexivity|]. split; [lia|].
      apply (evict_ok psz p _ d d N n v old); try done.
  - (* a free frame *)
    exists fid, kInvalidPageId, (set_free_list p rest), d.
    pose proof (pb_nodup _ _ _ _ Hb) as Hnd. rewrite Efl in Hnd.
    apply NoDup_cons in Hnd as [Hnin Hnd].
    assert (Hfr : 0 <= fid < num_frames p).
    { apply (pb_free _ _ _ _ Hb). rewrite Efl. by left. }
    split; [done|]. split; [lia|]. split; [|split; [done|split; [exact Hc|split; [done|]]]].
    + split; [split|]; pool_simpl.
      * exact (pb_frames _ _ _ _ Hb).
      * exact (pb_nonempty _ _ _ _ Hb).
      * intros q g Hq.
        destruct (pb_table _ _ _ _ Hb _ _ Hq) as (Hg & Hgp & HqN & Hqn & Hgf & Hgpc).
        rewrite Efl in Hgf. apply not_elem_of_cons in Hgf as [Hne Hgf]. done.
      * intros g Hg. apply (pb_free _ _ _ _ Hb). rewrite Efl. by right.
      * done.
      * exact (pb_rok _ _ _ _ Hb).
      * exact (pb_rcap _ _ _ _ Hb).
      * exact (pb_cand _ _ _ _ Hb).
      * done.
      * split; [done|]. split; [done|]. split.
        { intros q Hq. destruct (pb_table _ _ _ _ Hb _ _ Hq) as (_ & _ & _ & _ & Hgf & _).
          apply Hgf. rewrite Efl. by left. }
        intros g Hg. destruct (Hcov g Hg) as [Hin|Hm]; [|by right; right].
        rewrite ?Efl in Hin. apply elem_of_cons in Hin as [->|Hin]; [by left|by right; left].
    + by intros q Hq.
Qed.

(** The frame [fid] is bound to the page [pid], pinned once. *)
Lemma fill_ok psz (p1 pF : Impl R) d1 N n fid pid bytes :
  pool_hole p1 N n fid -> content_ok psz p1 d1 n None ->
  table p1 !! pid = None -> 0 <= pid < N ->
  length (frames pF) = length (frames p1) -> num_frames pF = num_frames p1 ->
  free_list pF = free_list p1 ->
  (forall g, 0 <= g -> frame_at pF g =
     if decide (g = fid) then mkFrame pid 1 false bytes else frame_at p1 g) ->
  table pF = <[pid := fid]> (table p1) ->
  replacer pF = rPin (replacer p1) fid ->
  pool_ok pF N n (Some pid) /\ content_ok psz pF d1 n (Some pid) /\
  pool_page psz pF d1 pid = bytes /\
  (forall q, q <> pid -> pool_page psz pF d1 q = pool_page psz p1 d1 q).
Proof.
  intros (Hb & Hfid & Hnfree & Hunm & Hcov) Hc Hpid HpN Hlen Hnf Hfl Hfa Htab Hrep.
  destruct (rPin_laws (replacer p1) fid (pb_rok _ _ _ _ Hb)) as (Hrok & Hrcap & Hrc).
  assert (Hlk : forall q, q <> pid -> table pF !! q = table p1 !! q).
  { intros q Hne. rewrite Htab. by apply lookup_insert_ne. }
  assert (Hlp : table pF !! pid = Some fid) by (rewrite Htab; apply lookup_insert_eq).
  assert (Hother : forall q g, table p1 !! q = Some g -> 0 <= g /\ g <> fid /\ q <> pid).
  { intros q g Hq. destruct (pb_table _ _ _ _ Hb _ _ Hq) as (Hg & _).
    split; [lia|]. split; [|congruence]. intros ->. by apply (Hunm q). }
  assert (Hpp : forall q, q <> pid -> pool_page psz pF d1 q = pool_page psz p1 d1 q).
  { intros q Hne. unfold pool_page. rewrite Hlk by done.
    destruct (table p1 !! q) as [g|] eqn:Eq; [|done].
    destruct (Hother q g Eq) as (? & ? & _). rewrite Hfa by done. by rewrite decide_False. }
  split; [|split; [|split]]; [| | |done].
  - split; [split|].
    + rewrite Hlen, Hnf. exact (pb_frames _ _ _ _ Hb).
    + rewrite Hnf. exact (pb_nonempty _ _ _ _ Hb).
    + intros q g Hq. rewrite Hnf, Hfl. destruct (decide (q = pid)) as [->|Hne].
      * assert (g = fid) as -> by congruence.
        rewrite Hfa, !decide_True by (done || lia). cbn. split; [done|]. split; [done|].
        split; [done|]. split; [by right|]. done.
      * rewrite Hlk in Hq by done. destruct (Hother q g Hq) as (? & ? & _).
        destruct (pb_table _ _ _ _ Hb _ _ Hq) as (Hg & Hgp & HqN & Hqn & Hgf & Hgpc).
        rewrite Hfa by done. rewrite decide_False by done.
        split; [done|]. split; [done|]. split; [done|].
        split; [destruct Hqn; [by left|done]|]. split; [done|].
        rewrite Hgpc. rewrite decide_False by done. rewrite decide_False; [done|congruence].
    + intros g. rewrite Hfl, Hnf. exact (pb_free _ _ _ _ Hb g).
    + rewrite Hfl. exact (pb_nodup _ _ _ _ Hb).
    + by rewrite Hrep.
    + rewrite Hrep, Hrcap, Hnf. exact (pb_rcap _ _ _ _ Hb).
    + intros g. rewrite Hrep, Hrc, (pb_cand _ _ _ _ Hb). split.
      * intros [(q & Hq & _) Hne]. destruct (Hother q g Hq) as (? & ? & ?).
        exists q. split; [by rewrite Hlk|congruence].
      * intros (q & Hq & Hne). assert (q <> pid) by congruence.
        rewrite Hlk in Hq by done. destruct (Hother q g Hq) as (? & ? & ?).
        split; [|done]. by exists q.
    + intros q [= ->]. by rewrite Hlp.
    + intros g Hg. rewrite Hnf in Hg. rewrite Hfl.
      destruct (Hcov g Hg) as [->|[Hin|(q & Hq)]]; [right; by exists pid|by left|].
      right. exists q. destruct (Hother q g Hq) as (? & ? & ?). by rewrite Hlk.
  - intros q Hq Hne. assert (q <> pid) by congruence. rewrite Hpp by done.
    destruct (Hc q Hq) as [Hw Ha]; [done|]. split; [done|].
    intros g Hg Hd. rewrite Hlk in Hg by done. destruct (Hother q g Hg) as (? & ? & ?).
    rewrite Hfa, decide_False in Hd by done. by apply (Ha g).
  - unfold pool_page. rewrite Hlp, Hfa by lia. by rewrite decide_True.
Qed.

(** *** A page that is not resident *)
Lemma FetchPage_miss_spec psz (p : Impl R) d N n pid :
  pool_ok p N n None -> disk_ok psz d N -> content_ok psz p d n None ->
  0 < psz -> n <= N -> N < kInvalidPageId ->
  table p !! pid = None -> 0 <= pid < N ->
  exists p' d', FetchPage p (Some d) pid = (kOk, disk_page psz d pid, p', Some d') /\
    pool_ok p' N n (Some pid) /\ disk_ok psz d' N /\ content_ok psz p' d' n (Some pid) /\
    pool_page psz p' d' pid = disk_page psz d pid /\
    disk_page psz d' pid = disk_page psz d pid /\
    (forall q, 0 <= q < n -> q <> pid ->
       records psz (pool_page psz p' d' q) = records psz (pool_page psz p d q)).
Proof.
  intros Hok Hd Hc Hpsz HnN HN Hpid HpN.
  destruct (AcquireFrameFor_spec psz p d N n pid Hok Hd Hc Hpsz HnN HN)
    as (fid & ev & p1 & d1 & Hacq & Hfid & Hhole & Hd1 & Hc1 & Hrec & Hkeep).
  destruct (Hkeep pid Hpid) as [Hpid1 Hdp]. specialize (Hdp HpN).
  pose proof Hhole as (Hb & Hfr & _).
  pose proof (pb_frames _ _ _ _ Hb) as Hlen.
  unfold FetchPage, LookupFrame. rewrite Hpid.
  change (0 <=? -1) with false. cbv iota. rewrite Hacq.
  assert ((fid <? 0) = false) as -> by (apply Z.ltb_ge; lia).
  rewrite (ReadPage_ok psz d1 N pid Hd1 Hpsz HpN). change (ok kOk) with true.
  cbn [negb]. rewrite Hdp.
  set (pF := set_stats
               (set_replacer
                  (set_table (set_frame p1 fid (mkFrame pid 1 false (disk_page psz d pid)))
                     (<[pid := fid]> (table p1)))
                  (rPin (replacer p1) fid))
               (count_miss (stats p1))).
  exists pF, d1. split; [reflexivity|].
  destruct (fill_ok psz p1 pF d1 N n fid pid (disk_page psz d pid) Hhole Hc1 Hpid1 HpN)
    as (H1 & H2 & H3 & H4); try done.
  - unfold pF. pool_simpl. by rewrite length_insert.
  - intros g Hg.
    change (frame_at pF g) with
      (frame_at (set_frame p1 fid (mkFrame pid 1 false (disk_page psz d pid))) g).
    by apply frame_at_set_frame; lia.
  - split; [done|]. split; [done|]. split; [done|]. split; [done|]. split; [done|].
    intros q Hq Hne. rewrite H4 by done. by apply Hrec.
Qed.

(** *** [FetchPage] of an existing page while no page is pinned *)
Lemma FetchPage_spec psz (p : Impl R) d N n pid :
  pool_ok p N n None -> disk_ok psz d N -> content_ok psz p d n None ->
  0 < psz -> n <= N -> N < kInvalidPageId -> 0 <= pid < N ->
  exists p' d', FetchPage p (Some d) pid = (kOk, pool_page psz p d pid, p', Some d') /\
    pool_ok p' N n (Some pid) /\ disk_ok psz d' N /\ content_ok psz p' d' n (Some pid) /\
    pool_page psz p' d' pid = pool_page psz p d pid /\
    (forall q, 0 <= q < n -> q <> pid ->
       records psz (pool_page psz p' d' q) = records psz (pool_page psz p d q)) /\
    (pid < n -> page_wf psz (pool_page psz p d pid) /\
                disk_agrees psz p' d' pid (records psz (pool_page psz p d pid))).
Proof.
  intros Hok Hd Hc Hpsz HnN HN HpN.
  destruct (table p !! pid) as [fid|] eqn:Hpid.
  - destruct (FetchPage_hit_spec psz p d N n pid fid Hok Hc Hpid)
      as (p' & Hf & Hok' & Hc' & Hpp & Hda).
    exists p', d. split; [done|]. split; [done|]. split; [done|]. split; [done|].
    split; [done|]. split; [by intros; rewrite Hpp|].
    intros Hpn. destruct (Hc pid ltac:(lia) ltac:(done)) as [Hw Ha]. split; [done|].
    by apply Hda.
  - destruct (FetchPage_miss_spec psz p d N n pid Hok Hd Hc Hpsz HnN HN Hpid HpN)
      as (p' & d' & Hf & Hok' & Hd' & Hc' & Hpp & Hdp & Hrec).
    assert (Hcur : pool_page psz p d pid = disk_page psz d pid).
    { unfold pool_page. by rewrite Hpid. }
    rewrite Hcur. exists p', d'. split; [done|]. split; [done|]. split; [done|].
    split; [done|]. split; [done|]. split; [done|].
    intros Hpn. destruct (Hc pid ltac:(lia) ltac:(done)) as [Hw _]. rewrite Hcur in Hw.
    split; [done|]. intros g _ _. by rewrite Hdp.
Qed.

End PoolProofs.
(** ** The table heap: fetching, writing and unpinning pages *)

Section HeapProofs.
Context {R : Type} `{ReplacerLaws R}.
Import TableHeap.

Ltac heap_simpl :=
  cbn [seg_id_ page_size_ bpm_ bpm_disk_ fsm_ sm_ set_bpm set_fsm set_sm
       SegmentManager.segs_ SegmentManager.page_size_ SegmentManager.set_segment
       SegmentManager.disk SegmentManager.free_list] in *.

Lemma pool_disk_ok (h : t R) N n pin :
  heap_ok h N n pin -> pool_disk h = Some (the_disk h).
Proof.
  intros Hok. unfold pool_disk, SegmentManager.GetDisk.
  by rewrite (hk_same _ _ _ _ Hok), (hk_seg _ _ _ _ Hok).
Qed.

Lemma psz_pos (h : t R) N n pin : heap_ok h N n pin -> 0 < page_size_ h.
Proof. intros Hok. pose proof (hk_psz _ _ _ _ Hok). unfold PageHeader.sizeof in *. lia. Qed.

Lemma pages_ok (h : t R) N n pin : heap_ok h N n pin -> TableIterator.pages h = N.
Proof.
  intros Hok. unfold TableIterator.pages, SegmentManager.PageCount.
  rewrite (hk_seg _ _ _ _ Hok). cbn.
  apply (PageCount_ok (page_size_ h)); [exact (hk_disk _ _ _ _ Hok)|by eapply psz_pos].
Qed.

(** The state once the pool and the file behind it have changed. *)
Lemma put_pool_disk_ok (h : t R) N n pin p' d' :
  heap_ok h N n pin ->
  let h' := put_pool_disk (set_bpm h p') (Some d') in
  the_disk h' = d' /\ bpm_ h' = p' /\ page_size_ h' = page_size_ h /\
  fsm_ h' = fsm_ h /\ seg_id_ h' = seg_id_ h /\ bpm_disk_ h' = bpm_disk_ h /\
  SegmentManager.segs_ (sm_ h') !! seg_id_ h' = Some (SegmentManager.mkSegment d' []).
Proof.
  intros Hok. pose proof (hk_seg _ _ _ _ Hok) as Hseg.
  pose proof (hk_same _ _ _ _ Hok) as Hsame.
  unfold put_pool_disk. heap_simpl. rewrite Hsame, Hseg. heap_simpl.
  unfold the_disk, pool_disk, SegmentManager.GetDisk. heap_simpl.
  rewrite Hsame, lookup_insert_eq. done.
Qed.

Lemma fetch_spec (h : t R) N n pid :
  heap_ok h N n None -> N < kInvalidPageId -> 0 <= pid < N ->
  exists h', fetch h pid = (kOk, cur h pid, h') /\
    heap_ok h' N n (Some pid) /\ page_size_ h' = page_size_ h /\
    cur h' pid = cur h pid /\
    (forall q, 0 <= q < n -> q <> pid -> view h' q = view h q) /\
    (pid < n -> page_wf (page_size_ h) (cur h pid) /\
                disk_agrees (page_size_ h) (bpm_ h') (the_disk h') pid (view h pid)).
Proof.
  intros Hok HN Hpid. pose proof (psz_pos _ _ _ _ Hok) as Hpsz.
  destruct (FetchPage_spec (page_size_ h) (bpm_ h) (the_disk h) N n pid)
    as (p' & d' & Hf & Hpo & Hdo & Hco & Hpp & Hrec & Hwf); try done.
  { exact (hk_pool _ _ _ _ Hok). } { exact (hk_disk _ _ _ _ Hok). }
  { exact (hk_content _ _ _ _ Hok). } { exact (proj2 (hk_n _ _ _ _ Hok)). }
  unfold fetch. rewrite (pool_disk_ok _ _ _ _ Hok), Hf.
  destruct (put_pool_disk_ok h N n None p' d' Hok) as (Ed & Ep & Eps & Ef & Es & Eb & Eseg).
  set (h' := put_pool_disk (set_bpm h p') (Some d')) in *.
  exists h'. split; [done|].
  split; [|split; [done|]].
  - split.
    + by rewrite Ed.
    + rewrite Eb, Es. exact (hk_same _ _ _ _ Hok).
    + rewrite Eps. exact (hk_psz _ _ _ _ Hok).
    + exact (hk_n _ _ _ _ Hok).
    + by rewrite Eps, Ed.
    + by rewrite Ep.
    + by rewrite Eps, Ep, Ed.
    + rewrite Ef. exact (hk_fsm _ _ _ _ Hok).
  - unfold view, cur. rewrite Ed, Ep, Eps. done.
Qed.

Lemma write_spec (h : t R) N n pid bytes :
  heap_ok h N n (Some pid) ->
  heap_ok (write h pid bytes) N n (Some pid) /\
  page_size_ (write h pid bytes) = page_size_ h /\
  cur (write h pid bytes) pid = bytes /\
  (forall q, q <> pid -> cur (write h pid bytes) q = cur h q) /\
  (forall recs, disk_agrees (page_size_ h) (bpm_ h) (the_disk h) pid recs ->
     disk_agrees (page_size_ h) (bpm_ (write h pid bytes)) (the_disk (write h pid bytes))
       pid recs).
Proof.
  intros Hok.
  destruct (write_through_spec (page_size_ h) (bpm_ h) (the_disk h) N n pid bytes)
    as (Hpo & Hco & Hpp & Hoth & Hda).
  { exact (hk_pool _ _ _ _ Hok). } { exact (hk_content _ _ _ _ Hok). }
  split; [|split; [done|split; [done|split; [done|]]]].
  - split; try done.
    + exact (hk_seg _ _ _ _ Hok).
    + exact (hk_same _ _ _ _ Hok).
    + exact (hk_psz _ _ _ _ Hok).
    + exact (hk_n _ _ _ _ Hok).
    + exact (hk_disk _ _ _ _ Hok).
    + exact (hk_fsm _ _ _ _ Hok).
  - intros recs. apply Hda.
Qed.

Lemma unpin_spec (h : t R) N n pid dty n' :
  heap_ok h N n (Some pid) ->
  page_wf (page_size_ h) (cur h pid) ->
  (dty = true \/ disk_agrees (page_size_ h) (bpm_ h) (the_disk h) pid (view h pid)) ->
  n <= n' <= N -> pid < n' -> (forall q, n <= q < n' -> q = pid) ->
  heap_ok (unpin h pid dty) N n' None /\
  page_size_ (unpin h pid dty) = page_size_ h /\
  forall q, cur (unpin h pid dty) q = cur h q.
Proof.
  intros Hok Hwf Hdty Hn Hpn Hnew.
  destruct (UnpinPage_spec (page_size_ h) (bpm_ h) (the_disk h) N n pid dty n')
    as (Hpo & Hco & Hpp); try done.
  { exact (hk_pool _ _ _ _ Hok). } { exact (hk_content _ _ _ _ Hok). } { lia. }
  split; [|split; [done|done]].
  split; try done.
  - exact (hk_seg _ _ _ _ Hok).
  - exact (hk_same _ _ _ _ Hok).
  - exact (hk_psz _ _ _ _ Hok).
  - pose proof (hk_n _ _ _ _ Hok). lia.
  - exact (hk_disk _ _ _ _ Hok).
  - intros q Hq. apply (hk_fsm _ _ _ _ Hok) in Hq. lia.
Qed.

Lemma fsm_update_keys st pid free q :
  is_Some (FreeSpaceManager.pid2free_ (FreeSpaceManager.Update st pid free) !! q) ->
  is_Some (FreeSpaceManager.pid2free_ st !! q) \/ q = pid.
Proof.
  intros Hq. destruct (decide (q = pid)) as [->|Hne]; [by right|]. left. revert Hq.
  unfold FreeSpaceManager.Update.
  destruct (FreeSpaceManager.pid2bin_ st !! pid) as [old|].
  - destruct (decide (old = _)); cbn; by rewrite lookup_insert_ne.
  - cbn. unfold FreeSpaceManager.emplace.
    destruct (FreeSpaceManager.pid2free_ st !! pid); [done|]. by rewrite lookup_insert_ne.
Qed.

Lemma UpdateFsmForPage_spec (h : t R) N n pin pid page :
  heap_ok h N n pin -> 0 <= pid < n -> heap_ok (UpdateFsmForPage h pid page) N n pin.
Proof.
  intros Hok Hpid. split; try apply Hok.
  intros q Hq. apply fsm_update_keys in Hq as [Hq| ->]; [|done].
  by apply (hk_fsm _ _ _ _ Hok).
Qed.

Lemma pool_ok_more_pages (p : BufferPoolManager.Impl R) N N' n pin :
  pool_ok p N n pin -> N <= N' -> pool_ok p N' n pin.
Proof.
  intros [Hb Hcov] HN. split; [|done]. split; try apply Hb.
  intros q g Hq. destruct (pb_table _ _ _ _ Hb _ _ Hq) as (? & ? & ? & ? & ? & ?).
  repeat (split; [done || lia|]). done.
Qed.

Lemma content_ok_disk (psz : Z) (p : BufferPoolManager.Impl R) d d' n pin :
  content_ok psz p d n pin ->
  (forall q, 0 <= q < n -> disk_page psz d' q = disk_page psz d q) ->
  content_ok psz p d' n pin /\
  forall q, 0 <= q < n -> pool_page psz p d' q = pool_page psz p d q.
Proof.
  intros Hc Hd.
  assert (Hpp : forall q, 0 <= q < n -> pool_page psz p d' q = pool_page psz p d q).
  { intros q Hq. unfold pool_page. destruct (_ !! q); [done|]. by apply Hd. }
  split; [|done]. intros q Hq Hne. rewrite Hpp by done.
  destruct (Hc q Hq Hne) as [Hw Ha]. split; [done|].
  intros g Hg Hdirty. rewrite Hd by done. by apply (Ha g).
Qed.

(** [AllocatePage]: the file grows by one page. *)
Lemma allocate_spec (h : t R) N n :
  heap_ok h N n None -> N < kInvalidPageId ->
  exists h', allocate h = (N, h') /\ heap_ok h' (N + 1) n None /\
    page_size_ h' = page_size_ h /\
    (forall q, 0 <= q < n -> cur h' q = cur h q) /\
    Z.of_nat (length (cur h' N)) = page_size_ h.
Proof.
  intros Hok HN. pose proof (psz_pos _ _ _ _ Hok) as Hpsz.
  pose proof (hk_seg _ _ _ _ Hok) as Hseg. pose proof (hk_disk _ _ _ _ Hok) as Hd.
  pose proof (hk_n _ _ _ _ Hok) as Hn.
  destruct (ResizeToPages_ok _ _ _ Hd Hpsz) as (d' & Hr & Hd' & Hsame).
  unfold allocate, SegmentManager.AllocatePage, SegmentManager.EnsureSegment.
  rewrite Hseg. cbn [snd]. rewrite Hseg. cbn [SegmentManager.free_list SegmentManager.disk reverse rev].
  rewrite (PageCount_ok _ _ _ Hd Hpsz), Hr. change (ok kOk) with true. cbv iota.
  assert (u32 N = N) as ->.
  { unfold u32. apply Z.mod_small. unfold kInvalidPageId in HN.
    pose proof (dk_pages _ _ _ Hd). lia. }
  change (reverse (@nil Z)) with (@nil Z). cbv iota beta.
  set (h' := set_sm h _).
  assert (Ed : the_disk h' = d').
  { unfold the_disk, pool_disk, SegmentManager.GetDisk, h'. heap_simpl.
    by rewrite (hk_same _ _ _ _ Hok), lookup_insert_eq. }
  destruct (content_ok_disk _ _ _ d' _ _ (hk_content _ _ _ _ Hok)) as [Hc' Hpp].
  { intros q Hq. apply Hsame. lia. }
  exists h'. split; [done|]. split; [|split; [done|split]].
  - split.
    + rewrite Ed. unfold h'. heap_simpl. apply lookup_insert_eq.
    + exact (hk_same _ _ _ _ Hok).
    + exact (hk_psz _ _ _ _ Hok).
    + lia.
    + by rewrite Ed.
    + apply (pool_ok_more_pages _ N); [exact (hk_pool _ _ _ _ Hok)|lia].
    + by rewrite Ed.
    + exact (hk_fsm _ _ _ _ Hok).
  - intros q Hq. unfold cur. rewrite Ed. by apply Hpp.
  - unfold cur. rewrite Ed. unfold pool_page.
    destruct (BufferPoolManager.table (bpm_ h') !! N) as [g|] eqn:Eg.
    + destruct (hk_pool _ _ _ _ Hok) as [Hb _].
      destruct (pb_table _ _ _ _ Hb _ _ Eg) as (_ & _ & ? & _). lia.
    + apply (disk_page_length _ _ (N + 1)); [done|done|]. pose proof (dk_pages _ _ _ Hd). lia.
Qed.

(** ** Page operations as seen through the records *)

Lemma page_insert_cases psz m (tp : list byte) :
  page_wf psz m -> 0 < Z.of_nat (length tp) < 65536 ->
  exists st sl m',
    SlottedPage.Insert psz m (Some tp) (Z.of_nat (length tp)) = (st, sl, m') /\
    page_wf psz m' /\
    ((st = kOk /\ exists s, sl = Some s /\ inserted (records psz m) s tp (records psz m')) \/
     (st = kOutOfRange /\ sl = None /\ records psz m' = records psz m /\
      PageHeader.free_size m < Z.of_nat (length tp) + SlottedPage.sizeof_Slot)).
Proof.
  intros Hwf Hlen.
  pose proof (Insert_run_spec psz m tp (Z.of_nat (length tp)) Hwf Hlen ltac:(lia)) as Hs.
  cbv zeta in Hs.
  set (r := SlottedPage.Insert_run psz m (Some tp) (Z.of_nat (length tp))) in *.
  set (tomb := SlottedPage.first_tombstone psz m 0 (Z.to_nat (PageHeader.slot_count m))) in *.
  set (need := Z.of_nat (length tp) + match tomb with Some _ => 0 | None => SlottedPage.sizeof_Slot end) in *.
  set (base := if PageHeader.free_size m <? need then SlottedPage.Compact psz m else m) in *.
  destruct Hs as (Hbwf & Hbrec & Hbn & Hrwf & _ & Hfail & Hsucc).
  exists (SlottedPage.ins_status r), (SlottedPage.ins_slot r), (SlottedPage.ins_page r).
  split; [done|]. split; [done|].
  assert (Hneed : need <= Z.of_nat (length tp) + SlottedPage.sizeof_Slot).
  { unfold need, SlottedPage.sizeof_Slot. destruct tomb; lia. }
  destruct (decide (PageHeader.free_size base < need)) as [Hlt|Hge].
  - right. destruct (Hfail Hlt) as (Hst & Hsl & Hpg & Hfm).
    split; [done|]. split; [done|]. split; [by rewrite Hpg|lia].
  - left. destruct (Hsucc ltac:(lia)) as (Hst & Hsl & Hn & _ & _ & Hrecs).
    split; [done|]. eexists. split; [exact Hsl|].
    rewrite Hrecs, Nat2Z.id, firstn_all. pose proof (slot_count_range m) as Rn.
    destruct tomb as [t|] eqn:Et; cbn [default from_option id].
    + apply first_tombstone_lowest in Et as (Ht & Hz & _).
      split; [lia|]. left. split; [|done].
      rewrite records_lookup_Z by done. by rewrite record_at_tombstone.
    + split; [lia|]. right. split; [|done]. by rewrite records_length.
Qed.

(** ** Composite steps of the table operations *)

(** The pinned page is rewritten, reported to the free-space manager and
    unpinned dirty. *)
Lemma commit_spec (h : t R) N n pid bytes n' :
  heap_ok h N n (Some pid) -> page_wf (page_size_ h) bytes ->
  n <= n' <= N -> 0 <= pid < n' -> (forall q, n <= q < n' -> q = pid) ->
  let h' := unpin (UpdateFsmForPage (write h pid bytes) pid bytes) pid true in
  heap_ok h' N n' None /\ page_size_ h' = page_size_ h /\
  cur h' pid = bytes /\ forall q, q <> pid -> cur h' q = cur h q.
Proof.
  intros Hok Hwf Hn Hpid Hnew h'.
  change h' with (UpdateFsmForPage (unpin (write h pid bytes) pid true) pid bytes).
  destruct (write_spec h N n pid bytes Hok) as (Hok1 & Hps1 & Hc1 & Ho1 & _).
  destruct (unpin_spec (write h pid bytes) N n pid true n' Hok1) as (Hok2 & Hps2 & Hc2);
    [by rewrite Hps1, Hc1|by left|lia|lia|done|].
  split; [apply UpdateFsmForPage_spec; [done|lia]|].
  split; [by rewrite <- Hps1, <- Hps2|].
  change (cur (UpdateFsmForPage ?x pid bytes)) with (cur x).
  split; [by rewrite Hc2|]. intros q Hq. by rewrite Hc2, Ho1.
Qed.

(** The pinned page is rewritten without changing its records and unpinned
    clean. *)
Lemma release_spec (h : t R) N n pid bytes :
  heap_ok h N n (Some pid) -> page_wf (page_size_ h) bytes -> 0 <= pid < n ->
  disk_agrees (page_size_ h) (bpm_ h) (the_disk h) pid (records (page_size_ h) bytes) ->
  let h' := unpin (write h pid bytes) pid false in
  heap_ok h' N n None /\ page_size_ h' = page_size_ h /\
  cur h' pid = bytes /\ forall q, q <> pid -> cur h' q = cur h q.
Proof.
  intros Hok Hwf Hpid Ha h'. pose proof (hk_n _ _ _ _ Hok) as Hn.
  destruct (write_spec h N n pid bytes Hok) as (Hok1 & Hps1 & Hc1 & Ho1 & Ha1).
  destruct (unpin_spec (write h pid bytes) N n pid false n Hok1) as (Hok2 & Hps2 & Hc2);
    [by rewrite Hps1, Hc1| |lia|lia|intros; lia|].
  { right. rewrite Hps1. unfold view. rewrite Hps1, Hc1. by apply Ha1. }
  split; [done|]. split; [by rewrite <- Hps1, <- Hps2|].
  split; [by unfold h'; rewrite Hc2|]. intros q Hq. unfold h'. by rewrite Hc2, Ho1.
Qed.

(** A page is read and unpinned clean. *)
Lemma peek_spec (h : t R) N pid :
  heap_ok h N N None -> N < kInvalidPageId -> 0 <= pid < N ->
  exists h1, fetch h pid = (kOk, cur h pid, h1) /\
    page_wf (page_size_ h) (cur h pid) /\ page_size_ h1 = page_size_ h /\
    heap_ok (unpin h1 pid false) N N None /\
    page_size_ (unpin h1 pid false) = page_size_ h /\
    forall q, 0 <= q < N -> view (unpin h1 pid false) q = view h q.
Proof.
  intros Hok HN Hpid.
  destruct (fetch_spec h N N pid Hok HN Hpid) as (h1 & Hf & Hok1 & Hps1 & Hc1 & Hv1 & Hwf).
  destruct (Hwf ltac:(lia)) as [Hw Ha].
  destruct (unpin_spec h1 N N pid false N Hok1) as (Hok2 & Hps2 & Hc2);
    [by rewrite Hps1, Hc1| |lia|lia|intros; lia|].
  { right. rewrite Hps1. unfold view at 1. by rewrite Hps1, Hc1. }
  exists h1. split; [done|]. split; [done|]. split; [done|]. split; [done|].
  split; [by rewrite Hps2|]. intros q Hq. unfold view at 1. rewrite Hps2, Hc2.
  destruct (decide (q = pid)) as [->|Hne].
  - unfold view. by rewrite Hps1, Hc1.
  - by apply Hv1.
Qed.

Lemma fits_size (psz : Z) (tp : Tuple.t) :
  PageHeader.sizeof <= psz <= 65536 -> fits_empty_page psz tp ->
  0 < Z.of_nat (length tp) < 65536 /\ u16 (Tuple.Size tp) = Z.of_nat (length tp) /\
  Z.of_nat (length tp) + SlottedPage.sizeof_Slot <= psz - PageHeader.sizeof.
Proof.
  intros Hpsz [Hpos Hfit]. unfold Tuple.Size, SlottedPage.sizeof_Slot, PageHeader.sizeof in *.
  split; [lia|]. split; [|lia]. unfold u16. apply Z.mod_small. lia.
Qed.

End HeapProofs.
(** ** [TableHeap::Insert] *)

Section InsertProofs.
Context {R : Type} `{ReplacerLaws R}.
Import TableHeap.

(** A new page is allocated, initialised and receives the tuple. *)
Lemma insert_new_page (h : t R) N (tp : list byte) :
  heap_ok h N N None -> N + 1 < kInvalidPageId -> fits_empty_page (page_size_ h) tp ->
  exists h4 h5 ndata,
    allocate h = (N, h4) /\ fetch h4 N = (kOk, ndata, h5) /\
    page_size_ h5 = page_size_ h /\
    exists ndata2,
      SlottedPage.Insert (page_size_ h) (SlottedPage.InitNew ndata N (page_size_ h))
        (Some tp) (Z.of_nat (length tp)) = (kOk, Some 0, ndata2) /\
      let h' := unpin (UpdateFsmForPage (write h5 N ndata2) N ndata2) N true in
      heap_ok h' (N + 1) (N + 1) None /\ page_size_ h' = page_size_ h /\
      view h' N = [Some tp] /\ forall q, 0 <= q < N -> view h' q = view h q.
Proof.
  intros Hok HN Hfit. pose proof (hk_psz _ _ _ _ Hok) as Hpsz.
  pose proof (hk_n _ _ _ _ Hok) as Hn.
  destruct (fits_size _ _ Hpsz Hfit) as (Hlen & Hu16 & Hroom).
  destruct (allocate_spec h N N Hok ltac:(lia)) as (h4 & Ha & Hok4 & Hps4 & Hc4 & Hl4).
  destruct (fetch_spec h4 (N + 1) N N Hok4 ltac:(lia) ltac:(lia))
    as (h5 & Hf & Hok5 & Hps5 & Hc5 & Hv5 & _).
  exists h4, h5, (cur h4 N). split; [done|]. split; [done|].
  split; [by rewrite Hps5|].
  destruct (InitNew_spec (cur h4 N) N (page_size_ h) Hpsz Hl4)
    as (Hiwf & Hin & Hifo & Hifs & Hirec).
  destruct (page_insert_cases _ _ tp Hiwf Hlen) as (st & sl & m' & Hins & Hwf' & Hcase).
  destruct Hcase as [(-> & s & -> & Hs & Hcase)|(_ & _ & _ & Hlt)]; [|lia].
  rewrite Hirec in Hcase.
  assert (s = 0 /\ records (page_size_ h) m' = [Some tp]) as [-> Hrec'].
  { destruct Hcase as [[Hl _]|[Hl ->]]; [done|]. cbn in Hl. split; [lia|done]. }
  exists m'. split; [done|].
  destruct (commit_spec h5 (N + 1) N N m' (N + 1) Hok5) as (Hok' & Hps' & Hc' & Ho');
    [by rewrite Hps5, Hps4|lia|lia|intros; lia|].
  split; [done|]. split; [by rewrite Hps', Hps5|].
  split.
  - unfold view. rewrite Hc', Hps', Hps5, Hps4. done.
  - intros q Hq. unfold view at 1. rewrite Ho' by lia. rewrite Hps'.
    change (view h5 q = view h q). rewrite Hv5 by lia. unfold view.
    by rewrite Hps4, Hc4.
Qed.

(** The second half of [Insert]: the page [pid] is tried first. *)
Lemma insert_into_spec (h : t R) N pid (tp : Tuple.t) :
  heap_ok h N N None -> N + 1 < kInvalidPageId -> 0 <= pid < N ->
  fits_empty_page (page_size_ h) tp ->
  exists P s h' N',
    insert_into h pid tp = (kOk, Some (mkRID P s), h') /\
    heap_ok h' N' N' None /\ page_size_ h' = page_size_ h /\
    (forall q, 0 <= q < N -> q <> P -> view h' q = view h q) /\
    ((N' = N /\ P = pid /\ inserted (view h pid) s tp (view h' pid)) \/
     (N' = N + 1 /\ P = N /\ s = 0 /\ view h' N = [Some tp] /\
      PageHeader.free_size (cur h pid) < Z.of_nat (length tp) + SlottedPage.sizeof_Slot)).
Proof.
  intros Hok HN Hpid Hfit. pose proof (hk_psz _ _ _ _ Hok) as Hpsz.
  destruct (fits_size _ _ Hpsz Hfit) as (Hlen & Hu16 & Hroom).
  destruct (fetch_spec h N N pid Hok ltac:(lia) Hpid)
    as (h1 & Hf & Hok1 & Hps1 & Hc1 & Hv1 & Hwf).
  destruct (Hwf ltac:(lia)) as [Hw Ha].
  destruct (page_insert_cases _ _ tp Hw Hlen) as (st & sl & m' & Hins & Hwf' & Hcase).
  unfold insert_into. rewrite Hf, Hu16. change (ok kOk) with true. cbv beta iota zeta.
  cbn [negb]. unfold Tuple.t in *. rewrite Hps1, Hins.
  destruct Hcase as [(-> & s & -> & Hs)|(-> & -> & Hrec & Hlt)].
  - (* the page takes the tuple *)
    change (ok kOk) with true. cbn [negb default from_option id].
    destruct (commit_spec h1 N N pid m' N Hok1) as (Hok' & Hps' & Hc' & Ho');
      [by rewrite Hps1|lia|lia|intros; lia|].
    eexists pid, s, _, N. split; [reflexivity|]. split; [done|].
    split; [by rewrite Hps', Hps1|]. split.
    + intros q Hq Hne. unfold view at 1. rewrite Ho', Hps' by done.
      change (view h1 q = view h q). by apply Hv1.
    + left. split; [done|]. split; [done|]. unfold view at 2.
      by rewrite Hc', Hps', Hps1.
  - (* the page is full: a new page *)
    change (ok kOutOfRange) with false. cbn [negb].
    destruct (release_spec h1 N N pid m' Hok1) as (Hok3 & Hps3 & Hc3 & Ho3);
      [by rewrite Hps1|lia|by rewrite Hps1, Hrec|].
    set (h3 := unpin (write h1 pid m') pid false) in *.
    assert (Hv3 : forall q, 0 <= q < N -> view h3 q = view h q).
    { intros q Hq. unfold view at 1. rewrite Hps3.
      destruct (decide (q = pid)) as [->|Hne].
      - by rewrite Hc3, Hps1, Hrec.
      - rewrite Ho3 by done. change (view h1 q = view h q). by apply Hv1. }
    destruct (insert_new_page h3 N tp Hok3 HN) as
      (h4 & h5 & ndata & Hal & Hf5 & Hps5 & ndata2 & Hins2 & Hok' & Hps' & HvN & Hvq).
    { by rewrite Hps3, Hps1. }
    rewrite Hal. assert ((N =? kInvalidPageId) = false) as -> by (apply Z.eqb_neq; lia).
    rewrite Hf5. change (ok kOk) with true. cbn [negb]. rewrite Hps5, Hins2.
    change (ok kOk) with true. cbn [negb default from_option id].
    eexists N, 0, _, (N + 1). split; [reflexivity|]. split; [done|].
    split; [by rewrite Hps', Hps3, Hps1|]. split.
    + intros q Hq _. rewrite Hvq by done. by apply Hv3.
    + right. done.
Qed.

Lemma Insert_spec (h : t R) N (tp : Tuple.t) :
  heap_ok h N N None -> N + 2 < kInvalidPageId -> fits_empty_page (page_size_ h) tp ->
  exists P s h' N',
    Insert h tp = (kOk, Some (mkRID P s), h') /\
    heap_ok h' N' N' None /\ page_size_ h' = page_size_ h /\
    (forall q, 0 <= q < N -> q <> P -> view h' q = view h q) /\
    ((N' = N /\ 0 <= P < N /\ inserted (view h P) s tp (view h' P)) \/
     (N' = N + 1 /\ P = N /\ s = 0 /\ view h' N = [Some tp])).
Proof.
  intros Hok HN Hfit. pose proof (hk_psz _ _ _ _ Hok) as Hpsz.
  pose proof (hk_n _ _ _ _ Hok) as Hn.
  destruct (fits_size _ _ Hpsz Hfit) as (Hlen & Hu16 & Hroom).
  unfold Insert.
  assert (Tuple.Empty tp = false) as ->.
  { unfold Tuple.Empty. apply bool_decide_eq_false. intros ->. cbn in Hlen. lia. }
  rewrite Hu16.
  destruct (find_from_cases (fsm_ h) (Z.of_nat (length tp))
              (drop (FreeSpaceManager.BinIndex (fsm_ h) (Z.of_nat (length tp)))
                 (FreeSpaceManager.bins_ (fsm_ h)))) as [Hmiss|Hhit].
  - (* no candidate page *)
    unfold FreeSpaceManager.Find. rewrite Hmiss. cbn [Z.eqb Pos.eqb kInvalidPageId].
    change (4294967295 =? 4294967295) with true. cbv iota.
    destruct (allocate_spec h N N Hok ltac:(lia)) as (h1 & Ha & Hok1 & Hps1 & Hc1 & Hl1).
    rewrite Ha. assert ((N =? kInvalidPageId) = false) as -> by (apply Z.eqb_neq; lia).
    destruct (fetch_spec h1 (N + 1) N N Hok1 ltac:(lia) ltac:(lia))
      as (h2 & Hf2 & Hok2 & Hps2 & Hc2 & Hv2 & _).
    rewrite Hf2. change (ok kOk) with true. cbn [negb]. cbv zeta.
    destruct (InitNew_spec (cur h1 N) N (page_size_ h) Hpsz Hl1)
      as (Hiwf & Hin & Hifo & Hifs & Hirec).
    rewrite Hps2, Hps1.
    set (init := SlottedPage.InitNew (cur h1 N) N (page_size_ h)) in *.
    destruct (write_spec h2 (N + 1) N N init Hok2) as (Hok3 & Hps3 & Hc3 & Ho3 & _).
    destruct (unpin_spec (write h2 N init) (N + 1) N N true (N + 1) Hok3)
      as (Hok4 & Hps4 & Hc4); [by rewrite Hps3, Hps2, Hps1, Hc3|by left|lia|lia|intros; lia|].
    set (h4 := unpin (write h2 N init) N true) in *.
    assert (Hps4' : page_size_ h4 = page_size_ h) by (by rewrite Hps4, Hps3, Hps2).
    assert (Hcur4 : cur h4 N = init) by (by rewrite Hc4).
    assert (Hv4 : forall q, 0 <= q < N -> view h4 q = view h q).
    { intros q Hq. unfold view at 1. rewrite Hps4', Hc4, Ho3 by lia.
      rewrite <- Hps1, <- Hps2. change (view h2 q = view h q).
      rewrite Hv2 by lia. unfold view. by rewrite Hps1, Hc1. }
    destruct (fetch_spec h4 (N + 1) (N + 1) N Hok4 ltac:(lia) ltac:(lia))
      as (h5 & Hf5 & Hok5 & Hps5 & Hc5 & Hv5 & Hwf5).
    destruct (Hwf5 ltac:(lia)) as [Hw5 Ha5].
    rewrite Hf5. change (ok kOk) with true. cbv iota.
    set (h5' := UpdateFsmForPage h5 N (cur h4 N)).
    assert (Hok5' : heap_ok h5' (N + 1) (N + 1) (Some N))
      by (apply UpdateFsmForPage_spec; [done|lia]).
    destruct (unpin_spec h5' (N + 1) (N + 1) N false (N + 1) Hok5')
      as (Hok6 & Hps6 & Hc6); [by change (page_wf (page_size_ h5) (cur h5 N)); rewrite Hps5, Hc5| |lia|lia|intros; lia|].
    { right. change (disk_agrees (page_size_ h5) (bpm_ h5) (the_disk h5) N (view h5 N)).
      rewrite Hps5. unfold view at 1. by rewrite Hps5, Hc5. }
    set (h6 := unpin h5' N false) in *.
    assert (Hps6' : page_size_ h6 = page_size_ h) by (rewrite Hps6; exact (eq_trans Hps5 Hps4')).
    assert (Hcur6 : cur h6 N = init).
    { rewrite Hc6. change (cur h5 N = init). by rewrite Hc5. }
    assert (Hv6 : forall q, 0 <= q < N -> view h6 q = view h q).
    { intros q Hq. unfold view at 1. rewrite Hps6', Hc6.
      change (cur h5' q) with (cur h5 q). rewrite <- Hps4', <- Hps5.
      change (view h5 q = view h q). rewrite Hv5 by lia. by apply Hv4. }
    destruct (insert_into_spec h6 (N + 1) N tp Hok6 ltac:(lia) ltac:(lia))
      as (P & s & h' & N' & Hins & Hok' & Hps' & Hvq & Hcase).
    { by rewrite Hps6'. }
    destruct Hcase as [(-> & -> & Hs)|(_ & _ & _ & _ & Hlt)].
    2:{ rewrite Hcur6, Hifs in Hlt. lia. }
    exists N, s, h', (N + 1). split; [done|]. split; [done|].
    split; [by rewrite Hps'|]. split.
    + intros q Hq Hne. rewrite Hvq by lia. by apply Hv6.
    + right. unfold view at 1 in Hs. rewrite Hps6', Hcur6, Hirec in Hs.
      destruct Hs as [Hs0 [[Hl _]|[Hl Hnew]]]; [done|]. cbn in Hl.
      split; [done|]. split; [done|]. split; [lia|done].
  - (* a candidate page *)
    unfold FreeSpaceManager.Find.
    set (pid := FreeSpaceManager.find_from _ _ _) in *.
    apply fits_spec in Hhit as (f & Hf & _).
    assert (Hpid : 0 <= pid < N) by (apply (hk_fsm _ _ _ _ Hok); by rewrite Hf).
    assert ((pid =? kInvalidPageId) = false) as -> by (apply Z.eqb_neq; lia).
    destruct (insert_into_spec h N pid tp Hok ltac:(lia) Hpid Hfit)
      as (P & s & h' & N' & Hins & Hok' & Hps' & Hvq & Hcase).
    exists P, s, h', N'. split; [done|]. split; [done|]. split; [done|]. split; [done|].
    destruct Hcase as [(-> & -> & Hs)|(-> & -> & -> & Hv & _)]; [left|right]; done.
Qed.

End InsertProofs.
(** ** Counting the copies of a tuple *)

Section CountProofs.

Lemma holds_cons tp r recs :
  holds tp (r :: recs) = ((if decide (r = Some tp) then 1 else 0) + holds tp recs)%nat.
Proof.
  unfold holds. destruct (decide (r = Some tp)) as [E|E].
  - by rewrite filter_cons_True.
  - by rewrite filter_cons_False.
Qed.

Lemma holds_app tp l1 l2 : holds tp (l1 ++ l2) = (holds tp l1 + holds tp l2)%nat.
Proof. unfold holds. by rewrite filter_app, length_app. Qed.

Lemma holds_insert tp recs : forall (i : nat) old new,
  recs !! i = Some old ->
  (holds tp (<[i := new]> recs) + (if decide (old = Some tp) then 1 else 0) =
   holds tp recs + (if decide (new = Some tp) then 1 else 0))%nat.
Proof.
  induction recs as [|r recs IH]; intros i old new Hi; [done|].
  destruct i as [|i]; cbn in Hi.
  - injection Hi as <-. change (<[0%nat := new]> (r :: recs)) with (new :: recs).
    rewrite !holds_cons. lia.
  - change (<[S i := new]> (r :: recs)) with (r :: <[i := new]> recs).
    rewrite !holds_cons. specialize (IH i old new Hi). lia.
Qed.

Lemma holds_inserted tp old s new :
  inserted old s tp new -> holds tp new = S (holds tp old).
Proof.
  intros [Hs [[Hl ->]|[Hl ->]]].
  - pose proof (holds_insert tp old (Z.to_nat s) None (Some tp) Hl) as Hh.
    rewrite decide_False, decide_True in Hh by done. lia.
  - rewrite holds_app, holds_cons, decide_True by done. unfold holds at 2. cbn. lia.
Qed.

Lemma inserted_keeps old s tp new (i : nat) b :
  inserted old s tp new -> old !! i = Some (Some b) -> new !! i = Some (Some b).
Proof.
  intros [Hs [[Hl ->]|[Hl ->]]] Hi.
  - rewrite list_lookup_insert_ne; [done|]. intros <-. congruence.
  - by apply lookup_app_l_Some.
Qed.

Lemma inserted_at old s tp new :
  inserted old s tp new ->
  new !! Z.to_nat s = Some (Some tp) /\ forall b, old !! Z.to_nat s <> Some (Some b).
Proof.
  intros [Hs [[Hl ->]|[Hl ->]]].
  - split; [|congruence]. apply list_lookup_insert_eq. by eapply lookup_lt_Some.
  - split.
    + rewrite Hl. by rewrite list_lookup_middle.
    + intros b Hb. apply lookup_lt_Some in Hb. lia.
Qed.

Lemma page_sum_snoc f N : 0 <= N -> page_sum f (N + 1) = (page_sum f N + f N)%nat.
Proof.
  intros HN. unfold page_sum. rewrite seqZ_app by lia. rewrite sum_list_with_app.
  rewrite (seqZ_cons (0 + N) 1) by lia. change (Z.pred 1) with 0.
  rewrite (seqZ_nil _ 0) by lia. cbn [sum_list_with]. rewrite Z.add_0_l. lia.
Qed.

Lemma sum_list_with_ext (f g : Z -> nat) l :
  (forall q, q ∈ l -> f q = g q) -> sum_list_with f l = sum_list_with g l.
Proof.
  induction l as [|x l IH]; intros Hfg; [done|]. cbn.
  rewrite Hfg by (by left). rewrite IH; [done|]. intros q Hq. apply Hfg. by right.
Qed.

Lemma page_sum_ext f g N :
  (forall q, 0 <= q < N -> f q = g q) -> page_sum f N = page_sum g N.
Proof.
  intros Hfg. unfold page_sum. apply sum_list_with_ext.
  intros q Hq. apply elem_of_seqZ in Hq. apply Hfg. lia.
Qed.

Lemma page_sum_change f g (n : nat) : forall P,
  0 <= P < Z.of_nat n -> (forall q, 0 <= q < Z.of_nat n -> q <> P -> g q = f q) ->
  (page_sum g (Z.of_nat n) + f P = page_sum f (Z.of_nat n) + g P)%nat.
Proof.
  induction n as [|n IH]; intros P HP Hsame; [lia|].
  rewrite Nat2Z.inj_succ. unfold Z.succ. rewrite !page_sum_snoc by lia.
  destruct (decide (P = Z.of_nat n)) as [->|Hne].
  - rewrite (page_sum_ext g f (Z.of_nat n)); [lia|]. intros q Hq. apply Hsame; lia.
  - rewrite (Hsame (Z.of_nat n)) by lia.
    specialize (IH P ltac:(lia)). rewrite <- Nat.add_assoc, (Nat.add_comm (f _)), Nat.add_assoc.
    rewrite IH; [lia|]. intros q Hq Hq'. apply Hsame; lia.
Qed.

End CountProofs.
(** ** [TableHeap::Get] and [TableHeap::Update] *)

Section UpdateProofs.
Context {R : Type} `{ReplacerLaws R}.
Import TableHeap.

(** The data pointer of a tuple that holds bytes. *)
Lemma Bytes_data_filled (tp : list byte) :
  (0 < length tp)%nat -> Tuple.Bytes_data tp = Some tp.
Proof.
  intros Hlen. unfold Tuple.Bytes_data, Tuple.Empty.
  rewrite bool_decide_eq_false_2; [done|]. intros ->. simpl in Hlen. lia.
Qed.

Lemma records_Some_live psz m s b :
  page_wf psz m -> 0 <= s -> records psz m !! Z.to_nat s = Some (Some b) ->
  live_slot psz m s /\ Z.of_nat (length b) = SlottedPage.slot_len psz m s.
Proof.
  intros Hwf Hs Hl. pose proof (lookup_lt_Some _ _ _ Hl) as Hlt.
  rewrite records_length in Hlt. pose proof (slot_count_range m) as Rn.
  rewrite records_lookup_Z in Hl by lia. injection Hl as Hl. unfold record_at in Hl.
  destruct (SlottedPage.slot_len psz m s =? 0) eqn:E; [done|]. apply Z.eqb_neq in E.
  injection Hl as <-. split; [split; [lia|done]|].
  destruct (wf_live _ _ Hwf s ltac:(lia) E) as [Ho Hend].
  pose proof (wf_header _ _ Hwf) as Hh. pose proof (wf_length _ _ Hwf) as Hlen.
  pose proof (free_size_range m) as Rf. pose proof (slot_len_range psz m s) as Rl.
  unfold SlottedPage.sizeof_Slot, PageHeader.sizeof in *.
  rewrite length_sub by lia. lia.
Qed.

Lemma Get_spec (h : t R) N rid :
  heap_ok h N N None -> N < kInvalidPageId -> 0 <= page_id rid < N -> 0 <= slot rid ->
  exists h', heap_ok h' N N None /\ page_size_ h' = page_size_ h /\
    (forall q, 0 <= q < N -> view h' q = view h q) /\
    Get h rid =
      match view h (page_id rid) !! Z.to_nat (slot rid) with
      | Some (Some b) => (kOk, b, h')
      | _ => (kNotFound, [], h')
      end.
Proof.
  intros Hok HN Hpid Hs.
  destruct (peek_spec h N (page_id rid) Hok HN Hpid)
    as (h1 & Hf & Hwf & Hps1 & Hok' & Hps' & Hv').
  exists (unpin h1 (page_id rid) false). split; [done|]. split; [done|]. split; [done|].
  unfold Get. rewrite Hf. change (ok kOk) with true. cbn [negb]. rewrite Hps1.
  rewrite (Get_records _ _ _ Hwf Hs). fold (view h (page_id rid)).
  destruct (view h (page_id rid) !! Z.to_nat (slot rid)) as [[b|]|]; try done.
  change (ok kOk) with true. cbv iota. unfold Tuple.Deserialize.
  by rewrite Nat2Z.id, firstn_all.
Qed.

(** What [Insert] does to the table, in terms of its records. *)
Lemma Insert_counts (h : t R) N (tp : list byte) :
  heap_ok h N N None -> N + 2 < kInvalidPageId -> fits_empty_page (page_size_ h) tp ->
  exists new_rid h' N',
    Insert h tp = (kOk, Some new_rid, h') /\
    heap_ok h' N' N' None /\ page_size_ h' = page_size_ h /\ N <= N' <= N + 1 /\
    (0 <= page_id new_rid < N' /\ 0 <= slot new_rid /\
     view h' (page_id new_rid) !! Z.to_nat (slot new_rid) = Some (Some tp) /\
     forall b, page_id new_rid < N ->
       view h (page_id new_rid) !! Z.to_nat (slot new_rid) <> Some (Some b)) /\
    (forall q (i : nat) b, 0 <= q < N ->
       view h q !! i = Some (Some b) -> view h' q !! i = Some (Some b)) /\
    page_sum (fun q => holds tp (view h' q)) N'
      = S (page_sum (fun q => holds tp (view h q)) N).
Proof.
  intros Hok HN Hfit. pose proof (hk_n _ _ _ _ Hok) as Hn.
  destruct (Insert_spec h N tp Hok HN Hfit)
    as (P & s & h' & N' & Hins & Hok' & Hps' & Hvq & Hcase).
  exists (mkRID P s), h', N'. split; [done|]. split; [done|]. split; [done|].
  cbn [page_id slot].
  destruct Hcase as [(-> & HP & Hs)|(-> & -> & -> & Hv)].
  - split; [lia|]. split.
    { destruct (inserted_at _ _ _ _ Hs) as [Hnew Hold]. destruct Hs as [Hs0 _].
      split; [done|]. split; [done|]. split; [done|]. intros b _. apply Hold. }
    split.
    + intros q i b Hq Hl. destruct (decide (q = P)) as [->|Hne].
      * by eapply inserted_keeps.
      * by rewrite Hvq.
    + pose proof (page_sum_change (fun q => holds tp (view h q))
                    (fun q => holds tp (view h' q)) (Z.to_nat N) P) as Hsum.
      rewrite Z2Nat.id in Hsum by lia. cbv beta in Hsum.
      rewrite (holds_inserted _ _ _ _ Hs) in Hsum.
      assert (Hsame : forall q, 0 <= q < N -> q <> P ->
                holds tp (view h' q) = holds tp (view h q))
        by (intros q Hq Hne; by rewrite Hvq).
      specialize (Hsum HP Hsame). lia.
  - split; [lia|]. split.
    { split; [lia|]. split; [done|]. split; [by rewrite Hv|]. intros b Hlt. lia. }
    split.
    + intros q i b Hq Hl. by rewrite Hvq by lia.
    + rewrite page_sum_snoc by lia. rewrite Hv.
      rewrite (page_sum_ext _ (fun q => holds tp (view h q)) N).
      * unfold holds at 2. cbn. rewrite decide_True by done. cbn. lia.
      * intros q Hq. by rewrite Hvq by lia.
Qed.

(** [Update] of a record that no longer fits its page. *)
Lemma Update_relocates (h : t R) N rid (tp : list byte) :
  heap_ok h N N None -> N + 2 < kInvalidPageId ->
  0 <= page_id rid < N -> 0 <= slot rid ->
  fits_empty_page (page_size_ h) tp ->
  fst (SlottedPage.Update (page_size_ h) (cur h (page_id rid)) (slot rid) (Some tp)
         (u16 (Tuple.Size tp))) = kOutOfRange ->
  exists h' N' new_rid,
    Update h rid tp = (kOk, h') /\
    heap_ok h' N' N' None /\ page_size_ h' = page_size_ h /\ N <= N' <= N + 1 /\
    view h' (page_id rid) !! Z.to_nat (slot rid) = Some None /\
    (new_rid <> rid /\ 0 <= page_id new_rid < N' /\ 0 <= slot new_rid /\
     view h' (page_id new_rid) !! Z.to_nat (slot new_rid) = Some (Some tp)) /\
    page_sum (fun q => holds tp (view h' q)) N'
      = S (page_sum (fun q => holds tp (view h q)) N).
Proof.
  intros Hok HN Hpid Hs Hfit Hup. pose proof (hk_psz _ _ _ _ Hok) as Hpsz.
  pose proof (hk_n _ _ _ _ Hok) as Hn.
  destruct (fits_size _ _ Hpsz Hfit) as (Hlen & Hu16 & Hroom).
  set (pid := page_id rid) in *. set (s0 := slot rid) in *.
  destruct (fetch_spec h N N pid Hok ltac:(lia) Hpid)
    as (h1 & Hf & Hok1 & Hps1 & Hc1 & Hv1 & Hwf).
  destruct (Hwf ltac:(lia)) as [Hw Ha].
  (* the in-page update *)
  rewrite Hu16 in Hup.
  pose proof (Update_spec (page_size_ h) (cur h pid) s0 tp (Z.of_nat (length tp))
                Hw Hs ltac:(lia) ltac:(lia)) as Hus.
  cbv zeta in Hus. destruct Hus as (_ & Hdead & Hlive).
  assert (Hl0 : live_slot (page_size_ h) (cur h pid) s0).
  { destruct (decide (live_slot (page_size_ h) (cur h pid) s0)) as [|Hn0]; [done|].
    rewrite (Hdead Hn0) in Hup. done. }
  destruct (Hlive Hl0) as [(Hk & _)|(Hr & Hshort & _)]; [congruence|].
  (* the record that is moved *)
  assert (exists t1, view h pid !! Z.to_nat s0 = Some (Some t1) /\ t1 <> tp) as (t1 & Ht1 & Hne1).
  { destruct Hl0 as [Hr0 Hz0]. unfold view. rewrite records_lookup_Z by done.
    unfold record_at. apply Z.eqb_neq in Hz0 as Hz0'. rewrite Hz0'.
    eexists. split; [reflexivity|]. intros Heq.
    assert (Z.of_nat (length tp) = SlottedPage.slot_len (page_size_ h) (cur h pid) s0);
      [|lia].
    rewrite <- Heq.
    destruct (wf_live _ _ Hw s0 Hr0 Hz0) as [Ho Hend].
    pose proof (wf_header _ _ Hw) as Hh. pose proof (wf_length _ _ Hw) as Hlen'.
    pose proof (free_size_range (cur h pid)) as Rf.
    pose proof (slot_count_range (cur h pid)) as Rn.
    pose proof (slot_len_range (page_size_ h) (cur h pid) s0) as Rl.
    unfold SlottedPage.sizeof_Slot, PageHeader.sizeof in *.
    rewrite length_sub by lia. lia. }
  unfold Update. fold pid s0. rewrite Hf, Hu16, Bytes_data_filled by lia.
  change (ok kOk) with true. cbn [negb].
  unfold Tuple.t in *. rewrite Hps1, Hr. change (ok kOutOfRange) with false.
  cbv beta iota zeta. rewrite bool_decide_eq_true_2 by done.
  destruct (Compact_spec _ _ Hw) as (Hcw & _).
  destruct (release_spec h1 N N pid (SlottedPage.Compact (page_size_ h) (cur h pid)) Hok1)
    as (Hok3 & Hps3 & Hc3 & Ho3);
    [by rewrite Hps1|lia|by rewrite Hps1, Compact_records|].
  set (h3 := unpin (write h1 pid _) pid false) in *.
  assert (Hps3' : page_size_ h3 = page_size_ h) by (by rewrite Hps3).
  assert (Hv3 : forall q, 0 <= q < N -> view h3 q = view h q).
  { intros q Hq. unfold view at 1. rewrite Hps3.
    destruct (decide (q = pid)) as [->|Hne].
    - by rewrite Hc3, Hps1, Compact_records.
    - rewrite Ho3 by done. change (view h1 q = view h q). by apply Hv1. }
  (* the new version is inserted *)
  destruct (Insert_counts h3 N tp Hok3 HN) as
    (new_rid & h4 & N' & Hins & Hok4 & Hps4 & HN' & Hnew & Hkeep & Hsum);
    [by rewrite Hps3'|].
  destruct Hnew as (HnP & Hns & Hnv & Hnold).
  rewrite Hins. change (ok kOk) with true. cbn [negb].
  (* the old slot is erased *)
  destruct (fetch_spec h4 N' N' pid Hok4 ltac:(lia) ltac:(lia))
    as (h5 & Hf5 & Hok5 & Hps5 & Hc5 & Hv5 & Hwf5).
  destruct (Hwf5 ltac:(lia)) as [Hw5 _].
  rewrite Hf5. change (ok kOk) with true. cbn [negb]. rewrite Hps5.
  assert (Ht4 : view h4 pid !! Z.to_nat s0 = Some (Some t1)).
  { apply Hkeep; [done|]. by rewrite Hv3. }
  destruct (records_Some_live _ _ _ _ Hw5 Hs Ht4) as [Hl5 _].
  pose proof (Erase_spec (page_size_ h4) (cur h4 pid) s0 Hw5 Hs) as Hes.
  cbv zeta in Hes. destruct Hes as (Hew & _ & Hee). destruct (Hee Hl5) as (_ & _ & _ & Her).
  set (erased := snd (SlottedPage.Erase (page_size_ h4) (cur h4 pid) s0)) in *.
  destruct (commit_spec h5 N' N' pid erased N' Hok5) as (Hok6 & Hps6 & Hc6 & Ho6);
    [by rewrite Hps5|lia|lia|intros; lia|].
  eexists _, N', new_rid. split; [reflexivity|]. split; [done|].
  assert (Hps6' : page_size_ (unpin (UpdateFsmForPage (write h5 pid erased) pid erased)
                                pid true) = page_size_ h4) by (by rewrite Hps6).
  split; [by rewrite Hps6', Hps4|]. split; [done|].
  assert (Hv6p : view (unpin (UpdateFsmForPage (write h5 pid erased) pid erased) pid true) pid
                 = <[Z.to_nat s0 := None]> (view h4 pid)).
  { unfold view at 1. by rewrite Hc6, Hps6'. }
  assert (Hv6q : forall q, 0 <= q < N' -> q <> pid ->
            view (unpin (UpdateFsmForPage (write h5 pid erased) pid erased) pid true) q
            = view h4 q).
  { intros q Hq Hne. unfold view at 1. rewrite Ho6, Hps6 by done.
    change (view h5 q = view h4 q). by apply Hv5. }
  split; [|split].
  - rewrite Hv6p. apply list_lookup_insert_eq. by eapply lookup_lt_Some.
  - assert (Hdiff : page_id new_rid <> pid \/ Z.to_nat (slot new_rid) <> Z.to_nat s0).
    { destruct (decide (page_id new_rid = pid)) as [Hp|Hp]; [|by left]. right.
      intros Hsl. apply (Hnold t1); [lia|]. rewrite Hp, Hsl, Hv3 by done. done. }
    split; [intros ->; destruct Hdiff; done|]. split; [done|]. split; [done|].
    destruct (decide (page_id new_rid = pid)) as [Hp|Hp].
    + rewrite Hp, Hv6p. rewrite list_lookup_insert_ne by (destruct Hdiff; done).
      by rewrite <- Hp.
    + by rewrite Hv6q.
  - rewrite <- (page_sum_ext (fun q => holds tp (view h q)) (fun q => holds tp (view h3 q)) N)
      in Hsum by (intros q Hq; by rewrite Hv3).
    rewrite <- Hsum.
    pose proof (page_sum_change (fun q => holds tp (view h4 q))
      (fun q => holds tp (view (unpin (UpdateFsmForPage (write h5 pid erased) pid erased)
                                  pid true) q)) (Z.to_nat N') pid) as Hch.
    rewrite Z2Nat.id in Hch by lia. cbv beta in Hch. rewrite Hv6p in Hch.
    pose proof (holds_insert tp (view h4 pid) (Z.to_nat s0) (Some t1) None Ht4) as Hhi.
    rewrite !decide_False in Hhi by congruence.
    assert (Hsame : forall q, 0 <= q < N' -> q <> pid ->
              holds tp (view (unpin (UpdateFsmForPage (write h5 pid erased) pid erased)
                                pid true) q) = holds tp (view h4 q))
      by (intros q Hq Hne; by rewrite Hv6q).
    specialize (Hch ltac:(lia) Hsame). lia.
Qed.

End UpdateProofs.
(** ** The table iterator *)

Section RowProofs.

Lemma first_row_None p recs : forall s,
  first_row p recs s = None -> slot_rows p recs s = [].
Proof.
  induction recs as [|[b|] recs IH]; intros s Hf; cbn in *; [done|done|by apply IH].
Qed.

Lemma first_row_Some p recs : forall s s1 row,
  first_row p recs s = Some (s1, row) ->
  s <= s1 /\ (Z.to_nat (s1 - s) < length recs)%nat /\
  (exists b, row = TableIterator.mkRow (mkRID p s1) b) /\
  slot_rows p recs s = row :: slot_rows p (drop (S (Z.to_nat (s1 - s))) recs) (s1 + 1).
Proof.
  induction recs as [|[b|] recs IH]; intros s s1 row Hf; cbn in Hf; [done| |].
  - injection Hf as <- <-. rewrite Z.sub_diag. cbn. split; [lia|]. split; [lia|].
    split; [by exists b|]. by rewrite drop_0.
  - destruct (IH _ _ _ Hf) as (Hle & Hlt & Hb & Hrows).
    assert (Z.to_nat (s1 - s) = S (Z.to_nat (s1 - (s + 1)))) as -> by lia.
    cbn. split; [lia|]. split; [lia|]. split; [done|]. done.
Qed.

Lemma rows_from_0 V l : rows_from V 0 l = flat_map (page_rows V) l.
Proof. destruct l as [|q l]; [done|]. cbn. by rewrite drop_0. Qed.

Lemma first_at_None V (fuel : nat) : forall p s,
  first_at V s (seqZ p (Z.of_nat fuel)) = None ->
  rows_from V s (seqZ p (Z.of_nat fuel)) = [].
Proof.
  induction fuel as [|fuel IH]; intros p s Hf; [done|].
  rewrite Nat2Z.inj_succ, seqZ_cons in Hf |- * by lia.
  rewrite Z.pred_succ in Hf |- *. cbn [first_at rows_from] in Hf |- *.
  destruct (first_row p (drop (Z.to_nat s) (V p)) s) as [[s1 row]|] eqn:E; [done|].
  rewrite (first_row_None _ _ _ E). cbn [app].
  rewrite <- rows_from_0. by apply IH.
Qed.

Lemma first_at_Some V (fuel : nat) : forall p s q s1 row,
  0 <= s ->
  first_at V s (seqZ p (Z.of_nat fuel)) = Some (q, s1, row) ->
  p <= q < p + Z.of_nat fuel /\ 0 <= s1 /\ (Z.to_nat s1 < length (V q))%nat /\
  (exists b, row = TableIterator.mkRow (mkRID q s1) b) /\
  rows_from V s (seqZ p (Z.of_nat fuel))
    = row :: rows_from V (s1 + 1) (seqZ q (p + Z.of_nat fuel - q)).
Proof.
  induction fuel as [|fuel IH]; intros p s q s1 row Hs Hf; [done|].
  rewrite Nat2Z.inj_succ, seqZ_cons in Hf |- * by lia.
  rewrite Z.pred_succ in Hf |- *. cbn [first_at rows_from] in Hf |- *.
  destruct (first_row p (drop (Z.to_nat s) (V p)) s) as [[s2 row2]|] eqn:E.
  - injection Hf as <- <- <-.
    destruct (first_row_Some _ _ _ _ _ E) as (Hle & Hlt & Hb & Hrows).
    rewrite length_drop in Hlt.
    split; [lia|]. split; [lia|]. split; [lia|]. split; [done|].
    rewrite Hrows. cbn [app]. f_equal.
    replace (p + Z.succ (Z.of_nat fuel) - p) with (Z.succ (Z.of_nat fuel)) by lia.
    rewrite (seqZ_cons p) by lia. rewrite Z.pred_succ. cbn [rows_from].
    rewrite drop_drop. do 3 f_equal. lia.
  - rewrite (first_row_None _ _ _ E). cbn [app]. rewrite <- rows_from_0.
    destruct (IH (Z.succ p) 0 q s1 row (Z.le_refl 0) Hf) as (Hq & Hs1 & Hlt & Hb & Hrows).
    split; [lia|]. split; [done|]. split; [done|]. split; [done|].
    rewrite Hrows. do 3 f_equal. lia.
Qed.

Lemma copies_app tp l1 l2 : copies tp (l1 ++ l2) = (copies tp l1 + copies tp l2)%nat.
Proof. unfold copies. by rewrite filter_app, length_app. Qed.

Lemma copies_slot_rows tp p recs : forall s, copies tp (slot_rows p recs s) = holds tp recs.
Proof.
  induction recs as [|[b|] recs IH]; intros s; cbn [slot_rows]; [done| |].
  - rewrite holds_cons. unfold copies in *.
    destruct (decide (b = tp)) as [->|Hne].
    + rewrite filter_cons_True by done. rewrite decide_True by done. cbn. by rewrite IH.
    + rewrite filter_cons_False by done. rewrite decide_False by congruence. by rewrite IH.
  - rewrite holds_cons, decide_False by done. apply IH.
Qed.

Lemma copies_table_rows tp V N :
  copies tp (table_rows V N) = page_sum (fun q => holds tp (V q)) N.
Proof.
  unfold table_rows, page_sum. induction (seqZ 0 N) as [|q l IH]; [done|].
  cbn [flat_map sum_list_with]. rewrite copies_app, IH. f_equal.
  apply copies_slot_rows.
Qed.

End RowProofs.

Section ScanProofs.
Context {R : Type} `{ReplacerLaws R}.
Variables (N psz : Z) (V : Z -> list (option (list byte))).
Hypothesis HN : N < kInvalidPageId.

Lemma scan_peek (h : TableHeap.t R) p :
  scan_state N psz V h -> 0 <= p < N ->
  exists h1, TableHeap.fetch h p = (kOk, cur h p, h1) /\
    page_wf psz (cur h p) /\ records psz (cur h p) = V p /\
    TableHeap.page_size_ h1 = psz /\
    scan_state N psz V (TableHeap.unpin h1 p false).
Proof.
  intros (Hok & Hps & Hv) Hp.
  destruct (peek_spec h N p Hok HN Hp) as (h1 & Hf & Hwf & Hps1 & Hok' & Hps' & Hv').
  exists h1. split; [done|]. split; [by rewrite <- Hps|]. split.
  { rewrite <- Hps. by apply Hv. }
  split; [by rewrite Hps1|]. split; [done|]. split; [by rewrite Hps'|].
  intros q Hq. rewrite Hv' by done. by apply Hv.
Qed.

Lemma scan_pages (h : TableHeap.t R) :
  scan_state N psz V h -> TableIterator.pages h = N /\ 0 <= N.
Proof.
  intros (Hok & _). split; [by eapply pages_ok|]. pose proof (hk_n _ _ _ _ Hok). lia.
Qed.

Lemma scan_slots (h : TableHeap.t R) p :
  scan_state N psz V h -> 0 <= p < N ->
  PageHeader.slot_count (cur h p) = Z.of_nat (length (V p)) /\
  Z.of_nat (length (V p)) < 65536.
Proof.
  intros (Hok & Hps & Hv) Hp. rewrite <- (Hv p Hp). unfold view.
  rewrite records_length. pose proof (slot_count_range (cur h p)). lia.
Qed.

Lemma LoadAt_spec (h : TableHeap.t R) p s :
  scan_state N psz V h -> 0 <= p < N -> 0 <= s ->
  exists h', scan_state N psz V h' /\
    TableIterator.LoadAt h p s =
      (match V p !! Z.to_nat s with
       | Some (Some b) => Some (TableIterator.mkRow (mkRID p s) b)
       | _ => None
       end, h').
Proof.
  intros Hst Hp Hs.
  destruct (scan_peek h p Hst Hp) as (h1 & Hf & Hwf & Hrec & Hps1 & Hst').
  exists (TableHeap.unpin h1 p false). split; [done|].
  unfold TableIterator.LoadAt. rewrite Hf. change (ok kOk) with true. cbn [negb].
  rewrite Hps1. rewrite <- Hrec.
  destruct (PageHeader.slot_count (cur h p) <=? s) eqn:E.
  - apply Z.leb_le in E. rewrite records_lookup_ge by lia. done.
  - rewrite (Get_records _ _ _ Hwf Hs).
    destruct (records psz (cur h p) !! Z.to_nat s) as [[b|]|]; try done.
    change (ok kOk) with true. cbv iota. unfold Tuple.Deserialize.
    by rewrite Nat2Z.id, firstn_all.
Qed.

Lemma advance_slots_spec p (fuel : nat) : forall s (h : TableHeap.t R),
  scan_state N psz V h -> 0 <= p < N -> 0 <= s ->
  (Z.to_nat s + fuel = length (V p))%nat ->
  exists h', scan_state N psz V h' /\
    TableIterator.advance_slots h p s fuel
      = (first_row p (drop (Z.to_nat s) (V p)) s, h').
Proof.
  induction fuel as [|fuel IH]; intros s h Hst Hp Hs Hlen.
  - exists h. split; [done|]. cbn. rewrite drop_ge by lia. done.
  - destruct (scan_slots h p Hst Hp) as [_ Hlt].
    destruct (LoadAt_spec h p s Hst Hp Hs) as (h1 & Hst1 & Hl).
    cbn [TableIterator.advance_slots]. rewrite Hl.
    destruct (lookup_lt_is_Some_2 (V p) (Z.to_nat s) ltac:(lia)) as [x Hx].
    unfold Tuple.t in *.
    rewrite Hx, (drop_S _ _ _ Hx). destruct x as [b|]; cbn [first_row].
    + by exists h1.
    + assert (u16 (s + 1) = s + 1) as -> by (unfold u16; apply Z.mod_small; lia).
      destruct (IH (s + 1) h1 Hst1 Hp ltac:(lia) ltac:(lia)) as (h' & Hst' & Ha).
      exists h'. split; [done|]. rewrite Ha.
      by replace (Z.to_nat (s + 1)) with (S (Z.to_nat s)) by lia.
Qed.

Lemma advance_pages_spec (fuel : nat) : forall p s (h : TableHeap.t R),
  scan_state N psz V h -> 0 <= p -> p + Z.of_nat fuel = N -> 0 <= s ->
  (fuel <> O -> (Z.to_nat s <= length (V p))%nat) ->
  exists h', scan_state N psz V h' /\
    TableIterator.advance_pages h p s fuel = (first_at V s (seqZ p (Z.of_nat fuel)), h').
Proof.
  induction fuel as [|fuel IH]; intros p s h Hst Hp Hfuel Hs Hsl.
  - exists h. by split.
  - assert (Hp' : 0 <= p < N) by lia. specialize (Hsl ltac:(done)).
    destruct (scan_peek h p Hst Hp') as (h1 & Hf & Hwf & Hrec & Hps1 & Hst').
    destruct (scan_slots h p Hst Hp') as [Hcnt Hlt].
    rewrite Nat2Z.inj_succ, seqZ_cons by lia. rewrite Z.pred_succ.
    cbn [TableIterator.advance_pages first_at]. rewrite Hf.
    change (ok kOk) with true. cbn [negb]. rewrite Hcnt.
    destruct (advance_slots_spec p (Z.to_nat (Z.of_nat (length (V p)) - s)) s
                (TableHeap.unpin h1 p false) Hst' Hp' Hs ltac:(lia)) as (h3 & Hst3 & Ha).
    rewrite Ha.
    destruct (first_row p (drop (Z.to_nat s) (V p)) s) as [[s1 row]|]; [by exists h3|].
    assert (u32 (p + 1) = p + 1) as ->.
    { unfold u32. apply Z.mod_small. unfold kInvalidPageId in HN. lia. }
    destruct (IH (p + 1) 0 h3 Hst3 ltac:(lia) ltac:(lia) ltac:(lia)) as (h' & Hst'' & Hb).
    { intros _. cbn. lia. }
    exists h'. split; [done|]. by rewrite Hb.
Qed.

Lemma first_live_spec data p (fuel : nat) : forall s,
  page_wf psz data -> 0 <= s ->
  (Z.to_nat s + fuel = length (records psz data))%nat ->
  TableIterator.first_live psz data s fuel =
    match first_row p (drop (Z.to_nat s) (records psz data)) s with
    | Some (s1, row) => Some (s1, TableIterator.tuple row)
    | None => None
    end.
Proof.
  intros s Hwf. revert s. induction fuel as [|fuel IH]; intros s Hs Hlen.
  - cbn. rewrite drop_ge by lia. done.
  - pose proof (slot_count_range data) as Rn. rewrite records_length in Hlen.
    cbn [TableIterator.first_live]. rewrite (Get_records _ _ _ Hwf Hs).
    destruct (lookup_lt_is_Some_2 (records psz data) (Z.to_nat s)) as [x Hx].
    { rewrite records_length. lia. }
    rewrite Hx, (drop_S _ _ _ Hx). destruct x as [b|]; cbn [first_row].
    + change (ok kOk) with true. cbv iota. unfold Tuple.Deserialize.
      by rewrite Nat2Z.id, firstn_all.
    + change (ok kNotFound) with false. cbv iota.
      assert (u16 (s + 1) = s + 1) as -> by (unfold u16; apply Z.mod_small; lia).
      rewrite IH by (rewrite ?records_length; lia).
      by replace (Z.to_nat (s + 1)) with (S (Z.to_nat s)) by lia.
Qed.

Lemma seek_from_spec (fuel : nat) : forall p (h : TableHeap.t R),
  scan_state N psz V h -> 0 <= p -> p + Z.of_nat fuel = N ->
  exists h', scan_state N psz V h' /\
    TableIterator.seek_from h p fuel =
      (match first_at V 0 (seqZ p (Z.of_nat fuel)) with
       | Some (q, s1, row) => TableIterator.mk q s1 false row
       | None => TableIterator.mk 0 0 true (TableIterator.mkRow (mkRID 0 0) [])
       end, h').
Proof.
  induction fuel as [|fuel IH]; intros p h Hst Hp Hfuel.
  - exists h. by split.
  - assert (Hp' : 0 <= p < N) by lia.
    destruct (scan_peek h p Hst Hp') as (h1 & Hf & Hwf & Hrec & Hps1 & Hst').
    destruct (scan_slots h p Hst Hp') as [Hcnt Hlt].
    rewrite Nat2Z.inj_succ, seqZ_cons by lia. rewrite Z.pred_succ.
    cbn [TableIterator.seek_from first_at]. rewrite Hf.
    change (ok kOk) with true. cbn [negb]. rewrite Hps1.
    rewrite (first_live_spec (cur h p) p _ 0 Hwf ltac:(lia))
      by (rewrite records_length; lia).
    rewrite Hrec. change (Z.to_nat 0) with O.
    destruct (first_row p (drop 0 (V p)) 0) as [[s1 row]|] eqn:E.
    + exists (TableHeap.unpin h1 p false). split; [done|].
      destruct (first_row_Some _ _ _ _ _ E) as (_ & _ & (b & ->) & _). done.
    + assert (u32 (p + 1) = p + 1) as ->.
      { unfold u32. apply Z.mod_small. unfold kInvalidPageId in HN. lia. }
      destruct (IH (p + 1) _ Hst' ltac:(lia) ltac:(lia)) as (h' & Hst'' & Hb).
      exists h'. split; [done|]. by rewrite Hb.
Qed.

Lemma collect_spec (fuel : nat) : forall q s1 row (h : TableHeap.t R),
  scan_state N psz V h -> 0 <= q < N -> 0 <= s1 -> (Z.to_nat s1 < length (V q))%nat ->
  (length (rows_from V (s1 + 1) (seqZ q (N - q))) < fuel)%nat ->
  fst (TableIterator.collect (TableIterator.mk q s1 false row) h fuel)
    = row :: rows_from V (s1 + 1) (seqZ q (N - q)).
Proof.
  induction fuel as [|fuel IH]; intros q s1 row h Hst Hq Hs1 Hlt Hlen; [lia|].
  destruct (scan_pages h Hst) as [Hpg HN0].
  destruct (scan_slots h q Hst Hq) as [_ Hmax].
  cbn [TableIterator.collect TableIterator.end_].
  unfold TableIterator.next, TableIterator.AdvanceOne.
  cbn [TableIterator.end_ TableIterator.pid_ TableIterator.slot_ TableIterator.current_].
  assert (u16 (s1 + 1) = s1 + 1) as -> by (unfold u16; apply Z.mod_small; lia).
  rewrite Hpg.
  destruct (advance_pages_spec (Z.to_nat (N - q)) q (s1 + 1) h Hst)
    as (h1 & Hst1 & Ha); [lia|lia|lia|intros _; lia|].
  rewrite Ha, Z2Nat.id by lia.
  destruct (first_at V (s1 + 1) (seqZ q (N - q))) as [[[q' s'] row']|] eqn:E.
  - replace (N - q) with (Z.of_nat (Z.to_nat (N - q))) in E by lia.
    apply first_at_Some in E as (Hq' & Hs' & Hlt' & _ & Hrows); [|lia].
    rewrite Z2Nat.id in Hrows by lia.
    replace (q + (N - q) - q') with (N - q') in Hrows by lia.
    rewrite Hrows in Hlen |- *. cbn [length] in Hlen.
    specialize (IH q' s' row' h1 Hst1 ltac:(lia) Hs' Hlt' ltac:(lia)).
    destruct (TableIterator.collect _ h1 fuel) as [rows h2]. cbn [fst] in *.
    by rewrite IH.
  - replace (N - q) with (Z.of_nat (Z.to_nat (N - q))) in E by lia.
    apply first_at_None in E. rewrite Z2Nat.id in E by lia. rewrite E.
    destruct fuel; done.
Qed.

Lemma scan_spec (h : TableHeap.t R) (fuel : nat) :
  scan_state N psz V h -> (length (table_rows V N) < fuel)%nat ->
  fst (TableIterator.scan h fuel) = table_rows V N.
Proof.
  intros Hst Hlen. destruct (scan_pages h Hst) as [Hpg HN0].
  unfold TableIterator.scan, TableIterator.Begin. rewrite Hpg.
  destruct (seek_from_spec (Z.to_nat N) 0 h Hst) as (h1 & Hst1 & Hs); [lia|lia|].
  rewrite Hs, Z2Nat.id by lia. unfold table_rows in *. rewrite <- rows_from_0 in Hlen |- *.
  destruct (first_at V 0 (seqZ 0 N)) as [[[q s1] row]|] eqn:E.
  - replace N with (Z.of_nat (Z.to_nat N)) in E at 1 by lia.
    apply first_at_Some in E as (Hq & Hs1 & Hlt & _ & Hrows); [|lia].
    rewrite Z2Nat.id in Hrows by lia.
    replace (0 + N - q) with (N - q) in Hrows by lia.
    rewrite Hrows in Hlen |- *. cbn [length] in Hlen.
    apply collect_spec; try done; lia.
  - replace N with (Z.of_nat (Z.to_nat N)) in E at 1 by lia.
    apply first_at_None in E. rewrite Z2Nat.id in E by lia. rewrite E.
    destruct fuel; done.
Qed.

End ScanProofs.
(** ** Table states, and the relocating update *)

Section HeapStates.
Context {R : Type} `{ReplacerLaws R}.

Lemma pool_make_ok (nf psz : Z) (r : R) N n :
  0 < nf -> rOk r -> rCap r = nf -> (forall g, ~ rCand r g) ->
  pool_ok (BufferPoolManager.make nf psz r) N n None.
Proof.
  intros Hnf Hrok Hrcap Hnone. split; [split|]; cbn.
  - rewrite length_replicate. lia.
  - done.
  - intros pid fid Hl. by rewrite lookup_empty in Hl.
  - intros fid Hin. apply elem_of_seqZ in Hin. lia.
  - apply NoDup_seqZ.
  - done.
  - done.
  - intros g. split; [by intros ?%Hnone|]. intros (pid & Hl & _).
    by rewrite lookup_empty in Hl.
  - done.
  - intros fid Hfid. left. apply elem_of_seqZ. lia.
Qed.

(** A table heap over a new segment, an empty pool and an empty free-space
    manager. *)
Lemma heap_make_inv (seg psz nf : Z) (r : R) (ths : list Z) :
  PageHeader.sizeof <= psz <= 65536 -> 0 < nf ->
  rOk r -> rCap r = nf -> (forall g, ~ rCand r g) ->
  heap_inv (TableHeap.mk seg psz (BufferPoolManager.make nf psz r) seg
              (FreeSpaceManager.make psz ths)
              (snd (SegmentManager.EnsureSegment (SegmentManager.make psz) seg))).
Proof.
  intros Hpsz Hnf Hrok Hrcap Hnone. unfold heap_inv.
  assert (Hsm : snd (SegmentManager.EnsureSegment (SegmentManager.make psz) seg) =
                SegmentManager.mk psz
                  (<[seg := SegmentManager.mkSegment (DiskManager.make psz) []]> ∅)).
  { unfold SegmentManager.EnsureSegment, SegmentManager.make.
    cbn [SegmentManager.segs_ SegmentManager.page_size_]. by rewrite lookup_empty. }
  rewrite Hsm.
  set (h := TableHeap.mk _ _ _ _ _ _).
  assert (Hd : the_disk h = DiskManager.make psz).
  { unfold the_disk, TableHeap.pool_disk, SegmentManager.GetDisk, h. cbn.
    by rewrite lookup_insert_eq. }
  assert (Hmk : DiskManager.make psz = DiskManager.mk psz [] false false).
  { unfold DiskManager.make. unfold PageHeader.sizeof in *.
    assert ((psz <? 32) = false) as -> by (apply Z.ltb_ge; lia). done. }
  assert (Hpg : TableIterator.pages h = 0).
  { unfold TableIterator.pages, SegmentManager.PageCount, h. cbn.
    rewrite lookup_insert_eq. cbn. rewrite Hmk. unfold DiskManager.PageCount. cbn.
    apply Z.div_0_l. unfold PageHeader.sizeof in *. lia. }
  rewrite Hpg. split.
  - rewrite Hd. unfold h. cbn. apply lookup_insert_eq.
  - done.
  - done.
  - lia.
  - rewrite Hd, Hmk. by split.
  - by apply pool_make_ok.
  - intros q Hq. lia.
  - intros pid [f Hf]. cbn in Hf. by rewrite lookup_empty in Hf.
Qed.

Lemma Insert_heap_inv (h : TableHeap.t R) (tp : Tuple.t) :
  heap_inv h -> TableIterator.pages h + 2 < kInvalidPageId ->
  fits_empty_page (TableHeap.page_size_ h) tp ->
  heap_inv (snd (TableHeap.Insert h tp)).
Proof.
  intros Hinv HN Hfit.
  destruct (Insert_counts h _ tp Hinv HN Hfit) as (r' & h' & N' & Hins & Hok' & _).
  unfold Tuple.t in *. rewrite Hins. cbn [snd]. unfold heap_inv.
  by rewrite (pages_ok _ _ _ _ Hok').
Qed.

End HeapStates.

Lemma demo_heap_inv : heap_inv demo_heap.
Proof.
  assert (H0 : heap_inv demo_heap0).
  { destruct (clock_make_ok 2 ltac:(lia)) as (Hok & Hcap & Hnone).
    by apply heap_make_inv. }
  assert (H1 : heap_inv (snd (TableHeap.Insert demo_heap0 demo_tuple_a))).
  { apply Insert_heap_inv; [done|by vm_compute|]. split; by vm_compute. }
  apply Insert_heap_inv; [done|by vm_compute|]. split; by vm_compute.
Qed.

(** C6 (as stated) fails in two ways on the table [demo_heap] (1024-byte
    pages; page 0 holds a 400-byte tuple in slot 0 and a 500-byte tuple in
    slot 1).  A new version of 1000 bytes fits no page: the in-page update
    of slot (0,0) fails with OutOfRange, and so does [TableHeap::Update];
    the original slot stays readable and no scan shows the new version.  A
    new version equal to the tuple already stored in slot (0,1) is
    relocated, after which a scan yields two copies of it. *)
Lemma C6_relocation_can_fail_or_duplicate :
  let rid := mkRID 0 0 in
  heap_inv demo_heap /\
  (fst (SlottedPage.Update 1024 (cur demo_heap 0) 0 (Some demo_tuple_big)
          (u16 (Tuple.Size demo_tuple_big))) = kOutOfRange /\
   fst (TableHeap.Update demo_heap rid demo_tuple_big) = kOutOfRange /\
   fst (fst (TableHeap.Get (snd (TableHeap.Update demo_heap rid demo_tuple_big)) rid)) = kOk /\
   copies demo_tuple_big
     (fst (TableIterator.scan (snd (TableHeap.Update demo_heap rid demo_tuple_big)) 10))
     = 0%nat) /\
  (fst (SlottedPage.Update 1024 (cur demo_heap 0) 0 (Some demo_tuple_b)
          (u16 (Tuple.Size demo_tuple_b))) = kOutOfRange /\
   fst (TableHeap.Update demo_heap rid demo_tuple_b) = kOk /\
   copies demo_tuple_b
     (fst (TableIterator.scan (snd (TableHeap.Update demo_heap rid demo_tuple_b)) 10))
     = 2%nat).
Proof.
  split; [exact demo_heap_inv|]. by vm_compute.
Qed.

Section Relocation.
Context {R : Type} `{ReplacerLaws R}.

(** C6 (amended): in a consistent table state whose file and pool meet no
    I/O error, let the in-page [SlottedPage::Update] of the slot named by
    [rid] fail with OutOfRange for a new version [t2] that fits an empty
    page.  Then [TableHeap::Update(rid, t2)] returns Ok and leaves a
    consistent table; [t2] is readable at a new RID; [TableHeap::Get(rid)]
    returns NotFound; and a full scan yields one more copy of [t2] than a
    full scan before the update (exactly one when the table held none). *)
Theorem C6_update_relocates_fitting_tuple (h : TableHeap.t R) (rid : RID) (t2 : Tuple.t) :
  heap_inv h ->
  TableIterator.pages h + 2 < kInvalidPageId ->
  0 <= page_id rid < TableIterator.pages h -> 0 <= slot rid ->
  fits_empty_page (TableHeap.page_size_ h) t2 ->
  fst (SlottedPage.Update (TableHeap.page_size_ h) (cur h (page_id rid)) (slot rid)
         (Some t2) (u16 (Tuple.Size t2))) = kOutOfRange ->
  exists h',
    TableHeap.Update h rid t2 = (kOk, h') /\ heap_inv h' /\
    (exists new_rid, new_rid <> rid /\ fst (TableHeap.Get h' new_rid) = (kOk, t2)) /\
    fst (fst (TableHeap.Get h' rid)) = kNotFound /\
    exists rows rows',
      (forall fuel, (length rows < fuel)%nat -> fst (TableIterator.scan h fuel) = rows) /\
      (forall fuel, (length rows' < fuel)%nat -> fst (TableIterator.scan h' fuel) = rows') /\
      copies t2 rows' = S (copies t2 rows).
Proof.
  intros Hinv HN Hpid Hslot Hfit Hup. unfold heap_inv in Hinv.
  set (N := TableIterator.pages h) in *.
  destruct (Update_relocates h N rid t2 Hinv HN Hpid Hslot Hfit Hup)
    as (h' & N' & new_rid & Hu & Hok' & Hps' & HN' & Hold & Hnew & Hsum).
  destruct Hnew as (Hne & HnP & Hns & Hnv).
  pose proof (pages_ok _ _ _ _ Hok') as Hpg'.
  exists h'. split; [done|]. split; [unfold heap_inv; by rewrite Hpg'|].
  split; [|split].
  - exists new_rid. split; [done|].
    destruct (Get_spec h' N' new_rid Hok' ltac:(lia) HnP Hns) as (h'' & _ & _ & _ & Hg).
    rewrite Hg. unfold Tuple.t in *. by rewrite Hnv.
  - destruct (Get_spec h' N' rid Hok' ltac:(lia) ltac:(lia) Hslot) as (h'' & _ & _ & _ & Hg).
    rewrite Hg. unfold Tuple.t in *. by rewrite Hold.
  - exists (table_rows (view h) N), (table_rows (view h') N'). split; [|split].
    + intros fuel Hfuel.
      apply (scan_spec N (TableHeap.page_size_ h) (view h)); [lia| |done].
      split; [done|]. by split.
    + intros fuel Hfuel.
      apply (scan_spec N' (TableHeap.page_size_ h') (view h')); [lia| |done].
      split; [done|]. by split.
    + by rewrite !copies_table_rows.
Qed.

End Relocation.

Lemma C6_update_relocates_fitting_tuple_witness :
  exists h',
    TableHeap.Update demo_heap (mkRID 0 0) demo_tuple_c = (kOk, h') /\ heap_inv h' /\
    (exists new_rid, new_rid <> mkRID 0 0 /\
       fst (TableHeap.Get h' new_rid) = (kOk, demo_tuple_c)) /\
    fst (fst (TableHeap.Get h' (mkRID 0 0))) = kNotFound /\
    exists rows rows',
      (forall fuel, (length rows < fuel)%nat ->
         fst (TableIterator.scan demo_heap fuel) = rows) /\
      (forall fuel, (length rows' < fuel)%nat -> fst (TableIterator.scan h' fuel) = rows') /\
      copies demo_tuple_c rows' = S (copies demo_tuple_c rows).
Proof.
  apply (C6_update_relocates_fitting_tuple demo_heap (mkRID 0 0) demo_tuple_c).
  - exact demo_heap_inv.
  - vm_compute. reflexivity.
  - vm_compute. split; [discriminate|reflexivity].
  - vm_compute. discriminate.
  - split; vm_compute; [reflexivity|discriminate].
  - vm_compute. reflexivity.
Defined.
(** * Further properties of the storage core *)

(** ** The slotted page *)

Section PageExtras.
Import PageHeader SlottedPage.

Ltac unf :=
  unfold slot_count, free_off, free_size, set_slot_count, set_free_off, set_free_size,
    slot_off, slot_len, set_slot_off, set_slot_len, SlotAt, sizeof_Slot, sizeof,
    off_slot_count, off_free_off, off_free_size, u16, u32 in *.

Ltac len_rw := rewrite ?length_store16, ?length_store, ?length_memmove in *.

Lemma demo_page2_reachable : page_reachable 64 demo_page2.
Proof.
  unfold demo_page2.
  apply reach_Insert; [|split; [lia|simpl; lia]].
  apply reach_Insert; [|split; [lia|simpl; lia]].
  apply reach_InitNew. reflexivity.
Qed.

Lemma psz64 : sizeof <= 64 <= 65536.
Proof. unfold sizeof. lia. Qed.

(** X1: for every page size from [sizeof(PageHeader)] up to 65536, on
    every page reachable from [InitNew], [free_off] stays between the header
    and the slot directory, the record of every live slot lies between the
    header and [free_off], and the records of two different live slots never
    overlap. *)
Theorem X1_live_records_never_overlap psz m :
  sizeof <= psz <= 65536 -> page_reachable psz m ->
  sizeof <= free_off m <= psz - slot_count m * sizeof_Slot /\
  (forall i, live_slot psz m i ->
     sizeof <= slot_off psz m i /\
     slot_off psz m i + slot_len psz m i <= free_off m) /\
  (forall i j, live_slot psz m i -> live_slot psz m j -> i <> j ->
     slot_off psz m i + slot_len psz m i <= slot_off psz m j \/
     slot_off psz m j + slot_len psz m j <= slot_off psz m i).
Proof.
  intros Hpsz Hr. pose proof (page_reachable_wf psz m Hpsz Hr) as Hwf.
  pose proof (wf_header _ _ Hwf) as Hh. pose proof (free_size_range m) as Rf.
  pose proof (wf_free_off _ _ Hwf) as Hfo.
  split; [lia|]. split.
  - intros i [Hi Hni]. exact (wf_live _ _ Hwf i Hi Hni).
  - intros i j [Hi Hni] [Hj Hnj] Hij. by apply (wf_disjoint _ _ Hwf).
Qed.

Lemma X1_live_records_never_overlap_witness :
  sizeof <= free_off demo_page2 <= 64 - slot_count demo_page2 * sizeof_Slot /\
  slot_off 64 demo_page2 0 + slot_len 64 demo_page2 0 <= free_off demo_page2 /\
  (slot_off 64 demo_page2 0 + slot_len 64 demo_page2 0 <= slot_off 64 demo_page2 1 \/
   slot_off 64 demo_page2 1 + slot_len 64 demo_page2 1 <= slot_off 64 demo_page2 0).
Proof.
  destruct (X1_live_records_never_overlap 64 demo_page2 psz64 demo_page2_reachable)
    as (Hfo & Hin & Hapart).
  assert (H0 : live_slot 64 demo_page2 0) by (split; vm_compute; [split|]; congruence).
  assert (H1 : live_slot 64 demo_page2 1) by (split; vm_compute; [split|]; congruence).
  split; [exact Hfo|]. split; [exact (proj2 (Hin 0 H0))|].
  apply (Hapart 0 1 H0 H1). lia.
Defined.

(** X2: for every page size from [sizeof(PageHeader)] up to 65536, on
    every page reachable from [InitNew], a successful [Insert] of a record
    of [len] bytes (a non-null record, [len] from 1 to 65535) can be read
    back: [Get] on the returned slot yields exactly the [len] bytes given,
    and [Get] on every other slot yields what it yielded before the call. *)
Theorem X2_insert_then_get psz m bytes len :
  sizeof <= psz <= 65536 -> page_reachable psz m ->
  0 < len < 65536 -> len <= Z.of_nat (length bytes) ->
  fst (fst (Insert psz m (Some bytes) len)) = kOk ->
  exists s,
    Insert psz m (Some bytes) len
      = (kOk, Some s, ins_page (Insert_run psz m (Some bytes) len)) /\
    0 <= s /\
    Get psz (ins_page (Insert_run psz m (Some bytes) len)) s
      = (kOk, take (Z.to_nat len) bytes) /\
    forall i, 0 <= i -> i <> s ->
      Get psz (ins_page (Insert_run psz m (Some bytes) len)) i = Get psz m i.
Proof.
  intros Hpsz Hr Hlen Hrec Hok.
  pose proof (page_reachable_wf psz m Hpsz Hr) as Hwf.
  pose proof (Insert_run_spec psz m bytes len Hwf Hlen Hrec) as Hs. cbv zeta in Hs.
  set (r := Insert_run psz m (Some bytes) len) in *.
  set (tomb := first_tombstone psz m 0 (Z.to_nat (slot_count m))) in *.
  destruct Hs as (_ & _ & _ & Hrwf & _ & Hfail & Hsucc).
  unfold Insert in *. fold r in Hok |- *. cbn [fst] in Hok.
  pose proof (slot_count_range m) as Rn.
  match type of Hfail with (?a < ?b -> _) =>
    destruct (decide (a < b)) as [Hlt|Hge] end.
  { destruct (Hfail Hlt) as (Hst & _). congruence. }
  destruct (Hsucc ltac:(lia)) as (Hst & Hsl & _ & _ & _ & Hrecs).
  exists (default (slot_count m) tomb). rewrite Hst, Hsl.
  split; [done|].
  assert (Hcase : (exists t, tomb = Some t /\ 0 <= t < slot_count m) \/ tomb = None).
  { destruct tomb as [t|] eqn:Et; [left|by right]. exists t. split; [done|].
    by apply first_tombstone_lowest in Et as (Ht & _). }
  split; [destruct Hcase as [(t & -> & Ht)| ->]; cbn; lia|].
  split.
  - rewrite Get_records by (done || destruct Hcase as [(t & -> & Ht)| ->]; cbn; lia).
    rewrite Hrecs. destruct Hcase as [(t & -> & Ht)| ->]; cbn [default from_option id].
    + rewrite list_lookup_insert_eq by (rewrite records_length; lia). done.
    + rewrite lookup_app_r by (rewrite records_length; lia).
      rewrite records_length, Nat.sub_diag. done.
  - intros i Hi Hne. rewrite !Get_records by done. rewrite Hrecs.
    destruct Hcase as [(t & -> & Ht)| ->]; cbn [default from_option id] in Hne.
    + rewrite list_lookup_insert_ne by lia. done.
    + destruct (decide (i < slot_count m)) as [Hlt|Hge'].
      * rewrite lookup_app_l by (rewrite records_length; lia). done.
      * rewrite (lookup_ge_None_2 (records psz m)) by (rewrite records_length; lia).
        rewrite lookup_ge_None_2; [done|].
        rewrite length_app, records_length. cbn. lia.
Qed.

Lemma X2_insert_then_get_witness :
  exists s,
    Insert 64 demo_page (Some [x09; x08; x07]) 3
      = (kOk, Some s, ins_page (Insert_run 64 demo_page (Some [x09; x08; x07]) 3)) /\
    0 <= s /\
    Get 64 (ins_page (Insert_run 64 demo_page (Some [x09; x08; x07]) 3)) s
      = (kOk, take (Z.to_nat 3) [x09; x08; x07]) /\
    forall i, 0 <= i -> i <> s ->
      Get 64 (ins_page (Insert_run 64 demo_page (Some [x09; x08; x07]) 3)) i
      = Get 64 demo_page i.
Proof.
  apply (X2_insert_then_get 64 demo_page [x09; x08; x07] 3 psz64 demo_page_reachable).
  - lia.
  - simpl. lia.
  - vm_compute. reflexivity.
Defined.

(** X3: for every page size from [sizeof(PageHeader)] up to 65536, on
    every page reachable from [InitNew]: [Erase] of a live slot returns [Ok]
    and turns the slot into a tombstone ([Get] then returns [NotFound])
    without giving the space back: [free_size] and [slot_count] are
    unchanged.  [Erase] of any other slot returns [NotFound] and leaves the
    page as it is.  In both cases [Get] on every other slot is unchanged. *)
Theorem X3_erase psz m s :
  sizeof <= psz <= 65536 -> page_reachable psz m -> 0 <= s ->
  (live_slot psz m s ->
     fst (Erase psz m s) = kOk /\
     Get psz (snd (Erase psz m s)) s = (kNotFound, []) /\
     FreeSize (snd (Erase psz m s)) = FreeSize m /\
     SlotCount (snd (Erase psz m s)) = SlotCount m) /\
  (~ live_slot psz m s -> Erase psz m s = (kNotFound, m)) /\
  forall i, 0 <= i -> i <> s -> Get psz (snd (Erase psz m s)) i = Get psz m i.
Proof.
  intros Hpsz Hr Hs. pose proof (page_reachable_wf psz m Hpsz Hr) as Hwf.
  pose proof (Erase_spec psz m s Hwf Hs) as He. cbv zeta in He.
  destruct He as (Hewf & Hdead & Hlive). split; [|split; [done|]].
  - intros Hl. destruct (Hlive Hl) as (Hst & Hn & Hfs & Hrecs).
    split; [done|]. split; [|done].
    rewrite Get_records by done. rewrite Hrecs.
    destruct Hl as [Hr0 _]. by rewrite list_lookup_insert_eq by (rewrite records_length; lia).
  - intros i Hi Hne.
    destruct (decide (live_slot psz m s)) as [Hl|Hn].
    + destruct (Hlive Hl) as (_ & _ & _ & Hrecs).
      rewrite !Get_records by done. rewrite Hrecs.
      by rewrite list_lookup_insert_ne by lia.
    + by rewrite (Hdead Hn).
Qed.

Lemma X3_erase_witness :
  Get 64 (snd (Erase 64 demo_page2 0)) 0 = (kNotFound, []) /\
  Get 64 (snd (Erase 64 demo_page2 0)) 1 = Get 64 demo_page2 1.
Proof.
  destruct (X3_erase 64 demo_page2 0 psz64 demo_page2_reachable ltac:(lia))
    as (Hlive & _ & Hother).
  split.
  - apply Hlive. split; vm_compute; [split|]; congruence.
  - apply Hother; lia.
Defined.

(** X4: for every page size from [sizeof(PageHeader)] up to 65536, on
    every page reachable from [InitNew]: [Update] with a non-null record of
    [len] bytes ([len] from 1 to 65535) returns [Ok], [NotFound] or
    [OutOfRange]; it returns [NotFound] exactly for a slot that is not
    live.  After [Ok], [Get] on the slot yields the new bytes.  [Get] on
    every other slot is unchanged, and a failed call changes no record at
    all (it may have compacted the page). *)
Theorem X4_update_then_get psz m s bytes len :
  sizeof <= psz <= 65536 -> page_reachable psz m -> 0 <= s ->
  0 < len < 65536 -> len <= Z.of_nat (length bytes) ->
  let r := Update psz m s (Some bytes) len in
  (fst r = kOk \/ fst r = kNotFound \/ fst r = kOutOfRange) /\
  (fst r = kNotFound <-> ~ live_slot psz m s) /\
  (fst r = kOk -> Get psz (snd r) s = (kOk, take (Z.to_nat len) bytes)) /\
  forall i, 0 <= i -> i <> s \/ fst r <> kOk -> Get psz (snd r) i = Get psz m i.
Proof.
  intros Hpsz Hr Hs Hlen Hrec r. pose proof (page_reachable_wf psz m Hpsz Hr) as Hwf.
  pose proof (Update_spec psz m s bytes len Hwf Hs ltac:(lia) Hrec) as Hu.
  cbv zeta in Hu. fold r in Hu. destruct Hu as (Huwf & Hdead & Hlive).
  assert (Hz : (len =? 0) = false) by (apply Z.eqb_neq; lia).
  destruct (decide (live_slot psz m s)) as [Hl|Hn].
  - destruct (Hlive Hl) as [(Hst & Hcnt & Hrecs)|(Hr' & _)].
    + rewrite Hz in Hrecs. split; [by left|]. split; [split; [congruence|done]|].
      split.
      * intros _. rewrite Get_records by done. rewrite Hrecs.
        destruct Hl as [Hr0 _].
        by rewrite list_lookup_insert_eq by (rewrite records_length; lia).
      * intros i Hi [Hne|Hne]; [|done]. rewrite !Get_records by done. rewrite Hrecs.
        by rewrite list_lookup_insert_ne by lia.
    + rewrite Hr'. cbn [fst snd]. split; [by right; right|].
      split; [split; [done|done]|]. split; [done|].
      intros i Hi _. rewrite !Get_records by (done || by apply Compact_spec).
      by rewrite Compact_records.
  - rewrite (Hdead Hn). cbn [fst snd]. split; [by right; left|].
    split; [done|]. split; [done|]. done.
Qed.

Lemma X4_update_then_get_witness :
  Get 64 (snd (Update 64 demo_page2 0 (Some [x0a; x0b; x0c; x0d]) 4)) 0
    = (kOk, [x0a; x0b; x0c; x0d]) /\
  Get 64 (snd (Update 64 demo_page2 0 (Some [x0a; x0b; x0c; x0d]) 4)) 1
    = Get 64 demo_page2 1.
Proof.
  destruct (X4_update_then_get 64 demo_page2 0 [x0a; x0b; x0c; x0d] 4 psz64
              demo_page2_reachable ltac:(lia) ltac:(lia) ltac:(simpl; lia))
    as (_ & _ & Hok & Hother).
  split.
  - apply Hok. vm_compute. reflexivity.
  - apply Hother; [lia|left; lia].
Defined.

(** X5: for every page size from [sizeof(PageHeader)] up to 65536,
    [InitNew] makes an empty page out of any buffer of [page_size] bytes and
    any 32-bit page id: no slot, [free_size = page_size -
    sizeof(PageHeader)], the page id stored in the header, and [Get]
    returns [NotFound] for every slot. *)
Theorem X5_init_new_is_empty buf pid psz :
  sizeof <= psz <= 65536 -> Z.of_nat (length buf) = psz -> 0 <= pid < 2 ^ 32 ->
  SlotCount (InitNew buf pid psz) = 0 /\
  FreeSize (InitNew buf pid psz) = psz - sizeof /\
  page_id (InitNew buf pid psz) = pid /\
  Z.of_nat (length (InitNew buf pid psz)) = psz /\
  forall s, 0 <= s -> Get psz (InitNew buf pid psz) s = (kNotFound, []).
Proof.
  intros Hpsz Hlen Hpid.
  destruct (InitNew_spec buf pid psz Hpsz Hlen) as (Hwf & Hn & Hfo & Hfs & Hrecs).
  split; [done|]. split; [done|]. split; [|split; [exact (wf_length _ _ Hwf)|]].
  - unfold page_id, InitNew, load32, store32, store64, off_page_id, off_format_version,
      off_checksum, off_page_lsn. unf.
    assert (Hl0 : Z.of_nat (length (memset0 buf psz)) = psz).
    { unfold memset0. rewrite length_store. done. }
    rewrite (sub_store_other _ 28), (sub_store_other _ 24), !sub_store16_other,
      (sub_store_other _ 8)
      by (repeat first [rewrite length_store16|rewrite length_store|rewrite length_le_bytes];
          lia).
    pose proof (sub_store_same (memset0 buf psz) 0 (le_bytes 4 pid)) as Hsame.
    rewrite length_le_bytes in Hsame. change (Z.of_nat 4) with 4 in Hsame.
    rewrite Hsame by lia. rewrite le_value_le_bytes.
    change (256 ^ Z.of_nat 4) with (2 ^ 32). apply Z.mod_small. lia.
  - intros s Hs. rewrite Get_records by done. by rewrite Hrecs.
Qed.

Lemma X5_init_new_is_empty_witness :
  SlotCount (InitNew (replicate 64 xff) 7 64) = 0 /\
  FreeSize (InitNew (replicate 64 xff) 7 64) = 64 - sizeof /\
  page_id (InitNew (replicate 64 xff) 7 64) = 7 /\
  Z.of_nat (length (InitNew (replicate 64 xff) 7 64)) = 64 /\
  forall s, 0 <= s -> Get 64 (InitNew (replicate 64 xff) 7 64) s = (kNotFound, []).
Proof.
  apply (X5_init_new_is_empty (replicate 64 xff) 7 64 psz64); [reflexivity|lia].
Defined.

End PageExtras.
Section CompactExtras.
Import PageHeader SlottedPage.

Ltac unf :=
  unfold slot_count, free_off, free_size, set_slot_count, set_free_off, set_free_size,
    slot_off, slot_len, set_slot_off, set_slot_len, SlotAt, sizeof_Slot, sizeof,
    off_slot_count, off_free_off, off_free_size, u16, u32 in *.

Ltac len_rw := rewrite ?length_store16, ?length_store, ?length_memmove in *.

Lemma sum_perm {A} (f : A -> Z) (l l' : list A) :
  l ≡ₚ l' ->
  foldr (fun x acc => f x + acc) 0 l = foldr (fun x acc => f x + acc) 0 l'.
Proof.
  induction 1 as [|x l l' _ IH|x y l|l l' l'' _ IH1 _ IH2]; cbn; lia.
Qed.

Lemma sum_lives psz m (l : list Z) :
  foldr (fun e acc => l_len e + acc) 0
    (flat_map (fun i => if slot_len psz m i =? 0 then []
                        else [mkLive (slot_off psz m i) i (slot_len psz m i)]) l)
  = foldr (fun i acc => slot_len psz m i + acc) 0 l.
Proof.
  induction l as [|i l IH]; [done|]. cbn [flat_map foldr]. rewrite foldr_app, <- IH.
  destruct (slot_len psz m i =? 0) eqn:E; cbn [foldr l_len]; [|done].
  apply Z.eqb_eq in E. lia.
Qed.

(** The move loop advances [cur] by the length of every entry. *)
Lemma compact_loop_cur psz m n fo todo :
  Z.of_nat (length m) = psz -> psz <= 65536 -> 0 <= n -> fo + n * 4 <= psz ->
  forall done q cur,
  compact_state psz m n fo q cur done ->
  Forall (entry_ok psz m n fo) done ->
  Forall (entry_ok psz m n fo) todo ->
  StronglySorted live_before todo ->
  (forall e, e ∈ todo -> cur <= l_off e) ->
  NoDup (l_slot <$> (done ++ todo)) ->
  snd (fold_left (compact_step psz) todo (q, cur))
    = cur + foldr (fun e acc => l_len e + acc) 0 todo.
Proof.
  intros Hlen Hpsz Hn Hdir.
  induction todo as [|e todo IH]; intros done q cur Hst Hdone Htodo Hsorted Hcur Hnd.
  - cbn. lia.
  - apply Forall_cons in Htodo as [He Htodo].
    apply StronglySorted_inv in Hsorted as [Hsorted Hbefore].
    assert (Hfresh : forall a, a ∈ done -> l_slot a <> l_slot e).
    { intros a Ha Heq. rewrite fmap_app, fmap_cons in Hnd.
      apply NoDup_app in Hnd as (_ & Hnd & _).
      apply (Hnd (l_slot a)); [by apply list_elem_of_fmap_2|].
      rewrite Heq. left. }
    destruct (compact_step_spec psz m n fo q cur done e) as (q1 & Hstep & Hst1);
      try done.
    { apply Hcur. left. }
    cbn [fold_left foldr]. rewrite Hstep.
    rewrite (IH (done ++ [e]) q1 (cur + l_len e)); try done.
    + lia.
    + apply Forall_app. split; [done|]. by apply Forall_singleton.
    + intros e' He'. rewrite List.Forall_forall in Hbefore.
      specialize (Hbefore e' (proj1 (list_elem_of_In _ _) He')).
      pose proof (Hcur e ltac:(left)) as Hce.
      unfold live_before in Hbefore. lia.
    + by rewrite <- app_assoc.
Qed.

#[local] Instance live_le_trans' : Transitive live_le.
Proof. intros a b c. unfold live_le. lia. Qed.

#[local] Instance live_le_total' : Total live_le.
Proof. intros a b. unfold live_le. lia. Qed.

Lemma Compact_free_off psz m :
  page_wf psz m -> free_off (Compact psz m) = sizeof + live_bytes psz m.
Proof.
  intros Hwf. pose proof Hwf as [Hpsz Hlen Hhdr Hfo Hlive Hdisj].
  pose proof (load16_range m 16) as Rn. pose proof (load16_range m 18) as Rfo.
  pose proof (load16_range m 20) as Rfs.
  unfold Compact, live_bytes.
  set (n := slot_count m) in *. set (fo := free_off m) in *. set (fs := free_size m) in *.
  set (L := merge_sort live_le (lives psz m n)).
  assert (HLperm : L ≡ₚ lives psz m n) by apply merge_sort_Permutation.
  assert (HLok : Forall (entry_ok psz m n fo) L).
  { apply List.Forall_forall. intros e He. apply lives_entry_ok; [done|].
    change (e ∈ lives psz m n). rewrite <- HLperm. by apply list_elem_of_In. }
  assert (HLnd : NoDup (l_slot <$> L)).
  { rewrite HLperm. apply lives_NoDup. }
  assert (HLchain : StronglySorted live_before L).
  { apply (sorted_lives_chain psz m); try done. apply StronglySorted_merge_sort; apply _. }
  assert (Hinit : compact_state psz m n fo m (u16 sizeof) []).
  { split; try done; try (unf; lia).
    - intros e He. by apply elem_of_nil in He.
    - intros a b Ha. by apply elem_of_nil in Ha. }
  assert (Hlow : forall e, e ∈ L -> u16 sizeof <= l_off e).
  { intros e He. rewrite List.Forall_forall in HLok.
    destruct (HLok e (proj1 (list_elem_of_In _ _) He)) as (_ & _ & _ & _ & Hlo & _).
    unf. lia. }
  destruct (compact_loop_spec psz m n fo L Hlen ltac:(lia) ltac:(unf; lia)
              ltac:(unf; lia) [] m (u16 sizeof) Hinit)
    as (q & cur & Hfold & Hfin); try done.
  pose proof (compact_loop_cur psz m n fo L Hlen ltac:(lia) ltac:(unf; lia)
                ltac:(unf; lia) [] m (u16 sizeof) Hinit ltac:(done) HLok HLchain Hlow HLnd)
    as Hcur.
  rewrite Hfold in Hcur |- *. cbn [snd] in Hcur.
  rewrite (sum_perm l_len _ _ HLperm) in Hcur. unfold lives in Hcur.
  rewrite sum_lives in Hcur. simpl in Hfin.
  destruct Hfin as [Hql Hcur' Hqhdr Hqlens Hqrest Hmoved Hqdisj].
  change (u16 sizeof) with sizeof in Hcur. rewrite <- Hcur.
  unf. rewrite load16_store16_other by lia.
  rewrite load16_store16_same by (len_rw; lia). lia.
Qed.

(** X6: for every page size from [sizeof(PageHeader)] up to 65536, on
    every page reachable from [InitNew], [Compact] reclaims all the space of
    erased and replaced records: afterwards [free_off] is
    [sizeof(PageHeader)] plus the bytes of the live records and [free_size]
    is everything between them and the slot directory. *)
Theorem X6_compact_reclaims_dead_space psz m :
  sizeof <= psz <= 65536 -> page_reachable psz m ->
  free_off (Compact psz m) = sizeof + live_bytes psz m /\
  FreeSize (Compact psz m)
    = psz - sizeof - SlotCount m * sizeof_Slot - live_bytes psz m.
Proof.
  intros Hpsz Hr. pose proof (page_reachable_wf psz m Hpsz Hr) as Hwf.
  pose proof (Compact_free_off psz m Hwf) as Hfo. split; [done|].
  destruct (Compact_spec psz m Hwf) as (Hcw & Hn & _).
  pose proof (wf_header _ _ Hcw) as Hh. rewrite Hfo, Hn in Hh.
  unfold FreeSize, SlotCount. lia.
Qed.

Lemma X6_compact_reclaims_dead_space_witness :
  free_off (Compact 64 demo_page) = 34 /\ FreeSize (Compact 64 demo_page) = 22.
Proof.
  destruct (X6_compact_reclaims_dead_space 64 demo_page) as [Hfo Hfs].
  - unfold sizeof. lia.
  - exact demo_page_reachable.
  - split; [rewrite Hfo|rewrite Hfs]; vm_compute; reflexivity.
Defined.

End CompactExtras.
Section FsmExtras.
Import FreeSpaceManager.

Lemma bin_insert_elem b pid bins (b' : nat) s q :
  bin_insert b pid bins !! b' = Some s -> q ∈ s ->
  (b' = b /\ q = pid) \/ exists s0, bins !! b' = Some s0 /\ q ∈ s0.
Proof.
  intros Hs Hq. unfold bin_insert in Hs. destruct (decide (b = b')) as [->|Hne].
  - rewrite list_lookup_alter_eq in Hs. destruct (bins !! b') as [s0|]; [|done].
    injection Hs as <-. apply elem_of_union in Hq as [Hq|Hq].
    + right. eauto.
    + left. split; [done|]. by apply elem_of_singleton in Hq.
  - rewrite list_lookup_alter_ne in Hs by done. right. eauto.
Qed.

Lemma bin_erase_elem b pid bins (b' : nat) s q :
  bin_erase b pid bins !! b' = Some s -> q ∈ s ->
  ~ (b' = b /\ q = pid) /\ exists s0, bins !! b' = Some s0 /\ q ∈ s0.
Proof.
  intros Hs Hq. unfold bin_erase in Hs. destruct (decide (b = b')) as [->|Hne].
  - rewrite list_lookup_alter_eq in Hs. destruct (bins !! b') as [s0|]; [|done].
    injection Hs as <-. apply elem_of_difference in Hq as [Hq Hn].
    split; [|eauto]. intros [_ ->]. apply Hn. by apply elem_of_singleton.
  - rewrite list_lookup_alter_ne in Hs by done. split; [|eauto]. by intros [-> _].
Qed.

Lemma fsm_exact_make psz ths : fsm_exact (make psz ths).
Proof.
  intros b s pid Hs Hin. cbn [make bins_] in Hs. apply lookup_replicate in Hs as [-> _].
  by apply elem_of_empty in Hin.
Qed.

Lemma fsm_exact_update st pid free : fsm_exact st -> fsm_exact (Update st pid free).
Proof.
  intros Hex. unfold Update. destruct (pid2bin_ st !! pid) as [old|] eqn:Eold.
  - destruct (decide (old = BinIndex st free)) as [->|Hne]; [exact Hex|].
    intros b s q Hs Hq. simpl in *.
    destruct (bin_insert_elem _ _ _ _ _ _ Hs Hq) as [[-> ->]|(s0 & Hs0 & Hq0)].
    + apply lookup_insert_eq.
    + destruct (bin_erase_elem _ _ _ _ _ _ Hs0 Hq0) as (Hn & s1 & Hs1 & Hq1).
      pose proof (Hex _ _ _ Hs1 Hq1) as Hb.
      destruct (decide (q = pid)) as [->|Hqp].
      * exfalso. apply Hn. split; [congruence|done].
      * by rewrite lookup_insert_ne.
  - intros b s q Hs Hq. simpl in *.
    destruct (bin_insert_elem _ _ _ _ _ _ Hs Hq) as [[-> ->]|(s0 & Hs0 & Hq0)].
    + by apply emplace_lookup_eq_None.
    + pose proof (Hex _ _ _ Hs0 Hq0) as Hb.
      destruct (decide (q = pid)) as [->|Hqp]; [congruence|].
      by rewrite emplace_lookup_ne.
Qed.

Lemma fsm_exact_remove st pid : fsm_exact st -> fsm_exact (Remove st pid).
Proof.
  intros Hex. unfold Remove. destruct (pid2bin_ st !! pid) as [bin|] eqn:Ebin; [|done].
  intros b s q Hs Hq. simpl in *.
  destruct (bin_erase_elem _ _ _ _ _ _ Hs Hq) as (Hn & s1 & Hs1 & Hq1).
  pose proof (Hex _ _ _ Hs1 Hq1) as Hb.
  destruct (decide (q = pid)) as [->|Hqp].
  - exfalso. apply Hn. split; [congruence|done].
  - by rewrite lookup_delete_ne.
Qed.

Lemma fsm_exact_cleared st : fsm_exact (cleared st).
Proof.
  intros b s pid Hs Hin. simpl in Hs. rewrite list_lookup_fmap in Hs.
  destruct (bins_ st !! b); [|done]. injection Hs as <-. by apply elem_of_empty in Hin.
Qed.

Lemma probe_ok_rebuild_step probe seg st i :
  probe_ok probe seg st -> probe_ok probe seg (rebuild_step probe seg st i).
Proof.
  intros Hp q f Hf. simpl in Hf. destruct (decide (q = u32 i)) as [->|Hq].
  - destruct (pid2free_ st !! u32 i) as [f0|] eqn:E.
    + rewrite (emplace_lookup_eq_Some _ _ _ _ E) in Hf. apply Hp. congruence.
    + rewrite emplace_lookup_eq_None in Hf by done. congruence.
  - rewrite emplace_lookup_ne in Hf by done. by apply Hp.
Qed.

Lemma fsm_exact_rebuild_step probe seg st i :
  fsm_inv st -> probe_ok probe seg st -> fsm_exact st ->
  fsm_exact (rebuild_step probe seg st i).
Proof.
  intros (_ & Hdom & Hbin) Hp Hex b s q Hs Hq. simpl in *.
  destruct (bin_insert_elem _ _ _ _ _ _ Hs Hq) as [[-> ->]|(s0 & Hs0 & Hq0)].
  - destruct (pid2bin_ st !! u32 i) as [b0|] eqn:Eb.
    + rewrite (emplace_lookup_eq_Some _ _ _ _ Eb).
      destruct (pid2free_ st !! u32 i) as [f0|] eqn:Ef.
      * destruct (Hbin _ _ Ef) as (Hb0 & _). rewrite (Hp _ _ Ef) in Hb0. congruence.
      * apply Hdom in Ef. congruence.
    + by apply emplace_lookup_eq_None.
  - pose proof (Hex _ _ _ Hs0 Hq0) as Hb.
    destruct (decide (q = u32 i)) as [->|Hqp].
    + by rewrite (emplace_lookup_eq_Some _ _ _ _ Hb).
    + by rewrite emplace_lookup_ne.
Qed.

Lemma rebuild_fold probe seg l :
  forall st, fsm_inv st -> probe_ok probe seg st -> fsm_exact st ->
  let st' := fold_left (rebuild_step probe seg) l st in
  fsm_inv st' /\ probe_ok probe seg st' /\ fsm_exact st' /\
  (forall q, is_Some (pid2free_ st' !! q) <->
             is_Some (pid2free_ st !! q) \/ exists i, i ∈ l /\ q = u32 i).
Proof.
  induction l as [|i l IH]; intros st Hinv Hp Hex; cbn [fold_left].
  - split; [done|split; [done|split; [done|]]]. intros q. split; [by left|].
    intros [H|(i & Hi & _)]; [done|]. by apply elem_of_nil in Hi.
  - destruct (IH (rebuild_step probe seg st i)) as (H1 & H2 & H3 & H4).
    + by apply fsm_inv_rebuild_step.
    + by apply probe_ok_rebuild_step.
    + by apply fsm_exact_rebuild_step.
    + cbv zeta in H1, H2, H3, H4 |- *.
      split; [done|split; [done|split; [done|]]]. intros q. split.
      * intros Hq. apply H4 in Hq as [Hq|(j & Hj & ->)].
        -- simpl in Hq. destruct (decide (q = u32 i)) as [->|Hne].
           ++ right. exists i. split; [left|done].
           ++ rewrite emplace_lookup_ne in Hq by done. by left.
        -- right. exists j. split; [by right|done].
      * intros Hq. apply H4.
        assert (is_Some (pid2free_ (rebuild_step probe seg st i) !! u32 i)) as Hi.
        { simpl. destruct (pid2free_ st !! u32 i) as [f0|] eqn:E.
          - rewrite (emplace_lookup_eq_Some _ _ _ _ E), E. eauto.
          - rewrite emplace_lookup_eq_None by done. eauto. }
        destruct Hq as [Hq|(j & Hj & ->)].
        -- left. simpl. destruct (decide (q = u32 i)) as [->|Hne]; [exact Hi|].
           by rewrite emplace_lookup_ne.
        -- apply elem_of_cons in Hj as [->|Hj]; [by left|]. right. eauto.
Qed.

Lemma probe_ok_cleared probe seg st : probe_ok probe seg (cleared st).
Proof. intros pid f Hf. simpl in Hf. by rewrite lookup_empty in Hf. Qed.

Lemma fsm_exact_rebuild st seg :
  fsm_inv st -> fsm_exact st -> fsm_exact (snd (RebuildFromSegment st seg)).
Proof.
  intros Hinv Hex. unfold RebuildFromSegment.
  destruct (probe_free_ st) as [probe|]; [|done].
  destruct (probe_count_ st) as [count|]; [|done]. cbn [snd].
  apply (rebuild_fold probe seg (seqZ 0 (count seg)) (cleared st)).
  - by apply fsm_inv_cleared.
  - apply probe_ok_cleared.
  - apply fsm_exact_cleared.
Qed.

Lemma fsm_reachable_exact st : fsm_reachable st -> fsm_exact st.
Proof.
  induction 1 as [psz ths|st fp pc Hr IH|st pid free Hr IH|st pid Hr IH|st seg Hr IH].
  - apply fsm_exact_make.
  - exact IH.
  - by apply fsm_exact_update.
  - by apply fsm_exact_remove.
  - apply fsm_exact_rebuild; [by apply fsm_reachable_inv|done].
Qed.

(** Sizes of sets that share no member add up. *)
Lemma size_union_list_apart (l : list (gset Z)) :
  (forall (i j : nat) s t x, l !! i = Some s -> l !! j = Some t ->
     x ∈ s -> x ∈ t -> i = j) ->
  size (⋃ l) = sum_list ((fun s : gset Z => size s) <$> l).
Proof.
  induction l as [|a l IH]; intros Hd; [apply size_empty|].
  cbn [union_list foldr fmap list_fmap sum_list]. change (foldr union ∅ l) with (⋃ l).
  rewrite size_union.
  - change (sum_list_with id (list_fmap _ _ (fun s : gset Z => size s) l))
      with (sum_list ((fun s : gset Z => size s) <$> l)).
    rewrite IH; [done|].
    intros i j s t x Hs Ht Hx Hy.
    pose proof (Hd (S i) (S j) s t x Hs Ht Hx Hy). lia.
  - intros x Hx Hy. apply elem_of_union_list in Hy as (t & Ht & Hxt).
    apply list_elem_of_lookup in Ht as [j Hj].
    pose proof (Hd O (S j) a t x eq_refl Hj Hx Hxt). lia.
Qed.

Lemma tracked_in_bin st pid (b : nat) :
  fsm_inv st -> pid2bin_ st !! pid = Some b ->
  exists s, bins_ st !! b = Some s /\ pid ∈ s.
Proof.
  intros (_ & Hdom & Hbin) Hb.
  destruct (pid2free_ st !! pid) as [f|] eqn:Ef.
  - destruct (Hbin _ _ Ef) as (Hb' & s & Hs & Hin).
    assert (b = BinIndex st f) as -> by congruence. eauto.
  - apply Hdom in Ef. congruence.
Qed.

Lemma bins_cover st :
  fsm_inv st -> fsm_exact st -> ⋃ (bins_ st) = dom (pid2bin_ st).
Proof.
  intros Hinv Hex. apply set_eq. intros x. rewrite elem_of_union_list, elem_of_dom. split.
  - intros (s & Hs & Hx). apply list_elem_of_lookup in Hs as [b Hb].
    rewrite (Hex _ _ _ Hb Hx). eauto.
  - intros [b Hb]. destruct (tracked_in_bin _ _ _ Hinv Hb) as (s & Hs & Hx).
    exists s. split; [|done]. by apply list_elem_of_lookup_2 in Hs.
Qed.

Lemma bin_sizes_total st :
  fsm_inv st -> fsm_exact st -> sum_list (BinSizes st) = TotalTrackedPages st.
Proof.
  intros Hinv Hex. unfold BinSizes, TotalTrackedPages.
  rewrite <- size_union_list_apart.
  - rewrite (bins_cover st Hinv Hex). apply size_dom.
  - intros i j s t x Hs Ht Hx Hy.
    pose proof (Hex _ _ _ Hs Hx). pose proof (Hex _ _ _ Ht Hy). congruence.
Qed.

(** X7: in every state reachable through the public interface the bins
    partition the tracked pages: a page is a member of bin [b] exactly when
    it is tracked with bin [b], which is the bin of its recorded free size,
    so that no page sits in two bins and the bin sizes reported by
    [BinSizes] add up to [TotalTrackedPages]. *)
Theorem X7_bins_partition_tracked_pages st :
  fsm_reachable st ->
  (forall (b : nat) s pid, bins_ st !! b = Some s ->
     (pid ∈ s <-> pid2bin_ st !! pid = Some b)) /\
  (forall pid f, pid2free_ st !! pid = Some f ->
     pid2bin_ st !! pid = Some (BinIndex st f)) /\
  length (BinSizes st) = S (length (BinThresholds st)) /\
  sum_list (BinSizes st) = TotalTrackedPages st.
Proof.
  intros Hr. pose proof (fsm_reachable_inv st Hr) as Hinv.
  pose proof (fsm_reachable_exact st Hr) as Hex.
  split; [|split; [|split]].
  - intros b s pid Hs. split; [by apply Hex|].
    intros Hb. destruct (tracked_in_bin _ _ _ Hinv Hb) as (s' & Hs' & Hx). congruence.
  - intros pid f Hf. destruct Hinv as (_ & _ & Hbin). by destruct (Hbin _ _ Hf).
  - unfold BinSizes, BinThresholds. rewrite length_fmap. by destruct Hinv.
  - by apply bin_sizes_total.
Qed.

Lemma demo_fsm_reachable : fsm_reachable demo_fsm.
Proof. unfold demo_fsm. repeat constructor. Qed.

Lemma X7_bins_partition_tracked_pages_witness :
  sum_list (BinSizes demo_fsm) = TotalTrackedPages demo_fsm /\
  pid2bin_ demo_fsm !! 3 = Some 2%nat.
Proof.
  destruct (X7_bins_partition_tracked_pages demo_fsm demo_fsm_reachable)
    as (_ & Hbin & _ & Hsum).
  split; [exact Hsum|]. apply (Hbin 3 600). reflexivity.
Defined.

(** X8: [Remove] forgets exactly the page it is given.  Afterwards the page
    has no recorded free size, every other page keeps its record, the
    number of tracked pages drops by one when the page was tracked and
    stays the same otherwise, and [Find] does not return the page for any
    request (the miss value [kInvalidPageId] apart). *)
Theorem X8_remove_forgets_page st pid :
  fsm_reachable st ->
  let st' := Remove st pid in
  pid2free_ st' !! pid = None /\
  pid2bin_ st' !! pid = None /\
  (forall q, q <> pid -> pid2free_ st' !! q = pid2free_ st !! q) /\
  TotalTrackedPages st' =
    (match pid2free_ st !! pid with
     | Some _ => pred (TotalTrackedPages st)
     | None => TotalTrackedPages st
     end) /\
  (pid <> kInvalidPageId -> forall n, Find st' n <> pid).
Proof.
  intros Hr st'. pose proof (fsm_reachable_inv st Hr) as (Hlen & Hdom & Hbin).
  assert (Hf : pid2free_ st' !! pid = None).
  { unfold st', Remove. destruct (pid2bin_ st !! pid) as [bin|] eqn:Ebin; simpl.
    - apply lookup_delete_eq.
    - by apply Hdom. }
  split; [exact Hf|]. split; [|split; [|split]].
  - unfold st', Remove. destruct (pid2bin_ st !! pid) as [bin|] eqn:Ebin; simpl.
    + apply lookup_delete_eq.
    + done.
  - intros q Hq. unfold st', Remove.
    destruct (pid2bin_ st !! pid) as [bin|] eqn:Ebin; simpl; [|done].
    by rewrite lookup_delete_ne.
  - unfold st', Remove, TotalTrackedPages.
    destruct (pid2bin_ st !! pid) as [bin|] eqn:Ebin; simpl.
    + destruct (pid2free_ st !! pid) as [f|] eqn:Ef.
      * rewrite map_size_delete, Ebin. done.
      * apply Hdom in Ef. congruence.
    + assert (pid2free_ st !! pid = None) as -> by (by apply Hdom). done.
  - intros Hne n Heq.
    destruct (find_from_cases st' n (drop (BinIndex st' n) (bins_ st'))) as [Hm|Hfit].
    + unfold Find in Heq. congruence.
    + apply fits_spec in Hfit as (f & Hsome & _). unfold Find in Heq.
      rewrite Heq in Hsome. congruence.
Qed.

Lemma X8_remove_forgets_page_witness :
  let st := Update (Update (make 4096 [128; 512]) 3 200) 5 90 in
  TotalTrackedPages (Remove st 5) = 1%nat /\ Find (Remove st 5) 50 <> 5.
Proof.
  intros st.
  assert (fsm_reachable st) as Hr by (repeat constructor).
  destruct (X8_remove_forgets_page st 5 Hr) as (_ & _ & _ & Hn & Hfind).
  split; [rewrite Hn; reflexivity|].
  apply Hfind. unfold kInvalidPageId. lia.
Defined.

(** X9: [RebuildFromSegment] without registered probes returns Unavailable
    and changes nothing.  With probes, and a page count that fits the 32-bit
    page id, it returns Ok and afterwards tracks exactly the pages
    [0 .. pages-1], each with the free size its probe reports (as a 16-bit
    value); whatever was tracked before is forgotten. *)
Theorem X9_rebuild_tracks_probed_pages st seg :
  fsm_reachable st ->
  (probe_free_ st = None \/ probe_count_ st = None ->
     RebuildFromSegment st seg = (kUnavailable, st)) /\
  (forall probe count,
     probe_free_ st = Some probe -> probe_count_ st = Some count ->
     count seg <= 2 ^ 32 ->
     let st' := snd (RebuildFromSegment st seg) in
     fst (RebuildFromSegment st seg) = kOk /\
     (forall pid, pid2free_ st' !! pid =
        if decide (0 <= pid < count seg) then Some (u16 (probe seg pid)) else None) /\
     TotalTrackedPages st' = Z.to_nat (count seg)).
Proof.
  intros Hr. pose proof (fsm_reachable_inv st Hr) as Hinv. split.
  - intros [H|H]; unfold RebuildFromSegment; rewrite H; [done|].
    by destruct (probe_free_ st).
  - intros probe count Hp Hc Hcount st'.
    unfold st', RebuildFromSegment. rewrite Hp, Hc. cbn [fst snd].
    split; [done|].
    destruct (rebuild_fold probe seg (seqZ 0 (count seg)) (cleared st)
                (fsm_inv_cleared st Hinv) (probe_ok_cleared probe seg st)
                (fsm_exact_cleared st)) as (Hinv' & Hpr & Hex & Hd).
    cbv zeta in Hinv', Hpr, Hex, Hd.
    set (stF := fold_left (rebuild_step probe seg) (seqZ 0 (count seg)) (cleared st)) in *.
    assert (Hmap : forall pid, pid2free_ stF !! pid =
              if decide (0 <= pid < count seg) then Some (u16 (probe seg pid)) else None).
    { intros pid. destruct (decide (0 <= pid < count seg)) as [Hin|Hout].
      - assert (is_Some (pid2free_ stF !! pid)) as [f Hf].
        { apply Hd. right. exists pid. split.
          - apply elem_of_seqZ. lia.
          - unfold u32. rewrite Z.mod_small; lia. }
        rewrite Hf. f_equal. by apply Hpr.
      - destruct (pid2free_ stF !! pid) as [f|] eqn:Ef; [|done].
        exfalso. assert (is_Some (pid2free_ stF !! pid)) as Hs by eauto.
        apply Hd in Hs as [Hs|(i & Hi & ->)].
        + simpl in Hs. rewrite lookup_empty in Hs. by destruct Hs.
        + apply elem_of_seqZ in Hi. apply Hout. unfold u32. rewrite Z.mod_small; lia. }
    split; [exact Hmap|].
    unfold TotalTrackedPages. rewrite <- size_dom.
    assert (dom (pid2bin_ stF) = list_to_set (seqZ 0 (count seg))) as ->.
    { apply set_eq. intros x. rewrite elem_of_dom, elem_of_list_to_set, elem_of_seqZ.
      destruct Hinv' as (_ & Hdom & _).
      specialize (Hmap x). specialize (Hdom x).
      destruct (decide (0 <= x < count seg)) as [Hin|Hout].
      - split; [lia|]. intros _. destruct (pid2bin_ stF !! x) eqn:E; [eauto|].
        apply proj1 in Hdom. specialize (Hdom eq_refl). congruence.
      - split; [|lia]. intros [b Hb]. apply Hdom in Hmap. congruence. }
    rewrite size_list_to_set by apply NoDup_seqZ. by rewrite length_seqZ.
Qed.

Lemma X9_rebuild_tracks_probed_pages_witness :
  let st := RegisterSegmentProbe (make 4096 [128; 512])
              (fun _ pid => 100 * (pid + 1)) (fun _ => 3) in
  TotalTrackedPages (snd (RebuildFromSegment st 1)) = 3%nat.
Proof.
  intros st.
  assert (fsm_reachable st) as Hr by (repeat constructor).
  destruct (X9_rebuild_tracks_probed_pages st 1 Hr) as (_ & Hb).
  destruct (Hb (fun _ pid => 100 * (pid + 1)) (fun _ => 3) eq_refl eq_refl)
    as (_ & _ & Hn).
  - lia.
  - exact Hn.
Defined.

End FsmExtras.
Section ClockExtras.
Import ClockReplacer.

(** A sweep that gives up leaves the candidate set as it was. *)
Lemma sweep_none fuel : forall r r',
  clock_ok r -> 0 < cap_ r -> sweep fuel r = (None, r') ->
  clock_ok r' /\ cap_ r' = cap_ r /\ present_ r' = present_ r.
Proof.
  induction fuel as [|fuel IH]; intros r r' Hok Hcap Hs.
  { cbn in Hs. by injection Hs as <-. }
  pose proof Hok as (Hp & Hr & Hh).
  destruct Hh as [Hh|[Hh _]]; [|lia].
  cbn [sweep] in Hs.
  destruct (lookup_lt_is_Some_2 (present_ r) (Z.to_nat (hand_ r)) ltac:(lia)) as [bp Hbp].
  destruct (lookup_lt_is_Some_2 (ref_ r) (Z.to_nat (hand_ r)) ltac:(lia)) as [br Hbr].
  rewrite (at_lookup _ _ _ Hbp), (at_lookup _ _ _ Hbr) in Hs.
  destruct bp.
  - destruct br; cbn [negb] in Hs; [|done].
    apply IH in Hs; [|apply clock_ok_advance; [done|done|apply length_insert]|done].
    cbn in Hs. exact Hs.
  - apply IH in Hs; [|by apply clock_ok_advance|done]. cbn in Hs. exact Hs.
Qed.

Lemma clock_victim_ok r : clock_ok r -> clock_ok (snd (Victim r)).
Proof.
  intros Hok. destruct (Victim r) as [[v|] r'] eqn:E; cbn [snd].
  - by destruct (clock_victim_some r v r' Hok E) as (_ & H & _).
  - unfold Victim in E. destruct (cap_ r =? 0) eqn:Ec.
    + by injection E as <-.
    + apply Z.eqb_neq in Ec. pose proof Hok as (Hp & _).
      by destruct (sweep_none _ _ _ Hok ltac:(lia) E).
Qed.

Lemma clock_victim_none_present r r' :
  clock_ok r -> Victim r = (None, r') -> cap_ r' = cap_ r /\ present_ r' = present_ r.
Proof.
  intros Hok E. unfold Victim in E. destruct (cap_ r =? 0) eqn:Ec.
  - by injection E as <-.
  - apply Z.eqb_neq in Ec. pose proof Hok as (Hp & _).
    by destruct (sweep_none _ _ _ Hok ltac:(lia) E) as (_ & ? & ?).
Qed.

Lemma clock_reachable_ok r : clock_reachable r -> clock_ok r.
Proof.
  induction 1 as [c Hc|r f _ IH|r f _ IH|r _ IH].
  - by destruct (clock_make_ok c Hc).
  - by destruct (clock_pin_laws r f IH).
  - destruct (decide (0 <= f < cap_ r)) as [Hf|Hf].
    + by destruct (clock_unpin_laws r f IH Hf).
    + unfold Unpin. destruct ((f <? 0) || (cap_ r <=? f)) eqn:E; [done|].
      apply range_test in E. lia.
  - by apply clock_victim_ok.
Qed.

(** X10: the CLOCK policy never fails to find a victim while one exists.
    In every state reachable through the interface, [Victim] reports
    failure exactly when no frame is a candidate; a frame it returns was a
    candidate, is a candidate no longer, and every other frame keeps its
    status; a failed call changes no frame's status. *)
Theorem X10_clock_victim_iff_candidate r :
  clock_reachable r ->
  (fst (Victim r) = None <-> forall g, ~ clock_cand r g) /\
  (forall v, fst (Victim r) = Some v ->
     clock_cand r v /\
     forall g, clock_cand (snd (Victim r)) g <-> clock_cand r g /\ g <> v) /\
  (fst (Victim r) = None ->
     forall g, clock_cand (snd (Victim r)) g <-> clock_cand r g).
Proof.
  intros Hr. pose proof (clock_reachable_ok r Hr) as Hok.
  destruct (Victim r) as [[v|] r'] eqn:E; cbn [fst snd].
  - destruct (clock_victim_some r v r' Hok E) as (Hv & _ & _ & Hc).
    split; [|split].
    + split; [done|]. intros Hno. by destruct (Hno v).
    + intros w [= <-]. by split.
    + done.
  - pose proof (clock_victim_none r r' Hok E) as Hno.
    destruct (clock_victim_none_present r r' Hok E) as [Hcap Hp].
    split; [|split].
    + by split.
    + done.
    + intros _ g. unfold clock_cand. by rewrite Hcap, Hp.
Qed.

Lemma demo_clock_reachable : clock_reachable demo_clock.
Proof.
  unfold demo_clock.
  apply clock_reach_unpin, clock_reach_pin, clock_reach_unpin, clock_reach_unpin,
    clock_reach_make.
  lia.
Qed.

Lemma X10_clock_victim_iff_candidate_witness :
  clock_cand demo_clock 0 /\ ~ clock_cand (snd (Victim demo_clock)) 0.
Proof.
  destruct (X10_clock_victim_iff_candidate demo_clock demo_clock_reachable)
    as (_ & Hsome & _).
  destruct (Hsome 0 eq_refl) as [Hc Hrest].
  split; [exact Hc|]. intros H. apply Hrest in H as [_ H]. by apply H.
Defined.

Lemma count_present_range v : 0 <= count_present v <= Z.of_nat (length v).
Proof.
  induction v as [|b v IH]; cbn [count_present length]; [lia|]. destruct b; lia.
Qed.

Lemma count_present_insert (v : list bool) (i : nat) (old b : bool) :
  v !! i = Some old ->
  count_present (<[i := b]> v)
  = count_present v - (if old then 1 else 0) + (if b then 1 else 0).
Proof.
  revert i. induction v as [|x v IH]; intros i Hi; [done|].
  destruct i as [|i].
  - injection Hi as ->. cbn [count_present insert list_insert]. lia.
  - change (<[S i := b]> (x :: v)) with (x :: <[i := b]> v).
    cbn [count_present]. rewrite (IH i Hi). lia.
Qed.

Lemma count_present_zero v :
  count_present v = 0 <-> forall i : nat, v !! i <> Some true.
Proof.
  induction v as [|x v IH]; cbn [count_present].
  - split; [|done]. intros _ i. by rewrite lookup_nil.
  - pose proof (count_present_range v) as Hr. split.
    + intros H0 i. destruct x; [lia|]. destruct i as [|i]; cbn; [done|].
      apply IH. lia.
    + intros Hno. destruct x; [by destruct (Hno O)|].
      assert (count_present v = 0) as ->; [|done].
      apply IH. intros i. apply (Hno (S i)).
Qed.

Lemma Size_ok r : clock_ok r -> Size r = count_present (present_ r).
Proof.
  intros (Hp & _). unfold Size. rewrite take_ge; [done|lia].
Qed.

(** X11: [Size] counts the candidates of the CLOCK policy.  It lies between
    0 and the capacity and is 0 exactly when there is no candidate;
    unpinning a frame that is in range and not yet a candidate adds one,
    pinning a candidate or returning it as the victim takes one away, and
    every other call (an id out of range, a frame already in the requested
    state, a failed [Victim]) leaves it unchanged. *)
Theorem X11_clock_size_counts_candidates r :
  clock_reachable r ->
  0 <= Size r <= cap_ r /\
  (Size r = 0 <-> forall g, ~ clock_cand r g) /\
  (forall f, 0 <= f < cap_ r -> ~ clock_cand r f -> Size (Unpin r f) = Size r + 1) /\
  (forall f, clock_cand r f \/ ~ 0 <= f < cap_ r -> Size (Unpin r f) = Size r) /\
  (forall f, clock_cand r f -> Size (Pin r f) = Size r - 1) /\
  (forall f, ~ clock_cand r f -> Size (Pin r f) = Size r) /\
  Size (snd (Victim r)) = match fst (Victim r) with
                          | Some _ => Size r - 1
                          | None => Size r
                          end.
Proof.
  intros Hr. pose proof (clock_reachable_ok r Hr) as Hok.
  pose proof Hok as (Hp & Href & Hh).
  pose proof (Size_ok r Hok) as HS.
  assert (Hset : forall f (b : bool), 0 <= f < cap_ r ->
            exists old : bool, present_ r !! Z.to_nat f = Some old /\
              count_present (set_ (present_ r) f b)
              = count_present (present_ r) - (if old then 1 else 0) + (if b then 1 else 0)).
  { intros f b Hf.
    destruct (lookup_lt_is_Some_2 (present_ r) (Z.to_nat f) ltac:(lia)) as [old Hold].
    exists old. split; [done|]. by apply count_present_insert. }
  split; [|split; [|split; [|split; [|split; [|split]]]]].
  - rewrite HS. pose proof (count_present_range (present_ r)). lia.
  - rewrite HS, count_present_zero. split.
    + intros Hno g [_ Hg]. by apply (Hno (Z.to_nat g)).
    + intros Hno i Hi. apply (Hno (Z.of_nat i)). split.
      * apply lookup_lt_Some in Hi. lia.
      * by rewrite Nat2Z.id.
  - intros f Hf Hnc. pose proof (clock_reachable_ok _ (clock_reach_unpin r f Hr)) as Hok'.
    rewrite (Size_ok _ Hok'), HS. unfold Unpin.
    apply range_test in Hf as E. rewrite E. cbn [present_].
    destruct (Hset f true Hf) as (old & Hold & ->).
    destruct old; [|lia]. exfalso. apply Hnc. by split.
  - intros f Hc. pose proof (clock_reachable_ok _ (clock_reach_unpin r f Hr)) as Hok'.
    rewrite (Size_ok _ Hok'), HS. unfold Unpin.
    destruct ((f <? 0) || (cap_ r <=? f)) eqn:E; [done|].
    apply range_test in E. cbn [present_].
    destruct (Hset f true E) as (old & Hold & ->).
    destruct Hc as [[_ Hc]|Hc]; [|lia]. rewrite Hold in Hc. injection Hc as ->. lia.
  - intros f [Hf Hc]. pose proof (clock_reachable_ok _ (clock_reach_pin r f Hr)) as Hok'.
    rewrite (Size_ok _ Hok'), HS. unfold Pin.
    apply range_test in Hf as E. rewrite E. cbn [present_].
    destruct (Hset f false Hf) as (old & Hold & ->).
    rewrite Hold in Hc. injection Hc as ->. lia.
  - intros f Hnc. pose proof (clock_reachable_ok _ (clock_reach_pin r f Hr)) as Hok'.
    rewrite (Size_ok _ Hok'), HS. unfold Pin.
    destruct ((f <? 0) || (cap_ r <=? f)) eqn:E; [done|].
    apply range_test in E. cbn [present_].
    destruct (Hset f false E) as (old & Hold & ->).
    destruct old; [|lia]. exfalso. apply Hnc. by split.
  - pose proof (clock_victim_ok r Hok) as Hok'. rewrite (Size_ok _ Hok'), HS.
    destruct (Victim r) as [[v|] r'] eqn:E; cbn [fst snd].
    + unfold Victim in E. destruct (cap_ r =? 0) eqn:Ec; [done|].
      apply Z.eqb_neq in Ec.
      apply sweep_some in E as (Hv & Hpv & -> & _); [|done|lia].
      rewrite (count_present_insert _ _ true) by done. lia.
    + by destruct (clock_victim_none_present r r' Hok E) as [_ ->].
Qed.

Lemma X11_clock_size_counts_candidates_witness :
  Size (Unpin demo_clock 1) = 3 /\ Size (Pin demo_clock 3) = 1.
Proof.
  destruct (X11_clock_size_counts_candidates demo_clock demo_clock_reachable)
    as (_ & _ & Hu & _ & Hp & _).
  split.
  - rewrite (Hu 1); [reflexivity|cbn; lia|]. intros [_ H]. discriminate H.
  - rewrite (Hp 3); [reflexivity|]. split; [cbn; lia|reflexivity].
Defined.

End ClockExtras.
Section LruKExtras.
Import LruKReplacer.

Lemma lruk_set_entry_other st i e g :
  Z.to_nat i <> Z.to_nat g -> at_ (set_entry st i e) g = at_ st g.
Proof.
  intros Hne. unfold at_, set_entry. cbn [entries_].
  by rewrite list_lookup_total_insert_ne.
Qed.

Lemma lruk_set_entry_same st i e :
  lruk_ok st -> 0 <= i < cap_ st -> at_ (set_entry st i e) i = e.
Proof.
  intros Hok Hi. unfold at_, set_entry. cbn [entries_].
  rewrite list_lookup_total_insert_eq; [done|]. unfold lruk_ok in Hok. lia.
Qed.

Lemma lruk_set_entry_ok st i e : lruk_ok st -> lruk_ok (set_entry st i e).
Proof. unfold lruk_ok, set_entry. cbn [entries_ cap_]. by rewrite length_insert. Qed.

Lemma lruk_pin_laws st f : lruk_ok st ->
  lruk_ok (Pin st f) /\ cap_ (Pin st f) = cap_ st /\
  forall g, lruk_cand (Pin st f) g <-> lruk_cand st g /\ g <> f.
Proof.
  intros Hok. unfold Pin. destruct ((f <? 0) || (cap_ st <=? f)) eqn:E.
  - split; [done|]. split; [done|]. intros g. split; [|by intros [? _]].
    intros Hc. split; [done|]. intros ->. destruct Hc as [Hg _].
    apply range_test in Hg. congruence.
  - apply range_test in E. unfold set_present.
    split; [by apply lruk_set_entry_ok|]. split; [done|].
    intros g. unfold lruk_cand. cbn [set_entry cap_].
    destruct (decide (g = f)) as [->|Hne].
    + rewrite lruk_set_entry_same by done. cbn [present]. split; [by intros [_ ?]|].
      by intros [_ ?].
    + split.
      * intros [Hg Hp]. rewrite lruk_set_entry_other in Hp by lia. done.
      * intros [[Hg Hp] _]. rewrite lruk_set_entry_other by lia. done.
Qed.

Lemma lruk_unpin_laws st f : lruk_ok st -> 0 <= f < cap_ st ->
  lruk_ok (Unpin st f) /\ cap_ (Unpin st f) = cap_ st /\
  forall g, lruk_cand (Unpin st f) g <-> lruk_cand st g \/ g = f.
Proof.
  intros Hok Hf. unfold Unpin. apply range_test in Hf as E. rewrite E.
  unfold Touch, now, set_present.
  set (st1 := set_entry st f _).
  assert (Hok1 : lruk_ok st1) by (by apply lruk_set_entry_ok).
  set (st2 := {| entries_ := entries_ st1 |}).
  assert (Hok2 : lruk_ok st2) by done.
  assert (Hat : forall g, at_ st2 g = at_ st1 g) by done.
  split; [by apply lruk_set_entry_ok|]. split; [done|].
  intros g. unfold lruk_cand. cbn [set_entry cap_].
  destruct (decide (g = f)) as [->|Hne].
  - rewrite (lruk_set_entry_same st2) by done. cbn [present].
    rewrite Hat. unfold st1. rewrite lruk_set_entry_same by done. cbn [present].
    split; [by right|]. by intros _.
  - split.
    + intros [Hg Hp]. rewrite lruk_set_entry_other in Hp by lia.
      rewrite Hat in Hp. unfold st1 in Hp.
      rewrite lruk_set_entry_other in Hp by lia. by left.
    + intros [[Hg Hp]|?]; [|done]. split; [done|].
      rewrite lruk_set_entry_other by lia. rewrite Hat. unfold st1.
      by rewrite lruk_set_entry_other by lia.
Qed.

(** The selection loop of [Victim] after the frames [0 .. n-1]. *)
Lemma lruk_victim_loop st w0 (n : nat) :
  let '(w, found, sel) :=
    fold_left (victim_step st) (seqZ 0 (Z.of_nat n)) (w0, false, -1) in
  (found = false -> forall i, 0 <= i < Z.of_nat n -> present (at_ st i) = false) /\
  (found = true ->
     0 <= sel < Z.of_nat n /\ present (at_ st sel) = true /\ w = key (at_ st sel) /\
     (forall i, 0 <= i < Z.of_nat n -> present (at_ st i) = true -> w <= key (at_ st i)) /\
     (forall i, 0 <= i < sel -> present (at_ st i) = true -> w < key (at_ st i))).
Proof.
  induction n as [|n IH].
  - cbn. split; [intros _ i; lia|done].
  - rewrite seqZ_S, fold_left_app. cbn [fold_left].
    destruct (fold_left (victim_step st) (seqZ 0 (Z.of_nat n)) (w0, false, -1))
      as [[w found] sel].
    destruct IH as [IHn IHf]. rewrite Z.add_0_l. unfold victim_step.
    destruct (present (at_ st (Z.of_nat n))) eqn:Ep; cbn [negb].
    + destruct found; cbn [negb orb].
      * destruct (IHf eq_refl) as (Hs & Hps & Hw & Hmin & Hfirst).
        destruct (key (at_ st (Z.of_nat n)) <? w) eqn:Ek;
          [apply Z.ltb_lt in Ek|apply Z.ltb_ge in Ek].
        -- split; [done|]. intros _. split; [lia|]. split; [done|]. split; [done|].
           split.
           ++ intros i Hi Hp. destruct (decide (i = Z.of_nat n)) as [->|Hne]; [lia|].
              specialize (Hmin i ltac:(lia) Hp). lia.
           ++ intros i Hi Hp. specialize (Hmin i ltac:(lia) Hp). lia.
        -- split; [done|]. intros _. split; [lia|]. split; [done|]. split; [done|].
           split; [|done].
           intros i Hi Hp. destruct (decide (i = Z.of_nat n)) as [->|Hne]; [lia|].
           apply Hmin; [lia|done].
      * split; [done|]. intros _. split; [lia|]. split; [done|]. split; [done|].
        split.
        -- intros i Hi Hp. destruct (decide (i = Z.of_nat n)) as [->|Hne]; [lia|].
           rewrite (IHn eq_refl i) in Hp by lia. done.
        -- intros i Hi Hp. rewrite (IHn eq_refl i) in Hp by lia. done.
    + split.
      * intros -> i Hi. destruct (decide (i = Z.of_nat n)) as [->|Hne]; [done|].
        apply IHn; [done|lia].
      * intros ->. destruct (IHf eq_refl) as (Hs & Hps & Hw & Hmin & Hfirst).
        split; [lia|]. split; [done|]. split; [done|]. split; [|done].
        intros i Hi Hp. destruct (decide (i = Z.of_nat n)) as [->|Hne]; [congruence|].
        apply Hmin; [lia|done].
Qed.

Lemma lruk_victim_some st v st' : lruk_ok st -> Victim st = (Some v, st') ->
  lruk_cand st v /\ lruk_ok st' /\ cap_ st' = cap_ st /\
  (forall g, lruk_cand st' g <-> lruk_cand st g /\ g <> v) /\
  (forall g, lruk_cand st g ->
     lruk_key st v <= lruk_key st g /\ (lruk_key st g = lruk_key st v -> v <= g)) /\
  (forall g, lruk_key st' g = lruk_key st g).
Proof.
  intros Hok Hv. unfold Victim, now in Hv.
  set (st1 := {| entries_ := entries_ st |}) in Hv.
  assert (Hok1 : lruk_ok st1) by done.
  assert (Hat : forall g, at_ st1 g = at_ st g) by done.
  assert (Hcap : 0 <= cap_ st) by (unfold lruk_ok in Hok; lia).
  pose proof (lruk_victim_loop st1 (clock_ st (reads_ st)) (Z.to_nat (cap_ st))) as Hl.
  rewrite Z2Nat.id in Hl by done. change (cap_ st1) with (cap_ st) in Hv.
  destruct (fold_left _ _ _) as [[w found] sel].
  destruct found; cbn [negb] in Hv; [|done]. injection Hv as <- <-.
  destruct Hl as [_ Hl]. destruct (Hl eq_refl) as (Hs & Hps & Hw & Hmin & Hfirst).
  unfold set_present.
  split; [split; [done|by rewrite <- Hat]|].
  split; [by apply lruk_set_entry_ok|]. split; [done|].
  split; [|split].
  - intros g. unfold lruk_cand. cbn [set_entry cap_].
    destruct (decide (g = sel)) as [->|Hne].
    + rewrite (lruk_set_entry_same st1) by done. cbn [present].
      split; [by intros [_ ?]|]. by intros [_ ?].
    + split.
      * intros [Hg Hp]. rewrite lruk_set_entry_other in Hp by lia.
        rewrite Hat in Hp. done.
      * intros [[Hg Hp] _]. split; [done|].
        rewrite lruk_set_entry_other by lia. by rewrite Hat.
  - intros g [Hg Hp]. unfold lruk_key. rewrite <- !Hat, <- Hw. split.
    + apply Hmin; [done|by rewrite Hat].
    + intros Hk. destruct (decide (g < sel)) as [Hlt|]; [|lia].
      specialize (Hfirst g ltac:(lia) ltac:(by rewrite Hat)). lia.
  - intros g. unfold lruk_key. destruct (decide (g = sel)) as [->|Hne].
    + rewrite (lruk_set_entry_same st1) by done. by rewrite Hat.
    + destruct (decide (Z.to_nat sel = Z.to_nat g)) as [He|He].
      * (* a negative id reads frame 0 *)
        assert (sel = 0) as -> by lia.
        unfold at_. rewrite <- He. cbn [set_entry entries_].
        rewrite list_lookup_total_insert_eq by (unfold lruk_ok in Hok; cbn; lia).
        done.
      * rewrite lruk_set_entry_other by done. by rewrite Hat.
Qed.

Lemma lruk_victim_none st st' : lruk_ok st -> Victim st = (None, st') ->
  (forall g, ~ lruk_cand st g) /\ lruk_ok st' /\ cap_ st' = cap_ st /\
  entries_ st' = entries_ st.
Proof.
  intros Hok Hv. unfold Victim, now in Hv.
  set (st1 := {| entries_ := entries_ st |}) in Hv.
  assert (Hat : forall g, at_ st1 g = at_ st g) by done.
  assert (Hcap : 0 <= cap_ st) by (unfold lruk_ok in Hok; lia).
  pose proof (lruk_victim_loop st1 (clock_ st (reads_ st)) (Z.to_nat (cap_ st))) as Hl.
  rewrite Z2Nat.id in Hl by done. change (cap_ st1) with (cap_ st) in Hv.
  destruct (fold_left _ _ _) as [[w found] sel].
  destruct found; cbn [negb] in Hv; [done|]. injection Hv as <-.
  destruct Hl as [Hl _]. split; [|done].
  intros g [Hg Hp]. rewrite <- Hat, (Hl eq_refl g Hg) in Hp. done.
Qed.

Lemma lruk_cand_range st f : lruk_ok st -> lruk_cand st f -> 0 <= f < cap_ st.
Proof. by intros _ [Hf _]. Qed.

Lemma lruk_victim_some_laws st v st' : lruk_ok st -> Victim st = (Some v, st') ->
  lruk_cand st v /\ lruk_ok st' /\ cap_ st' = cap_ st /\
  forall g, lruk_cand st' g <-> lruk_cand st g /\ g <> v.
Proof.
  intros Hok Hv. by destruct (lruk_victim_some st v st' Hok Hv) as (? & ? & ? & ? & _).
Qed.

Lemma lruk_victim_none_laws st st' : lruk_ok st -> Victim st = (None, st') ->
  forall g, ~ lruk_cand st g.
Proof. intros Hok Hv. by destruct (lruk_victim_none st st' Hok Hv). Qed.

#[global] Instance LruKReplacer_laws : ReplacerLaws LruKReplacer.t := {
  rOk := lruk_ok;
  rCap := LruKReplacer.cap_;
  rCand := lruk_cand;
  rCand_range := lruk_cand_range;
  rPin_laws := lruk_pin_laws;
  rUnpin_laws := lruk_unpin_laws;
  rVictim_some := lruk_victim_some_laws;
  rVictim_none := lruk_victim_none_laws
}.

Lemma lruk_make_ok c k clock : 0 <= c -> lruk_ok (make c k clock).
Proof. intros Hc. unfold lruk_ok, make. cbn. rewrite length_replicate. lia. Qed.

Lemma lruk_reachable_ok st : lruk_reachable st -> lruk_ok st.
Proof.
  induction 1 as [c k clock Hc|st f _ IH|st f _ IH|st _ IH].
  - by apply lruk_make_ok.
  - by destruct (lruk_pin_laws st f IH).
  - destruct (decide (0 <= f < cap_ st)) as [Hf|Hf].
    + by destruct (lruk_unpin_laws st f IH Hf).
    + unfold Unpin. destruct ((f <? 0) || (cap_ st <=? f)) eqn:E; [done|].
      apply range_test in E. lia.
  - destruct (Victim st) as [[v|] st'] eqn:E; cbn [snd].
    + by destruct (lruk_victim_some st v st' IH E) as (_ & ? & _).
    + by destruct (lruk_victim_none st st' IH E) as (_ & ? & _).
Qed.

(** X12: the LRU-K policy evicts the candidate with the oldest key.  In
    every state reachable through the interface, [Victim] fails exactly
    when no frame is a candidate.  A frame it returns is a candidate whose
    key (the time of its second-to-last release, or of its only release) is
    the smallest among the candidates, and the lowest frame id among those
    with that key; afterwards it is a candidate no longer, every other
    frame keeps its status and no recorded time has changed.  The clock
    reading taken at the start of the call has no influence. *)
Theorem X12_lruk_victim_is_oldest_candidate st :
  lruk_reachable st ->
  (fst (Victim st) = None <-> forall g, ~ lruk_cand st g) /\
  (forall v, fst (Victim st) = Some v ->
     lruk_cand st v /\
     (forall g, lruk_cand st g ->
        lruk_key st v <= lruk_key st g /\ (lruk_key st g = lruk_key st v -> v <= g)) /\
     (forall g, lruk_cand (snd (Victim st)) g <-> lruk_cand st g /\ g <> v) /\
     (forall g, lruk_key (snd (Victim st)) g = lruk_key st g)).
Proof.
  intros Hr. pose proof (lruk_reachable_ok st Hr) as Hok.
  destruct (Victim st) as [[v|] st'] eqn:E; cbn [fst snd].
  - destruct (lruk_victim_some st v st' Hok E) as (Hv & _ & _ & Hc & Hmin & Hk).
    split.
    + split; [done|]. intros Hno. by destruct (Hno v).
    + intros w [= <-]. done.
  - destruct (lruk_victim_none st st' Hok E) as (Hno & _).
    split; [by split|done].
Qed.

Lemma demo_lruk_reachable : lruk_reachable demo_lruk.
Proof.
  unfold demo_lruk.
  apply lruk_reach_unpin, lruk_reach_unpin, lruk_reach_unpin, lruk_reach_unpin,
    lruk_reach_make.
  lia.
Qed.

Lemma X12_lruk_victim_is_oldest_candidate_witness :
  fst (Victim demo_lruk) = Some 0 /\ lruk_key demo_lruk 0 <= lruk_key demo_lruk 1.
Proof.
  split; [reflexivity|].
  destruct (X12_lruk_victim_is_oldest_candidate demo_lruk demo_lruk_reachable)
    as (_ & Hsome).
  destruct (Hsome 0 eq_refl) as (_ & Hmin & _).
  apply Hmin. split; [cbn; lia|reflexivity].
Defined.

End LruKExtras.
Section DiskExtras.
Import DiskManager.

(** Growing the file appends zero pages. *)
Lemma Resize_grow psz d N M :
  disk_ok psz d N -> 0 < psz -> N <= M ->
  exists d', Resize d (M * psz) = (kOk, d') /\ disk_ok psz d' M /\
    (forall q, 0 <= q < N -> disk_page psz d' q = disk_page psz d q) /\
    (forall q, N <= q < M -> disk_page psz d' q = replicate (Z.to_nat psz) x00).
Proof.
  intros [Hps Hwr Hrd Hlen HN] Hpsz HM. unfold Resize. rewrite Hwr.
  assert (Hle : N * psz <= M * psz) by nia.
  eexists. split; [reflexivity|]. split; [|split].
  - split; cbn; try done; [|lia].
    rewrite length_app, length_take, length_replicate. lia.
  - intros q Hq. pose proof (page_bounds psz N q Hpsz Hq).
    unfold disk_page, sub. cbn. rewrite (take_ge (file_ d)) by lia.
    rewrite drop_app_le by lia. rewrite take_app_le; [done|].
    rewrite length_drop. lia.
  - intros q Hq. assert (N * psz <= q * psz /\ q * psz + psz <= M * psz) by nia.
    unfold disk_page, sub. cbn. rewrite (take_ge (file_ d)) by lia.
    rewrite drop_app_ge by lia. rewrite drop_replicate, take_replicate.
    f_equal. lia.
Qed.

Lemma ReadPage_beyond psz d N q :
  disk_ok psz d N -> 0 < psz -> N <= q -> ReadPage d q = (kNotFound, []).
Proof.
  intros [Hps Hwr Hrd Hlen HN] Hpsz Hq. unfold ReadPage, ReadAt, SizeBytes. rewrite Hps.
  assert ((Z.of_nat (length (file_ d)) <? q * psz + psz) = true) as ->; [|done].
  apply Z.ltb_lt. nia.
Qed.

(** [WritePage] inside the file or past its end. *)
Lemma WritePage_grow psz d N pid bytes :
  disk_ok psz d N -> 0 < psz -> 0 <= pid -> Z.of_nat (length bytes) = psz ->
  exists d', WritePage d pid bytes = (kOk, d') /\
    disk_ok psz d' (Z.max N (pid + 1)) /\
    disk_page psz d' pid = bytes /\
    (forall q, 0 <= q < N -> q <> pid -> disk_page psz d' q = disk_page psz d q) /\
    (forall q, N <= q < pid -> disk_page psz d' q = replicate (Z.to_nat psz) x00).
Proof.
  intros Hd Hpsz Hpid Hlen.
  destruct (Resize_grow psz d N (Z.max N (pid + 1)) Hd Hpsz ltac:(lia))
    as (d1 & Hres & Hd1 & Hold & Hzero).
  set (M := Z.max N (pid + 1)) in *.
  assert (HM : M = Z.max N (pid + 1)) by done.
  pose proof (dk_pages _ _ _ Hd) as HN.
  destruct (WritePage_ok psz d1 M pid bytes Hd1 Hpsz ltac:(lia) Hlen)
    as (d' & Hw & Hd' & Hsame & Hother).
  assert (Hw0 : WritePage d pid bytes = (kOk, d')).
  { rewrite <- Hw. unfold WritePage, EnsureCapacityFor.
    rewrite (dk_page_size _ _ _ Hd), (dk_page_size _ _ _ Hd1).
    unfold SizeBytes. rewrite (dk_length _ _ _ Hd), (dk_length _ _ _ Hd1).
    assert (((pid + 1) * psz <=? M * psz) = true) as -> by (apply Z.leb_le; nia).
    destruct ((pid + 1) * psz <=? N * psz) eqn:E.
    - apply Z.leb_le in E. assert (M = N) as HMN by nia.
      rewrite HMN in Hres. unfold Resize in Hres.
      rewrite (dk_write _ _ _ Hd) in Hres.
      pose proof (dk_length _ _ _ Hd) as Hfl.
      assert (Hfile : take (Z.to_nat (N * psz)) (file_ d)
                ++ replicate (Z.to_nat (N * psz) - length (file_ d)) x00 = file_ d).
      { rewrite take_ge by lia.
        replace (Z.to_nat (N * psz) - length (file_ d))%nat with O by lia.
        apply app_nil_r. }
      rewrite Hfile in Hres. injection Hres as <-.
      unfold WriteAt. cbn [ok write_error file_ page_size_].
      by rewrite (dk_write _ _ _ Hd).
    - apply Z.leb_gt in E. assert (M = pid + 1) as HMp by nia.
      rewrite HMp in Hres. by rewrite Hres. }
  exists d'. split; [exact Hw0|]. split; [exact Hd'|]. split; [exact Hsame|]. split.
  - intros q Hq Hne. rewrite Hother by lia. by rewrite Hold.
  - intros q Hq. rewrite Hother by lia. by rewrite Hzero by lia.
Qed.

(** X13: a page written with [WritePage] is read back by [ReadPage], also
    when the write is past the end of the file.  On a file of [N] whole
    pages whose system calls succeed, writing page [pid] returns Ok and
    leaves a file of [max N (pid+1)] pages; [ReadPage pid] then yields the
    bytes written, every other old page reads as before, the pages between
    the old end and [pid] read as zeros, and a read at or past the end of
    the file is NotFound. *)
Theorem X13_disk_write_then_read psz d N pid bytes :
  disk_ok psz d N -> 0 < psz -> 0 <= pid -> Z.of_nat (length bytes) = psz ->
  exists d', WritePage d pid bytes = (kOk, d') /\
    disk_ok psz d' (Z.max N (pid + 1)) /\
    PageCount d' = Z.max N (pid + 1) /\
    ReadPage d' pid = (kOk, bytes) /\
    (forall q, 0 <= q < N -> q <> pid -> ReadPage d' q = ReadPage d q) /\
    (forall q, N <= q < pid -> ReadPage d' q = (kOk, replicate (Z.to_nat psz) x00)) /\
    (forall q, Z.max N (pid + 1) <= q -> ReadPage d' q = (kNotFound, [])).
Proof.
  intros Hd Hpsz Hpid Hlen.
  destruct (WritePage_grow psz d N pid bytes Hd Hpsz Hpid Hlen)
    as (d' & Hw & Hd' & Hsame & Hold & Hzero).
  pose proof (dk_pages _ _ _ Hd) as HN.
  exists d'. split; [exact Hw|]. split; [exact Hd'|].
  split; [by apply (PageCount_ok psz)|]. split; [|split; [|split]].
  - rewrite (ReadPage_ok psz d' (Z.max N (pid + 1))) by (done || lia). by rewrite Hsame.
  - intros q Hq Hne.
    rewrite (ReadPage_ok psz d' (Z.max N (pid + 1))), (ReadPage_ok psz d N) by (done || lia).
    by rewrite Hold.
  - intros q Hq. rewrite (ReadPage_ok psz d' (Z.max N (pid + 1))) by (done || lia).
    by rewrite Hzero.
  - intros q Hq. by apply (ReadPage_beyond psz d' (Z.max N (pid + 1))).
Qed.

Lemma demo_disk_ok : disk_ok 64 demo_disk 2.
Proof. by split. Qed.

Lemma X13_disk_write_then_read_witness :
  exists d', WritePage demo_disk 4 (replicate 64 x07) = (kOk, d') /\
    PageCount d' = 5 /\ ReadPage d' 4 = (kOk, replicate 64 x07) /\
    ReadPage d' 3 = (kOk, replicate 64 x00).
Proof.
  destruct (X13_disk_write_then_read 64 demo_disk 2 4 (replicate 64 x07))
    as (d' & Hw & _ & Hn & Hr & _ & Hz & _).
  - exact demo_disk_ok.
  - lia.
  - lia.
  - reflexivity.
  - exists d'. split; [exact Hw|]. split; [exact Hn|]. split; [exact Hr|].
    apply (Hz 3). lia.
Defined.

End DiskExtras.
Section PoolExtras.
Import BufferPoolManager.
Context {R : Type} `{ReplacerLaws R}.

Ltac pool_simpl :=
  cbn [frames table free_list num_frames page_size replacer stats flush_cb flush_cb_calls
       set_frame set_table set_free_list set_replacer set_stats log_flush_cb
       f_page_id pin_count dirty data] in *.

(** [FlushFrame] changes no frame but the one it is given, and of that one
    at most the dirty flag. *)
Lemma FlushFrame_frames (p : Impl R) disk v :
  0 <= v < Z.of_nat (length (frames p)) ->
  table (snd (fst (FlushFrame p disk v))) = table p /\
  length (frames (snd (fst (FlushFrame p disk v)))) = length (frames p) /\
  page_size (snd (fst (FlushFrame p disk v))) = page_size p /\
  f_page_id (frame_at (snd (fst (FlushFrame p disk v))) v) = f_page_id (frame_at p v) /\
  forall g, 0 <= g -> g <> v ->
    frame_at (snd (fst (FlushFrame p disk v))) g = frame_at p g.
Proof.
  intros Hv. unfold FlushFrame. destruct (negb _ || _); [done|].
  set (p1 := if flush_cb p then _ else p).
  assert (Hp1 : frames p1 = frames p /\ table p1 = table p /\ page_size p1 = page_size p).
  { unfold p1. by destruct (flush_cb p). }
  destruct Hp1 as (Hfr & Htb & Hps).
  assert (Hsame : forall g, frame_at p1 g = frame_at p g).
  { intros g. by apply frame_at_same. }
  destruct disk as [d|]; [|cbn [fst snd]; by rewrite Hfr, Hsame].
  destruct (DiskManager.WritePage _ _ _) as [s d1].
  destruct (ok s); cbn [fst snd]; [|by rewrite Hfr, Hsame].
  split; [done|]. split; [pool_simpl; by rewrite length_insert, Hfr|]. split; [done|].
  split.
  - rewrite frame_at_set_frame by (rewrite ?Hfr; lia). by rewrite decide_True.
  - intros g Hg Hne. rewrite frame_at_set_frame by (rewrite ?Hfr; lia).
    by rewrite decide_False.
Qed.

(** Frame acquisition leaves every pinned page where it is. *)
Lemma AcquireFrameFor_pinned (p : Impl R) disk pid :
  table_ok p -> pins_ok p ->
  exists fid ev p1 disk1,
    AcquireFrameFor p disk pid = (fid, ev, p1, disk1) /\
    length (frames p1) = length (frames p) /\ fid < num_frames p /\
    forall q g, table p !! q = Some g -> 0 < pin_count (frame_at p g) ->
      0 <= g /\ g <> fid /\ table p1 !! q = Some g /\ frame_at p1 g = frame_at p g.
Proof.
  intros Ht Hp. pose proof (tk_frames _ Ht) as Hlen.
  unfold AcquireFrameFor. destruct (free_list p) as [|fid rest] eqn:Efl.
  - destruct (rVictim (replacer p)) as [[v|] r1] eqn:Ev.
    + destruct (rVictim_some _ _ _ (pk_rok _ Hp) Ev) as (Hc & _).
      pose proof (rCand_range _ _ (pk_rok _ Hp) Hc) as Hv.
      rewrite (pk_rcap _ Hp) in Hv. pose proof (pk_cand _ Hp v Hc) as Hpc.
      set (p1 := set_replacer p r1).
      assert (Hfa1 : forall g, frame_at p1 g = frame_at p g) by done.
      rewrite Hfa1. destruct (f_page_id (frame_at p v) =? kInvalidPageId) eqn:Einv.
      * eexists _, _, _, _. split; [reflexivity|]. split; [done|]. split; [lia|].
        intros q g Hq Hpin. destruct (tk_table _ Ht _ _ Hq) as [Hg _].
        split; [lia|]. split; [|done]. intros ->. lia.
      * apply Z.eqb_neq in Einv.
        destruct (FlushFrame_frames p1 disk v ltac:(unfold p1; pool_simpl; lia))
          as (Htb2 & Hlen2 & _ & Hid2 & Hoth2).
        destruct (FlushFrame p1 disk v) as [[fl p2] disk2]. cbn [fst snd] in *.
        set (p3 := if fl then set_stats p2 (count_flush (stats p2)) else p2).
        assert (Hp3 : frames p3 = frames p2 /\ table p3 = table p2 /\
                      page_size p3 = page_size p2) by (unfold p3; by destruct fl).
        destruct Hp3 as (Hfr3 & Htb3 & Hps3).
        assert (Hfa3 : forall g, frame_at p3 g = frame_at p2 g)
          by (intros g; by apply frame_at_same).
        rewrite Hfa3, Hid2, Hfa1.
        eexists _, _, _, _. split; [reflexivity|].
        split; [pool_simpl; by rewrite Hfr3, Hlen2|]. split; [lia|].
        intros q g Hq Hpin. destruct (tk_table _ Ht _ _ Hq) as [Hg Hgq].
        assert (g <> v) by (intros ->; lia).
        split; [lia|]. split; [done|]. split.
        -- pool_simpl. rewrite Htb3, Htb2. change (table p1) with (table p).
           rewrite lookup_delete_ne; [done|]. intros Heq.
           pose proof (tk_frame _ Ht v Hv Einv) as Hm. rewrite Heq in Hm. congruence.
        -- change (frame_at p3 g = frame_at p g). rewrite Hfa3, Hoth2 by (done || lia).
           done.
    + eexists _, _, _, _. split; [reflexivity|]. split; [done|].
      pose proof (tk_frames _ Ht). split; [lia|].
      intros q g Hq Hpin. destruct (tk_table _ Ht _ _ Hq) as [Hg _].
      split; [lia|]. split; [lia|]. done.
  - destruct (pk_free _ Hp fid) as [Hfid Hunm]; [rewrite Efl; by left|].
    eexists _, _, _, _. split; [reflexivity|]. split; [done|]. split; [lia|].
    intros q g Hq Hpin. destruct (tk_table _ Ht _ _ Hq) as [Hg _].
    split; [lia|]. split; [|done]. intros ->. by apply (Hunm q).
Qed.

(** X14: [FetchPage] never takes the frame of a pinned page.  In a pool
    whose page table and frames agree, whose free frames are not in the page
    table and whose replacer candidates have pin count 0, [FetchPage] of a
    page that is not resident, whatever the disk answers, leaves every page
    with a positive pin count in the page table and leaves its frame as it
    is.  When no frame is free and the replacer has no candidate, which is
    the case when every frame holds a pinned page, [FetchPage] of a page
    that is not resident and [NewPage] return Unavailable; the frames, the
    page table, the counters and the file are left as they were (only the
    replacer has been asked for a victim). *)
Theorem X14_fetch_keeps_pinned_pages (p : Impl R) pid :
  rOk (replacer p) -> table p !! pid = None ->
  (free_list p = [] -> (forall g, ~ rCand (replacer p) g) ->
   forall disk,
     FetchPage p disk pid
       = (kUnavailable, [], set_replacer p (snd (rVictim (replacer p))), disk) /\
     NewPage p disk
       = (kUnavailable, 0, [], set_replacer p (snd (rVictim (replacer p))), disk)) /\
  (table_ok p -> pins_ok p ->
   ((forall g, 0 <= g < num_frames p ->
       f_page_id (frame_at p g) <> kInvalidPageId /\ 0 < pin_count (frame_at p g)) ->
    free_list p = [] /\ forall g, ~ rCand (replacer p) g) /\
   forall d q g, table p !! q = Some g -> 0 < pin_count (frame_at p g) ->
     table (snd (fst (FetchPage p (Some d) pid))) !! q = Some g /\
     frame_at (snd (fst (FetchPage p (Some d) pid))) g = frame_at p g).
Proof.
  intros Hok Hpid. split.
  - intros Hfree Hnone disk.
    assert (Hacq : forall q, AcquireFrameFor p disk q
              = (-1, kInvalidPageId, set_replacer p (snd (rVictim (replacer p))), disk)).
    { intros q. unfold AcquireFrameFor. rewrite Hfree.
      destruct (rVictim (replacer p)) as [[v|] r1] eqn:Ev; [|done].
      destruct (rVictim_some _ _ _ Hok Ev) as (Hc & _). by destruct (Hnone v). }
    split.
    + unfold FetchPage, LookupFrame. rewrite Hpid. cbn [Z.leb Z.compare]. by rewrite Hacq.
    + unfold NewPage. by rewrite Hacq.
  - intros Ht Hp. split.
    + intros Hall. split.
      * destruct (free_list p) as [|f rest] eqn:Efl; [done|]. exfalso.
        destruct (pk_free _ Hp f) as [Hf Hunm]; [rewrite Efl; by left|].
        destruct (Hall f Hf) as [Hid _]. by apply (Hunm _ (tk_frame _ Ht f Hf Hid)).
      * intros g Hc. pose proof (rCand_range _ _ Hok Hc) as Hg.
        rewrite (pk_rcap _ Hp) in Hg. destruct (Hall g Hg) as [_ Hpin].
        rewrite (pk_cand _ Hp g Hc) in Hpin. lia.
    + intros d q g Hq Hpin.
      destruct (AcquireFrameFor_pinned p (Some d) pid Ht Hp)
        as (fid & ev & p1 & disk1 & Hacq & Hlen1 & Hfid & Hkeep).
      destruct (Hkeep q g Hq Hpin) as (Hg & Hne & Hq1 & Hg1).
      pose proof (tk_frames _ Ht) as Hlen.
      unfold FetchPage, LookupFrame. rewrite Hpid. cbn [Z.leb Z.compare]. rewrite Hacq.
      destruct (fid <? 0) eqn:Eneg; [done|]. apply Z.ltb_ge in Eneg.
      destruct disk1 as [d1|]; [|done].
      destruct (DiskManager.ReadPage d1 pid) as [s bytes].
      destruct (ok s); cbn [negb fst snd].
      * split.
        -- pool_simpl. rewrite lookup_insert_ne; [done|]. intros ->. congruence.
        -- transitivity (frame_at (set_frame p1 fid (mkFrame pid 1 false bytes)) g);
             [by apply frame_at_same|].
           rewrite frame_at_set_frame by lia. by rewrite decide_False.
      * split; [done|].
        transitivity (frame_at (set_frame p1 fid
                        (mkFrame kInvalidPageId 0 false (data (frame_at p1 fid)))) g);
          [by apply frame_at_same|].
        rewrite frame_at_set_frame by lia. by rewrite decide_False.
Qed.

(** The frame being rebound goes back to the free list. *)
Lemma hole_to_free psz (p1 : Impl R) d1 N n fid f0 :
  pool_hole p1 N n fid -> content_ok psz p1 d1 n None ->
  pool_ok (set_free_list (set_frame p1 fid f0) (fid :: free_list p1)) N n None /\
  content_ok psz (set_free_list (set_frame p1 fid f0) (fid :: free_list p1)) d1 n None /\
  (forall q, pool_page psz (set_free_list (set_frame p1 fid f0) (fid :: free_list p1)) d1 q
             = pool_page psz p1 d1 q).
Proof.
  intros (Hb & Hfid & Hnfree & Hunm & Hcov) Hc.
  set (p' := set_free_list (set_frame p1 fid f0) (fid :: free_list p1)).
  pose proof (pb_frames _ _ _ _ Hb) as Hlen.
  assert (Hfa : forall g, 0 <= g -> frame_at p' g =
            if decide (g = fid) then f0 else frame_at p1 g).
  { intros g Hg. rewrite <- (frame_at_set_frame p1 fid f0 g) by lia.
    by apply frame_at_same. }
  assert (Hmapped : forall q g, table p1 !! q = Some g ->
            0 <= g /\ frame_at p' g = frame_at p1 g).
  { intros q g Hq. destruct (pb_table _ _ _ _ Hb _ _ Hq) as (Hg & _).
    split; [lia|]. rewrite Hfa by lia. rewrite decide_False; [done|].
    intros ->. by apply (Hunm q). }
  assert (Hpp : forall q, pool_page psz p' d1 q = pool_page psz p1 d1 q).
  { intros q. unfold pool_page. change (table p') with (table p1).
    destruct (table p1 !! q) as [g|] eqn:Eq; [|done].
    by destruct (Hmapped _ _ Eq) as [_ ->]. }
  split; [|split; [|exact Hpp]].
  - split; [split|].
    + unfold p'. pool_simpl. by rewrite length_insert.
    + exact (pb_nonempty _ _ _ _ Hb).
    + intros q g Hq. change (table p') with (table p1) in Hq.
      destruct (pb_table _ _ _ _ Hb _ _ Hq) as (Hg & Hgp & HqN & Hqn & Hgf & Hgpc).
      destruct (Hmapped _ _ Hq) as [_ ->].
      change (num_frames p') with (num_frames p1).
      change (free_list p') with (fid :: free_list p1).
      split; [done|]. split; [done|]. split; [done|]. split; [done|]. split; [|done].
      apply not_elem_of_cons. split; [|done]. intros ->. by apply (Hunm q).
    + intros g Hg. change (free_list p') with (fid :: free_list p1) in Hg.
      change (num_frames p') with (num_frames p1).
      apply elem_of_cons in Hg as [->|Hg]; [done|]. by apply (pb_free _ _ _ _ Hb).
    + change (free_list p') with (fid :: free_list p1). apply NoDup_cons.
      split; [done|]. exact (pb_nodup _ _ _ _ Hb).
    + exact (pb_rok _ _ _ _ Hb).
    + exact (pb_rcap _ _ _ _ Hb).
    + exact (pb_cand _ _ _ _ Hb).
    + done.
    + intros g Hg. change (num_frames p') with (num_frames p1) in Hg.
      change (free_list p') with (fid :: free_list p1). change (table p') with (table p1).
      destruct (Hcov g Hg) as [->|[Hin|Hm]]; [left; by left|left; by right|by right].
  - intros q Hq Hne. rewrite Hpp. destruct (Hc q Hq Hne) as [Hw Ha]. split; [done|].
    intros g Hg Hd. change (table p') with (table p1) in Hg.
    destruct (Hmapped _ _ Hg) as [_ Hsame]. rewrite Hsame in Hd. by apply (Ha g).
Qed.

(** [FetchPage] of a page past the end of the file. *)
Lemma FetchPage_beyond_spec psz (p : Impl R) d N n pid :
  pool_ok p N n None -> disk_ok psz d N -> content_ok psz p d n None ->
  0 < psz -> n <= N -> N < kInvalidPageId -> N <= pid ->
  exists p' d', FetchPage p (Some d) pid = (kNotFound, [], p', Some d') /\
    pool_ok p' N n None /\ disk_ok psz d' N /\ content_ok psz p' d' n None /\
    table p' !! pid = None /\
    (forall q, 0 <= q < n ->
       records psz (pool_page psz p' d' q) = records psz (pool_page psz p d q)).
Proof.
  intros Hok Hd Hc Hpsz HnN HN Hpid. pose proof Hok as [Hb _].
  assert (Hnone : table p !! pid = None).
  { destruct (table p !! pid) as [g|] eqn:E; [|done].
    destruct (pb_table _ _ _ _ Hb _ _ E) as (_ & _ & ? & _). lia. }
  destruct (AcquireFrameFor_spec psz p d N n pid Hok Hd Hc Hpsz HnN HN)
    as (fid & ev & p1 & d1 & Hacq & Hfid & Hhole & Hd1 & Hc1 & Hrec & Hkeep).
  destruct (Hkeep pid Hnone) as [Hpid1 _].
  destruct (hole_to_free psz p1 d1 N n fid
              (mkFrame kInvalidPageId 0 false (data (frame_at p1 fid))) Hhole Hc1)
    as (Hok' & Hc' & Hpp).
  eexists _, d1. split; [|split; [exact Hok'|split; [exact Hd1|split; [exact Hc'|split]]]].
  - unfold FetchPage, LookupFrame. rewrite Hnone. cbn [Z.leb Z.compare]. rewrite Hacq.
    assert ((fid <? 0) = false) as -> by (apply Z.ltb_ge; lia).
    rewrite (ReadPage_beyond psz d1 N pid Hd1 Hpsz Hpid). done.
  - done.
  - intros q Hq. rewrite Hpp. by apply Hrec.
Qed.

(** X15: fetching a page that lies at or past the end of the file fails
    with NotFound and leaks nothing.  The frame taken for the page goes back
    to the free list, no page is left pinned, the pool and the file stay
    consistent and every initialised page keeps its records (a page that
    was evicted to make room has been written back). *)
Theorem X15_fetch_beyond_end_of_file psz (p : Impl R) d N n pid :
  pool_ok p N n None -> disk_ok psz d N -> content_ok psz p d n None ->
  0 < psz -> n <= N -> N < kInvalidPageId -> N <= pid ->
  exists p' d', FetchPage p (Some d) pid = (kNotFound, [], p', Some d') /\
    pool_ok p' N n None /\ disk_ok psz d' N /\ content_ok psz p' d' n None /\
    table p' !! pid = None /\
    (forall q, 0 <= q < n ->
       records psz (pool_page psz p' d' q) = records psz (pool_page psz p d q)).
Proof.
  intros Hok Hd Hc Hpsz HnN HN Hpid.
  exact (FetchPage_beyond_spec psz p d N n pid Hok Hd Hc Hpsz HnN HN Hpid).
Qed.

(** The pool stays consistent when the frames keep their page and pins. *)
Lemma pool_ok_same_meta (p p' : Impl R) N n pin :
  pool_ok p N n pin ->
  length (frames p') = length (frames p) -> num_frames p' = num_frames p ->
  table p' = table p -> free_list p' = free_list p -> replacer p' = replacer p ->
  (forall g, 0 <= g < num_frames p ->
     f_page_id (frame_at p' g) = f_page_id (frame_at p g) /\
     pin_count (frame_at p' g) = pin_count (frame_at p g)) ->
  pool_ok p' N n pin.
Proof.
  intros [Hb Hcov] Hlen Hnf Htab Hfl Hrep Hmeta. split; [split|].
  - rewrite Hlen, Hnf. exact (pb_frames _ _ _ _ Hb).
  - rewrite Hnf. exact (pb_nonempty _ _ _ _ Hb).
  - intros q g Hq. rewrite Htab in Hq. rewrite Hnf, Hfl.
    destruct (pb_table _ _ _ _ Hb _ _ Hq) as (Hg & Hgp & HqN & Hqn & Hgf & Hgpc).
    destruct (Hmeta g Hg) as [-> ->]. done.
  - intros g. rewrite Hfl, Hnf. apply (pb_free _ _ _ _ Hb).
  - rewrite Hfl. exact (pb_nodup _ _ _ _ Hb).
  - rewrite Hrep. exact (pb_rok _ _ _ _ Hb).
  - rewrite Hrep, Hnf. exact (pb_rcap _ _ _ _ Hb).
  - intros g. rewrite Hrep, Htab. apply (pb_cand _ _ _ _ Hb).
  - intros q Hq. rewrite Htab. by apply (pb_pin _ _ _ _ Hb).
  - intros g. rewrite Hnf, Hfl, Htab. apply Hcov.
Qed.

(** [FlushFrame] on a frame that holds a page of the file. *)
Lemma FlushFrame_held psz (p : Impl R) d N fid :
  disk_ok psz d N -> 0 < psz -> N < kInvalidPageId ->
  0 <= fid < Z.of_nat (length (frames p)) ->
  0 <= f_page_id (frame_at p fid) < N ->
  Z.of_nat (length (data (frame_at p fid))) = psz ->
  exists p' d',
    FlushFrame p (Some d) fid = (dirty (frame_at p fid), p', Some d') /\
    disk_ok psz d' N /\
    table p' = table p /\ free_list p' = free_list p /\ replacer p' = replacer p /\
    stats p' = stats p /\ num_frames p' = num_frames p /\
    length (frames p') = length (frames p) /\ page_size p' = page_size p /\
    frame_at p' fid = mkFrame (f_page_id (frame_at p fid)) (pin_count (frame_at p fid))
                        false (data (frame_at p fid)) /\
    (forall g, 0 <= g -> g <> fid -> frame_at p' g = frame_at p g) /\
    (dirty (frame_at p fid) = true ->
       disk_page psz d' (f_page_id (frame_at p fid)) = data (frame_at p fid) /\
       forall q, 0 <= q < N -> q <> f_page_id (frame_at p fid) ->
         disk_page psz d' q = disk_page psz d q) /\
    (dirty (frame_at p fid) = false -> p' = p /\ d' = d).
Proof.
  intros Hd Hpsz HN Hfid Hpid Hlen.
  assert (Hpi : (f_page_id (frame_at p fid) =? kInvalidPageId) = false)
    by (apply Z.eqb_neq; lia).
  unfold FlushFrame. rewrite Hpi, orb_false_r.
  destruct (dirty (frame_at p fid)) eqn:Edirty; cbn [negb].
  - destruct (WritePage_ok psz d N _ (data (frame_at p fid)) Hd Hpsz Hpid Hlen)
      as (d' & Hw & Hd' & Hsame & Hoth).
    set (p1 := if flush_cb p then _ else p).
    assert (Hp1 : frames p1 = frames p /\ table p1 = table p /\
                  free_list p1 = free_list p /\ num_frames p1 = num_frames p /\
                  page_size p1 = page_size p /\ replacer p1 = replacer p /\
                  stats p1 = stats p).
    { unfold p1. by destruct (flush_cb p). }
    destruct Hp1 as (Hfr & Htb & Hfl1 & Hnf1 & Hps1 & Hr1 & Hst1).
    rewrite Hw. change (ok kOk) with true. cbv iota.
    set (fclean := mkFrame _ _ false _).
    assert (Hfa : forall g, 0 <= g -> frame_at (set_frame p1 fid fclean) g =
                    if decide (g = fid) then fclean else frame_at p g).
    { intros g Hg. rewrite frame_at_set_frame by (rewrite ?Hfr; lia).
      destruct (decide (g = fid)); [done|]. by apply frame_at_same. }
    eexists _, d'. split; [reflexivity|]. split; [done|].
    split; [done|]. split; [done|]. split; [done|]. split; [done|]. split; [done|].
    split; [pool_simpl; by rewrite length_insert, Hfr|]. split; [done|].
    split; [rewrite Hfa by lia; by rewrite decide_True|].
    split; [intros g Hg Hne; rewrite Hfa by done; by rewrite decide_False|].
    split; [done|done].
  - exists p, d. split; [done|]. split; [done|].
    split; [done|]. split; [done|]. split; [done|]. split; [done|]. split; [done|].
    split; [done|]. split; [done|].
    split; [destruct (frame_at p fid); by simplify_eq/=|].
    split; [done|]. split; [done|done].
Qed.

(** The content invariant after frames have been written back. *)
Lemma content_ok_flushed psz (p p' : Impl R) d d' n pin :
  content_ok psz p d n pin -> table p' = table p ->
  (forall q g, table p !! q = Some g -> data (frame_at p' g) = data (frame_at p g)) ->
  (forall q g, table p !! q = Some g -> dirty (frame_at p' g) = false ->
     (dirty (frame_at p g) = false /\ disk_page psz d' q = disk_page psz d q) \/
     disk_page psz d' q = data (frame_at p g)) ->
  (forall q, 0 <= q < n -> table p !! q = None ->
     disk_page psz d' q = disk_page psz d q) ->
  content_ok psz p' d' n pin /\
  forall q, 0 <= q < n -> pool_page psz p' d' q = pool_page psz p d q.
Proof.
  intros Hc Htb Hdata Hwr Hun.
  assert (Hpp : forall q, 0 <= q < n -> pool_page psz p' d' q = pool_page psz p d q).
  { intros q Hq. unfold pool_page. rewrite Htb.
    destruct (table p !! q) as [g|] eqn:Eq; [by apply (Hdata q)|by apply Hun]. }
  split; [|done]. intros q Hq Hne. rewrite Hpp by done.
  destruct (Hc q Hq Hne) as [Hw Ha]. split; [done|].
  intros g Hg Hcl. rewrite Htb in Hg.
  destruct (Hwr q g Hg Hcl) as [[Hcl0 ->]| ->]; [by apply (Ha g)|].
  unfold pool_page in Hw |- *. by rewrite Hg in Hw |- *.
Qed.

(** X16: [FlushPage] of a resident page writes it back, whatever is
    pinned.  When the page table maps the page to a frame that holds it and
    holds [page_size] bytes, the page lies inside the file and the system
    calls of the file succeed, [FlushPage] returns Ok; afterwards the frame
    is clean and keeps its page id, pin count and bytes, and every other
    frame, the page table, the free list and the replacer are as before.
    When the frame was dirty the file holds exactly the bytes of the frame
    at this page, no other page of the file is touched and the flush counter
    has grown by one; when it was clean nothing changes.  The pool
    invariant of the table heap, with or without a pinned page, is kept. *)
Theorem X16_flush_page_writes_back psz (p : Impl R) d N pid fid :
  disk_ok psz d N -> 0 < psz -> N < kInvalidPageId ->
  table p !! pid = Some fid -> 0 <= fid < Z.of_nat (length (frames p)) ->
  f_page_id (frame_at p fid) = pid -> 0 <= pid < N ->
  Z.of_nat (length (data (frame_at p fid))) = psz ->
  exists p' d', FlushPage p (Some d) pid = (kOk, p', Some d') /\
    disk_ok psz d' N /\
    table p' = table p /\ free_list p' = free_list p /\ replacer p' = replacer p /\
    frame_at p' fid
      = mkFrame pid (pin_count (frame_at p fid)) false (data (frame_at p fid)) /\
    (forall g, 0 <= g -> g <> fid -> frame_at p' g = frame_at p g) /\
    (dirty (frame_at p fid) = true ->
       disk_page psz d' pid = data (frame_at p fid) /\
       flushes (stats p') = flushes (stats p) + 1 /\
       forall q, 0 <= q < N -> q <> pid -> disk_page psz d' q = disk_page psz d q) /\
    (dirty (frame_at p fid) = false -> p' = p /\ d' = d) /\
    (forall n pin, n <= N -> pool_ok p N n pin -> content_ok psz p d n pin ->
       pool_ok p' N n pin /\ content_ok psz p' d' n pin).
Proof.
  intros Hd Hpsz HN Hpid Hfid Hfp HpN Hlen.
  destruct (FlushFrame_held psz p d N fid Hd Hpsz HN Hfid ltac:(by rewrite Hfp) Hlen)
    as (p1 & d' & Hff & Hd' & Htb & Hfl & Hrep & Hst & Hnf & Hlen1 & Hps & Hfa & Hoth
        & Hdirty & Hclean).
  rewrite Hfp in Hfa, Hdirty.
  unfold FlushPage, LookupFrame. rewrite Hpid.
  assert ((fid <? 0) = false) as -> by (apply Z.ltb_ge; lia).
  rewrite Hff.
  set (p' := if dirty (frame_at p fid) then set_stats p1 (count_flush (stats p1)) else p1).
  assert (Hp' : frames p' = frames p1 /\ table p' = table p1 /\
                free_list p' = free_list p1 /\ num_frames p' = num_frames p1 /\
                page_size p' = page_size p1 /\ replacer p' = replacer p1).
  { unfold p'. by destruct (dirty (frame_at p fid)). }
  destruct Hp' as (Hfr' & Htb' & Hfl' & Hnf' & Hps' & Hrep').
  assert (Hfa' : forall g, frame_at p' g = frame_at p1 g)
    by (intros g; by apply frame_at_same).
  exists p', d'. split; [done|]. split; [done|].
  split; [by rewrite Htb'|]. split; [by rewrite Hfl'|]. split; [by rewrite Hrep'|].
  split; [by rewrite Hfa'|]. split; [intros g Hg Hne; rewrite Hfa'; by apply Hoth|].
  split; [|split].
  - intros Edirty. destruct (Hdirty Edirty) as [Hsame Hrest]. split; [done|].
    split; [|done]. unfold p'. rewrite Edirty. pool_simpl. by rewrite Hst.
  - intros Edirty. destruct (Hclean Edirty) as [-> ->]. unfold p'. by rewrite Edirty.
  - intros n pin HnN Hok Hc. split.
    + apply (pool_ok_same_meta p p' N n pin Hok); try congruence.
      intros g Hg. rewrite Hfa'. destruct (decide (g = fid)) as [->|Hne].
      * rewrite Hfa. cbn [f_page_id pin_count]. by rewrite Hfp.
      * by rewrite Hoth by (done || lia).
    + apply (content_ok_flushed psz p p' d d' n pin Hc); [congruence| | |].
      * intros q g Hq. rewrite Hfa'. destruct (decide (g = fid)) as [->|Hne].
        -- by rewrite Hfa.
        -- destruct Hok as [Hb _]. destruct (pb_table _ _ _ _ Hb _ _ Hq) as (Hg & _).
           by rewrite Hoth by (done || lia).
      * intros q g Hq Hcl. destruct Hok as [Hb _].
        destruct (pb_table _ _ _ _ Hb _ _ Hq) as (Hg & Hgq & HqN & _).
        destruct (dirty (frame_at p fid)) eqn:Edirty.
        -- destruct (Hdirty eq_refl) as [Hsame Hrest].
           destruct (decide (g = fid)) as [->|Hne].
           ++ right. assert (q = pid) as -> by congruence. done.
           ++ left. rewrite Hfa', Hoth in Hcl by (done || lia). split; [done|].
              apply Hrest; [done|]. intros ->. apply Hne. congruence.
        -- destruct (Hclean eq_refl) as [Hp1 ->]. left. split; [|done].
           rewrite Hfa', Hp1 in Hcl. done.
      * intros q Hq Hnone. destruct (dirty (frame_at p fid)) eqn:Edirty.
        -- destruct (Hdirty eq_refl) as [_ Hrest]. apply Hrest; [lia|]. congruence.
        -- by destruct (Hclean eq_refl) as [_ ->].
Qed.

(** X17: a failed write goes unreported by [FlushPage].  When the frame of
    a resident page is dirty and the file rejects the write, the call still
    returns Ok; the frame stays dirty with its bytes, the flush counter and
    the file are unchanged (a registered callback has been called). *)
Theorem X17_flush_page_hides_write_error (p : Impl R) d pid fid :
  table p !! pid = Some fid -> 0 <= fid ->
  f_page_id (frame_at p fid) = pid -> pid <> kInvalidPageId ->
  dirty (frame_at p fid) = true -> DiskManager.write_error d = true ->
  exists p', FlushPage p (Some d) pid = (kOk, p', Some d) /\
    frames p' = frames p /\ table p' = table p /\ stats p' = stats p /\
    dirty (frame_at p' fid) = true.
Proof.
  intros Hpid Hfid Hfp Hne Hdirty Hwe.
  assert (Hw : DiskManager.WritePage d pid (data (frame_at p fid)) = (kIOError, d)).
  { unfold DiskManager.WritePage, DiskManager.EnsureCapacityFor, DiskManager.Resize,
      DiskManager.WriteAt.
    destruct (_ <=? _); rewrite Hwe; done. }
  unfold FlushPage, LookupFrame. rewrite Hpid.
  assert ((fid <? 0) = false) as -> by (apply Z.ltb_ge; lia).
  unfold FlushFrame. rewrite Hfp, Hdirty.
  assert ((pid =? kInvalidPageId) = false) as -> by (by apply Z.eqb_neq).
  cbn [negb orb]. rewrite Hw. change (ok kIOError) with false. cbv iota.
  eexists. split; [reflexivity|].
  destruct (flush_cb p); (split; [done|]); (split; [done|]); (split; [done|]);
    exact Hdirty.
Qed.

(** One iteration of [FlushAll]: the frame [fid] is written back if it
    holds a page and is dirty. *)
Lemma FlushFrame_any psz (p : Impl R) d N fid :
  table_ok p -> frames_in_file psz p N -> disk_ok psz d N ->
  0 < psz -> N < kInvalidPageId -> 0 <= fid < num_frames p ->
  exists fl p1 d1,
    FlushFrame p (Some d) fid = (fl, p1, Some d1) /\ disk_ok psz d1 N /\
    table p1 = table p /\ free_list p1 = free_list p /\ replacer p1 = replacer p /\
    stats p1 = stats p /\ num_frames p1 = num_frames p /\
    length (frames p1) = length (frames p) /\
    (forall g, 0 <= g ->
       f_page_id (frame_at p1 g) = f_page_id (frame_at p g) /\
       pin_count (frame_at p1 g) = pin_count (frame_at p g) /\
       data (frame_at p1 g) = data (frame_at p g) /\
       (g <> fid -> dirty (frame_at p1 g) = dirty (frame_at p g)) /\
       (g = fid -> f_page_id (frame_at p g) <> kInvalidPageId ->
        dirty (frame_at p1 g) = false)) /\
    (forall q, 0 <= q < N ->
       disk_page psz d1 q =
         if decide (table p !! q = Some fid)
         then (if dirty (frame_at p fid) then data (frame_at p fid)
               else disk_page psz d q)
         else disk_page psz d q).
Proof.
  intros Ht Hin Hd Hpsz HN Hfid. pose proof (tk_frames _ Ht) as Hlen.
  destruct (decide (f_page_id (frame_at p fid) = kInvalidPageId)) as [Hinv|Hval].
  - exists false, p, d. split.
    { unfold FlushFrame. by rewrite Hinv, Z.eqb_refl, orb_true_r. }
    split; [done|]. split; [done|]. split; [done|]. split; [done|]. split; [done|].
    split; [done|]. split; [done|]. split.
    + intros g Hg. split; [done|]. split; [done|]. split; [done|]. split; [done|].
      by intros ->.
    + intros q Hq. case_decide as Hm; [|done].
      destruct (tk_table _ Ht _ _ Hm) as [_ Heq]. lia.
  - pose proof (tk_frame _ Ht fid Hfid Hval) as Hmap.
    destruct (Hin _ _ Hmap) as [Hrange Hdl].
    destruct (FlushFrame_held psz p d N fid Hd Hpsz HN ltac:(lia) Hrange Hdl)
      as (p1 & d1 & Hff & Hd1 & Htb & Hfl & Hrep & Hst & Hnf & Hlen1 & Hps & Hfa & Hoth
          & Hdirty & Hclean).
    exists (dirty (frame_at p fid)), p1, d1. split; [done|]. split; [done|].
    split; [done|]. split; [done|]. split; [done|]. split; [done|]. split; [done|].
    split; [done|]. split.
    + intros g Hg. destruct (decide (g = fid)) as [->|Hne].
      * rewrite Hfa. cbn [f_page_id pin_count data dirty]. done.
      * rewrite Hoth by done. split; [done|]. split; [done|]. split; [done|].
        split; [done|]. by intros ->.
    + intros q Hq. destruct (dirty (frame_at p fid)) eqn:Edirty.
      * destruct (Hdirty eq_refl) as [Hsame Hrest]. case_decide as Hm.
        -- destruct (tk_table _ Ht _ _ Hm) as [_ <-]. done.
        -- apply Hrest; [done|]. intros ->. done.
      * destruct (Hclean eq_refl) as [_ ->]. by case_decide.
Qed.

(** The page table and the frames still agree when the frames keep their
    page ids and bytes. *)
Lemma table_ok_same psz (p p1 : Impl R) N :
  table_ok p -> frames_in_file psz p N ->
  length (frames p1) = length (frames p) -> num_frames p1 = num_frames p ->
  table p1 = table p ->
  (forall g, 0 <= g ->
     f_page_id (frame_at p1 g) = f_page_id (frame_at p g) /\
     data (frame_at p1 g) = data (frame_at p g)) ->
  table_ok p1 /\ frames_in_file psz p1 N.
Proof.
  intros Ht Hin Hlen Hnf Htb Hsame. split; [split|].
  - rewrite Hlen, Hnf. exact (tk_frames _ Ht).
  - intros q g Hq. rewrite Htb in Hq. rewrite Hnf.
    destruct (tk_table _ Ht _ _ Hq) as [Hg Hgq]. split; [done|].
    by destruct (Hsame g ltac:(lia)) as [-> _].
  - intros g Hg Hval. rewrite Hnf in Hg. destruct (Hsame g ltac:(lia)) as [Hid _].
    rewrite Hid in Hval |- *. rewrite Htb. by apply (tk_frame _ Ht).
  - intros q g Hq. rewrite Htb in Hq. destruct (tk_table _ Ht _ _ Hq) as [Hg _].
    destruct (Hsame g ltac:(lia)) as [_ ->]. by apply Hin.
Qed.

(** The loop of [FlushAll] over the frames [l]. *)
Lemma FlushAll_fold psz N (l : list Z) : forall (p : Impl R) d,
  table_ok p -> frames_in_file psz p N -> disk_ok psz d N ->
  0 < psz -> N < kInvalidPageId ->
  NoDup l -> (forall g, g ∈ l -> 0 <= g < num_frames p) ->
  exists p' d',
    fold_left (fun '(p0, d0) fid => let '(_, p1, d1) := FlushFrame p0 d0 fid in (p1, d1))
      l (p, Some d) = (p', Some d') /\
    disk_ok psz d' N /\
    table p' = table p /\ free_list p' = free_list p /\ replacer p' = replacer p /\
    stats p' = stats p /\ num_frames p' = num_frames p /\
    length (frames p') = length (frames p) /\
    (forall g, 0 <= g ->
       f_page_id (frame_at p' g) = f_page_id (frame_at p g) /\
       pin_count (frame_at p' g) = pin_count (frame_at p g) /\
       data (frame_at p' g) = data (frame_at p g) /\
       (g ∉ l -> dirty (frame_at p' g) = dirty (frame_at p g)) /\
       (g ∈ l -> f_page_id (frame_at p g) <> kInvalidPageId ->
        dirty (frame_at p' g) = false)) /\
    (forall q, 0 <= q < N ->
       disk_page psz d' q =
         match table p !! q with
         | Some g => if bool_decide (g ∈ l) && dirty (frame_at p g)
                     then data (frame_at p g) else disk_page psz d q
         | None => disk_page psz d q
         end).
Proof.
  induction l as [|fid l IH]; intros p d Ht Hin Hd Hpsz HN Hnd Hl.
  - exists p, d. split; [done|]. split; [done|]. split; [done|]. split; [done|].
    split; [done|]. split; [done|]. split; [done|]. split; [done|]. split.
    + intros g Hg. split; [done|]. split; [done|]. split; [done|]. split; [done|].
      by intros ?%elem_of_nil.
    + intros q Hq. by destruct (table p !! q).
  - apply NoDup_cons in Hnd as [Hnotin Hnd].
    destruct (FlushFrame_any psz p d N fid Ht Hin Hd Hpsz HN)
      as (fl & p1 & d1 & Hff & Hd1 & Htb1 & Hfl1 & Hrep1 & Hst1 & Hnf1 & Hlen1
          & Hfr1 & Hdisk1).
    { apply Hl. by left. }
    destruct (table_ok_same psz p p1 N Ht Hin Hlen1 Hnf1 Htb1) as [Ht1 Hin1].
    { intros g Hg. by destruct (Hfr1 g Hg) as (? & _ & ? & _). }
    destruct (IH p1 d1 Ht1 Hin1 Hd1 Hpsz HN Hnd)
      as (p' & d' & Hfold & Hd' & Htb' & Hfl' & Hrep' & Hst' & Hnf' & Hlen'
          & Hfr' & Hdisk').
    { intros g Hg. rewrite Hnf1. apply Hl. by right. }
    exists p', d'. cbn [fold_left]. rewrite Hff, Hfold.
    split; [done|]. split; [done|]. split; [congruence|]. split; [congruence|].
    split; [congruence|]. split; [congruence|]. split; [congruence|].
    split; [congruence|]. split.
    + intros g Hg.
      destruct (Hfr1 g Hg) as (Hid1 & Hpc1 & Hdt1 & Hoth1 & Hcl1).
      destruct (Hfr' g Hg) as (Hid' & Hpc' & Hdt' & Hoth' & Hcl').
      split; [congruence|]. split; [congruence|]. split; [congruence|]. split.
      * intros Hni. apply not_elem_of_cons in Hni as [Hne Hni].
        rewrite Hoth' by done. by apply Hoth1.
      * intros Hgin Hval. apply elem_of_cons in Hgin as [->|Hgin].
        -- rewrite Hoth' by done. by apply Hcl1.
        -- apply Hcl'; [done|]. by rewrite Hid1.
    + intros q Hq. rewrite (Hdisk' q Hq), Htb1.
      destruct (table p !! q) as [g|] eqn:Eq.
      * destruct (tk_table _ Ht _ _ Eq) as [Hg Hgq].
        destruct (Hfr1 g ltac:(lia)) as (_ & _ & Hdt1 & Hoth1 & _).
        rewrite (Hdisk1 q Hq). destruct (decide (g = fid)) as [->|Hne].
        -- rewrite (bool_decide_eq_false_2 (fid ∈ l)) by done.
           rewrite (bool_decide_eq_true_2 (fid ∈ fid :: l)) by (by left).
           cbn [andb]. rewrite decide_True by done. done.
        -- rewrite Hoth1, Hdt1 by done.
           rewrite (decide_False (P := table p !! q = Some fid)) by congruence.
           assert (bool_decide (g ∈ fid :: l) = bool_decide (g ∈ l)) as ->; [|done].
           apply bool_decide_ext. rewrite elem_of_cons.
           split; [by intros [?|?]|by right].
      * rewrite (Hdisk1 q Hq), Eq. by rewrite decide_False.
Qed.

(** X24: [FlushAll] makes the file hold every resident page, pinned or
    not.  In a pool whose page table and frames agree and whose frames hold
    [page_size] bytes of pages of the file, over a file whose system calls
    succeed, [FlushAll] leaves the page table, the free list, the replacer
    and the counters as they were, and every frame with its page id, pin
    count and bytes; every frame that holds a page is clean afterwards.
    The file then holds the bytes of every resident page that was dirty and
    is unchanged on every other page.  The pool invariant of the table
    heap, with or without a pinned page, is kept, and each initialised page
    that is not pinned is afterwards a well-formed page of the file with the
    records the pool showed for it. *)
Theorem X24_flush_all_writes_every_page psz (p : Impl R) d N :
  table_ok p -> frames_in_file psz p N -> disk_ok psz d N ->
  0 < psz -> N < kInvalidPageId ->
  exists p' d',
    FlushAll p (Some d) = (p', Some d') /\ disk_ok psz d' N /\
    table p' = table p /\ free_list p' = free_list p /\ replacer p' = replacer p /\
    stats p' = stats p /\
    (forall g, 0 <= g < num_frames p ->
       f_page_id (frame_at p' g) = f_page_id (frame_at p g) /\
       pin_count (frame_at p' g) = pin_count (frame_at p g) /\
       data (frame_at p' g) = data (frame_at p g) /\
       (f_page_id (frame_at p g) <> kInvalidPageId -> dirty (frame_at p' g) = false)) /\
    (forall pid g, table p !! pid = Some g ->
       disk_page psz d' pid =
         if dirty (frame_at p g) then data (frame_at p g) else disk_page psz d pid) /\
    (forall q, 0 <= q < N -> table p !! q = None ->
       disk_page psz d' q = disk_page psz d q) /\
    (forall n pin, n <= N -> pool_ok p N n pin -> content_ok psz p d n pin ->
       pool_ok p' N n pin /\ content_ok psz p' d' n pin /\
       forall q, 0 <= q < n -> pin <> Some q ->
         page_wf psz (disk_page psz d' q) /\
         records psz (disk_page psz d' q) = records psz (pool_page psz p d q)).
Proof.
  intros Ht Hin Hd Hpsz HN.
  destruct (FlushAll_fold psz N (seqZ 0 (num_frames p)) p d Ht Hin Hd Hpsz HN)
    as (p' & d' & Hfold & Hd' & Htb & Hfl & Hrep & Hst & Hnf & Hlen & Hfr & Hdisk).
  { apply NoDup_seqZ. }
  { intros g Hg. apply elem_of_seqZ in Hg. lia. }
  assert (Hall : forall g, 0 <= g < num_frames p -> g ∈ seqZ 0 (num_frames p)).
  { intros g Hg. apply elem_of_seqZ. lia. }
  assert (Hpage : forall pid g, table p !! pid = Some g ->
            disk_page psz d' pid =
              if dirty (frame_at p g) then data (frame_at p g) else disk_page psz d pid).
  { intros pid g Hpid. destruct (tk_table _ Ht _ _ Hpid) as [Hg Hgp].
    destruct (Hin _ _ Hpid) as [Hr _].
    rewrite (Hdisk pid Hr), Hpid.
    by rewrite (bool_decide_eq_true_2 _ (Hall g Hg)). }
  assert (Hun : forall q, 0 <= q < N -> table p !! q = None ->
            disk_page psz d' q = disk_page psz d q).
  { intros q Hq Hnone. by rewrite (Hdisk q Hq), Hnone. }
  exists p', d'. split; [exact Hfold|]. split; [done|]. split; [done|]. split; [done|].
  split; [done|]. split; [done|]. split; [|split; [done|split; [done|]]].
  - intros g Hg. destruct (Hfr g ltac:(lia)) as (Hid & Hpc & Hdt & _ & Hcl).
    split; [done|]. split; [done|]. split; [done|]. intros Hv. by apply Hcl; [apply Hall|].
  - intros n pin HnN Hok Hc.
    assert (Hc' : content_ok psz p' d' n pin /\
                  forall q, 0 <= q < n -> pool_page psz p' d' q = pool_page psz p d q).
    { apply (content_ok_flushed psz p p' d d' n pin Hc Htb).
      - intros q g Hq. destruct (tk_table _ Ht _ _ Hq) as [Hg _].
        by destruct (Hfr g ltac:(lia)) as (_ & _ & ? & _).
      - intros q g Hq _. rewrite (Hpage q g Hq).
        destruct (dirty (frame_at p g)); [by right|by left].
      - intros q Hq Hnone. apply Hun; [lia|done]. }
    destruct Hc' as [Hc' Hpp]. split; [|split; [done|]].
    + apply (pool_ok_same_meta p p' N n pin Hok); try done.
      intros g Hg. by destruct (Hfr g ltac:(lia)) as (? & ? & _).
    + intros q Hq Hne. destruct (Hc' q Hq Hne) as [Hw Ha]. rewrite Hpp in Hw, Ha by done.
      destruct (table p !! q) as [g|] eqn:Eq.
      * apply (Ha g); [by rewrite Htb|].
        destruct (tk_table _ Ht _ _ Eq) as [Hg Hgq].
        destruct (Hfr g ltac:(lia)) as (_ & _ & _ & _ & Hcl).
        apply Hcl; [by apply Hall|]. rewrite Hgq. destruct (Hin _ _ Eq). lia.
      * rewrite Hun by (done || lia). unfold pool_page in Hw. rewrite Eq in Hw.
        split; [done|]. unfold pool_page. by rewrite Eq.
Qed.

Lemma pool_hole_more_pages (p : Impl R) N N' n fid :
  pool_hole p N n fid -> N <= N' -> pool_hole p N' n fid.
Proof.
  intros (Hb & Hrest) HN. split; [|done]. split; try apply Hb.
  intros q g Hq. destruct (pb_table _ _ _ _ Hb _ _ Hq) as (? & ? & ? & ? & ? & ?).
  repeat (split; [done || lia|]). done.
Qed.

Lemma FlushFrame_page_size (p : Impl R) disk fid :
  page_size (snd (fst (FlushFrame p disk fid))) = page_size p.
Proof.
  unfold FlushFrame. destruct (negb _ || _); [done|].
  destruct disk as [d|]; [|by destruct (flush_cb p)].
  destruct (DiskManager.WritePage _ _ _) as [s d1].
  destruct (ok s); by destruct (flush_cb p).
Qed.

Lemma AcquireFrameFor_page_size (p : Impl R) disk pid :
  page_size (snd (fst (AcquireFrameFor p disk pid))) = page_size p.
Proof.
  unfold AcquireFrameFor. destruct (free_list p); [|done].
  destruct (rVictim (replacer p)) as [[v|] r1]; [|done].
  destruct (_ =? _); [done|].
  pose proof (FlushFrame_page_size (set_replacer p r1) disk v) as Hff.
  destruct (FlushFrame (set_replacer p r1) disk v) as [[fl p2] d2]. cbn [fst snd] in *.
  by destruct fl.
Qed.

(** X25: [NewPage] appends a zero page to the file and returns it pinned.
    On a consistent pool with nothing pinned, over a file of [N] pages
    whose system calls succeed, [NewPage] returns Ok with the page id [N]
    and a page of zeros; the file then has [N+1] pages, the last of them
    zeros; the new page is resident and pinned; every initialised page keeps
    its records and the pool stays consistent. *)
Theorem X25_new_page_appends psz (p : Impl R) d N n :
  pool_ok p N n None -> disk_ok psz d N -> content_ok psz p d n None ->
  page_size p = psz -> 0 < psz -> n <= N -> N < kInvalidPageId ->
  exists p' d',
    NewPage p (Some d) = (kOk, N, replicate (Z.to_nat psz) x00, p', Some d') /\
    pool_ok p' (N + 1) n (Some N) /\ disk_ok psz d' (N + 1) /\
    content_ok psz p' d' n (Some N) /\
    pool_page psz p' d' N = replicate (Z.to_nat psz) x00 /\
    disk_page psz d' N = replicate (Z.to_nat psz) x00 /\
    (forall q, 0 <= q < n ->
       records psz (pool_page psz p' d' q) = records psz (pool_page psz p d q)).
Proof.
  intros Hok Hd Hc Hps Hpsz HnN HN. pose proof Hok as [Hb _].
  assert (Hnone : table p !! N = None).
  { destruct (table p !! N) as [g|] eqn:E; [|done].
    destruct (pb_table _ _ _ _ Hb _ _ E) as (_ & _ & ? & _). lia. }
  pose proof (AcquireFrameFor_page_size p (Some d) 0) as Hps1.
  destruct (AcquireFrameFor_spec psz p d N n 0 Hok Hd Hc Hpsz HnN HN)
    as (fid & ev & p1 & d1 & Hacq & Hfid & Hhole & Hd1 & Hc1 & Hrec & Hkeep).
  rewrite Hacq in Hps1. cbn [fst snd] in Hps1.
  destruct (Hkeep N Hnone) as [Hnone1 _].
  pose proof (dk_pages _ _ _ Hd) as HN0.
  set (zero := replicate (Z.to_nat psz) x00).
  destruct (WritePage_grow psz d1 N N zero Hd1 Hpsz HN0) as (d2 & Hw & Hd2 & Hsame & Hold & _).
  { unfold zero. rewrite length_replicate. lia. }
  replace (Z.max N (N + 1)) with (N + 1) in Hd2 by lia.
  destruct (content_ok_disk psz p1 d1 d2 n None Hc1) as [Hc2 Hpp2].
  { intros q Hq. apply Hold; lia. }
  pose proof Hhole as (Hb1 & Hfr1 & _).
  pose proof (pb_frames _ _ _ _ Hb1) as Hlen1.
  set (p4 := set_replacer
               (set_table (set_frame p1 fid (mkFrame N 1 false zero))
                  (<[N := fid]> (table p1)))
               (rPin (replacer p1) fid)).
  destruct (fill_ok psz p1 p4 d2 (N + 1) n fid N zero) as (Hok4 & Hc4 & Hpp4 & Hoth4).
  { apply (pool_hole_more_pages p1 N); [done|lia]. }
  { exact Hc2. }
  { exact Hnone1. }
  { lia. }
  { unfold p4. pool_simpl. by rewrite length_insert. }
  { done. }
  { done. }
  { intros g Hg. unfold p4.
    rewrite <- (frame_at_set_frame p1 fid _ g) by lia. by apply frame_at_same. }
  { done. }
  { done. }
  exists p4, d2. split; [|split; [done|split; [done|split; [done|split; [done|split]]]]].
  - unfold NewPage. rewrite Hacq.
    assert ((fid <? 0) = false) as -> by (apply Z.ltb_ge; lia).
    rewrite (PageCount_ok psz d1 N Hd1 Hpsz).
    assert (u32 N = N) as ->.
    { unfold u32. apply Z.mod_small. unfold kInvalidPageId in HN. lia. }
    rewrite Hps1, Hps. fold zero. rewrite Hw. done.
  - done.
  - intros q Hq. rewrite Hoth4 by lia. rewrite Hpp2 by done. by apply Hrec.
Qed.

End PoolExtras.

Lemma demo_disk3_ok : disk_ok 64 demo_disk3 3.
Proof. by split. Qed.

Lemma demo_pool_two_table : BufferPoolManager.table demo_pool_two = <[1 := 1]> {[0 := 0]}.
Proof. vm_compute. reflexivity. Qed.

Lemma demo_pool_two_table_ok : table_ok demo_pool_two /\ frames_in_file 64 demo_pool_two 3.
Proof.
  split; [split|].
  - vm_compute. reflexivity.
  - intros pid g Hl. rewrite demo_pool_two_table in Hl.
    apply lookup_insert_Some in Hl as [[<- <-]|[_ Hl]].
    + split; [vm_compute; split; [discriminate|reflexivity]|vm_compute; reflexivity].
    + apply lookup_singleton_Some in Hl as [<- <-].
      split; [vm_compute; split; [discriminate|reflexivity]|vm_compute; reflexivity].
  - intros g Hg _. change (0 <= g < 2) in Hg.
    assert (g = 0 \/ g = 1) as [-> | ->] by lia; vm_compute; reflexivity.
  - intros pid g Hl. rewrite demo_pool_two_table in Hl.
    apply lookup_insert_Some in Hl as [[<- <-]|[_ Hl]].
    + split; [lia|vm_compute; reflexivity].
    + apply lookup_singleton_Some in Hl as [<- <-].
      split; [lia|vm_compute; reflexivity].
Qed.

Lemma demo_pool_two_pins_ok : pins_ok demo_pool_two.
Proof.
  assert (Hrep : BufferPoolManager.replacer demo_pool_two
                 = ClockReplacer.mk [true; false] [true; false] 0 2)
    by (vm_compute; reflexivity).
  split.
  - rewrite Hrep. split; [reflexivity|]. split; [reflexivity|]. left. cbn. lia.
  - vm_compute. reflexivity.
  - intros g Hg. assert (Hfl : BufferPoolManager.free_list demo_pool_two = [])
      by (vm_compute; reflexivity).
    rewrite Hfl in Hg. by apply elem_of_nil in Hg.
  - intros g Hc. rewrite Hrep in Hc. destruct Hc as [Hg Hl]. change (0 <= g < 2) in Hg.
    assert (g = 0 \/ g = 1) as [-> | ->] by lia; [vm_compute; reflexivity|].
    discriminate Hl.
Qed.

Lemma X14_fetch_keeps_pinned_pages_witness :
  fst (fst (fst (BufferPoolManager.FetchPage demo_pool_two (Some demo_disk3) 2))) = kOk /\
  BufferPoolManager.table demo_pool_two !! 0 = Some 0 /\
  BufferPoolManager.table
    (snd (fst (BufferPoolManager.FetchPage demo_pool_two (Some demo_disk3) 2))) !! 0
    = None /\
  BufferPoolManager.pin_count (BufferPoolManager.frame_at demo_pool_two 1) = 1 /\
  BufferPoolManager.table
    (snd (fst (BufferPoolManager.FetchPage demo_pool_two (Some demo_disk3) 2))) !! 1
    = Some 1 /\
  BufferPoolManager.frame_at
    (snd (fst (BufferPoolManager.FetchPage demo_pool_two (Some demo_disk3) 2))) 1
    = BufferPoolManager.frame_at demo_pool_two 1.
Proof.
  assert (Hq : BufferPoolManager.table demo_pool_two !! 1 = Some 1)
    by (vm_compute; reflexivity).
  assert (Hpin : 0 < BufferPoolManager.pin_count (BufferPoolManager.frame_at demo_pool_two 1))
    by (vm_compute; reflexivity).
  assert (Hnone : BufferPoolManager.table demo_pool_two !! 2 = None)
    by (vm_compute; reflexivity).
  destruct (X14_fetch_keeps_pinned_pages demo_pool_two 2
              (pk_rok _ demo_pool_two_pins_ok) Hnone) as [_ Hkeep].
  destruct (Hkeep (proj1 demo_pool_two_table_ok) demo_pool_two_pins_ok) as [_ Hpinned].
  split; [vm_compute; reflexivity|]. split; [vm_compute; reflexivity|].
  split; [vm_compute; reflexivity|]. split; [vm_compute; reflexivity|].
  exact (Hpinned demo_disk3 1 1 Hq Hpin).
Defined.

Lemma X15_fetch_beyond_end_of_file_witness :
  exists p' d',
    BufferPoolManager.FetchPage (BufferPoolManager.make 1 64 (ClockReplacer.make 1))
      (Some demo_disk) 7 = (kNotFound, [], p', Some d') /\
    pool_ok p' 2 0 None.
Proof.
  destruct (clock_make_ok 1 ltac:(lia)) as (Hok & Hcap & Hnone).
  destruct (X15_fetch_beyond_end_of_file 64
              (BufferPoolManager.make 1 64 (ClockReplacer.make 1)) demo_disk 2 0 7)
    as (p' & d' & Hf & Hok' & _).
  - by apply pool_make_ok.
  - exact demo_disk_ok.
  - intros q Hq. lia.
  - lia.
  - lia.
  - by vm_compute.
  - lia.
  - by exists p', d'.
Defined.

Lemma X16_flush_page_writes_back_witness :
  BufferPoolManager.pin_count (BufferPoolManager.frame_at demo_pool_pinned_dirty 0) = 1 /\
  BufferPoolManager.dirty (BufferPoolManager.frame_at demo_pool_pinned_dirty 0) = true /\
  exists p' d',
    BufferPoolManager.FlushPage demo_pool_pinned_dirty (Some demo_disk) 0
      = (kOk, p', Some d') /\
    BufferPoolManager.dirty (BufferPoolManager.frame_at p' 0) = false /\
    BufferPoolManager.pin_count (BufferPoolManager.frame_at p' 0) = 1 /\
    disk_page 64 d' 0
      = BufferPoolManager.data (BufferPoolManager.frame_at demo_pool_pinned_dirty 0).
Proof.
  assert (Hpc : BufferPoolManager.pin_count
                  (BufferPoolManager.frame_at demo_pool_pinned_dirty 0) = 1)
    by (vm_compute; reflexivity).
  assert (Hdy : BufferPoolManager.dirty
                  (BufferPoolManager.frame_at demo_pool_pinned_dirty 0) = true)
    by (vm_compute; reflexivity).
  split; [exact Hpc|]. split; [exact Hdy|].
  destruct (X16_flush_page_writes_back 64 demo_pool_pinned_dirty demo_disk 2 0 0)
    as (p' & d' & Hf & _ & _ & _ & _ & Hfa & _ & Hdirty & _).
  - exact demo_disk_ok.
  - lia.
  - vm_compute. reflexivity.
  - vm_compute. reflexivity.
  - vm_compute. split; [discriminate|reflexivity].
  - vm_compute. reflexivity.
  - lia.
  - vm_compute. reflexivity.
  - exists p', d'. split; [exact Hf|]. rewrite Hfa, Hpc.
    split; [reflexivity|]. split; [reflexivity|]. exact (proj1 (Hdirty Hdy)).
Defined.

Lemma X17_flush_page_hides_write_error_witness :
  exists p',
    BufferPoolManager.FlushPage demo_pool (Some demo_disk_failing) 0
      = (kOk, p', Some demo_disk_failing) /\
    BufferPoolManager.dirty (BufferPoolManager.frame_at p' 0) = true.
Proof.
  destruct (X17_flush_page_hides_write_error demo_pool demo_disk_failing 0 0)
    as (p' & Hf & _ & _ & _ & Hd).
  - reflexivity.
  - lia.
  - reflexivity.
  - by vm_compute.
  - reflexivity.
  - reflexivity.
  - by exists p'.
Defined.

Lemma X24_flush_all_writes_every_page_witness :
  exists p' d',
    BufferPoolManager.FlushAll demo_pool_two (Some demo_disk3) = (p', Some d') /\
    BufferPoolManager.dirty (BufferPoolManager.frame_at p' 0) = false /\
    BufferPoolManager.pin_count (BufferPoolManager.frame_at p' 1) = 1 /\
    disk_page 64 d' 0
      = BufferPoolManager.data (BufferPoolManager.frame_at demo_pool_two 0) /\
    disk_page 64 d' 1 = disk_page 64 demo_disk3 1.
Proof.
  destruct demo_pool_two_table_ok as [Ht Hin].
  assert (HN : 3 < kInvalidPageId) by (vm_compute; reflexivity).
  assert (H0 : BufferPoolManager.table demo_pool_two !! 0 = Some 0)
    by (vm_compute; reflexivity).
  assert (H1 : BufferPoolManager.table demo_pool_two !! 1 = Some 1)
    by (vm_compute; reflexivity).
  assert (Hd0 : BufferPoolManager.dirty (BufferPoolManager.frame_at demo_pool_two 0) = true)
    by (vm_compute; reflexivity).
  assert (Hd1 : BufferPoolManager.dirty (BufferPoolManager.frame_at demo_pool_two 1) = false)
    by (vm_compute; reflexivity).
  assert (Hv0 : BufferPoolManager.f_page_id (BufferPoolManager.frame_at demo_pool_two 0)
                <> kInvalidPageId) by (vm_compute; discriminate).
  assert (Hp1 : BufferPoolManager.pin_count (BufferPoolManager.frame_at demo_pool_two 1) = 1)
    by (vm_compute; reflexivity).
  assert (Hr0 : 0 <= 0 < BufferPoolManager.num_frames demo_pool_two)
    by (vm_compute; split; [discriminate|reflexivity]).
  assert (Hr1 : 0 <= 1 < BufferPoolManager.num_frames demo_pool_two)
    by (vm_compute; split; [discriminate|reflexivity]).
  destruct (X24_flush_all_writes_every_page 64 demo_pool_two demo_disk3 3
              Ht Hin demo_disk3_ok ltac:(lia) HN)
    as (p' & d' & Hf & _ & _ & _ & _ & _ & Hfr & Hpage & _).
  exists p', d'. split; [exact Hf|].
  destruct (Hfr 0 Hr0) as (_ & _ & _ & Hcl). destruct (Hfr 1 Hr1) as (_ & Hpc & _).
  split; [exact (Hcl Hv0)|]. split; [by rewrite Hpc|].
  pose proof (Hpage 0 0 H0) as E0. rewrite Hd0 in E0.
  pose proof (Hpage 1 1 H1) as E1. rewrite Hd1 in E1.
  split; [exact E0|exact E1].
Defined.

Lemma X25_new_page_appends_witness :
  exists p' d',
    BufferPoolManager.NewPage (BufferPoolManager.make 1 64 (ClockReplacer.make 1))
      (Some demo_disk) = (kOk, 2, replicate 64 x00, p', Some d') /\
    disk_ok 64 d' 3.
Proof.
  destruct (clock_make_ok 1 ltac:(lia)) as (Hok & Hcap & Hnone).
  destruct (X25_new_page_appends 64
              (BufferPoolManager.make 1 64 (ClockReplacer.make 1)) demo_disk 2 0)
    as (p' & d' & Hf & _ & Hd' & _).
  - by apply pool_make_ok.
  - exact demo_disk_ok.
  - intros q Hq. lia.
  - reflexivity.
  - lia.
  - lia.
  - by vm_compute.
  - by exists p', d'.
Defined.
Section HeapExtras.
Context {R : Type} `{ReplacerLaws R}.
Import TableHeap.

Lemma live_iff_record psz m s :
  page_wf psz m -> 0 <= s ->
  (live_slot psz m s <-> exists b, records psz m !! Z.to_nat s = Some (Some b)).
Proof.
  intros Hwf Hs. split.
  - intros [Hr Hz]. rewrite records_lookup_Z by done. unfold record_at.
    apply Z.eqb_neq in Hz. rewrite Hz. eauto.
  - intros [b Hb]. by destruct (records_Some_live _ _ _ _ Hwf Hs Hb).
Qed.

Lemma view_not_live (h : t R) pid s :
  page_wf (page_size_ h) (cur h pid) -> 0 <= s ->
  (forall b, view h pid !! Z.to_nat s <> Some (Some b)) ->
  ~ live_slot (page_size_ h) (cur h pid) s.
Proof.
  intros Hwf Hs Hno Hl. apply (live_iff_record _ _ _ Hwf Hs) in Hl as [b Hb].
  by apply (Hno b).
Qed.

(** The answer of [Get] is the record of the slot. *)
Lemma Get_view (h : t R) N rid :
  heap_ok h N N None -> N < kInvalidPageId -> 0 <= page_id rid < N -> 0 <= slot rid ->
  fst (Get h rid) =
    match view h (page_id rid) !! Z.to_nat (slot rid) with
    | Some (Some b) => (kOk, b)
    | _ => (kNotFound, [])
    end.
Proof.
  intros Hok HN Hpid Hs.
  destruct (Get_spec h N rid Hok HN Hpid Hs) as (h' & _ & _ & _ & Hg). rewrite Hg.
  by destruct (view h (page_id rid) !! Z.to_nat (slot rid)) as [[b|]|].
Qed.

(** [Erase] on a row of the table, and on a slot without a row. *)
Lemma Erase_heap_spec (h : t R) N rid :
  heap_ok h N N None -> N < kInvalidPageId -> 0 <= page_id rid < N -> 0 <= slot rid ->
  exists h', heap_ok h' N N None /\ page_size_ h' = page_size_ h /\
    (forall q, 0 <= q < N -> q <> page_id rid -> view h' q = view h q) /\
    match view h (page_id rid) !! Z.to_nat (slot rid) with
    | Some (Some b) =>
        Erase h rid = (kOk, h') /\
        view h' (page_id rid) = <[Z.to_nat (slot rid) := None]> (view h (page_id rid))
    | _ =>
        Erase h rid = (kNotFound, h') /\ view h' (page_id rid) = view h (page_id rid)
    end.
Proof.
  intros Hok HN Hpid Hs.
  set (pid := page_id rid) in *. set (s0 := slot rid) in *.
  destruct (fetch_spec h N N pid Hok HN Hpid)
    as (h1 & Hf & Hok1 & Hps1 & Hc1 & Hv1 & Hwf).
  destruct (Hwf ltac:(lia)) as [Hw Ha].
  pose proof (Erase_spec (page_size_ h) (cur h pid) s0 Hw Hs) as Hes.
  cbv zeta in Hes. destruct Hes as (Hew & Hdead & Hlive).
  unfold Erase. fold pid s0. rewrite Hf. change (ok kOk) with true. cbn [negb].
  rewrite Hps1.
  destruct (view h pid !! Z.to_nat s0) as [[b|]|] eqn:Ev.
  - destruct (records_Some_live _ _ _ _ Hw Hs Ev) as [Hl _].
    destruct (Hlive Hl) as (Hst & _ & _ & Her).
    destruct (SlottedPage.Erase (page_size_ h) (cur h pid) s0) as [del data1].
    cbn [fst snd] in *. subst del. change (ok kOk) with true. cbv iota.
    destruct (commit_spec h1 N N pid data1 N Hok1) as (Hok2 & Hps2 & Hc2 & Ho2);
      [by rewrite Hps1|lia|lia|intros; lia|].
    eexists. split; [exact Hok2|]. split; [by rewrite Hps2|]. split; [|split; [done|]].
    + intros q Hq Hne. unfold view at 1. rewrite Ho2, Hps2 by done.
      change (view h1 q = view h q). by apply Hv1.
    + unfold view at 1. by rewrite Hc2, Hps2, Hps1.
  - assert (Hnl : ~ live_slot (page_size_ h) (cur h pid) s0).
    { apply view_not_live; [done|done|]. intros b. by rewrite Ev. }
    rewrite (Hdead Hnl). change (ok kNotFound) with false. cbv iota.
    destruct (release_spec h1 N N pid (cur h pid) Hok1) as (Hok3 & Hps3 & Hc3 & Ho3);
      [by rewrite Hps1|lia|by rewrite Hps1|].
    eexists. split; [exact Hok3|]. split; [by rewrite Hps3|]. split; [|split; [done|]].
    + intros q Hq Hne. unfold view at 1. rewrite Ho3, Hps3 by done.
      change (view h1 q = view h q). by apply Hv1.
    + unfold view at 1. by rewrite Hc3, Hps3, Hps1.
  - assert (Hnl : ~ live_slot (page_size_ h) (cur h pid) s0).
    { apply view_not_live; [done|done|]. intros b. by rewrite Ev. }
    rewrite (Hdead Hnl). change (ok kNotFound) with false. cbv iota.
    destruct (release_spec h1 N N pid (cur h pid) Hok1) as (Hok3 & Hps3 & Hc3 & Ho3);
      [by rewrite Hps1|lia|by rewrite Hps1|].
    eexists. split; [exact Hok3|]. split; [by rewrite Hps3|]. split; [|split; [done|]].
    + intros q Hq Hne. unfold view at 1. rewrite Ho3, Hps3 by done.
      change (view h1 q = view h q). by apply Hv1.
    + unfold view at 1. by rewrite Hc3, Hps3, Hps1.
Qed.




Lemma heap_ok_inv (h : t R) N : heap_ok h N N None -> heap_inv h /\ TableIterator.pages h = N.
Proof.
  intros Hok. pose proof (pages_ok _ _ _ _ Hok) as Hpg. split; [|done].
  unfold heap_inv. by rewrite Hpg.
Qed.

(** X18: a tuple that is inserted can be read back, and no earlier row is
    disturbed.  For a table between two operations and a non-empty tuple
    that fits an empty page, [Insert] returns Ok with a record id; [Get] on
    that id then yields the tuple; the id named no row before; every row
    that could be read before reads the same afterwards; the table has
    grown by at most one page and is again consistent. *)
Theorem X18_heap_insert_then_get (h : t R) (tp : Tuple.t) :
  heap_inv h -> TableIterator.pages h + 2 < kInvalidPageId ->
  fits_empty_page (page_size_ h) tp ->
  exists rid h',
    Insert h tp = (kOk, Some rid, h') /\ heap_inv h' /\
    TableIterator.pages h <= TableIterator.pages h' <= TableIterator.pages h + 1 /\
    0 <= page_id rid < TableIterator.pages h' /\ 0 <= slot rid /\
    fst (Get h' rid) = (kOk, tp) /\
    (page_id rid < TableIterator.pages h -> fst (Get h rid) = (kNotFound, [])) /\
    (forall r b, 0 <= page_id r < TableIterator.pages h -> 0 <= slot r ->
       fst (Get h r) = (kOk, b) -> fst (Get h' r) = (kOk, b)).
Proof.
  intros Hinv HN Hfit. unfold heap_inv in Hinv. set (N := TableIterator.pages h) in *.
  destruct (Insert_counts h N tp Hinv HN Hfit)
    as (rid & h' & N' & Hins & Hok' & Hps' & HN' & Hnew & Hkeep & _).
  destruct Hnew as (HnP & Hns & Hnv & Hnold).
  destruct (heap_ok_inv h' N' Hok') as [Hinv' Hpg'].
  exists rid, h'. rewrite Hpg'.
  split; [done|]. split; [done|]. split; [done|]. split; [done|]. split; [done|].
  split; [|split].
  - rewrite (Get_view h' N' rid Hok') by (done || lia).
    unfold Tuple.t in *. by rewrite Hnv.
  - intros Hlt. rewrite (Get_view h N rid Hinv) by (done || lia).
    specialize (Hnold) as Hno.
    destruct (view h (page_id rid) !! Z.to_nat (slot rid)) as [[b|]|] eqn:E; try done.
    by destruct (Hno b Hlt).
  - intros r b Hr Hs Hg. rewrite (Get_view h N r Hinv) in Hg by (done || lia).
    rewrite (Get_view h' N' r Hok') by (done || lia).
    destruct (view h (page_id r) !! Z.to_nat (slot r)) as [[b0|]|] eqn:E; try done.
    injection Hg as <-. pose proof (Hkeep _ _ _ Hr E) as Hk.
    unfold Tuple.t in *. by rewrite Hk.
Qed.

Lemma rid_slot_ne (r rid : RID) :
  r <> rid -> 0 <= slot r -> 0 <= slot rid -> page_id r = page_id rid ->
  Z.to_nat (slot r) <> Z.to_nat (slot rid).
Proof.
  intros Hne Hs Hs' Hp Heq. apply Hne. destruct r, rid. cbn in *. f_equal; lia.
Qed.

(** X20: [Erase] removes exactly the row it names.  For a record id inside
    the table, [Erase] returns the status that [Get] returns for it (Ok for
    a row, NotFound otherwise); afterwards [Get] on the id is NotFound,
    every other record id reads as before, and the table keeps its pages
    and stays consistent. *)
Theorem X20_heap_erase_row (h : t R) (rid : RID) :
  heap_inv h -> TableIterator.pages h < kInvalidPageId ->
  0 <= page_id rid < TableIterator.pages h -> 0 <= slot rid ->
  exists h',
    Erase h rid = (fst (fst (Get h rid)), h') /\ heap_inv h' /\
    TableIterator.pages h' = TableIterator.pages h /\
    fst (Get h' rid) = (kNotFound, []) /\
    (forall r, r <> rid -> 0 <= page_id r < TableIterator.pages h -> 0 <= slot r ->
       fst (Get h' r) = fst (Get h r)).
Proof.
  intros Hinv HN Hpid Hs. unfold heap_inv in Hinv. set (N := TableIterator.pages h) in *.
  destruct (Erase_heap_spec h N rid Hinv HN Hpid Hs) as (h' & Hok' & Hps' & Hoth & Hcase).
  destruct (heap_ok_inv h' N Hok') as [Hinv' Hpg'].
  assert (Hst : Erase h rid = (fst (fst (Get h rid)), h')).
  { rewrite (Get_view h N rid Hinv) by done.
    destruct (view h (page_id rid) !! Z.to_nat (slot rid)) as [[b|]|];
      by destruct Hcase as [-> _]. }
  assert (Hview : view h' (page_id rid) = <[Z.to_nat (slot rid) := None]> (view h (page_id rid))).
  { destruct (view h (page_id rid) !! Z.to_nat (slot rid)) as [[b|]|] eqn:E.
    - by destruct Hcase as [_ ->].
    - destruct Hcase as [_ ->]. by rewrite list_insert_id.
    - destruct Hcase as [_ ->]. symmetry. apply list_insert_ge.
      by apply lookup_ge_None. }
  exists h'. split; [exact Hst|]. split; [done|]. split; [done|]. split.
  - rewrite (Get_view h' N rid Hok') by done. unfold Tuple.t in *. rewrite Hview.
    destruct (decide (Z.to_nat (slot rid) < length (view h (page_id rid)))%nat).
    + by rewrite list_lookup_insert_eq.
    + rewrite list_insert_ge by lia.
      by rewrite (lookup_ge_None_2 (view h (page_id rid)) (Z.to_nat (slot rid))) by lia.
  - intros r Hne Hr Hsr.
    rewrite (Get_view h' N r Hok'), (Get_view h N r Hinv) by done.
    destruct (decide (page_id r = page_id rid)) as [Hp|Hp].
    + rewrite Hp, Hview.
      by rewrite list_lookup_insert_ne by (apply not_eq_sym; by apply rid_slot_ne).
    + by rewrite Hoth.
Qed.


(** [fetch] of a page past the end of the table. *)
Lemma fetch_beyond (h : t R) N pid :
  heap_ok h N N None -> N < kInvalidPageId -> N <= pid ->
  exists h', fetch h pid = (kNotFound, [], h') /\
    heap_ok h' N N None /\ page_size_ h' = page_size_ h /\
    (forall q, 0 <= q < N -> view h' q = view h q).
Proof.
  intros Hok HN Hpid. pose proof (psz_pos _ _ _ _ Hok) as Hpsz.
  destruct (FetchPage_beyond_spec (page_size_ h) (bpm_ h) (the_disk h) N N pid
              (hk_pool _ _ _ _ Hok) (hk_disk _ _ _ _ Hok) (hk_content _ _ _ _ Hok)
              Hpsz (Z.le_refl N) HN Hpid)
    as (p' & d' & Hf & Hpo & Hdo & Hco & _ & Hrec).
  unfold fetch. rewrite (pool_disk_ok _ _ _ _ Hok), Hf.
  destruct (put_pool_disk_ok h N N None p' d' Hok) as (Ed & Ep & Eps & Ef & Es & Eb & Eseg).
  set (h' := put_pool_disk (set_bpm h p') (Some d')) in *.
  exists h'. split; [done|]. split; [|split; [done|]].
  - split.
    + by rewrite Ed.
    + rewrite Eb, Es. exact (hk_same _ _ _ _ Hok).
    + rewrite Eps. exact (hk_psz _ _ _ _ Hok).
    + exact (hk_n _ _ _ _ Hok).
    + by rewrite Eps, Ed.
    + by rewrite Ep.
    + by rewrite Eps, Ep, Ed.
    + rewrite Ef. exact (hk_fsm _ _ _ _ Hok).
  - intros q Hq. unfold view, cur. rewrite Ed, Ep, Eps. by apply Hrec.
Qed.

(** X27: a record id whose page lies past the end of the table names no
    row: [Get], [Update] and [Erase] return NotFound for it, and all three
    leave the same state, in which every record id inside the table reads
    as before and the table keeps its pages and stays consistent. *)
Theorem X27_heap_rid_outside_table (h : t R) (rid : RID) (tp : Tuple.t) :
  heap_inv h -> TableIterator.pages h < kInvalidPageId ->
  TableIterator.pages h <= page_id rid ->
  exists h',
    Get h rid = (kNotFound, [], h') /\
    Update h rid tp = (kNotFound, h') /\
    Erase h rid = (kNotFound, h') /\
    heap_inv h' /\ TableIterator.pages h' = TableIterator.pages h /\
    (forall r, 0 <= page_id r < TableIterator.pages h -> 0 <= slot r ->
       fst (Get h' r) = fst (Get h r)).
Proof.
  intros Hinv HN Hpid. unfold heap_inv in Hinv. set (N := TableIterator.pages h) in *.
  destruct (fetch_beyond h N (page_id rid) Hinv HN Hpid) as (h' & Hf & Hok' & Hps' & Hv).
  destruct (heap_ok_inv h' N Hok') as [Hinv' Hpg'].
  exists h'.
  split; [unfold Get; by rewrite Hf|]. split; [unfold Update; by rewrite Hf|].
  split; [unfold Erase; by rewrite Hf|]. split; [done|]. split; [done|].
  intros r Hr Hs. rewrite (Get_view h' N r Hok'), (Get_view h N r Hinv) by done.
  by rewrite Hv.
Qed.

End HeapExtras.


Lemma X18_heap_insert_then_get_witness :
  exists rid h',
    TableHeap.Insert demo_heap demo_tuple_c = (kOk, Some rid, h') /\
    fst (TableHeap.Get h' rid) = (kOk, demo_tuple_c).
Proof.
  assert (H1 : TableIterator.pages demo_heap + 2 < kInvalidPageId)
    by (vm_compute; reflexivity).
  assert (H2 : fits_empty_page (TableHeap.page_size_ demo_heap) demo_tuple_c)
    by (split; vm_compute; [reflexivity|discriminate]).
  destruct (X18_heap_insert_then_get demo_heap demo_tuple_c demo_heap_inv H1 H2)
    as (rid & h' & Hins & _ & _ & _ & _ & Hget & _).
  exists rid, h'. split; [exact Hins|exact Hget].
Defined.

Lemma X20_heap_erase_row_witness :
  exists h',
    TableHeap.Erase demo_heap (mkRID 0 0) = (kOk, h') /\
    fst (TableHeap.Get h' (mkRID 0 0)) = (kNotFound, []) /\
    fst (TableHeap.Get h' (mkRID 0 1)) = (kOk, demo_tuple_b).
Proof.
  assert (H1 : TableIterator.pages demo_heap < kInvalidPageId)
    by (vm_compute; reflexivity).
  assert (H2 : 0 <= page_id (mkRID 0 0) < TableIterator.pages demo_heap)
    by (vm_compute; split; [discriminate|reflexivity]).
  assert (H3 : 0 <= slot (mkRID 0 0)) by (vm_compute; discriminate).
  assert (H4 : 0 <= page_id (mkRID 0 1) < TableIterator.pages demo_heap)
    by (vm_compute; split; [discriminate|reflexivity]).
  assert (H5 : 0 <= slot (mkRID 0 1)) by (vm_compute; discriminate).
  assert (Hst : fst (fst (TableHeap.Get demo_heap (mkRID 0 0))) = kOk)
    by (vm_compute; reflexivity).
  assert (Hb : fst (TableHeap.Get demo_heap (mkRID 0 1)) = (kOk, demo_tuple_b))
    by (vm_compute; reflexivity).
  destruct (X20_heap_erase_row demo_heap (mkRID 0 0) demo_heap_inv H1 H2 H3)
    as (h' & Her & _ & _ & Hgone & Hrest).
  rewrite Hst in Her.
  exists h'. split; [exact Her|]. split; [exact Hgone|].
  rewrite (Hrest (mkRID 0 1) ltac:(discriminate) H4 H5). exact Hb.
Defined.


Lemma X27_heap_rid_outside_table_witness :
  exists h',
    TableHeap.Get demo_heap (mkRID 5 0) = (kNotFound, [], h') /\
    TableHeap.Erase demo_heap (mkRID 5 0) = (kNotFound, h') /\
    fst (TableHeap.Get h' (mkRID 0 1)) = (kOk, demo_tuple_b).
Proof.
  assert (H1 : TableIterator.pages demo_heap < kInvalidPageId)
    by (vm_compute; reflexivity).
  assert (H2 : TableIterator.pages demo_heap <= page_id (mkRID 5 0))
    by (vm_compute; discriminate).
  assert (H4 : 0 <= page_id (mkRID 0 1) < TableIterator.pages demo_heap)
    by (vm_compute; split; [discriminate|reflexivity]).
  assert (H5 : 0 <= slot (mkRID 0 1)) by (vm_compute; discriminate).
  assert (Hb : fst (TableHeap.Get demo_heap (mkRID 0 1)) = (kOk, demo_tuple_b))
    by (vm_compute; reflexivity).
  destruct (X27_heap_rid_outside_table demo_heap (mkRID 5 0) demo_tuple_a
              demo_heap_inv H1 H2) as (h' & Hg & _ & He & _ & _ & Hrest).
  exists h'. split; [exact Hg|]. split; [exact He|].
  rewrite (Hrest (mkRID 0 1) H4 H5). exact Hb.
Defined.
Section RowLists.

Lemma elem_of_slot_rows p recs : forall s0 r,
  r ∈ slot_rows p recs s0 <->
  exists (i : nat) b, recs !! i = Some (Some b) /\
    r = TableIterator.mkRow (mkRID p (s0 + Z.of_nat i)) b.
Proof.
  induction recs as [|[b0|] recs IH]; intros s0 r; cbn [slot_rows].
  - split; [by intros ?%elem_of_nil|]. by intros (i & b & Hl & _).
  - rewrite elem_of_cons, IH. split.
    + intros [->|(i & b & Hl & ->)].
      * exists O, b0. split; [done|]. by rewrite Z.add_0_r.
      * exists (S i), b. split; [done|]. do 2 f_equal. lia.
    + intros ([|i] & b & Hl & ->); cbn in Hl.
      * left. injection Hl as ->. by rewrite Z.add_0_r.
      * right. exists i, b. split; [done|]. do 2 f_equal. lia.
  - rewrite IH. split.
    + intros (i & b & Hl & ->). exists (S i), b. split; [done|]. do 2 f_equal. lia.
    + intros ([|i] & b & Hl & ->); cbn in Hl; [done|].
      exists i, b. split; [done|]. do 2 f_equal. lia.
Qed.

Lemma elem_of_table_rows V N r :
  r ∈ table_rows V N <->
  exists p (i : nat) b, 0 <= p < N /\ V p !! i = Some (Some b) /\
    r = TableIterator.mkRow (mkRID p (Z.of_nat i)) b.
Proof.
  unfold table_rows, page_rows. rewrite list_elem_of_In, in_flat_map. split.
  - intros (p & Hp & Hr). apply list_elem_of_In, elem_of_seqZ in Hp.
    apply list_elem_of_In, elem_of_slot_rows in Hr as (i & b & Hl & ->).
    exists p, i, b. split; [lia|]. by split.
  - intros (p & i & b & Hp & Hl & ->). exists p. split.
    + apply list_elem_of_In, elem_of_seqZ. lia.
    + apply list_elem_of_In, elem_of_slot_rows. by exists i, b.
Qed.

Lemma slot_rows_sorted p recs : forall s0, StronglySorted row_lt (slot_rows p recs s0).
Proof.
  induction recs as [|[b0|] recs IH]; intros s0; cbn [slot_rows].
  - constructor.
  - constructor; [apply IH|]. apply List.Forall_forall. intros r Hr.
    apply list_elem_of_In, elem_of_slot_rows in Hr as (i & b & _ & ->).
    right. cbn. lia.
  - apply IH.
Qed.

Lemma table_rows_sorted V N : StronglySorted row_lt (table_rows V N).
Proof.
  unfold table_rows. generalize 0 at 1 as a.
  destruct (decide (0 <= N)) as [HN|HN]; [|intros a; rewrite seqZ_nil by lia; constructor].
  rewrite <- (Z2Nat.id N) by done. generalize (Z.to_nat N) as n. clear HN.
  intros n. induction n as [|n IH]; intros a; [rewrite seqZ_nil by lia; constructor|].
  rewrite seqZ_cons by lia. cbn [flat_map]. apply StronglySorted_app_2.
  - intros x y Hx Hy. unfold page_rows in Hx.
    apply elem_of_slot_rows in Hx as (i & b & _ & ->).
    apply list_elem_of_In, in_flat_map in Hy as (q & Hq & Hy).
    apply list_elem_of_In, elem_of_seqZ in Hq.
    apply list_elem_of_In, elem_of_slot_rows in Hy as (j & c & _ & ->).
    left. cbn. lia.
  - apply slot_rows_sorted.
  - replace (Z.pred (Z.of_nat (S n))) with (Z.of_nat n) by lia. apply IH.
Qed.

End RowLists.

Section ScanExtras.
Context {R : Type} `{ReplacerLaws R}.

(** X19: a full scan returns exactly the rows that [Get] can read, each
    once, in the order of their record ids.  For a table between two
    operations there is a list of rows that every scan with enough
    iterations returns; a row is in the list exactly when [Get] on its
    record id yields its tuple; every row lies inside the table; and the
    list is strictly increasing by page and then slot. *)
Theorem X19_scan_returns_rows_in_order (h : TableHeap.t R) :
  heap_inv h -> TableIterator.pages h < kInvalidPageId ->
  exists rows,
    (forall fuel, (length rows < fuel)%nat -> fst (TableIterator.scan h fuel) = rows) /\
    (forall r b, 0 <= page_id r < TableIterator.pages h -> 0 <= slot r ->
       (TableIterator.mkRow r b ∈ rows <-> fst (TableHeap.Get h r) = (kOk, b))) /\
    (forall row, row ∈ rows ->
       0 <= page_id (TableIterator.rid row) < TableIterator.pages h /\
       0 <= slot (TableIterator.rid row)) /\
    StronglySorted row_lt rows.
Proof.
  intros Hinv HN. unfold heap_inv in Hinv. set (N := TableIterator.pages h) in *.
  exists (table_rows (view h) N). split; [|split; [|split]].
  - intros fuel Hfuel.
    apply (scan_spec N (TableHeap.page_size_ h) (view h)); [lia| |done].
    split; [done|]. by split.
  - intros r b Hr Hs. rewrite (Get_view h N r Hinv HN Hr Hs), elem_of_table_rows. split.
    + intros (p & i & b' & Hp & Hl & Heq). injection Heq as -> ->. cbn [page_id slot].
      rewrite Nat2Z.id. unfold Tuple.t in *. by rewrite Hl.
    + intros Hg. exists (page_id r), (Z.to_nat (slot r)), b. split; [done|]. split.
      * destruct (view h (page_id r) !! Z.to_nat (slot r)) as [[b0|]|]; try done.
        by injection Hg as ->.
      * destruct r as [p s]. cbn [page_id slot] in *. by rewrite Z2Nat.id.
  - intros row (p & i & b & Hp & _ & ->)%elem_of_table_rows. cbn. lia.
  - apply table_rows_sorted.
Qed.

End ScanExtras.

Lemma X19_scan_returns_rows_in_order_witness :
  exists rows,
    (forall fuel, (length rows < fuel)%nat ->
       fst (TableIterator.scan demo_heap fuel) = rows) /\
    TableIterator.mkRow (mkRID 0 1) demo_tuple_b ∈ rows.
Proof.
  assert (H1 : TableIterator.pages demo_heap < kInvalidPageId)
    by (vm_compute; reflexivity).
  assert (H4 : 0 <= page_id (mkRID 0 1) < TableIterator.pages demo_heap)
    by (vm_compute; split; [discriminate|reflexivity]).
  assert (H5 : 0 <= slot (mkRID 0 1)) by (vm_compute; discriminate).
  assert (Hb : fst (TableHeap.Get demo_heap (mkRID 0 1)) = (kOk, demo_tuple_b))
    by (vm_compute; reflexivity).
  destruct (X19_scan_returns_rows_in_order demo_heap demo_heap_inv H1)
    as (rows & Hscan & Hget & _).
  exists rows. split; [exact Hscan|]. apply (Hget _ _ H4 H5). exact Hb.
Defined.
Section TupleExtras.
Import TupleBuilder.

(** What one accepted call does to the builder. *)
Lemma apply_op_shape tb op tb1 :
  apply_op tb op = (kOk, tb1) ->
  op_index op < Schema.ColumnCount (s_ tb) /\
  s_ tb1 = s_ tb /\ length (row_ tb1) = length (row_ tb) /\
  var_ tb1 = var_ tb ++ payload [op] /\
  set_ tb1 = <[Z.to_nat (op_index op) := true]> (set_ tb).
Proof.
  intros Ha. destruct op as [i v|i]; cbn [apply_op op_index payload] in *.
  - destruct v as [z|z|z|z|z|bs|bs]; cbn [set_value] in Ha;
      unfold SetInt32, SetInt64, SetFloat, SetDouble, SetDate, set_fixed,
        SetChar, SetVarChar in Ha;
      (destruct (Schema.ColumnCount (s_ tb) <=? i) eqn:E1; [done|]);
      apply Z.leb_gt in E1;
      (destruct (negb (bool_decide _)); [done|]);
      try (destruct (c_len _ <? _); [done|]);
      injection Ha as <-; cbn [mark_set s_ row_ var_ set_];
      unfold WriteFixed, WriteVarMeta; rewrite ?length_store16, ?length_store, ?app_nil_r;
      done.
  - unfold SetNull in Ha.
    destruct (Schema.ColumnCount (s_ tb) <=? i) eqn:E1; [done|]. apply Z.leb_gt in E1.
    destruct (negb (c_nullable (Schema.GetColumn (s_ tb) i)) && Schema.UseNullBitmap (s_ tb));
      [done|].
    destruct (Schema.UseNullBitmap (s_ tb)) eqn:Eb; [|done].
    injection Ha as <-. cbn [mark_set s_ row_ var_ set_].
    unfold SetNullBit. rewrite Eb. cbn [negb]. rewrite length_store, app_nil_r. done.
Qed.

Lemma touched_cons op ops i :
  touched (op :: ops) i = bool_decide (op_index op = i) || touched ops i.
Proof. done. Qed.

Lemma payload_cons op ops : payload (op :: ops) = payload [op] ++ payload ops.
Proof.
  destruct op as [i v|i]; [|done]. destruct v; try done. cbn. by rewrite app_nil_r.
Qed.

Lemma run_ops_shape ops : forall tb tb',
  run_ops tb ops = (kOk, tb') -> Forall (fun op => 0 <= op_index op) ops ->
  Z.of_nat (length (set_ tb)) = Schema.ColumnCount (s_ tb) ->
  s_ tb' = s_ tb /\ length (row_ tb') = length (row_ tb) /\
  var_ tb' = var_ tb ++ payload ops /\
  length (set_ tb') = length (set_ tb) /\
  (forall op, op ∈ ops -> op_index op < Schema.ColumnCount (s_ tb)) /\
  forall k : nat, set_ tb' !! k = Some true <->
    set_ tb !! k = Some true \/
    ((k < length (set_ tb))%nat /\ touched ops (Z.of_nat k) = true).
Proof.
  induction ops as [|op ops IH]; intros tb tb' Hrun Hnn Hlen.
  - cbn in Hrun. injection Hrun as <-. rewrite app_nil_r.
    repeat (split; [done|]). split; [by intros op ?%elem_of_nil|].
    intros k. split; [by left|]. by intros [?|[_ ?]].
  - apply Forall_cons in Hnn as [Hop Hnn]. cbn [run_ops] in Hrun.
    destruct (apply_op tb op) as [st tb1] eqn:Ea.
    destruct (ok st) eqn:Est; [|by injection Hrun as -> _].
    assert (st = kOk) as -> by (by destruct st).
    destruct (apply_op_shape _ _ _ Ea) as (Hi & Hs1 & Hr1 & Hv1 & Hset1).
    destruct (IH tb1 tb' Hrun Hnn) as (Hs & Hr & Hv & Hl & Hidx & Hset).
    { by rewrite Hset1, length_insert, Hs1. }
    rewrite Hset1, length_insert in Hl, Hset. rewrite Hs1 in Hidx.
    split; [by rewrite Hs|]. split; [by rewrite Hr|].
    split; [by rewrite Hv, Hv1, (payload_cons op ops), app_assoc|].
    split; [done|]. split.
    { intros op' [->|Hin]%elem_of_cons; [done|by apply Hidx]. }
    intros k. rewrite Hset, touched_cons. split.
    + intros [Hk|[Hk Ht]].
      * destruct (decide (k = Z.to_nat (op_index op))) as [->|Hne].
        -- right. split; [lia|]. rewrite Z2Nat.id by done.
           by rewrite bool_decide_eq_true_2.
        -- left. by rewrite list_lookup_insert_ne in Hk.
      * right. split; [done|]. rewrite Ht. apply orb_true_r.
    + intros [Hk|[Hk Ht]].
      * left. destruct (decide (k = Z.to_nat (op_index op))) as [->|Hne].
        -- apply list_lookup_insert_eq. by eapply lookup_lt_Some.
        -- by rewrite list_lookup_insert_ne.
      * apply orb_true_iff in Ht as [Ht|Ht]; [|by right].
        apply bool_decide_eq_true in Ht. left. rewrite Ht, Nat2Z.id.
        by apply list_lookup_insert_eq.
Qed.

Lemma first_unset_Some l : forall i (k : nat),
  l !! k = Some false -> exists j, first_unset l i = Some j.
Proof.
  induction l as [|b l IH]; intros i k Hk; [done|]. cbn [first_unset].
  destruct b; [|eauto]. destruct k as [|k]; [done|]. by apply (IH _ k).
Qed.

(** X22: [Build] succeeds exactly when every column has been named by an
    accepted setter or [SetNull] call, and fails with InvalidArgument
    otherwise.  The tuple it returns is the fixed area followed by the
    values of all accepted [SetVarChar] calls in call order, so that its
    size is [FixedAreaSize] plus the total length of these values: the
    value of a VARCHAR column that is set again stays in the tuple. *)
Theorem X22_build_needs_every_column s ops tb :
  0 <= Schema.FixedAreaSize s -> Forall (fun op => 0 <= op_index op) ops ->
  run_ops (make s) ops = (kOk, tb) ->
  ((forall i, 0 <= i < Schema.ColumnCount s -> touched ops i = true) ->
     Build tb = (kOk, row_ tb ++ payload ops) /\
     Tuple.Size (row_ tb ++ payload ops)
       = Schema.FixedAreaSize s + Z.of_nat (length (payload ops))) /\
  ((exists i, 0 <= i < Schema.ColumnCount s /\ touched ops i = false) ->
     Build tb = (kInvalidArgument, [])).
Proof.
  intros Hfas Hnn Hrun.
  destruct (run_ops_shape ops (make s) tb Hrun Hnn) as (Hs & Hr & Hv & Hl & _ & Hset).
  { cbn. rewrite length_replicate. done. }
  cbn [make s_ row_ var_ set_] in Hs, Hr, Hv, Hl, Hset.
  rewrite ?length_replicate in Hr. rewrite ?length_replicate in Hl.
  assert (Hset' : forall k : nat, set_ tb !! k = Some true <->
            (k < length (Schema.columns_ s))%nat /\ touched ops (Z.of_nat k) = true).
  { intros k. rewrite Hset, length_replicate. split; [|by right].
    intros [Hk|?]; [|done]. by apply lookup_replicate in Hk as [[=] _]. }
  clear Hset. cbn [app] in Hv. split.
  - intros Hall. unfold Build. rewrite first_unset_None.
    + rewrite Hv. split; [done|]. unfold Tuple.Size. rewrite length_app, Hr. lia.
    + intros k b Hk. pose proof (lookup_lt_Some _ _ _ Hk) as Hlt. rewrite Hl in Hlt.
      destruct b; [done|]. exfalso.
      assert (set_ tb !! k = Some true) as Hk'; [|congruence].
      apply Hset'. split; [done|]. apply Hall. unfold Schema.ColumnCount. lia.
  - intros (i & Hi & Ht). unfold Build.
    assert (set_ tb !! Z.to_nat i = Some false) as Hk.
    { unfold Schema.ColumnCount in Hi.
      destruct (lookup_lt_is_Some_2 (set_ tb) (Z.to_nat i) ltac:(lia)) as [b Hb].
      destruct b; [|done]. apply Hset' in Hb as [_ Hb].
      rewrite Z2Nat.id in Hb by lia. congruence. }
    by destruct (first_unset_Some _ 0 _ Hk) as [j ->].
Qed.

Lemma X22_build_needs_every_column_witness :
  exists tb, run_ops (make demo_schema) demo_builder_ops = (kOk, tb) /\
    Tuple.Size (row_ tb ++ payload demo_builder_ops)
      = Schema.FixedAreaSize demo_schema + 4.
Proof.
  eexists. split; [vm_compute; reflexivity|].
  refine (proj2 (proj1 (X22_build_needs_every_column demo_schema demo_builder_ops _
                          _ _ _) _)).
  - by vm_compute.
  - repeat constructor; by vm_compute.
  - vm_compute. reflexivity.
  - intros i Hi. change (Schema.ColumnCount demo_schema) with 4 in Hi.
    assert (i = 0 \/ i = 1 \/ i = 2 \/ i = 3) as [->|[->|[->| ->]]] by lia; reflexivity.
Defined.

Lemma nulled_cons op ops i :
  nulled (op :: ops) i
  = match op with OpNull j => bool_decide (j = i) | OpSet _ _ => false end || nulled ops i.
Proof. done. Qed.

Lemma testbit_byte z n :
  0 <= n < 8 -> Z.testbit (Z_of_byte (byte_of_Z z)) n = Z.testbit z n.
Proof.
  intros Hn. rewrite Z_of_byte_of_Z. change 256 with (2 ^ 8).
  apply Z.mod_pow2_bits_low. lia.
Qed.

(** One accepted call sets the null bit of its column, if it is [SetNull],
    and changes no other null bit. *)
Lemma apply_op_null_bits s tb op tb1 :
  cells_ok s -> s_ tb = s -> Schema.UseNullBitmap s = true ->
  Z.of_nat (length (row_ tb)) = Schema.FixedAreaSize s ->
  0 <= op_index op -> apply_op tb op = (kOk, tb1) ->
  forall i, 0 <= i -> i / 8 < Schema.NullBitmapSize s ->
    GetNullBit tb1 i = GetNullBit tb i || nulled [op] i.
Proof.
  intros [Hnb Hcells] Hs Hb Hrow Hidx Ha i Hi Hib.
  destruct (apply_op_shape _ _ _ Ha) as (Hlt & Hs1 & _). rewrite Hs in Hlt.
  unfold GetNullBit. rewrite Hs1, Hs, Hb. cbn [negb].
  destruct op as [j v|j]; cbn [apply_op op_index nulled existsb] in *.
  - rewrite orb_false_r.
    destruct (Hcells j ltac:(lia)) as (_ & Hlo & _).
    assert (Hrow1 : forall x, 0 <= x < Schema.NullBitmapSize s ->
              load8 (row_ tb1) x = load8 (row_ tb) x).
    { intros x Hx.
      destruct v as [z|z|z|z|z|bs|bs]; cbn [set_value] in Ha;
        unfold SetInt32, SetInt64, SetFloat, SetDouble, SetDate, set_fixed,
          SetChar, SetVarChar in Ha; rewrite Hs in Ha;
        (destruct (Schema.ColumnCount s <=? j); [done|]);
        (destruct (negb (bool_decide _)); [done|]);
        try (destruct (c_len _ <? _); [done|]);
        injection Ha as <-; cbn [mark_set row_];
        unfold WriteFixed, WriteVarMeta; rewrite ?Hs;
        rewrite ?load8_store16_other by lia;
        try (rewrite load8_store_out by lia); done. }
    by rewrite Hrow1 by (split; [apply Z.div_pos; lia|done]).
  - unfold SetNull in Ha. rewrite Hs, Hb in Ha.
    destruct (Schema.ColumnCount s <=? j); [done|].
    destruct (negb (c_nullable (Schema.GetColumn s j)) && true); [done|].
    injection Ha as <-. cbn [mark_set row_]. unfold SetNullBit. rewrite Hs, Hb. cbn [negb].
    assert (Hjb : 0 <= j / 8) by (apply Z.div_pos; lia).
    assert (Hib0 : 0 <= i / 8) by (apply Z.div_pos; lia).
    destruct (decide (i / 8 = j / 8)) as [Heq|Hne].
    + rewrite Heq. rewrite load8_store_in; cbn [length]; [|lia| |lia].
      2:{ rewrite <- Heq. lia. }
      replace (Z.to_nat (j / 8 - j / 8)) with O by lia. cbn [nth].
      rewrite testbit_byte by (apply Z.mod_pos_bound; lia).
      rewrite Z.lor_spec. f_equal. unfold u8. change 256 with (2 ^ 8).
      rewrite Z.mod_pow2_bits_low by (pose proof (Z.mod_pos_bound i 8); lia).
      rewrite Z.shiftl_1_l, Z.pow2_bits_eqb by (apply Z.mod_pos_bound; lia).
      rewrite orb_false_r.
      destruct (decide (j = i)) as [->|Hji].
      * rewrite bool_decide_eq_true_2 by done. apply Z.eqb_refl.
      * rewrite bool_decide_eq_false_2 by done. apply Z.eqb_neq.
        intros Hm. apply Hji.
        rewrite (Z.div_mod i 8), (Z.div_mod j 8) by lia. lia.
    + rewrite load8_store_out; cbn [length]; [|lia|lia].
      rewrite bool_decide_eq_false_2; [by rewrite !orb_false_r|].
      intros ->. done.
Qed.

Lemma run_ops_null_bits s ops : forall tb tb',
  cells_ok s -> s_ tb = s -> Schema.UseNullBitmap s = true ->
  Z.of_nat (length (row_ tb)) = Schema.FixedAreaSize s ->
  Forall (fun op => 0 <= op_index op) ops -> run_ops tb ops = (kOk, tb') ->
  forall i, 0 <= i -> i / 8 < Schema.NullBitmapSize s ->
    GetNullBit tb' i = GetNullBit tb i || nulled ops i.
Proof.
  induction ops as [|op ops IH]; intros tb tb' Hc Hs Hb Hrow Hnn Hrun i Hi Hib.
  - cbn in Hrun. injection Hrun as <-. cbn. by rewrite orb_false_r.
  - apply Forall_cons in Hnn as [Hop Hnn]. cbn [run_ops] in Hrun.
    destruct (apply_op tb op) as [st tb1] eqn:Ea.
    destruct (ok st) eqn:Est; [|by injection Hrun as -> _].
    assert (st = kOk) as -> by (by destruct st).
    destruct (apply_op_shape _ _ _ Ea) as (_ & Hs1 & Hr1 & _).
    rewrite (IH tb1 tb' Hc) by (done || congruence).
    rewrite (apply_op_null_bits s tb op tb1) by done.
    rewrite nulled_cons. cbn [nulled existsb]. rewrite orb_false_r. by rewrite orb_assoc.
Qed.

(** X23: a null bit, once set, is never cleared.  With a null bitmap, after
    any accepted sequence of setter and [SetNull] calls on a new builder,
    the null bit of a column is set exactly when [SetNull] has been called
    for it, also when a value was set for it afterwards; [IsNull] on the
    tuple made of the builder's bytes returns that bit, and the getter of a
    column whose bit is set returns NotFound. *)
Theorem X23_null_bit_is_never_cleared s ops tb :
  schema_ok s -> Schema.FixedAreaSize s < 2 ^ 32 -> Schema.UseNullBitmap s = true ->
  Forall (fun op => 0 <= op_index op) ops ->
  run_ops (make s) ops = (kOk, tb) ->
  forall i, 0 <= i < Schema.ColumnCount s ->
    GetNullBit tb i = nulled ops i /\
    Tuple.IsNull (row_ tb ++ var_ tb) s i = nulled ops i /\
    (nulled ops i = true -> fst (get_value (row_ tb ++ var_ tb) s i) = kNotFound).
Proof.
  intros Hok Hfas Hb Hnn Hrun i Hi.
  pose proof (schema_cells_ok s Hok Hfas) as Hc.
  pose proof (null_bitmap_covers s i Hok Hb Hi) as Hcov.
  pose proof (make_inv s Hc) as [_ Hrow0 _ Hnull0 _].
  destruct (run_ops_shape ops (make s) tb Hrun Hnn) as (Hs & Hr & _).
  { cbn. by rewrite length_replicate. }
  assert (Hbit : GetNullBit tb i = nulled ops i).
  { rewrite (run_ops_null_bits s ops (make s) tb) by (done || lia).
    unfold GetNullBit at 1. cbn [make s_ row_]. rewrite Hb. cbn [negb].
    change (replicate _ x00) with (row_ (make s)). rewrite Hnull0 by lia.
    change (Z_of_byte x00) with 0. by rewrite Z.testbit_0_l. }
  assert (Hisnull : Tuple.IsNull (row_ tb ++ var_ tb) s i = nulled ops i).
  { rewrite <- Hbit. unfold Tuple.IsNull, GetNullBit. rewrite Hs. cbn [make s_].
    rewrite Hb. cbn [negb]. destruct Hc as [Hnb _].
    assert (Z.of_nat (length (row_ tb)) = Schema.FixedAreaSize s) as Hrow
      by (by rewrite Hr).
    assert ((Schema.NullBitmapSize s =? 0) = false) as -> by (apply Z.eqb_neq; lia).
    assert ((Tuple.Size (row_ tb ++ var_ tb) <? Schema.NullBitmapSize s) = false) as ->.
    { apply Z.ltb_ge. unfold Tuple.Size. rewrite length_app. lia. }
    cbn [orb]. by rewrite load8_app_l by lia. }
  split; [done|]. split; [done|]. intros Hn. rewrite Hn in Hisnull.
  unfold get_value.
  destruct (c_type (Schema.GetColumn s i));
    unfold Tuple.GetInt32, Tuple.GetInt64, Tuple.GetFloat, Tuple.GetDouble,
      Tuple.GetDate, Tuple.get_fixed, Tuple.GetChar, Tuple.GetVarChar;
    by rewrite Hisnull.
Qed.

Lemma X23_null_bit_is_never_cleared_witness :
  exists tb, run_ops (make demo_schema) demo_builder_ops = (kOk, tb) /\
    Tuple.IsNull (row_ tb ++ var_ tb) demo_schema 3 = true /\
    Tuple.IsNull (row_ tb ++ var_ tb) demo_schema 2 = false.
Proof.
  assert (H1 : schema_ok demo_schema).
  { split; [by eexists _, _|]. repeat constructor; simpl; lia. }
  assert (H2 : Forall (fun op => 0 <= op_index op) demo_builder_ops)
    by (repeat constructor; by vm_compute).
  eexists. split; [vm_compute; reflexivity|].
  split.
  - refine (proj1 (proj2 (X23_null_bit_is_never_cleared demo_schema demo_builder_ops _
                            H1 _ _ H2 _ 3 _))).
    + by vm_compute.
    + reflexivity.
    + vm_compute. reflexivity.
    + by vm_compute.
  - refine (proj1 (proj2 (X23_null_bit_is_never_cleared demo_schema demo_builder_ops _
                            H1 _ _ H2 _ 2 _))).
    + by vm_compute.
    + reflexivity.
    + vm_compute. reflexivity.
    + by vm_compute.
Defined.

End TupleExtras.
Section SegmentExtras.
Import SegmentManager.

Lemma AllocatePage_after_free sm seg sg pid :
  segs_ sm !! seg = Some sg -> AllocatePage (FreePage sm seg pid) seg = (pid, sm).
Proof.
  intros Hseg. unfold FreePage. rewrite Hseg.
  unfold AllocatePage, EnsureSegment, set_segment. cbn [segs_ page_size_].
  rewrite lookup_insert_eq. cbn [snd segs_]. rewrite lookup_insert_eq.
  cbn [free_list disk]. rewrite reverse_snoc, reverse_involutive.
  cbn [page_size_ segs_]. rewrite insert_insert_eq.
  rewrite insert_id by (by destruct sg). by destruct sm.
Qed.

(** X26: the free pages of a segment form a stack that is not checked.
    In an existing segment, [AllocatePage] right after [FreePage] returns
    the page just freed and restores the state, so a page freed twice is
    handed out twice.  With no free page and a file of [N] pages whose
    system calls succeed, [AllocatePage] returns [N] and appends one page
    of zeros to the file, leaving the other pages as they were; [PageCount]
    is then [N+1]. *)
Theorem X26_segment_page_allocation sm seg sg :
  segs_ sm !! seg = Some sg ->
  (forall pid, AllocatePage (FreePage sm seg pid) seg = (pid, sm)) /\
  (forall pid,
     AllocatePage (FreePage (FreePage sm seg pid) seg pid) seg
       = (pid, FreePage sm seg pid) /\
     fst (AllocatePage (FreePage sm seg pid) seg) = pid) /\
  (forall psz N,
     free_list sg = [] -> disk_ok psz (disk sg) N -> 0 < psz -> N < kInvalidPageId ->
     exists d',
       AllocatePage sm seg = (N, set_segment sm seg (mkSegment d' [])) /\
       disk_ok psz d' (N + 1) /\
       PageCount (set_segment sm seg (mkSegment d' [])) seg = N + 1 /\
       disk_page psz d' N = replicate (Z.to_nat psz) x00 /\
       forall q, 0 <= q < N -> disk_page psz d' q = disk_page psz (disk sg) q).
Proof.
  intros Hseg. split; [|split].
  - intros pid. by apply (AllocatePage_after_free sm seg sg).
  - intros pid. split.
    + apply (AllocatePage_after_free (FreePage sm seg pid) seg
               (mkSegment (disk sg) (free_list sg ++ [pid]))).
      unfold FreePage. rewrite Hseg. unfold set_segment. cbn [segs_].
      apply lookup_insert_eq.
    + by rewrite (AllocatePage_after_free sm seg sg).
  - intros psz N Hfl Hd Hpsz HN. pose proof (dk_pages _ _ _ Hd) as HN0.
    destruct (Resize_grow psz (disk sg) N (N + 1) Hd Hpsz ltac:(lia))
      as (d' & Hr & Hd' & Hold & Hzero).
    exists d'. split; [|split; [done|split; [|split; [|done]]]].
    + unfold AllocatePage, EnsureSegment. rewrite Hseg. cbn [snd]. rewrite Hseg, Hfl.
      change (reverse (@nil Z)) with (@nil Z). cbv iota beta.
      rewrite (PageCount_ok psz _ N Hd Hpsz). unfold DiskManager.ResizeToPages.
      rewrite (dk_page_size _ _ _ Hd), Hr. change (ok kOk) with true. cbv iota.
      f_equal. unfold u32. apply Z.mod_small. unfold kInvalidPageId in HN. lia.
    + unfold PageCount, set_segment. cbn [segs_]. rewrite lookup_insert_eq. cbn [disk].
      by apply (PageCount_ok psz).
    + apply Hzero. lia.
Qed.

Lemma X26_segment_page_allocation_witness :
  fst (AllocatePage (FreePage demo_segments 1 0) 1) = 0 /\
  exists d', fst (AllocatePage demo_segments 1) = 2 /\ disk_ok 64 d' 3.
Proof.
  destruct (X26_segment_page_allocation demo_segments 1 (mkSegment demo_disk []))
    as (Hfree & _ & Hgrow).
  - reflexivity.
  - split; [by rewrite Hfree|].
    destruct (Hgrow 64 2) as (d' & Ha & Hd' & _).
    + reflexivity.
    + exact demo_disk_ok.
    + lia.
    + by vm_compute.
    + exists d'. split; [by rewrite Ha|done].
Defined.

End SegmentExtras.
Section LoadExtras.
Import StorageLoad.

Lemma find_byte_app c (f s : list byte) :
  c ∉ f -> find_byte c (f ++ s) = (fun k => (length f + k)%nat) <$> find_byte c s.
Proof.
  induction f as [|x f IH]; intros Hnin; cbn [app find_byte length].
  - by destruct (find_byte c s).
  - apply not_elem_of_cons in Hnin as [Hne Hnin].
    rewrite bool_decide_eq_false_2 by congruence. rewrite IH by done.
    by destruct (find_byte c s).
Qed.

Lemma join_cons2 f g rest :
  join_fields (f :: g :: rest) = f ++ bar :: join_fields (g :: rest).
Proof. done. Qed.

(** The loop on a line whose part below [len] is [pre ++ join_fields fields]. *)
Lemma split_loop_join fields : forall pre acc suffix fuel,
  fields <> [] -> Forall (fun f => bar ∉ f) fields ->
  (length (join_fields fields) < fuel)%nat ->
  split_loop fuel (pre ++ join_fields fields ++ suffix)
    (length pre + length (join_fields fields)) (length pre) acc
  = acc ++ fields.
Proof.
  induction fields as [|f rest IH]; intros pre acc suffix fuel Hne Hall Hfuel; [done|].
  apply Forall_cons in Hall as [Hf Hall].
  destruct fuel as [|fuel]; [lia|]. cbn [split_loop].
  assert ((length pre <=? length pre + length (join_fields (f :: rest)))%nat = true) as ->
    by (apply Nat.leb_le; lia).
  unfold find. rewrite drop_app_length.
  destruct rest as [|g rest].
  - cbn [join_fields] in *. rewrite find_byte_app by done.
    assert (Hsub : substr (pre ++ f ++ suffix) (length pre)
                     (length pre + length f - length pre) = f).
    { unfold substr. rewrite drop_app_length.
      replace (length pre + length f - length pre)%nat with (length f) by lia.
      by rewrite take_app_length. }
    destruct (find_byte bar suffix) as [k|]; cbn [fmap option_fmap option_map].
    + assert ((length pre + length f <=? length pre + (length f + k))%nat = true) as ->
        by (apply Nat.leb_le; lia).
      by rewrite Hsub.
    + by rewrite Hsub.
  - rewrite join_cons2 in *. rewrite length_app in *. cbn [length] in *.
    rewrite <- app_assoc. rewrite find_byte_app by done.
    cbn [app find_byte]. rewrite bool_decide_eq_true_2 by done.
    cbn [fmap option_fmap option_map].
    assert ((length pre + (length f + S (length (join_fields (g :: rest))))
             <=? length pre + (length f + 0))%nat = false) as ->
      by (apply Nat.leb_gt; lia).
    assert (Hsub : substr (pre ++ f ++ bar :: join_fields (g :: rest) ++ suffix)
                     (length pre) (length pre + (length f + 0) - length pre) = f).
    { unfold substr. rewrite drop_app_length.
      replace (length pre + (length f + 0) - length pre)%nat with (length f) by lia.
      by rewrite take_app_length. }
    rewrite Hsub.
    pose proof (IH (pre ++ f ++ [bar]) (acc ++ [f]) suffix fuel ltac:(done) Hall
                  ltac:(lia)) as HI.
    rewrite !length_app in HI. cbn [length] in HI.
    rewrite <- !app_assoc in HI. cbn [app] in HI.
    replace (length pre + (length f + 0) + 1)%nat with (length pre + (length f + 1))%nat
      by lia.
    replace (length pre + (length f + S (length (join_fields (g :: rest)))))%nat
      with (length pre + (length f + 1) + length (join_fields (g :: rest)))%nat by lia.
    by rewrite HI.
Qed.

Lemma split_loop_line fields suffix :
  fields <> [] -> Forall (fun f => bar ∉ f) fields ->
  split_loop (S (length (join_fields fields))) (join_fields fields ++ suffix)
    (length (join_fields fields)) 0 [] = fields.
Proof.
  intros Hne Hall.
  exact (split_loop_join fields [] [] suffix _ Hne Hall (Nat.lt_succ_diag_r _)).
Qed.

Lemma join_snoc_empty fields :
  fields <> [] -> join_fields (fields ++ [[]]) = join_fields fields ++ [bar].
Proof.
  induction fields as [|f rest IH]; intros Hne; [done|].
  destruct rest as [|g rest]; [done|].
  change ((f :: g :: rest) ++ [[]]) with (f :: (g :: rest) ++ [[]]).
  change ((g :: rest) ++ [[]]) with (g :: rest ++ [[]]) at 1.
  rewrite join_cons2. change (g :: rest ++ [[]]) with ((g :: rest) ++ [[]]).
  rewrite IH by done. rewrite join_cons2. by rewrite <- app_assoc.
Qed.

(** [SplitPipe] on a line with and without a final CR. *)
Lemma SplitPipe_cr body :
  SplitPipe (body ++ [cr])
  = let fields := split_loop (S (length body)) (body ++ [cr]) (length body) 0 [] in
    if (length fields =? 8)%nat && bool_decide (List.last fields [x00] = [])
    then removelast fields else fields.
Proof.
  unfold SplitPipe. rewrite length_app. cbn [length].
  replace (length body + 1 - 1)%nat with (length body) by lia.
  rewrite app_nth2 by lia. replace (length body - length body)%nat with O by lia.
  cbn [nth]. rewrite bool_decide_eq_true_2 by done.
  assert ((length body + 1 =? 0)%nat = false) as -> by (apply Nat.eqb_neq; lia).
  done.
Qed.

Lemma SplitPipe_plain body :
  nth (length body - 1) body x00 <> cr ->
  SplitPipe body
  = let fields := split_loop (S (length body)) body (length body) 0 [] in
    if (length fields =? 8)%nat && bool_decide (List.last fields [x00] = [])
    then removelast fields else fields.
Proof.
  intros Hn. unfold SplitPipe. rewrite (bool_decide_eq_false_2 _ Hn).
  by rewrite andb_false_r.
Qed.

(** X28: [SplitPipe] recovers the fields of a line.  For fields that hold
    no ['|'], the line made of them joined by ['|'] is split into exactly
    these fields when their number is not 8, with or without a final CR (a
    line without a final CR must not end in a CR of its last field).  For
    seven fields the same holds for the TPC-H form with a ['|'] after the
    last field, again with or without a final CR. *)
Theorem X28_split_pipe_recovers_fields (fields : list (list byte)) :
  fields <> [] -> Forall (fun f => bar ∉ f) fields ->
  (length fields <> 8%nat ->
     SplitPipe (join_fields fields ++ [cr]) = fields /\
     (nth (length (join_fields fields) - 1) (join_fields fields) x00 <> cr ->
      SplitPipe (join_fields fields) = fields)) /\
  (length fields = 7%nat ->
     SplitPipe (join_fields fields ++ [bar]) = fields /\
     SplitPipe (join_fields fields ++ [bar; cr]) = fields).
Proof.
  intros Hne Hall. split.
  - intros Hlen. apply Nat.eqb_neq in Hlen. split.
    + rewrite SplitPipe_cr. cbv zeta. rewrite (split_loop_line fields [cr] Hne Hall).
      by rewrite Hlen.
    + intros Hn. rewrite (SplitPipe_plain _ Hn). cbv zeta.
      pose proof (split_loop_line fields [] Hne Hall) as Hs. rewrite app_nil_r in Hs.
      rewrite Hs. by rewrite Hlen.
  - intros Hlen.
    assert (Hne' : fields ++ [[]] <> []) by (by destruct fields).
    assert (Hall' : Forall (fun f => bar ∉ f) (fields ++ [[]])).
    { apply Forall_app. split; [done|]. apply Forall_singleton. by intros ?%elem_of_nil. }
    assert (Hpost : (if (length (fields ++ [[]]) =? 8)%nat
                        && bool_decide (List.last (fields ++ [[]]) [x00] = [])
                     then removelast (fields ++ [[]]) else fields ++ [[]]) = fields).
    { rewrite length_app, Hlen. cbn [length Nat.add Nat.eqb andb].
      rewrite last_last, bool_decide_eq_true_2 by done. apply removelast_last. }
    split.
    + rewrite <- (join_snoc_empty fields Hne). rewrite SplitPipe_plain.
      * cbv zeta.
        pose proof (split_loop_line (fields ++ [[]]) [] Hne' Hall') as Hs.
        rewrite app_nil_r in Hs. by rewrite Hs.
      * rewrite (join_snoc_empty fields Hne), length_app. cbn [length].
        rewrite app_nth2 by lia.
        replace (length (join_fields fields) + 1 - 1 - length (join_fields fields))%nat
          with O by lia.
        done.
    + change (join_fields fields ++ [bar; cr])
        with (join_fields fields ++ [bar] ++ [cr]).
      rewrite app_assoc, <- (join_snoc_empty fields Hne).
      rewrite SplitPipe_cr. cbv zeta.
      by rewrite (split_loop_line (fields ++ [[]]) [cr] Hne' Hall').
Qed.

Lemma X28_split_pipe_recovers_fields_witness :
  SplitPipe (join_fields demo_line_fields ++ [bar; cr]) = demo_line_fields.
Proof.
  destruct (X28_split_pipe_recovers_fields demo_line_fields) as [_ H7].
  - discriminate.
  - repeat constructor; vm_compute; intros Hin;
      repeat (apply elem_of_cons in Hin as [Hin|Hin]; [discriminate Hin|]);
      by apply elem_of_nil in Hin.
  - by destruct (H7 eq_refl).
Defined.

End LoadExtras.
